(* ===== verification/_CoqProject ===== *)
-Q . S2P
Prelude.v
Sha256.v
Geometry.v
DtMmr.v
DtMmrRef.v
Hex.v
Text.v
Base64.v
Mmr.v
MmrBuild.v
MmrPaths.v
MmrProofs.v
MmrBinding.v
MmrNodes.v
MmrRange.v
Cll.v
Portable.v
PortableFormat.v
Engine.v
EngineLog.v
EngineState.v
EngineHistory.v
EngineWitness.v
Wire.v
WireProofs.v
NodeStore.v
NodeStoreProofs.v
Rfc9162.v
Utf8.v
Delivery.v
Json.v
JsonProofs.v
Journal.v
JournalProofs.v
Jsonl.v
JournalText.v
JsonlReplay.v
Backend.v
Memory.v
Alias.v
AliasProofs.v
AliasClaims.v
Sharing.v
JsonlProofs.v
JsonlClaims.v
Rfc3339.v
Codec.v
CodecRef.v
Checkpoint.v
CheckpointPayload.v
CheckpointRecord.v
CheckpointClaims.v
Runner.v
RunnerSpec.v
RunnerStep.v
RunnerProofs.v
RunnerRely.v
RunnerCalm.v
RunnerClaims.v
Client.v
Verify.v
VerifyClaims.v
ClientClaims.v
Deliver.v
DeliverProofs.v
DeliverCalm.v
DeliverClaims.v
Sql.v
SqlStore.v
Sqlite.v
Mysql.v
SqlRows.v
SqlLog.v
SqlCommit.v
SqlWitness.v
SqlInit.v
SqlContract.v
MysqlSession.v
SqliteClaims.v
MysqlClaims.v
