(* ===== verification/Prelude.v ===== *)
(** * cll-go: a verification development

    The repository implements a checkpointed ledger log (CLL): an append-only
    log of 32-byte identities, a Merkle mountain range (MMR) over them, signed
    checkpoints of the range, and receipts of independent witnesses for each
    checkpoint.  This library models its Go sources as executable functions and
    proves what makes them correct.

    ** The parts of the program and the files that model them

    - [src/cll/types.go], [validate.go], [errors.go]: constants, records,
      identifiers and errors.  [Cll]; the errors are the type [error] of this file.
    - [src/internal/portable/time.go]: the portable time range and its text.
      [Portable] (functions), [PortableFormat] (the text is canonical).
    - [src/mmr/tree.go]: the tree, its proofs and their verifiers.  [Mmr]
      (functions), [Geometry] (positions), [MmrBuild] (what a tree commits to),
      [MmrPaths], [MmrProofs] and [MmrRange] (proofs verify), [MmrBinding] and
      [MmrNodes] (what proofs and peaks bind).
    - [src/mmr/node_store.go]: the node file.  [NodeStore], [NodeStoreProofs].
    - [src/internal/backend/engine.go], [clone.go]: the rules all stores share.
      [Engine] (functions), [EngineLog] (the log), [EngineState] (the state and
      its transitions), [EngineHistory] (histories), [EngineWitness] (rows);
      [Alias] (what the calls of a store copy and share, over a heap),
      [AliasProofs] (copies reach new memory only), [AliasClaims]; [Sharing] (the
      arrays that states and snapshots share).
    - [src/internal/backend/wire.go]: the stored text of entries, rows and
      states.  [Wire], [WireProofs]; their JSON text is in [Journal].
    - [src/cll/types.go], interface [Backend]: [Backend], a class of operations
      with a class of laws.
    - [src/store/memory/store.go]: [Memory], an instance of the laws.
    - [src/store/jsonl/store.go]: the journal.  [Journal] (its events),
      [Jsonl] (every method over the bytes of the file and the outcome of every
      system call), [JournalProofs], [JournalText],
      [JsonlReplay], [JsonlProofs], [JsonlClaims], and its second module
      [JsonlBackend], the instance of the laws.
    - [src/store/sqlite/store.go], [src/store/mysql/store.go]: the SQL stores.
      [Sql] (tables and statements), [SqlStore] (the programs of statements both
      share), [Sqlite] and [Mysql] (transactions, opening and every method);
      [SqlRows] (running a program, and the rows of one log), [SqlLog] (which
      rows hold a log), [SqlCommit] (loading, scanning and appending),
      [SqlWitness] (committing states and rows), [SqlInit] (validation and
      provisioning), [SqlContract] (atomicity and other logs), [MysqlSession]
      (transactions among other clients of the server); [SqliteClaims] and
      [MysqlClaims], with the instances of the laws.
    - [src/checkpoint/checkpoint.go]: payloads, records, the Ed25519 signer and
      the cadence.  [Rfc3339] (timestamps), [Checkpoint] (functions),
      [CheckpointPayload], [CheckpointRecord], [CheckpointClaims].
    - [src/checkpoint/runner.go]: the runner.  [Runner] (functions),
      [RunnerSpec] (what it maintains), [RunnerStep] (a step on values),
      [RunnerProofs], [RunnerRely] (under interference),
      [RunnerCalm] (alone), [RunnerClaims] (and what is loaded).
    - [src/witness/verify.go]: receipts.  [Rfc9162] (inclusion proofs), [Verify]
      (the verifier), [VerifyClaims].
    - [src/witness/client.go]: [Client] (one submission as a function of the HTTP
      exchange), [ClientClaims]; its [boundedText] is in [Delivery].
    - [src/witness/runner.go]: [Delivery] (failed attempts and backoff), [Deliver]
      (a delivery, the goroutines of a call, the host loop), [DeliverProofs]
      (under interference, and termination), [DeliverCalm] (alone), [DeliverClaims].
    - The Go library: [Sha256] (executable), [Hex], [Base64], [Text]
      ([strconv]), [Utf8], [Json] and [JsonProofs] ([encoding/json]).

    ** How they interact

    The engine is the specification of a store: [Memory] locks it, [Jsonl]
    records each of its mutations as an event and replays them on opening, the SQL
    stores apply its rules to what they load inside a transaction, and
    [Backend] states what any store promises its clients: it represents an
    engine, and every call acts as the engine does, up to the precision of times
    and the order of rows, or fails, without a trace or with the call made, or
    shuts the store.  The runner and the witness delivery are proved against [Backend],
    for every store that keeps it.  A runner reads the log in pages, appends the
    values to its tree, commits nodes and, when the cadence says so, a signed
    checkpoint with one row for each witness; deliveries record the outcome of each
    submission in its row.  Both use compare-and-set commits and retry when they
    lose a race.

    ** How the model corresponds to the code

    Integers are [Z] with the wrap-around of their Go type written where it can
    happen ([+u], [-u], [u64]); a time is its nanoseconds since the epoch; bytes
    are lists of [byte]; a Go string is a [string] of bytes; a map is a
    [gmap].  A fallible function returns a [result]; panics of the code (an
    index out of range) are the error [ErrPanic], so that their absence is a theorem.  Error
    values keep the sentinel they wrap and lose their text, except where the
    text is stored.  A method that locks a mutex is one atomic step on the state
    the mutex guards.  The operating system is an argument: each call names the
    outcome of every system call it makes ([OpenIO], [AppendIO], [WriteOutcome]),
    and theorems hold for all of them.  A context is the error its [Err] method
    returns.  Slices and pointers are the values they point to, except in [Alias],
    where they are locations of a heap that the engine and its caller share, and in
    [Sharing], where delta commits append in place.  What others do to a store between two calls of a runner is a
    schedule of turns ([Turn]), an argument of every runner operation.  The
    goroutines of a delivery call share the store, which a delivery touches once,
    in its commit, the results channel and the counter of the wait group.  One step
    of a goroutine is one delivery, the send of its result, which does not happen
    while the buffer of the channel is full, or its [Done]; which of them steps next is a
    list of witnesses, and the caller goes on when the counter is zero
    ([Deliver.runPool], [Deliver.RunOnce]).  The mutex of the runner makes its calls
    run one after another; a call is modelled while it holds it.  An HTTP exchange is the
    outcome of making the request, sending it and reading the response
    ([Exchange]), and what surrounds a delivery is part of its turn ([Around]).

    A database is four tables, each a list of rows or missing ([Sql.Tables]); a
    statement is one step on them, and an operation of a store is a tree of
    statements and of what follows each answer ([Sql.Program]).  [Sql.Faults]
    gives for each statement, [BEGIN] and [COMMIT] among them, whether it is
    refused by the database or takes effect while its answer is lost; the outcome
    of a query covers the errors of its rows and of closing them.  A transaction
    that is not committed is as if it had not begun.
    SQLite's transactions exclude each other by the locks of the process and of
    the file, so a program runs alone on the tables ([Sql.exec]).
    In MySQL a program runs in a session ([Mysql.Session], [Mysql.run]), which has
    what is committed by now, the snapshot its first plain read takes, its own
    writes and its locks.  Before every statement, and before the commit, others
    change what is committed ([Mysql.Others]).  Plain reads are of the snapshot;
    reads [FOR UPDATE] and writes are of what is committed, and lock.  At the
    commit the writes are added to what is committed by then.  The others of the
    claims are clients that call the same methods, on any log ([Mysql.Call]); one
    of their calls that needs a lock the transaction holds is not served before it ends
    ([Mysql.serve]).  How text columns compare is a class ([Sql.Collation]): bytes for
    SQLite, any collation for MySQL, whose theorems ask for one that tells all
    texts apart ([ExactCollation]), as a binary collation does and the default of
    the server does not; [caseless_logs_collide] shows what happens without.

    Code outside the repository is a parameter with laws: the MMR functions of
    [go-datatrails-merklelog] ([DtMmr], laws [DtMmrLaws], tried on [DtMmrRef]),
    CBOR and COSE ([Codec], laws [CborLaws] and [CoseLaws], tried on
    [CodecRef]; the decoding of inclusion proofs, [CborProof], needs no law).  Ed25519 is part of COSE: the only law used is that what a key
    signs, it verifies.  Nothing assumes that SHA-256 is injective: theorems on
    what a hash binds conclude with the two colliding messages, taken from lists
    computed from the inputs.

    ** What the theorems show

    - The tree: [New] accepts exactly well-formed trees, appending extends the
      committed list, every proof produced is accepted, and an accepted proof
      is for the committed value, prefix or range, or exhibits a collision.
    - The engine: the log refines a list of identities; every outcome of a
      commit is characterised; snapshots and deltas invert and replay commits;
      witness rows are compare-and-set and returned in order; no caller changes
      what an engine holds by writing over memory they might share, and snapshots
      keep their values although delta commits write into their arrays.
    - Stored text: times, wire records, journal events and payloads read back,
      and only valid canonical text is read.
    - The journal: under any outcomes of system calls a mutation is durable, or
      leaves no trace, or closes the store over a file that recovers; opening
      never removes a complete line.
    - The SQL stores: without failures they answer as the engine; whatever
      statements fail, a call is made entirely or not at all; the logs of one
      database are independent; a log is opened exactly when it is valid, and
      provisioning keeps what is there; locks are counted by handles; a mutation
      in MySQL is one step on the log it finds at its end, although other clients
      append and commit between its statements, and no update is lost.  Both
      stores answer an invalid witness row of which no row is stored otherwise than
      the engine, and MySQL one that changes nothing, which the claims state.
    - The node file: torn tails are dropped, a crash loses at most one record,
      and a rebuilt file is the tree of its values.
    - Checkpoints: accepted records are valid and extend a prefix of the log;
      a signed statement parses back to exactly what was signed.
    - The runner: whatever others politely do, the store stays sound and moves
      forward, and catching up stops; alone, a call does one of three specified
      things and catching up indexes the whole log; a history rewritten under a
      signed checkpoint is refused.
    - Witnesses: an accepted receipt proves that the signed checkpoint is in a
      log the pinned authority signed, and an honest one is accepted; a
      submission gives only valid receipts and its failures are classified; a failed delivery
      can always be recorded, is retried when due, and backs off by bounded doubling.
    - Delivery: however its goroutines are interleaved and whatever others
      politely do, deliveries keep the store sound, no goroutine stays blocked at
      the results channel and a call ends; alone, every
      interleaving makes of the rows what a sequential description says.

    ** Bounds and fuel

    Loops over data are structural.  [Mmr.pathLoop] and the peak loops take the
    64 levels of a 64-bit position as fuel, enough by [MmrPaths]; the
    RFC 9162 path takes 62, enough by [path_length_terminates].  The JSON
    decoder takes the length of the text, enough by [JsonProofs].  The writes of
    an event take one unit for each byte, and a write that makes no progress is
    an error in Go as well.  [Runner.catchUpLoop] takes fuel and returns [None]
    without it: [catch_up_stops] shows that some fuel is always enough,
    [catch_up_finishes] gives the amount when nobody interferes.  [Deliver.RunOnce]
    takes a schedule and returns [None] if the counter of the wait group is not
    zero at its end: [deliveries_end] shows that after any schedule, every one
    with enough turns for each goroutine is enough.

    ** What is not modelled

    - The text and parsing of SQL, how drivers pool connections and pass
      [context] cancellation (a statement then fails, which [Sql.Faults] covers),
      and limits of column types beyond what Go scans into.
    - A [ROLLBACK] that fails.  In SQLite it can leave the one pooled connection
      inside the transaction, and later calls of that handle fail; the model goes on
      from the tables as they were.
    - InnoDB beyond its default level, [REPEATABLE READ], and the row locks that
      matter here: the gap locks of inserts are left out, waiting for a lock is not
      a step, and a lock wait timeout or a deadlock is a fault of a statement.
    - Errors of the reads inside [NodeStore.Nodes] and a rebuild, which are given
      success; writes and syncs fail in every way.
    - HTTP, [url.Parse] and the randomness of the backoff: their outcomes are
      arguments.
    - Sharing of memory outside the engine: what trees, records and runners copy.
    - [src/test] and [src/internal/storetest]: programs that drive the operations
      modelled here and add no rule; what they try on one store, the laws of
      [Backend] and the claims on [Alias] state for all calls.
    - Resource handling that no claim depends on: closing files, tickers,
      goroutine scheduling inside one locked call, and the text of most errors.
*)

From Stdlib Require Export ZArith Lia.
From Stdlib.Strings Require Export Byte.
From stdpp Require Export base list list_numbers strings gmap.

(** ** Byte strings *)

Abbreviation byte := Byte.byte.
Abbreviation bytes := (list Byte.byte).

#[global] Instance byte_eq_dec : EqDecision byte := Byte.byte_eq_dec.

#[global] Program Instance byte_countable : Countable byte :=
  inj_countable Byte.to_N Byte.of_N Byte.of_to_N.

Local Open Scope Z_scope.

Definition byte_of_Z (z : Z) : byte :=
  default Byte.x00 (Byte.of_N (Z.to_N (z mod 256))).

Definition Z_of_byte (b : byte) : Z := Z.of_N (Byte.to_N b).

Lemma Z_of_byte_range (b : byte) : 0 <= Z_of_byte b < 256.
Proof. unfold Z_of_byte. pose proof (Byte.to_N_bounded b). lia. Qed.

Lemma Z_of_byte_of_Z (z : Z) : 0 <= z < 256 -> Z_of_byte (byte_of_Z z) = z.
Proof.
  intros Hz. unfold byte_of_Z, Z_of_byte. rewrite Z.mod_small by done.
  destruct (Byte.of_N (Z.to_N z)) as [b|] eqn:E.
  - apply Byte.to_of_N in E. simpl. rewrite E. lia.
  - apply Byte.of_N_None_iff in E. lia.
Qed.

Lemma byte_of_Z_of_byte (b : byte) : byte_of_Z (Z_of_byte b) = b.
Proof.
  unfold byte_of_Z. rewrite Z.mod_small by apply Z_of_byte_range.
  unfold Z_of_byte. by rewrite N2Z.id, Byte.of_to_N.
Qed.

(** Big-endian encoding of [z] on [n] bytes ([binary.BigEndian.PutUint64] at
    [n = 8]) and its value. *)
Fixpoint be_bytes (n : nat) (z : Z) : bytes :=
  match n with
  | O => []
  | S n' => be_bytes n' (z / 256) ++ [byte_of_Z z]
  end.

Definition be_value (bs : bytes) : Z :=
  fold_left (fun acc b => acc * 256 + Z_of_byte b) bs 0.

Definition zlen {A} (l : list A) : Z := Z.of_nat (length l).

Lemma be_bytes_length (n : nat) (z : Z) : length (be_bytes n z) = n.
Proof. revert z; induction n as [|n IH]; intros z; simpl; [done|]. rewrite length_app, IH. simpl. lia. Qed.

Arguments be_bytes : simpl never.

Create Rewrite HintDb golen.
#[export] Hint Rewrite be_bytes_length @length_app : golen.

(** ** Results

    A Go function that returns [(T, error)] is modelled as [result T].  The six
    sentinel errors of [cll/errors.go] are constructors; [fmt.Errorf("%w: ...",
    cll.ErrX)] is [ErrX], because callers only distinguish errors by
    [errors.Is].  [ErrText] is an error without a sentinel, tagged with its
    message; [ErrPanic] is a run-time panic (an index out of range). *)

Inductive error : Set :=
| ErrNotFound
| ErrInvalid
| ErrCorrupt
| ErrClosed
| ErrContention
| ErrRejected
| ErrText (text : string)
| ErrPanic.

#[global] Instance error_eq_dec : EqDecision error.
Proof. solve_decision. Defined.

Inductive result (A : Type) : Type :=
| Ok (a : A)
| Err (e : error).
Arguments Ok {A} a.
Arguments Err {A} e.

#[global] Instance result_eq_dec {A} `{EqDecision A} : EqDecision (result A).
Proof. solve_decision. Defined.

#[global] Instance result_ret : MRet result := fun A a => Ok a.
#[global] Instance result_bind : MBind result := fun A B f r =>
  match r with Ok a => f a | Err e => Err e end.
#[global] Instance result_fmap : FMap result := fun A B f r =>
  match r with Ok a => Ok (f a) | Err e => Err e end.

Definition is_ok {A} (r : result A) : bool :=
  match r with Ok _ => true | Err _ => false end.

(** A slice access [xs[i]]: a panic when out of range. *)
Definition zget {A} (l : list A) (i : Z) : option A :=
  if (0 <=? i) && (i <? zlen l) then l !! Z.to_nat i else None.

Definition index {A} (l : list A) (i : Z) : result A :=
  match zget l i with Some a => Ok a | None => Err ErrPanic end.

(** Run a fallible function over a slice from left to right, stopping at the
    first error. *)
Fixpoint traverse {A B} (f : A -> result B) (l : list A) : result (list B) :=
  match l with
  | [] => Ok []
  | a :: l' => b ← f a; bs ← traverse f l'; Ok (b :: bs)
  end.

(** The error of a Go check that returns only [error]: [Ok tt] is [nil]. *)
Abbreviation check := (result unit).

(** ** Machine integers

    [uint64] values are integers of [Z] kept in range by reducing every
    operation that may leave it modulo [2^64], as Go does. *)

Definition two64 : Z := 18446744073709551616.
Definition two63 : Z := 9223372036854775808.

Definition u64_add (a b : Z) : Z := (a + b) mod two64.
Definition u64_sub (a b : Z) : Z := (a - b) mod two64.
Definition u64_shl (a n : Z) : Z := if n <? 64 then Z.shiftl a n mod two64 else 0.

Declare Scope u64_scope.
Delimit Scope u64_scope with u64.
Notation "a +u b" := (u64_add a b) (at level 50, left associativity) : u64_scope.
Notation "a -u b" := (u64_sub a b) (at level 50, left associativity) : u64_scope.
Notation "a <<u n" := (u64_shl a n) (at level 40, left associativity) : u64_scope.

Lemma two64_eq : two64 = 2 ^ 64. Proof. reflexivity. Qed.
Lemma two63_eq : two63 = 2 ^ 63. Proof. reflexivity. Qed.

Lemma u64_add_small (a b : Z) : 0 <= a + b < two64 -> u64_add a b = a + b.
Proof. intros. unfold u64_add. by apply Z.mod_small. Qed.

Lemma u64_sub_small (a b : Z) : 0 <= a - b < two64 -> u64_sub a b = a - b.
Proof. intros. unfold u64_sub. by apply Z.mod_small. Qed.

Lemma u64_shl_small (a n : Z) :
  0 <= a -> 0 <= n < 64 -> a * 2 ^ n < two64 -> u64_shl a n = a * 2 ^ n.
Proof.
  intros Ha Hn Hlt. unfold u64_shl. rewrite (proj2 (Z.ltb_lt _ _)) by lia.
  rewrite Z.shiftl_mul_pow2 by lia. apply Z.mod_small. split; [|done].
  apply Z.mul_nonneg_nonneg; [done|]. apply Z.pow_nonneg. lia.
Qed.

Lemma u64_shl_one (n : Z) : 0 <= n < 64 -> u64_shl 1 n = 2 ^ n.
Proof.
  intros Hn. rewrite u64_shl_small; [lia|lia|done|].
  rewrite Z.mul_1_l, two64_eq. apply Z.pow_lt_mono_r; lia.
Qed.

(** [int64]: reduced into [[-2^63, 2^63)]. *)
Definition i64 (z : Z) : Z := (z + two63) mod two64 - two63.

Lemma i64_small (z : Z) : - two63 <= z < two63 -> i64 z = z.
Proof. intros Hz. unfold i64. rewrite Z.mod_small; [lia|]. unfold two63, two64 in *. lia. Qed.

Lemma pow2_pos (n : Z) : 0 <= n -> 0 < 2 ^ n.
Proof. intros. apply Z.pow_pos_nonneg; lia. Qed.

Lemma pow2_succ (n : Z) : 0 <= n -> 2 ^ (n + 1) = 2 * 2 ^ n.
Proof. intros. rewrite Z.pow_add_r by lia. lia. Qed.

Lemma pow2_pred (n : Z) : 0 < n -> 2 ^ n = 2 * 2 ^ (n - 1).
Proof. intros. rewrite <- pow2_succ by lia. f_equal. lia. Qed.

Lemma pow2_le (m n : Z) : 0 <= m <= n -> 2 ^ m <= 2 ^ n.
Proof. intros. apply Z.pow_le_mono_r; lia. Qed.

#[global] Instance Z_divide_dec (a b : Z) : Decision (a | b).
Proof.
  destruct (decide (a = 0)) as [Ha|Ha].
  - destruct (decide (b = 0)) as [Hb|Hb]; [left|right].
    + rewrite Hb. apply Z.divide_0_r.
    + rewrite Ha. by intros H%Z.divide_0_l.
  - destruct (decide (b mod a = 0)) as [Hm|Hm]; [left|right].
    + by apply Z.mod_divide.
    + by intros Hd%Z.mod_divide.
Defined.

(** ** Lists *)

Lemma zlen_nonneg {A} (l : list A) : 0 <= zlen l.
Proof. unfold zlen. lia. Qed.

Lemma zlen_app {A} (l k : list A) : zlen (l ++ k) = zlen l + zlen k.
Proof. unfold zlen. rewrite length_app. lia. Qed.

Lemma zlen_cons {A} (a : A) (l : list A) : zlen (a :: l) = zlen l + 1.
Proof. unfold zlen. simpl. lia. Qed.

Lemma zlen_nil {A} : zlen (@nil A) = 0.
Proof. reflexivity. Qed.

#[export] Hint Rewrite @zlen_app @zlen_cons @zlen_nil : golen.

Lemma filter_none {A} (p : A -> bool) (l : list A) : (forall x, x ∈ l -> p x = false) -> List.filter p l = [].
Proof.
  induction l as [|x l IH]; intros Hp; [done|]. cbn [List.filter]. rewrite (Hp x) by left. apply IH.
  intros y Hy. apply Hp. by right.
Qed.

Lemma zget_lookup {A} (l : list A) (i : Z) : 0 <= i -> zget l i = l !! Z.to_nat i.
Proof.
  intros Hi. unfold zget. rewrite (proj2 (Z.leb_le _ _)) by done. simpl.
  destruct (Z.ltb_spec i (zlen l)) as [|Hge]; [done|].
  symmetry. apply lookup_ge_None. unfold zlen in Hge. lia.
Qed.

Lemma zget_Some_range {A} (l : list A) (i : Z) (a : A) :
  zget l i = Some a -> 0 <= i < zlen l.
Proof. unfold zget. destruct (Z.leb_spec 0 i), (Z.ltb_spec i (zlen l)); done || lia. Qed.

Lemma zget_in_range {A} (l : list A) (i : Z) :
  0 <= i < zlen l -> exists a, zget l i = Some a.
Proof.
  intros Hi. rewrite zget_lookup by lia. apply lookup_lt_is_Some. unfold zlen in Hi. lia.
Qed.

Lemma zget_app_l {A} (l k : list A) (i : Z) : i < zlen l -> zget (l ++ k) i = zget l i.
Proof.
  intros Hi. destruct (Z.leb_spec 0 i) as [Hz|Hz].
  - rewrite !zget_lookup by done. apply lookup_app_l. unfold zlen in Hi. lia.
  - unfold zget. by rewrite (proj2 (Z.leb_gt _ _)).
Qed.

Lemma zget_app_r {A} (l k : list A) (i : Z) :
  zlen l <= i -> zget (l ++ k) i = zget k (i - zlen l).
Proof.
  intros Hi. pose proof (zlen_nonneg l). rewrite !zget_lookup by lia.
  unfold zlen in *. rewrite lookup_app_r by lia. f_equal. lia.
Qed.

Lemma zget_snoc {A} (l : list A) (a : A) : zget (l ++ [a]) (zlen l) = Some a.
Proof. rewrite zget_app_r by done. by rewrite Z.sub_diag. Qed.

Lemma zget_map {A B} (f : A -> B) (l : list A) (i : Z) : zget (map f l) i = f <$> zget l i.
Proof.
  unfold zget, zlen. rewrite length_map.
  destruct ((0 <=? i) && (i <? Z.of_nat (length l))); [|done]. apply list_lookup_fmap.
Qed.

Lemma index_Ok {A} (l : list A) (i : Z) (a : A) :
  index l i = Ok a <-> zget l i = Some a.
Proof. unfold index. destruct (zget l i); naive_solver. Qed.

Lemma index_middle {A} (pre post : list A) (a : A) (i : Z) :
  i = zlen pre -> index (pre ++ a :: post) i = Ok a.
Proof. intros ->. apply index_Ok. by rewrite zget_app_r, Z.sub_diag. Qed.

Lemma traverse_Ok {A B} (f : A -> result B) (l : list A) (k : list B) :
  traverse f l = Ok k <-> Forall2 (fun a b => f a = Ok b) l k.
Proof.
  revert k; induction l as [|a l IH]; intros k; simpl.
  - split; [intros [= <-]; constructor | by inversion 1].
  - unfold mbind, result_bind. split.
    + destruct (f a) eqn:E, (traverse f l) as [bs|] eqn:El; try done.
      intros [= <-]. constructor; [done|]. by apply IH.
    + inversion 1 as [|?? ? ? E Hall]; subst. rewrite E. apply IH in Hall. by rewrite Hall.
Qed.

Lemma traverse_total {A B} (f : A -> result B) (l : list A) :
  Forall (fun a => is_ok (f a) = true) l -> exists k, traverse f l = Ok k.
Proof.
  induction 1 as [|a l Ha Hl [k IH]]; simpl; [eauto|].
  destruct (f a) as [b|]; [|done]. exists (b :: k). simpl. by rewrite IH.
Qed.

Lemma traverse_length {A B} (f : A -> result B) (l : list A) (k : list B) :
  traverse f l = Ok k -> length k = length l.
Proof. intros H%traverse_Ok. symmetry. by eapply Forall2_length. Qed.

(** Reading a successful sequence of fallible steps. *)
Lemma bind_Ok {A B} (r : result A) (k : A -> result B) (b : B) :
  r ≫= k = Ok b <-> exists a, r = Ok a /\ k a = Ok b.
Proof. destruct r as [a|err]; cbn [mbind result_bind]; naive_solver. Qed.

(** ** Tactics *)

(** Split boolean guards in the context and turn comparisons into facts. *)
Ltac gobool :=
  repeat match goal with
  | H : (_ && _)%bool = true |- _ => apply andb_true_iff in H; destruct H
  | H : (_ || _)%bool = false |- _ => apply orb_false_iff in H; destruct H
  | H : negb _ = true |- _ => apply negb_true_iff in H
  | H : negb _ = false |- _ => apply negb_false_iff in H
  | H : (_ <? _) = true |- _ => apply Z.ltb_lt in H
  | H : (_ <? _) = false |- _ => apply Z.ltb_ge in H
  | H : (_ <=? _) = true |- _ => apply Z.leb_le in H
  | H : (_ <=? _) = false |- _ => apply Z.leb_gt in H
  | H : (_ =? _) = true |- _ => apply Z.eqb_eq in H
  | H : (_ =? _) = false |- _ => apply Z.eqb_neq in H
  | H : bool_decide _ = true |- _ => apply bool_decide_eq_true in H
  | H : bool_decide _ = false |- _ => apply bool_decide_eq_false in H
  end.

(** Destruct the guard or scrutinee a hypothesis is stuck on. *)
Ltac gocase H :=
  match type of H with
  | context [if ?b then _ else _] => destruct b eqn:?; simplify_eq/=
  | context [match ?x with _ => _ end] => destruct x eqn:?; simplify_eq/=
  end.

Ltac gosteps H := repeat (gocase H; try done).
