(* ===== verification/Sha256.v ===== *)
(** * SHA-256

    An executable model of Go's [crypto/sha256] as the sources use it:
    [sha256.Sum256] of a byte string, and the streaming [sha256.New] /
    [Write] / [Sum] form, which hashes the concatenation of what was written.
    The round constants and the initial state are computed from the primes
    they are defined by instead of being transcribed. *)

From S2P Require Import Prelude.

Module Sha256.

Local Open Scope Z_scope.

(** ** 32-bit words *)

Definition mask32 : Z := 4294967295.

Definition add32 (x y : Z) : Z := Z.land (x + y) mask32.

Definition rotr (n x : Z) : Z :=
  Z.lor (Z.shiftr x n) (Z.land (Z.shiftl x (32 - n)) mask32).

Definition ch (x y z : Z) : Z :=
  Z.lxor (Z.land x y) (Z.land (Z.lxor x mask32) z).

Definition maj (x y z : Z) : Z :=
  Z.lxor (Z.lxor (Z.land x y) (Z.land x z)) (Z.land y z).

Definition bsig0 (x : Z) : Z := Z.lxor (Z.lxor (rotr 2 x) (rotr 13 x)) (rotr 22 x).
Definition bsig1 (x : Z) : Z := Z.lxor (Z.lxor (rotr 6 x) (rotr 11 x)) (rotr 25 x).
Definition ssig0 (x : Z) : Z := Z.lxor (Z.lxor (rotr 7 x) (rotr 18 x)) (Z.shiftr x 3).
Definition ssig1 (x : Z) : Z := Z.lxor (Z.lxor (rotr 17 x) (rotr 19 x)) (Z.shiftr x 10).

(** ** Constants: fractional parts of square and cube roots of primes *)

Definition primes64 : list Z :=
  [2; 3; 5; 7; 11; 13; 17; 19; 23; 29; 31; 37; 41; 43; 47; 53;
   59; 61; 67; 71; 73; 79; 83; 89; 97; 101; 103; 107; 109; 113; 127; 131;
   137; 139; 149; 151; 157; 163; 167; 173; 179; 181; 191; 193; 197; 199; 211; 223;
   227; 229; 233; 239; 241; 251; 257; 263; 269; 271; 277; 281; 283; 293; 307; 311].

(** The largest [r] below [2^(bits)] with [r^3 <= x], by setting bits from the top. *)
Fixpoint cube_root_bits (bits : nat) (acc x : Z) : Z :=
  match bits with
  | O => acc
  | S b =>
      let trial := acc + 2 ^ Z.of_nat b in
      cube_root_bits b (if trial * trial * trial <=? x then trial else acc) x
  end.

Definition round_constants : list Z :=
  Eval vm_compute in
    map (fun p => Z.land (cube_root_bits 40 0 (p * 2 ^ 96)) mask32) primes64.

Record hash_state := HashState {
  ha : Z; hb : Z; hc : Z; hd : Z; he : Z; hf : Z; hg : Z; hh : Z
}.

Definition initial_state : hash_state :=
  Eval vm_compute in
    let w p := Z.land (Z.sqrt (p * 2 ^ 64)) mask32 in
    HashState (w 2) (w 3) (w 5) (w 7) (w 11) (w 13) (w 17) (w 19).

(** ** Compression *)

Definition round (s : hash_state) (k w : Z) : hash_state :=
  let t1 := add32 (add32 (add32 (hh s) (bsig1 (he s))) (ch (he s) (hf s) (hg s))) (add32 k w) in
  let t2 := add32 (bsig0 (ha s)) (maj (ha s) (hb s) (hc s)) in
  HashState (add32 t1 t2) (ha s) (hb s) (hc s) (add32 (hd s) t1) (he s) (hf s) (hg s).

(** The message schedule is a sliding window of sixteen words: each round
    consumes the head and appends the next scheduled word. *)
Definition next_word (window : list Z) : Z :=
  add32 (add32 (ssig1 (nth 14 window 0)) (nth 9 window 0))
        (add32 (ssig0 (nth 1 window 0)) (nth 0 window 0)).

Fixpoint rounds (ks window : list Z) (s : hash_state) : hash_state :=
  match ks with
  | [] => s
  | k :: ks' =>
      rounds ks' (drop 1 window ++ [next_word window]) (round s k (nth 0 window 0))
  end.

Definition add_state (s t : hash_state) : hash_state :=
  HashState (add32 (ha s) (ha t)) (add32 (hb s) (hb t)) (add32 (hc s) (hc t))
            (add32 (hd s) (hd t)) (add32 (he s) (he t)) (add32 (hf s) (hf t))
            (add32 (hg s) (hg t)) (add32 (hh s) (hh t)).

Fixpoint words_of (n : nat) (block : bytes) : list Z :=
  match n with
  | O => []
  | S n' => be_value (take 4 block) :: words_of n' (drop 4 block)
  end.

Fixpoint compress_blocks (n : nat) (msg : bytes) (s : hash_state) : hash_state :=
  match n with
  | O => s
  | S n' =>
      compress_blocks n' (drop 64 msg)
        (add_state s (rounds round_constants (words_of 16 (take 64 msg)) s))
  end.

Definition padding (len : Z) : bytes :=
  Byte.x80 :: replicate (Z.to_nat ((55 - len) mod 64)) Byte.x00 ++ be_bytes 8 (8 * len).

Definition digest_bytes (s : hash_state) : bytes :=
  be_bytes 4 (ha s) ++ be_bytes 4 (hb s) ++ be_bytes 4 (hc s) ++ be_bytes 4 (hd s) ++
  be_bytes 4 (he s) ++ be_bytes 4 (hf s) ++ be_bytes 4 (hg s) ++ be_bytes 4 (hh s).

Definition sum256 (msg : bytes) : bytes :=
  let padded := msg ++ padding (zlen msg) in
  digest_bytes (compress_blocks (length padded / 64) padded initial_state).

Lemma sum256_length (msg : bytes) : length (sum256 msg) = 32%nat.
Proof. unfold sum256, digest_bytes. by rewrite !length_app, !be_bytes_length. Qed.

End Sha256.

Abbreviation sha256 := Sha256.sum256.

#[export] Hint Rewrite Sha256.sum256_length : golen.
#[global] Opaque Sha256.sum256.
