(* ===== verification/Geometry.v ===== *)
(** * Geometry of a Merkle mountain range

    The layout the [mmr] package relies on, independent of any hash: node
    counts, node positions, mountains and their peaks.  Nodes are stored in
    post-order, so the node of height [h] that covers the leaves
    [[ls, ls + 2^h)] sits at [node_pos ls h]. *)

From S2P Require Import Prelude.

Module Geometry.

Local Open Scope Z_scope.

(** ** Sizes

    [mmr_size n] is the number of nodes over [n] leaves: one node of height
    [h] for every complete group of [2^h] leaves, so the sum of [n / 2^h]. *)
Fixpoint pos_size (p : positive) : Z :=
  match p with
  | xH => 1
  | xO q => Zpos p + pos_size q
  | xI q => Zpos p + pos_size q
  end.

Definition mmr_size (n : Z) : Z :=
  match n with Zpos p => pos_size p | _ => 0 end.

(** The node of height [h] over the leaves starting at [ls]. *)
Definition node_pos (ls h : Z) : Z := mmr_size ls + 2 ^ (h + 1) - 2.

(** [ls] can be the first leaf of a node of height [h]. *)
Definition aligned (h ls : Z) : Prop := 0 <= h /\ 0 <= ls /\ (2 ^ h | ls).

(** The mountains of [r < 2^k] leaves that start at leaf [ls], tallest first,
    as pairs of first leaf and height. *)
Fixpoint mountains_from (k : nat) (ls r : Z) : list (Z * Z) :=
  match k with
  | O => []
  | S k' =>
      let w := if 2 ^ Z.of_nat k' <=? r then 2 ^ Z.of_nat k' else 0 in
      (if 0 <? w then [(ls, Z.of_nat k')] else []) ++ mountains_from k' (ls + w) (r - w)
  end.

(** At most [2^62] leaves: 63 candidate heights. *)
Definition mountains (n : Z) : list (Z * Z) := mountains_from 63 0 n.

Definition peak_positions (n : Z) : list Z :=
  map (fun m => node_pos (fst m) (snd m)) (mountains n).

Definition max_leaves : Z := 2 ^ 62.

(** ** Arithmetic of [mmr_size] *)

Lemma mmr_size_double (q : Z) : 0 <= q -> mmr_size (2 * q) = 2 * q + mmr_size q.
Proof. destruct q as [|p|p]; intros; [done|reflexivity|lia]. Qed.

Lemma mmr_size_succ_double (q : Z) : 0 <= q -> mmr_size (2 * q + 1) = 2 * q + 1 + mmr_size q.
Proof. destruct q as [|p|p]; intros; [done|reflexivity|lia]. Qed.

Lemma half_ind (P : Z -> Prop) :
  P 0 -> (forall q, 0 < q -> P q -> P (2 * q)) -> (forall q, 0 <= q -> P q -> P (2 * q + 1)) ->
  forall n, 0 <= n -> P n.
Proof.
  intros H0 He Ho n. destruct n as [|p|p]; intros Hn; [done| |lia].
  induction p as [p IH|p IH|].
  - apply (Ho (Zpos p)); [lia|]. apply IH; lia.
  - apply (He (Zpos p)); [lia|]. apply IH; lia.
  - apply (Ho 0); [lia|done].
Qed.

Lemma half_cases (n : Z) : 0 <= n -> exists q b, 0 <= q /\ (b = 0 \/ b = 1) /\ n = 2 * q + b.
Proof.
  intros Hn. exists (n / 2), (n mod 2).
  pose proof (Z.mod_pos_bound n 2 ltac:(lia)). pose proof (Z.div_mod n 2 ltac:(lia)).
  split; [|lia]. apply Z.div_pos; lia.
Qed.

Lemma mmr_size_half (q b : Z) :
  0 <= q -> b = 0 \/ b = 1 -> mmr_size (2 * q + b) = 2 * q + b + mmr_size q.
Proof.
  intros Hq [->| ->]; [rewrite !Z.add_0_r; by apply mmr_size_double|by apply mmr_size_succ_double].
Qed.

Lemma mmr_size_ge (n : Z) : 0 <= n -> n <= mmr_size n.
Proof.
  intros Hn. revert n Hn. apply half_ind; [done| |]; intros q Hq IH.
  - rewrite mmr_size_double by lia. lia.
  - rewrite mmr_size_succ_double by lia. lia.
Qed.

Lemma mmr_size_lt_double (n : Z) : 0 < n -> mmr_size n < 2 * n.
Proof.
  intros Hn. destruct n as [|p|p]; try lia.
  induction p as [p IH|p IH|]; simpl in *; lia.
Qed.

Lemma mmr_size_step (n : Z) : 0 <= n -> mmr_size n < mmr_size (n + 1).
Proof.
  intros Hn. revert n Hn. apply half_ind; [done| |]; intros q Hq IH.
  - rewrite mmr_size_succ_double, mmr_size_double by lia. lia.
  - replace (2 * q + 1 + 1) with (2 * (q + 1)) by lia.
    rewrite mmr_size_double, mmr_size_succ_double by lia. lia.
Qed.

Lemma mmr_size_mono (m n : Z) : 0 <= m <= n -> mmr_size m <= mmr_size n.
Proof.
  intros [Hm Hmn]. replace n with (m + (n - m)) by lia.
  assert (0 <= n - m) as Hd by lia. revert Hd. generalize (n - m) as d. clear n Hmn.
  apply natlike_ind; [rewrite Z.add_0_r; lia|]. intros d Hd IH.
  pose proof (mmr_size_step (m + d)). replace (m + Z.succ d) with (m + d + 1) by lia. lia.
Qed.

Lemma mmr_size_strict (m n : Z) : 0 <= m < n -> mmr_size m < mmr_size n.
Proof.
  intros H. pose proof (mmr_size_step m). pose proof (mmr_size_mono (m + 1) n). lia.
Qed.

Lemma mmr_size_inj (m n : Z) : 0 <= m -> 0 <= n -> mmr_size m = mmr_size n -> m = n.
Proof.
  intros Hm Hn Heq. destruct (Z.lt_trichotomy m n) as [H|[H|H]]; [|done|].
  - pose proof (mmr_size_strict m n). lia.
  - pose proof (mmr_size_strict n m). lia.
Qed.

Lemma mmr_size_lt_inv (m n : Z) : 0 <= m -> 0 <= n -> mmr_size m < mmr_size n -> m < n.
Proof. intros. destruct (Z.lt_ge_cases m n); [done|]. pose proof (mmr_size_mono n m). lia. Qed.

Lemma mmr_size_le_inv (m n : Z) : 0 <= m -> 0 <= n -> mmr_size m <= mmr_size n -> m <= n.
Proof. intros. destruct (Z.le_gt_cases m n); [done|]. pose proof (mmr_size_strict n m). lia. Qed.

(** Leaves below an aligned start do not interact with it. *)
Lemma mmr_size_aligned_add (h a r : Z) :
  0 <= h -> 0 <= a -> 0 <= r < 2 ^ h ->
  mmr_size (2 ^ h * a + r) = mmr_size (2 ^ h * a) + mmr_size r.
Proof.
  intros Hh Ha. revert r. pattern h. apply natlike_ind; [| |done].
  - intros r Hr. change (2 ^ 0) with 1 in *. replace r with 0 by lia.
    rewrite Z.add_0_r. change (mmr_size 0) with 0. lia.
  - clear h Hh. intros h Hh IH r Hr. rewrite Z.pow_succ_r in * by done.
    destruct (half_cases r) as (q & b & Hq & Hb & ->); [lia|].
    replace (2 * 2 ^ h * a + (2 * q + b)) with (2 * (2 ^ h * a + q) + b) by lia.
    replace (2 * 2 ^ h * a) with (2 * (2 ^ h * a)) by lia.
    pose proof (pow2_pos h Hh).
    rewrite !mmr_size_half, mmr_size_double by (done || nia).
    rewrite IH by lia. lia.
Qed.

Lemma mmr_size_pow2 (h : Z) : 0 <= h -> mmr_size (2 ^ h) = 2 ^ (h + 1) - 1.
Proof.
  revert h. apply natlike_ind; [done|]. intros h Hh IH.
  pose proof (pow2_pos h Hh).
  rewrite Z.pow_succ_r, mmr_size_double, IH by lia.
  replace (Z.succ h + 1) with (h + 1 + 1) by lia. rewrite !pow2_succ by lia. lia.
Qed.

Lemma mmr_size_ones (h : Z) : 0 <= h -> mmr_size (2 ^ h - 1) = 2 ^ (h + 1) - 2 - h.
Proof.
  revert h. apply natlike_ind; [done|]. intros h Hh IH.
  pose proof (pow2_pos h Hh).
  replace (2 ^ Z.succ h - 1) with (2 * (2 ^ h - 1) + 1) by (rewrite Z.pow_succ_r; lia).
  rewrite mmr_size_succ_double, IH by lia.
  replace (Z.succ h + 1) with (h + 1 + 1) by lia. rewrite !pow2_succ by lia. lia.
Qed.

Lemma mmr_size_max : mmr_size max_leaves = two63 - 1.
Proof. reflexivity. Qed.

Lemma mmr_size_bound (n : Z) : 0 <= n <= max_leaves -> mmr_size n <= two63 - 1.
Proof. intros. rewrite <- mmr_size_max. apply mmr_size_mono. lia. Qed.

(** ** Positions *)

Lemma aligned_mult (h ls : Z) : aligned h ls -> exists a, 0 <= a /\ ls = 2 ^ h * a.
Proof.
  intros (Hh & Hls & [a ->]). exists a. split; [|lia]. pose proof (pow2_pos h Hh). nia.
Qed.

Lemma aligned_zero (ls : Z) : 0 <= ls -> aligned 0 ls.
Proof. intros. split; [lia|split; [done|]]. apply Z.divide_1_l. Qed.

Lemma aligned_start (h : Z) : 0 <= h -> aligned h 0.
Proof. intros. split; [done|split; [lia|]]. apply Z.divide_0_r. Qed.

Lemma aligned_le (g h ls : Z) : 0 <= g <= h -> aligned h ls -> aligned g ls.
Proof.
  intros Hg (Hh & Hls & Hd). split; [lia|split; [done|]].
  eapply Z.divide_trans; [|done]. exists (2 ^ (h - g)).
  rewrite <- Z.pow_add_r by lia. f_equal. lia.
Qed.

Lemma aligned_add (h ls : Z) : aligned h ls -> aligned h (ls + 2 ^ h).
Proof.
  intros (Hh & Hls & Hd). pose proof (pow2_pos h Hh).
  split; [done|split; [lia|]]. apply Z.divide_add_r; [done|apply Z.divide_refl].
Qed.

(** Splitting an aligned start by a smaller block. *)
Lemma mmr_size_add (h ls r : Z) :
  aligned h ls -> 0 <= r < 2 ^ h -> mmr_size (ls + r) = mmr_size ls + mmr_size r.
Proof.
  intros Hal Hr. pose proof Hal as (Hh & _ & _).
  destruct (aligned_mult h ls Hal) as (a & Ha & ->). by apply mmr_size_aligned_add.
Qed.

(** The children of a node: left at [p - 2^h], right at [p - 1]. *)
Lemma node_pos_left (ls h : Z) :
  0 < h -> node_pos ls (h - 1) = node_pos ls h - 2 ^ h.
Proof.
  intros. unfold node_pos. replace (h - 1 + 1) with h by lia. rewrite pow2_succ by lia. lia.
Qed.

Lemma node_pos_right (ls h : Z) :
  0 < h -> aligned h ls -> node_pos (ls + 2 ^ (h - 1)) (h - 1) = node_pos ls h - 1.
Proof.
  intros Hh Hal. unfold node_pos.
  assert (2 ^ (h - 1) < 2 ^ h) by (rewrite (pow2_pred h) by lia; pose proof (pow2_pos (h - 1)); lia).
  pose proof (pow2_pos (h - 1)).
  rewrite (mmr_size_add h) by (done || lia).
  rewrite mmr_size_pow2 by lia.
  replace (h - 1 + 1) with h by lia. rewrite (pow2_succ h) by lia. lia.
Qed.

Lemma aligned_left (ls h : Z) : 0 < h -> aligned h ls -> aligned (h - 1) ls.
Proof. intros Hh. apply aligned_le. lia. Qed.

Lemma aligned_right (ls h : Z) : 0 < h -> aligned h ls -> aligned (h - 1) (ls + 2 ^ (h - 1)).
Proof. intros Hh Hal. apply aligned_add. by apply aligned_left. Qed.

Lemma node_pos_leaf (ls : Z) : node_pos ls 0 = mmr_size ls.
Proof. unfold node_pos. simpl. lia. Qed.

Lemma node_pos_ge (ls h : Z) : 0 <= h -> 0 <= ls -> mmr_size ls <= node_pos ls h.
Proof.
  intros. unfold node_pos. pose proof (pow2_le 1 (h + 1)). change (2 ^ 1) with 2 in *. lia.
Qed.

Lemma node_pos_nonneg (ls h : Z) : 0 <= h -> 0 <= ls -> 0 <= node_pos ls h.
Proof. intros. pose proof (node_pos_ge ls h). pose proof (mmr_size_ge ls). lia. Qed.

Lemma node_pos_height_bound (ls h : Z) :
  0 <= h -> 0 <= ls -> node_pos ls h < two63 -> h <= 62.
Proof.
  intros Hh Hls Hlt. unfold node_pos in Hlt. pose proof (mmr_size_ge ls).
  destruct (Z.le_gt_cases h 62) as [|Hgt]; [done|].
  pose proof (pow2_le 64 (h + 1)). rewrite two63_eq in Hlt.
  change (2 ^ 64) with (2 * 2 ^ 63) in *. lia.
Qed.

(** The nodes added with leaf [n]: one for each height [j] with [2^j | n + 1]. *)
Lemma node_pos_closing (n j : Z) :
  0 <= n -> aligned j (n + 1) -> node_pos (n + 1 - 2 ^ j) j = mmr_size n + j.
Proof.
  intros Hn Hal. destruct Hal as (Hj & _ & Hd). pose proof (pow2_pos j Hj).
  assert (aligned j (n + 1 - 2 ^ j)) as Hal'.
  { split; [done|]. destruct Hd as [a Ha]. assert (1 <= a) by nia.
    split; [nia|]. exists (a - 1). lia. }
  unfold node_pos.
  replace n with (n + 1 - 2 ^ j + (2 ^ j - 1)) at 2 by lia.
  rewrite (mmr_size_add j) by (done || lia). rewrite mmr_size_ones by done. lia.
Qed.

Lemma closing_aligned (n j : Z) :
  0 <= n -> aligned j (n + 1) -> aligned j (n + 1 - 2 ^ j).
Proof.
  intros Hn (Hj & _ & [a Ha]). pose proof (pow2_pos j Hj). assert (1 <= a) by nia.
  split; [done|split; [nia|]]. exists (a - 1). lia.
Qed.

(** [mmr_size (n+1) - mmr_size n] counts exactly those heights. *)
Lemma closing_heights (n j : Z) :
  0 <= n -> 0 <= j -> (j < mmr_size (n + 1) - mmr_size n <-> (2 ^ j | n + 1)).
Proof.
  intros Hn Hj. revert n Hn. pattern j. apply natlike_ind; [| |done].
  - intros n Hn. pose proof (mmr_size_step n Hn).
    split; [intros _; apply Z.divide_1_l|lia].
  - clear j Hj. intros j Hj IH n Hn. pose proof (pow2_pos j Hj). rewrite Z.pow_succ_r by done.
    destruct (half_cases n Hn) as (q & b & Hq & [->| ->] & ->).
    + rewrite Z.add_0_r, mmr_size_succ_double, mmr_size_double by done.
      split; [lia|]. intros [a Ha]. nia.
    + replace (2 * q + 1 + 1) with (2 * (q + 1)) by lia.
      rewrite mmr_size_succ_double, mmr_size_double by lia.
      rewrite Z.mul_divide_cancel_l by lia. rewrite <- IH by done. lia.
Qed.

(** Every position below a complete size is a node. *)
Lemma enclosing_leaf (i : Z) : 0 <= i -> exists n, 0 <= n /\ mmr_size n <= i < mmr_size (n + 1).
Proof.
  revert i. apply natlike_ind; [exists 0; done|].
  intros i Hi (n & Hn & Hb). destruct (Z.lt_ge_cases (i + 1) (mmr_size (n + 1))).
  - exists n. lia.
  - exists (n + 1). pose proof (mmr_size_step (n + 1)). lia.
Qed.

Lemma node_pos_total (i : Z) : 0 <= i -> exists ls h, aligned h ls /\ node_pos ls h = i.
Proof.
  intros Hi. destruct (enclosing_leaf i Hi) as (n & Hn & Hb).
  assert (aligned (i - mmr_size n) (n + 1)) as Hal.
  { split; [lia|split; [lia|]]. apply closing_heights; lia. }
  exists (n + 1 - 2 ^ (i - mmr_size n)), (i - mmr_size n).
  split; [by apply closing_aligned|]. rewrite node_pos_closing by done. lia.
Qed.

(** A node lies below [mmr_size n] exactly when its leaves do. *)
Lemma node_pos_below (ls h n : Z) :
  aligned h ls -> 0 <= n -> node_pos ls h < mmr_size n <-> ls + 2 ^ h <= n.
Proof.
  intros Hal Hn. pose proof Hal as (Hh & Hls & _). pose proof (pow2_pos h Hh).
  pose proof (node_pos_closing (ls + 2 ^ h - 1) h) as Hclose.
  replace (ls + 2 ^ h - 1 + 1) with (ls + 2 ^ h) in Hclose by lia.
  replace (ls + 2 ^ h - 2 ^ h) with ls in Hclose by lia.
  rewrite Hclose by (lia || by apply aligned_add). clear Hclose.
  split; intros Hlt.
  - assert (ls + 2 ^ h - 1 < n); [|lia]. apply mmr_size_lt_inv; lia.
  - pose proof (mmr_size_mono (ls + 2 ^ h) n).
    pose proof (proj2 (closing_heights (ls + 2 ^ h - 1) h ltac:(lia) Hh)) as Hc.
    replace (ls + 2 ^ h - 1 + 1) with (ls + 2 ^ h) in Hc by lia.
    specialize (Hc ltac:(apply aligned_add in Hal; apply Hal)). lia.
Qed.

(** ** Mountains

    [tiles ls ms e]: the mountains [ms] cover the leaves [[ls, e)] from left to
    right without gaps, each starting at a multiple of twice its width. *)
Inductive tiles : Z -> list (Z * Z) -> Z -> Prop :=
| tiles_nil e : tiles e [] e
| tiles_cons ls h ms e :
    aligned (h + 1) ls -> 0 <= h -> tiles (ls + 2 ^ h) ms e -> tiles ls ((ls, h) :: ms) e.

Lemma mountains_from_tiles (k : nat) (ls r : Z) :
  aligned (Z.of_nat k) ls -> 0 <= r < 2 ^ Z.of_nat k ->
  tiles ls (mountains_from k ls r) (ls + r).
Proof.
  revert ls r. induction k as [|k IH]; intros ls r Hal Hr.
  - change (2 ^ Z.of_nat 0) with 1 in Hr. replace (ls + r) with ls by lia. constructor.
  - replace (Z.of_nat (S k)) with (Z.of_nat k + 1) in * by lia.
    rewrite pow2_succ in Hr by lia.
    assert (aligned (Z.of_nat k) ls) by (eapply aligned_le; [|done]; lia).
    pose proof (pow2_pos (Z.of_nat k) ltac:(lia)).
    cbn [mountains_from]. destruct (Z.leb_spec (2 ^ Z.of_nat k) r) as [Hle|Hgt].
    + rewrite (proj2 (Z.ltb_lt _ _)) by lia. constructor; [done|lia|].
      replace (ls + r) with (ls + 2 ^ Z.of_nat k + (r - 2 ^ Z.of_nat k)) by lia.
      apply IH; [by apply aligned_add|lia].
    + rewrite Z.add_0_r, Z.sub_0_r. apply IH; [done|lia].
Qed.

Lemma mountains_tile (n : Z) : 0 <= n <= max_leaves -> tiles 0 (mountains n) n.
Proof.
  intros Hn. unfold mountains. replace n with (0 + n) at 2 by lia.
  apply mountains_from_tiles; [by apply aligned_start|].
  change (Z.of_nat 63) with 63. unfold max_leaves in Hn. lia.
Qed.

Lemma tiles_le (ls e : Z) (ms : list (Z * Z)) : tiles ls ms e -> ls <= e.
Proof. induction 1 as [|ls h ms e Hal Hh Ht IH]; [lia|]. pose proof (pow2_pos h Hh). lia. Qed.

Lemma tiles_start (ls e s h : Z) (ms : list (Z * Z)) :
  tiles ls ms e -> (s, h) ∈ ms -> aligned (h + 1) s /\ 0 <= h /\ ls <= s /\ s + 2 ^ h <= e.
Proof.
  induction 1 as [|ls g ms e Hal Hg Ht IH]; [by rewrite elem_of_nil|].
  rewrite elem_of_cons. pose proof (pow2_pos g Hg). intros [[= -> ->]|Hin].
  - apply tiles_le in Ht. split; [done|]. lia.
  - destruct (IH Hin) as (?&?&?&?). split; [done|]. lia.
Qed.

Lemma mountain_end (s h : Z) :
  0 <= h -> aligned (h + 1) s -> mmr_size (s + 2 ^ h) = node_pos s h + 1.
Proof.
  intros Hh Hal. pose proof (pow2_pos h Hh).
  rewrite (mmr_size_add (h + 1)) by (done || rewrite pow2_succ by lia; lia).
  rewrite mmr_size_pow2 by done. unfold node_pos. lia.
Qed.

(** Every position below the total size lies in exactly one mountain. *)
Lemma tiles_cover (ls e p : Z) (ms : list (Z * Z)) :
  tiles ls ms e -> mmr_size ls <= p < mmr_size e ->
  exists j s h, ms !! j = Some (s, h) /\ mmr_size s <= p <= node_pos s h /\
    forall i s' h', (i < j)%nat -> ms !! i = Some (s', h') -> node_pos s' h' < p.
Proof.
  induction 1 as [|ls g ms e Hal Hg Ht IH]; intros Hp; [lia|].
  pose proof (mountain_end ls g Hg Hal).
  destruct (Z.le_gt_cases p (node_pos ls g)) as [Hle|Hgt].
  - exists 0%nat, ls, g. repeat split; [lia|done|]. intros; lia.
  - destruct IH as (j & s & h & Hj & Hin & Hbefore); [lia|].
    exists (S j), s, h. split; [done|split; [done|]].
    intros [|i] s' h' Hi; simpl; [intros [= <- <-]; lia|]. apply Hbefore. lia.
Qed.

Lemma mountains_cover (n p : Z) :
  0 <= n <= max_leaves -> 0 <= p < mmr_size n ->
  exists j s h, mountains n !! j = Some (s, h) /\ mmr_size s <= p <= node_pos s h /\
    forall i s' h', (i < j)%nat -> mountains n !! i = Some (s', h') -> node_pos s' h' < p.
Proof. intros Hn Hp. eapply tiles_cover; [by apply mountains_tile|done]. Qed.

(** What is known of each mountain of an MMR of [n] leaves. *)
Lemma mountain_facts (n s h : Z) :
  0 <= n <= max_leaves -> (s, h) ∈ mountains n ->
  aligned (h + 1) s /\ aligned h s /\ 0 <= h <= 62 /\ 0 <= s /\ s + 2 ^ h <= n /\
  node_pos s h < mmr_size n /\ mmr_size n <= two63 - 1.
Proof.
  intros Hn Hin. destruct (tiles_start _ _ _ _ _ (mountains_tile n Hn) Hin) as (Hal & Hh & Hs & He).
  assert (aligned h s) as Hal' by (eapply aligned_le; [|done]; lia).
  pose proof (mmr_size_bound n Hn).
  assert (node_pos s h < mmr_size n) by (apply node_pos_below; done || lia).
  pose proof (node_pos_height_bound s h). destruct Hal as (?&?&?). split_and!; done || lia.
Qed.

#[global] Opaque mountains.

End Geometry.
