(* ===== verification/DtMmr.v ===== *)
(** * The interface to go-datatrails-merklelog/mmr

    The [mmr] package of the repository calls the third-party module
    [github.com/datatrails/go-datatrails-merklelog/mmr] (imported as [dtmmr]).
    Its code is not part of the repository, so its functions are the fields of
    the class [DtMmr], and the documented behaviour the repository relies on is
    the class [DtMmrLaws], stated against the layout of [Geometry].  Everything
    that depends on the module is proved for every implementation of the two
    classes; [dt_reference] is one concrete implementation, used to evaluate
    the model. *)

From S2P Require Import Prelude Geometry.
Import Geometry.

Local Open Scope Z_scope.

(** ** Operations *)

Class DtMmr := {
  (** height of the node at a 0-based index *)
  IndexHeight : Z -> Z;
  (** peak indices of the MMR whose last node is the given index *)
  Peaks : Z -> list Z;
  (** leaves of the largest MMR not larger than the size *)
  dtLeafCount : Z -> Z;
  (** node index of a leaf *)
  MMRIndex : Z -> Z;
  (** smallest complete size that contains the index *)
  FirstMMRSize : Z -> Z;
  (** bag the peaks from the right: [hasher], peaks *)
  HashPeaksRHS : (bytes -> bytes) -> list bytes -> bytes;
  (** peak hashes read through [store.Get] *)
  PeakHashes : (Z -> result bytes) -> Z -> result (list bytes);
  (** bagged root: size, [store.Get], [hasher] *)
  GetRoot : Z -> (Z -> result bytes) -> (bytes -> bytes) -> result bytes;
  (** append a hashed leaf and the parents it completes through a [NodeAppender] *)
  AddHashedLeaf : forall (S : Type), (S -> Z -> result bytes) -> (S -> bytes -> S * result Z) ->
    (bytes -> bytes) -> S -> bytes -> S * result Z
}.
Arguments AddHashedLeaf {_ S} get append hasher store leaf.

(** ** Documented behaviour *)

(** Bagging from the right: [H (bag right || left)]. *)
Fixpoint bag_rhs (hasher : bytes -> bytes) (peaks : list bytes) : bytes :=
  match peaks with
  | [] => []
  | [p] => p
  | p :: ps => hasher (bag_rhs hasher ps ++ p)
  end.

(** After a leaf, parents are appended while the next position is higher than
    the node just written: [H (be64 (position + 1) || left || right)]. *)
Fixpoint backfill (fuel : nat) (height : Z -> Z) (hasher : bytes -> bytes)
    (h : Z) (nodes : list bytes) : list bytes :=
  match fuel with
  | O => nodes
  | S fuel' =>
      let i := zlen nodes in
      if h <? height i then
        let left := default [] (zget nodes (i - 2 ^ (h + 1))) in
        let right := default [] (zget nodes (i - 1)) in
        backfill fuel' height hasher (h + 1) (nodes ++ [hasher (be_bytes 8 (i + 1) ++ left ++ right)])
      else nodes
  end.

(** A store behaves as the node list it represents. *)
Record store_represents {S : Type} (get : S -> Z -> result bytes)
    (append : S -> bytes -> S * result Z) (rep : S -> list bytes -> Prop) : Prop := {
  represents_get s nodes i v : rep s nodes -> zget nodes i = Some v -> get s i = Ok v;
  represents_append s nodes v :
    rep s nodes -> length v = 32%nat -> zlen nodes < two63 ->
    exists s', append s v = (s', Ok (zlen nodes + 1)) /\ rep s' (nodes ++ [v])
}.

Class DtMmrLaws (DT : DtMmr) : Prop := {
  law_IndexHeight ls h :
    aligned h ls -> node_pos ls h < two63 -> IndexHeight (node_pos ls h) = h;
  law_Peaks n : 0 < n <= max_leaves -> Peaks (mmr_size n - 1) = peak_positions n;
  law_LeafCount n : 0 <= n <= max_leaves -> dtLeafCount (mmr_size n) = n;
  law_MMRIndex n : 0 <= n < max_leaves -> MMRIndex n = mmr_size n;
  law_FirstMMRSize n i :
    0 <= n < max_leaves -> mmr_size n <= i < mmr_size (n + 1) -> FirstMMRSize i = mmr_size (n + 1);
  law_HashPeaksRHS hasher peaks :
    peaks <> [] -> HashPeaksRHS hasher peaks = bag_rhs hasher peaks;
  law_PeakHashes get n peaks :
    0 < n <= max_leaves -> traverse get (peak_positions n) = Ok peaks ->
    PeakHashes get (mmr_size n - 1) = Ok peaks;
  law_GetRoot get hasher n peaks :
    0 < n <= max_leaves -> traverse get (peak_positions n) = Ok peaks ->
    GetRoot (mmr_size n) get hasher = Ok (bag_rhs hasher peaks);
  law_AddHashedLeaf (S : Type) get append (rep : S -> list bytes -> Prop) hasher s nodes leaf n :
    store_represents get append rep -> (forall m, length (hasher m) = 32%nat) ->
    rep s nodes -> zlen nodes = mmr_size n -> 0 <= n < max_leaves -> length leaf = 32%nat ->
    let nodes' := backfill 64 IndexHeight hasher 0 (nodes ++ [leaf]) in
    exists s', AddHashedLeaf get append hasher s leaf = (s', Ok (zlen nodes')) /\ rep s' nodes'
}.

(** ** Consequences of the layout for any implementation *)

Section Heights.
Context (height : Z -> Z).
Hypothesis height_spec :
  forall ls h, aligned h ls -> node_pos ls h < two63 -> height (node_pos ls h) = h.

(** The positions written with leaf [n]: height [h] at [mmr_size n + h], and the
    position after the last of them is the next leaf. *)
Lemma closing_position (n h : Z) :
  0 <= n < max_leaves -> aligned h (n + 1) -> mmr_size n + h < two63 /\ height (mmr_size n + h) = h.
Proof.
  intros Hn Hal. pose proof Hal as (Hh & _ & Hd).
  pose proof (proj2 (closing_heights n h ltac:(lia) Hh) Hd).
  pose proof (mmr_size_bound (n + 1)).
  split; [lia|].
  rewrite <- (node_pos_closing n h) by (done || lia).
  apply height_spec; [by apply closing_aligned; [lia|]|].
  rewrite node_pos_closing by (done || lia). lia.
Qed.

Lemma after_closing (n h : Z) :
  0 <= n < max_leaves -> aligned h (n + 1) -> ~ (2 ^ (h + 1) | n + 1) ->
  mmr_size n + h + 1 = mmr_size (n + 1) /\ height (mmr_size n + h + 1) = 0.
Proof.
  intros Hn Hal Hnd. pose proof Hal as (Hh & _ & Hd).
  pose proof (proj2 (closing_heights n h ltac:(lia) Hh) Hd).
  pose proof (proj1 (closing_heights n (h + 1) ltac:(lia) ltac:(lia))).
  assert (mmr_size n + h + 1 = mmr_size (n + 1)) as Heq.
  { destruct (Z.lt_ge_cases (h + 1) (mmr_size (n + 1) - mmr_size n)); [tauto|lia]. }
  split; [done|]. rewrite Heq, <- node_pos_leaf. apply height_spec.
  - apply aligned_zero. lia.
  - rewrite node_pos_leaf. pose proof (mmr_size_bound (n + 1)). lia.
Qed.

Lemma closing_height_bound (n h : Z) : 0 <= n < max_leaves -> aligned h (n + 1) -> h <= 62.
Proof.
  intros Hn (Hh & _ & Hd). destruct (Z.le_gt_cases h 62); [done|].
  apply Z.divide_pos_le in Hd; [|lia]. pose proof (pow2_le 63 h).
  unfold max_leaves in Hn. lia.
Qed.

(** The loop of [backfill] reaches the next complete size, keeps what was
    there, and writes at each new interior position the hash of its children. *)
Lemma backfill_spec (hasher : bytes -> bytes) (n : Z) (fuel : nat) (h : Z) (nodes : list bytes) :
  0 <= n < max_leaves -> aligned h (n + 1) -> zlen nodes = mmr_size n + h + 1 ->
  63 - h < Z.of_nat fuel ->
  exists added,
    backfill fuel height hasher h nodes = nodes ++ added /\
    zlen (nodes ++ added) = mmr_size (n + 1) /\
    forall i v, zlen nodes <= i -> zget (nodes ++ added) i = Some v ->
      exists g, height i = g /\ 0 < g /\ aligned g (n + 1) /\ i = mmr_size n + g /\
        v = hasher (be_bytes 8 (i + 1) ++ default [] (zget (nodes ++ added) (i - 2 ^ g))
                      ++ default [] (zget (nodes ++ added) (i - 1))).
Proof.
  intros Hn. revert h nodes. induction fuel as [|fuel IH]; intros h nodes Hal Hlen Hfuel.
  { pose proof (closing_height_bound n h Hn Hal). lia. }
  pose proof Hal as (Hh & _ & _). cbn [backfill]. rewrite Hlen.
  destruct (decide ((2 ^ (h + 1) | n + 1))) as [Hd|Hnd].
  - assert (aligned (h + 1) (n + 1)) as Hal' by (split; [lia|split; [lia|done]]).
    destruct (closing_position n (h + 1) Hn Hal') as [Hlt Hht].
    rewrite Z.add_assoc in *. rewrite Hht, (proj2 (Z.ltb_lt _ _)) by lia.
    set (v := hasher _). destruct (IH (h + 1) (nodes ++ [v])) as (added & Hb & Hl & Hnew); [done| |lia|].
    { autorewrite with golen. lia. }
    exists (v :: added). rewrite <- app_assoc in *. simpl in *. split; [done|split; [done|]].
    intros i w Hi Hw. destruct (Z.eq_dec i (zlen nodes)) as [->|Hne].
    + exists (h + 1). rewrite Hlen at 1. rewrite zget_app_r, Z.sub_diag in Hw by lia.
      injection Hw as <-. split_and!; try done; try lia.
      rewrite !zget_app_l by (pose proof (pow2_pos (h + 1)); lia).
      unfold v. by rewrite Hlen.
    + apply Hnew; [autorewrite with golen; lia|done].
  - destruct (after_closing n h Hn Hal Hnd) as [Heq Hht].
    rewrite Hht, (proj2 (Z.ltb_ge _ _)) by lia. exists []. rewrite app_nil_r.
    split; [done|split; [lia|]]. intros i w Hi Hw%zget_Some_range. lia.
Qed.

End Heights.
