(* ===== verification/DtMmrRef.v ===== *)
(** * A reference implementation of the [DtMmr] interface

    Concrete functions that satisfy [DtMmrLaws].  They show that the laws are
    consistent and let the model be evaluated on concrete logs; they are not a
    transcription of the third-party module. *)

From S2P Require Import Prelude Geometry DtMmr.
Import Geometry.

Local Open Scope Z_scope.

Module Ref.

(** Descend from the largest mountain, dropping the one to the left. *)
Fixpoint height_at (k : nat) (i : Z) : Z :=
  match k with
  | O => 0
  | S k' =>
      let full := 2 ^ (Z.of_nat k' + 1) - 1 in
      let j := if full <=? i then i - full else i in
      if j =? full - 1 then Z.of_nat k' else height_at k' j
  end.

Fixpoint leaves_in (k : nat) (size : Z) : Z :=
  match k with
  | O => 0
  | S k' =>
      let full := 2 ^ (Z.of_nat k' + 1) - 1 in
      if full <=? size then 2 ^ Z.of_nat k' + leaves_in k' (size - full) else leaves_in k' size
  end.

Definition index_height (i : Z) : Z := height_at 63 i.
Definition leaf_count (size : Z) : Z := leaves_in 63 size.

Fixpoint fill {S : Type} (get : S -> Z -> result bytes) (append : S -> bytes -> S * result Z)
    (hasher : bytes -> bytes) (fuel : nat) (h i : Z) (s : S) : S * result Z :=
  match fuel with
  | O => (s, Ok i)
  | S fuel' =>
      if h <? index_height i then
        match get s (i - 2 ^ (h + 1)), get s (i - 1) with
        | Ok lhs, Ok rhs =>
            match append s (hasher (be_bytes 8 (i + 1) ++ lhs ++ rhs)) with
            | (s', Ok i') => fill get append hasher fuel' (h + 1) i' s'
            | (s', Err e) => (s', Err e)
            end
        | Err e, _ => (s, Err e)
        | _, Err e => (s, Err e)
        end
      else (s, Ok i)
  end.

Definition add_hashed_leaf (S : Type) (get : S -> Z -> result bytes)
    (append : S -> bytes -> S * result Z) (hasher : bytes -> bytes) (s : S) (leaf : bytes) :
    S * result Z :=
  match append s leaf with
  | (s', Ok i) => fill get append hasher 64 0 i s'
  | (s', Err e) => (s', Err e)
  end.

#[export] Instance dt_reference : DtMmr := {
  IndexHeight := index_height;
  Peaks i := peak_positions (leaf_count (i + 1));
  dtLeafCount := leaf_count;
  MMRIndex := mmr_size;
  FirstMMRSize i := mmr_size (leaf_count i + 1);
  HashPeaksRHS := bag_rhs;
  PeakHashes get i := traverse get (peak_positions (leaf_count (i + 1)));
  GetRoot size get hasher :=
    peaks ← traverse get (peak_positions (leaf_count size)); Ok (bag_rhs hasher peaks);
  AddHashedLeaf := add_hashed_leaf
}.

(** ** The laws hold *)

Lemma node_pos_shift (k h ls : Z) :
  0 <= h <= k -> aligned h ls -> ls + 2 ^ h <= 2 ^ k ->
  node_pos (2 ^ k + ls) h = 2 ^ (k + 1) - 1 + node_pos ls h.
Proof.
  intros Hk (Hh & Hls & _) Hle. unfold node_pos. pose proof (pow2_pos h).
  rewrite (mmr_size_add k) by (lia || rewrite <- Z.add_0_l; apply aligned_add, aligned_start; lia).
  rewrite mmr_size_pow2 by lia. lia.
Qed.

Lemma aligned_unshift (k h ls : Z) :
  0 <= h <= k -> 2 ^ k <= ls -> aligned h ls -> aligned h (ls - 2 ^ k).
Proof.
  intros Hk Hle (Hh & Hls & Hd). split; [done|split; [lia|]].
  apply Z.divide_sub_r; [done|]. exists (2 ^ (k - h)).
  rewrite <- Z.pow_add_r by lia. f_equal. lia.
Qed.

(** An aligned block that starts below [2^k] also ends there. *)
Lemma aligned_block_end (k h ls : Z) :
  0 <= h <= k -> aligned h ls -> ls < 2 ^ k -> ls + 2 ^ h <= 2 ^ k.
Proof.
  intros Hk Hal Hlt. destruct (aligned_mult h ls Hal) as (a & Ha & ->).
  assert (2 ^ k = 2 ^ h * 2 ^ (k - h)) as Hsplit by (rewrite <- Z.pow_add_r by lia; f_equal; lia).
  rewrite Hsplit in *. pose proof (pow2_pos h). assert (a < 2 ^ (k - h)) by nia. nia.
Qed.

Lemma node_pos_not_top (k h ls : Z) :
  0 <= h < k -> aligned h ls -> ls + 2 ^ h <= 2 ^ k -> node_pos ls h < 2 ^ (k + 1) - 2.
Proof.
  intros Hk Hal Hle. pose proof Hal as (Hh & Hls & _). pose proof (pow2_pos h Hh).
  pose proof (mmr_size_ones k ltac:(lia)) as Hones.
  pose proof (node_pos_closing (ls + 2 ^ h - 1) h ltac:(lia)) as Hc.
  replace (ls + 2 ^ h - 1 + 1) with (ls + 2 ^ h) in Hc by lia.
  replace (ls + 2 ^ h - 2 ^ h) with ls in Hc by lia.
  rewrite Hc by by apply aligned_add.
  pose proof (mmr_size_mono (ls + 2 ^ h - 1) (2 ^ k - 1)). lia.
Qed.

Lemma height_at_node (k : nat) (ls h : Z) :
  aligned h ls -> h < Z.of_nat k -> ls + 2 ^ h <= 2 ^ Z.of_nat k ->
  height_at k (node_pos ls h) = h.
Proof.
  revert ls. induction k as [|k IH]; intros ls Hal Hh Hle; pose proof Hal as (Hh0 & Hls & _); [lia|].
  replace (Z.of_nat (S k)) with (Z.of_nat k + 1) in * by lia. rewrite pow2_succ in Hle by lia.
  assert (exists ls', aligned h ls' /\ ls' + 2 ^ h <= 2 ^ Z.of_nat k /\
    (if 2 ^ (Z.of_nat k + 1) - 1 <=? node_pos ls h
     then node_pos ls h - (2 ^ (Z.of_nat k + 1) - 1) else node_pos ls h) = node_pos ls' h)
    as (ls' & Hal' & Hle' & Hj).
  { destruct (Z.lt_ge_cases ls (2 ^ Z.of_nat k)) as [Hlt|Hge].
    - exists ls. pose proof (aligned_block_end (Z.of_nat k) h ls ltac:(lia) Hal Hlt).
      split; [done|split; [done|]].
      assert (node_pos ls h < mmr_size (2 ^ Z.of_nat k)) as Hb
        by (apply node_pos_below; [done|apply Z.pow_nonneg; lia|done]).
      rewrite mmr_size_pow2 in Hb by lia. by rewrite (proj2 (Z.leb_gt _ _)).
    - exists (ls - 2 ^ Z.of_nat k).
      assert (aligned h (ls - 2 ^ Z.of_nat k)) as Hal' by (apply aligned_unshift; done || lia).
      split; [done|split; [lia|]].
      pose proof (node_pos_shift (Z.of_nat k) h (ls - 2 ^ Z.of_nat k) ltac:(lia) Hal' ltac:(lia)) as Hs.
      replace (2 ^ Z.of_nat k + (ls - 2 ^ Z.of_nat k)) with ls in Hs by lia. rewrite Hs.
      pose proof (node_pos_nonneg (ls - 2 ^ Z.of_nat k) h).
      rewrite (proj2 (Z.leb_le _ _)) by lia. lia. }
  cbn [height_at]. rewrite Hj.
  destruct (Z.eq_dec h (Z.of_nat k)) as [->|Hne].
  - assert (ls' = 0) as -> by (destruct Hal' as (?&?&?); lia).
    rewrite (proj2 (Z.eqb_eq _ _)); [done|]. unfold node_pos. simpl. lia.
  - pose proof (node_pos_not_top (Z.of_nat k) h ls' ltac:(lia) Hal' Hle').
    rewrite (proj2 (Z.eqb_neq _ _)) by (intros ?; lia). apply IH; done || lia.
Qed.

Lemma leaves_in_size (k : nat) (i n : Z) :
  0 <= n < 2 ^ Z.of_nat k -> mmr_size n <= i ->
  i < mmr_size (n + 1) \/ n + 1 = 2 ^ Z.of_nat k -> leaves_in k i = n.
Proof.
  revert i n. induction k as [|k IH]; intros i n Hn Hle Hup.
  { change (2 ^ Z.of_nat 0) with 1 in Hn. simpl. lia. }
  replace (Z.of_nat (S k)) with (Z.of_nat k + 1) in * by lia. rewrite pow2_succ in * by lia.
  pose proof (mmr_size_pow2 (Z.of_nat k) ltac:(lia)) as Hfull. rewrite pow2_succ in Hfull by lia.
  pose proof (pow2_pos (Z.of_nat k)).
  cbn [leaves_in]. rewrite pow2_succ by lia.
  destruct (Z.lt_ge_cases n (2 ^ Z.of_nat k)) as [Hlt|Hge].
  - pose proof (mmr_size_mono (n + 1) (2 ^ Z.of_nat k)).
    rewrite (proj2 (Z.leb_gt _ _)) by lia. apply IH; lia.
  - pose proof (mmr_size_mono (2 ^ Z.of_nat k) n).
    assert (forall r, 0 <= r < 2 ^ Z.of_nat k ->
      mmr_size (2 ^ Z.of_nat k + r) = mmr_size (2 ^ Z.of_nat k) + mmr_size r) as Hadd.
    { intros r Hr. apply (mmr_size_add (Z.of_nat k)); [|done].
      rewrite <- Z.add_0_l. apply aligned_add, aligned_start. lia. }
    pose proof (Hadd (n - 2 ^ Z.of_nat k) ltac:(lia)) as Hn'.
    replace (2 ^ Z.of_nat k + (n - 2 ^ Z.of_nat k)) with n in Hn' by lia.
    rewrite (proj2 (Z.leb_le _ _)) by lia.
    rewrite (IH _ (n - 2 ^ Z.of_nat k)); [lia|lia|lia|].
    destruct (Z.eq_dec (n + 1) (2 * 2 ^ Z.of_nat k)) as [Heq|Hne]; [right; lia|left].
    pose proof (Hadd (n + 1 - 2 ^ Z.of_nat k) ltac:(lia)) as Hs.
    replace (2 ^ Z.of_nat k + (n + 1 - 2 ^ Z.of_nat k)) with (n + 1) in Hs by lia.
    replace (n - 2 ^ Z.of_nat k + 1) with (n + 1 - 2 ^ Z.of_nat k) by lia. lia.
Qed.

Lemma leaf_count_enclosing (i n : Z) :
  0 <= n <= max_leaves -> mmr_size n <= i < mmr_size (n + 1) -> leaf_count i = n.
Proof.
  intros Hn Hi. apply leaves_in_size; [|lia|lia].
  change (Z.of_nat 63) with 63. unfold max_leaves in Hn. lia.
Qed.

Lemma leaf_count_size (n : Z) : 0 <= n <= max_leaves -> leaf_count (mmr_size n) = n.
Proof. intros Hn. apply leaf_count_enclosing; [done|]. pose proof (mmr_size_step n). lia. Qed.

Lemma index_height_node (ls h : Z) :
  aligned h ls -> node_pos ls h < two63 -> index_height (node_pos ls h) = h.
Proof.
  intros Hal Hlt. pose proof Hal as (Hh & Hls & _).
  pose proof (node_pos_height_bound ls h Hh Hls Hlt).
  apply height_at_node; [done|lia|].
  apply node_pos_below; [done|by apply Z.pow_nonneg|].
  rewrite mmr_size_pow2 by lia. change (2 ^ (Z.of_nat 63 + 1) - 1) with (2 * two63 - 1). unfold two63 in *. lia.
Qed.

Section Fill.
Context {S : Type} (get : S -> Z -> result bytes) (append : S -> bytes -> S * result Z).
Context (rep : S -> list bytes -> Prop) (hasher : bytes -> bytes).
Hypothesis Hstore : store_represents get append rep.
Hypothesis Hwidth : forall m, length (hasher m) = 32%nat.

Lemma fill_backfill (n : Z) (fuel : nat) (h : Z) (s : S) (nodes : list bytes) :
  0 <= n < max_leaves -> aligned h (n + 1) -> zlen nodes = mmr_size n + h + 1 -> rep s nodes ->
  exists s', fill get append hasher fuel h (zlen nodes) s =
               (s', Ok (zlen (backfill fuel index_height hasher h nodes))) /\
             rep s' (backfill fuel index_height hasher h nodes).
Proof.
  intros Hn. revert h s nodes. induction fuel as [|fuel IH]; intros h s nodes Hal Hlen Hrep.
  { by exists s. }
  pose proof Hal as (Hh & _ & _). cbn [fill backfill].
  destruct (decide ((2 ^ (h + 1) | n + 1))) as [Hd|Hnd].
  - assert (aligned (h + 1) (n + 1)) as Hal' by (split; [lia|split; [lia|done]]).
    destruct (closing_position index_height index_height_node n (h + 1) Hn Hal') as [Hlt Hht].
    assert (mmr_size n + (h + 1) = zlen nodes) as Hpos by lia. rewrite Hpos in Hht, Hlt.
    rewrite Hht, (proj2 (Z.ltb_lt _ _)) by lia.
    assert (2 ^ (h + 1) <= zlen nodes) as Hroom.
    { pose proof (node_pos_closing n (h + 1) ltac:(lia) Hal') as Hc.
      unfold node_pos in Hc. rewrite (pow2_succ (h + 1)) in Hc by lia.
      pose proof (closing_aligned n (h + 1) ltac:(lia) Hal') as (_ & Hge & _).
      pose proof (mmr_size_ge (n + 1 - 2 ^ (h + 1)) Hge).
      pose proof (pow2_le 1 (h + 1)). change (2 ^ 1) with 2 in *. lia. }
    pose proof (pow2_pos (h + 1)).
    destruct (zget_in_range nodes (zlen nodes - 2 ^ (h + 1)) ltac:(lia)) as [left Hleft].
    destruct (zget_in_range nodes (zlen nodes - 1) ltac:(lia)) as [right Hright].
    rewrite (represents_get _ _ _ Hstore _ _ _ _ Hrep Hleft).
    rewrite (represents_get _ _ _ Hstore _ _ _ _ Hrep Hright).
    rewrite Hleft, Hright. cbn [from_option id].
    destruct (represents_append _ _ _ Hstore s nodes
      (hasher (be_bytes 8 (zlen nodes + 1) ++ left ++ right)) Hrep (Hwidth _) Hlt) as (s' & -> & Hrep').
    edestruct (IH (h + 1) s') as (s'' & Hf & Hr); [exact Hal'| |exact Hrep'|].
    { autorewrite with golen. lia. }
    exists s''. split; [|done]. rewrite <- Hf. f_equal. autorewrite with golen. lia.
  - destruct (after_closing index_height index_height_node n h Hn Hal Hnd) as [Heq Hht].
    rewrite Hlen, Hht, (proj2 (Z.ltb_ge _ _)) by lia. exists s. by rewrite Hlen.
Qed.

End Fill.

#[export] Instance dt_reference_laws : DtMmrLaws dt_reference.
Proof.
  assert (forall n, 0 < n <= max_leaves -> leaf_count (mmr_size n - 1 + 1) = n) as Hcount.
  { intros n Hn. rewrite Z.sub_add. apply leaf_count_size. lia. }
  split; cbn [IndexHeight Peaks dtLeafCount MMRIndex FirstMMRSize HashPeaksRHS PeakHashes
              GetRoot AddHashedLeaf dt_reference].
  - apply index_height_node.
  - intros n Hn. by rewrite Hcount.
  - apply leaf_count_size.
  - done.
  - intros n i Hn Hi. f_equal. f_equal. apply leaf_count_enclosing; lia.
  - done.
  - intros get n peaks Hn Hp. by rewrite Hcount.
  - intros get hasher n peaks Hn Hp. rewrite leaf_count_size by lia. by rewrite Hp.
  - intros S get append rep hasher s nodes leaf n Hstore Hwidth Hrep Hlen Hn Hleaf.
    unfold add_hashed_leaf.
    pose proof (mmr_size_bound n ltac:(lia)).
    destruct (represents_append _ _ _ Hstore s nodes leaf Hrep Hleaf ltac:(lia)) as (s' & -> & Hrep').
    destruct (fill_backfill get append rep hasher Hstore Hwidth n 64 0 s' (nodes ++ [leaf]))
      as (s'' & Hf & Hr); [done|by apply aligned_zero; lia| |done|].
    { autorewrite with golen. lia. }
    exists s''. split; [|done]. rewrite <- Hf. f_equal. autorewrite with golen. lia.
Qed.

End Ref.
