(* ===== verification/Hex.v ===== *)
(** * Hexadecimal text

    Go's [encoding/hex]: [EncodeToString] writes lowercase digits,
    [DecodeString] accepts both cases and rejects odd lengths. *)

From S2P Require Import Prelude.

Module Hex.

Local Open Scope Z_scope.

Definition hex_digit (d : Z) : Ascii.ascii :=
  Ascii.ascii_of_N (Z.to_N (if d <? 10 then 48 + d else 87 + d)).

Definition hex_value (c : Ascii.ascii) : option Z :=
  let n := Z.of_N (Ascii.N_of_ascii c) in
  if (48 <=? n) && (n <=? 57) then Some (n - 48)
  else if (97 <=? n) && (n <=? 102) then Some (n - 87)
  else if (65 <=? n) && (n <=? 70) then Some (n - 55)
  else None.

Fixpoint EncodeToString (bs : bytes) : string :=
  match bs with
  | [] => EmptyString
  | b :: bs' =>
      String (hex_digit (Z_of_byte b / 16))
        (String (hex_digit (Z_of_byte b mod 16)) (EncodeToString bs'))
  end.

Fixpoint DecodeString (s : string) : option bytes :=
  match s with
  | EmptyString => Some []
  | String c1 (String c2 s') =>
      match hex_value c1, hex_value c2 with
      | Some d1, Some d2 => (fun bs => byte_of_Z (16 * d1 + d2) :: bs) <$> DecodeString s'
      | _, _ => None
      end
  | String _ EmptyString => None
  end.

Lemma hex_value_digit (d : Z) : 0 <= d < 16 -> hex_value (hex_digit d) = Some d.
Proof.
  intros Hd. assert (d ∈ seqZ 0 16) as Hin by (apply elem_of_seqZ; lia).
  clear Hd. revert d Hin. apply Forall_forall. by repeat constructor.
Qed.

Lemma DecodeString_EncodeToString (bs : bytes) : DecodeString (EncodeToString bs) = Some bs.
Proof.
  induction bs as [|b bs IH]; simpl; [done|].
  pose proof (Z_of_byte_range b). pose proof (Z.div_mod (Z_of_byte b) 16 ltac:(lia)).
  pose proof (Z.mod_pos_bound (Z_of_byte b) 16 ltac:(lia)).
  rewrite !hex_value_digit, IH by lia. simpl.
  replace (16 * (Z_of_byte b / 16) + Z_of_byte b mod 16) with (Z_of_byte b) by lia.
  by rewrite byte_of_Z_of_byte.
Qed.

Lemma EncodeToString_inj (a b : bytes) : EncodeToString a = EncodeToString b -> a = b.
Proof.
  intros H. apply (f_equal DecodeString) in H.
  rewrite !DecodeString_EncodeToString in H. congruence.
Qed.

(** The test [hex.EncodeToString(id) == identity] of the sources after a
    successful decode. *)
Definition canonical (identity : string) : option bytes :=
  match DecodeString identity with
  | Some id => if bool_decide (EncodeToString id = identity) then Some id else None
  | None => None
  end.

Lemma canonical_Some (identity : string) (id : bytes) :
  canonical identity = Some id <-> EncodeToString id = identity.
Proof.
  unfold canonical. split.
  - destruct (DecodeString identity) as [id'|]; [|done]. case_bool_decide; naive_solver.
  - intros <-. rewrite DecodeString_EncodeToString. by rewrite bool_decide_true.
Qed.

End Hex.
