(* ===== verification/Text.v ===== *)
(** * Decimal text

    Go's [strconv] and the [%0nd] verb on the values the repository formats:
    unsigned decimals of at most 64 bits and zero-padded fields. *)

From Stdlib.Strings Require Import Ascii.
From stdpp Require Import pretty.
From S2P Require Import Prelude.

Module Text.

Local Open Scope Z_scope.

(** ** Go strings *)

Definition chars (s : string) : list Ascii.ascii := String.list_ascii_of_string s.

(** [s[first:last]] *)
Definition substr (s : string) (first last : nat) : string :=
  String.string_of_list_ascii (take (last - first) (drop first (chars s))).

(** [s[i] == c] *)
Definition charIs (s : string) (i : nat) (c : Ascii.ascii) : bool :=
  bool_decide (String.get i s = Some c).

(** [[]byte(s)] and [string(bs)] *)
Definition bytesOf (s : string) : bytes := String.list_byte_of_string s.
Definition stringOf (bs : bytes) : string := String.string_of_list_byte bs.

Lemma bytesOf_stringOf (bs : bytes) : bytesOf (stringOf bs) = bs.
Proof. apply String.list_byte_of_string_of_list_byte. Qed.

Lemma stringOf_bytesOf (s : string) : stringOf (bytesOf s) = s.
Proof. apply String.string_of_list_byte_of_string. Qed.

Lemma stringOf_size (bs : bytes) : String.length (stringOf bs) = length bs.
Proof. unfold stringOf. induction bs as [|b bs IH]; [done|]. cbn [length]. by rewrite <- IH. Qed.

(** ** Numbers *)

(** [strconv.FormatUint(n, 10)] *)
Definition FormatUint (n : Z) : string := pretty (Z.to_N n).

Definition digitValue (c : Ascii.ascii) : option Z :=
  let n := Z.of_N (Ascii.N_of_ascii c) in
  if (48 <=? n) && (n <=? 57) then Some (n - 48) else None.

(** The value of a digit string read after [acc]; [None] at any other character. *)
Fixpoint digitsFrom (acc : Z) (s : string) : option Z :=
  match s with
  | EmptyString => Some acc
  | String c s' => d ← digitValue c; digitsFrom (acc * 10 + d) s'
  end.

(** [strconv.ParseUint(s, 10, 64)]: digits only, not empty, below 2^64. *)
Definition ParseUint (s : string) : option Z :=
  match s with
  | EmptyString => None
  | _ => n ← digitsFrom 0 s; if n <? two64 then Some n else None
  end.

(** [strconv.Atoi] on the few characters of a field: an optional sign and digits. *)
Definition Atoi (s : string) : option Z :=
  match s with
  | EmptyString => None
  | String c s' =>
      let unsigned t := match t with EmptyString => None | _ => digitsFrom 0 t end in
      if bool_decide (c = "-"%char) then Z.opp <$> unsigned s'
      else if bool_decide (c = "+"%char) then unsigned s'
      else unsigned s
  end.

Fixpoint zeros (n : nat) : string :=
  match n with O => EmptyString | S n' => String "0"%char (zeros n') end.

(** [fmt.Sprintf("%0wd", n)] for [n >= 0] *)
Definition fmt0 (w : nat) (n : Z) : string :=
  String.append (zeros (w - String.length (FormatUint n))) (FormatUint n).

(** ** Appending *)

Lemma append_cons (c : Ascii.ascii) (s t : string) :
  String.append (String c s) t = String c (String.append s t).
Proof. done. Qed.

Lemma append_length (s t : string) :
  String.length (String.append s t) = (String.length s + String.length t)%nat.
Proof. induction s as [|c s IH]; [done|]. rewrite append_cons. cbn. by rewrite IH. Qed.

Lemma digitsFrom_append (acc v : Z) (s t : string) :
  digitsFrom acc s = Some v -> digitsFrom acc (String.append s t) = digitsFrom v t.
Proof.
  revert acc. induction s as [|c s IH]; intros acc; [by intros [= ->]|].
  rewrite append_cons. cbn [digitsFrom]. destruct (digitValue c) as [d|]; [|done].
  cbn [mbind option_bind]. apply IH.
Qed.

(** ** Printing and reading *)

Lemma digitValue_char (n : N) : (n < 10)%N -> digitValue (pretty_N_char n) = Some (Z.of_N n).
Proof.
  intros Hn. destruct n as [|p]; [reflexivity|].
  destruct (N.lt_trichotomy (N.pos p) 5) as [|[|]];
    do 4 (destruct p as [p|p|]; try reflexivity; try lia).
Qed.

Lemma pretty_go_value (n : N) (s : string) :
  digitsFrom 0 (pretty_N_go n s) = digitsFrom (Z.of_N n) s.
Proof.
  revert s. induction (N.lt_wf_0 n) as [n _ IH]; intros s.
  destruct (decide (n = 0)%N) as [->|Hn]; [by rewrite pretty_N_go_0|].
  rewrite pretty_N_go_step by lia. rewrite IH by (apply N.div_lt; lia).
  cbn [digitsFrom]. rewrite digitValue_char by (apply N.mod_lt; lia). cbn [mbind option_bind].
  f_equal. pose proof (N.div_mod n 10 ltac:(lia)). lia.
Qed.

Lemma digits_FormatUint (n : Z) : 0 <= n -> digitsFrom 0 (FormatUint n) = Some n.
Proof.
  intros Hn. unfold FormatUint, pretty, pretty_N. destruct (decide _) as [Hz|Hnz].
  - assert (n = 0) as -> by lia. reflexivity.
  - rewrite pretty_go_value. cbn [digitsFrom]. f_equal. lia.
Qed.

Lemma pretty_go_length (w : nat) (n : N) (s : string) :
  (n < 10 ^ N.of_nat w)%N -> (String.length (pretty_N_go n s) <= w + String.length s)%nat.
Proof.
  revert n s. induction w as [|w IH]; intros n s Hn.
  - assert (n = 0)%N as -> by (change (10 ^ N.of_nat 0)%N with 1%N in Hn; lia). by rewrite pretty_N_go_0.
  - destruct (decide (n = 0)%N) as [->|Hnz]; [rewrite pretty_N_go_0; lia|].
    rewrite pretty_N_go_step by lia.
    etrans; [apply IH|cbn; lia].
    apply N.Div0.div_lt_upper_bound. rewrite Nat2N.inj_succ, N.pow_succ_r' in Hn. lia.
Qed.

Lemma pretty_go_length_ge (n : N) (s : string) :
  (String.length s <= String.length (pretty_N_go n s))%nat /\
  ((0 < n)%N -> (String.length s < String.length (pretty_N_go n s))%nat).
Proof.
  revert s. induction (N.lt_wf_0 n) as [n _ IH]; intros s.
  destruct (decide (n = 0)%N) as [->|Hn]; [rewrite pretty_N_go_0; lia|].
  rewrite pretty_N_go_step by lia.
  destruct (IH (n / 10)%N ltac:(apply N.div_lt; lia) (String (pretty_N_char (n mod 10)) s)) as [H _].
  cbn [String.length] in H. lia.
Qed.

Lemma FormatUint_length (n : Z) (w : nat) :
  0 <= n < 10 ^ Z.of_nat w -> (0 < w)%nat ->
  (1 <= String.length (FormatUint n) <= w)%nat.
Proof.
  intros Hn Hw. unfold FormatUint, pretty, pretty_N. destruct (decide _) as [Hz|Hnz]; [cbn; lia|].
  pose proof (pretty_go_length w (Z.to_N n) "") as H1.
  pose proof (pretty_go_length_ge (Z.to_N n) "") as [_ H2]. cbn [String.length] in H1, H2.
  assert (Z.to_N n < 10 ^ N.of_nat w)%N.
  { apply N2Z.inj_lt. rewrite N2Z.inj_pow, nat_N_Z, Z2N.id by lia. lia. }
  specialize (H1 ltac:(done)). specialize (H2 ltac:(lia)). lia.
Qed.

Lemma FormatUint_first (n : Z) (c : Ascii.ascii) (s : string) :
  0 <= n -> FormatUint n = String c s -> digitValue c <> None.
Proof.
  intros Hn Hs. pose proof (digits_FormatUint n Hn) as Hd. rewrite Hs in Hd. cbn [digitsFrom] in Hd.
  intros Hc. by rewrite Hc in Hd.
Qed.

Lemma ParseUint_FormatUint (n : Z) : 0 <= n < two64 -> ParseUint (FormatUint n) = Some n.
Proof.
  intros Hn. unfold ParseUint. pose proof (digits_FormatUint n ltac:(lia)) as Hd.
  destruct (FormatUint n) as [|c s] eqn:Hs.
  - pose proof (FormatUint_length n 20) as Hl. rewrite Hs in Hl. cbn [String.length] in Hl.
    assert (two64 < 10 ^ Z.of_nat 20) by done. lia.
  - rewrite Hd. cbn [mbind option_bind]. by rewrite (proj2 (Z.ltb_lt _ _)) by lia.
Qed.

(** ** Padded fields *)

Lemma zeros_length (n : nat) : String.length (zeros n) = n.
Proof. induction n as [|n IH]; cbn; [done|]. by rewrite IH. Qed.

Lemma zeros_value (n : nat) : digitsFrom 0 (zeros n) = Some 0.
Proof. induction n as [|n IH]; [done|exact IH]. Qed.

Lemma fmt0_length (w : nat) (n : Z) :
  0 <= n < 10 ^ Z.of_nat w -> (0 < w)%nat -> String.length (fmt0 w n) = w.
Proof.
  intros Hn Hw. unfold fmt0. rewrite append_length, zeros_length.
  pose proof (FormatUint_length n w Hn Hw). lia.
Qed.

Lemma fmt0_value (w : nat) (n : Z) : 0 <= n -> digitsFrom 0 (fmt0 w n) = Some n.
Proof.
  intros Hn. unfold fmt0. erewrite digitsFrom_append by apply zeros_value. by apply digits_FormatUint.
Qed.

Lemma digit_not_sign (c : Ascii.ascii) :
  digitValue c <> None -> c <> "-"%char /\ c <> "+"%char.
Proof. intros Hc. split; intros ->; by apply Hc. Qed.

(** Reading a digit string with [Atoi]. *)
Lemma Atoi_digits (c : Ascii.ascii) (s : string) (n : Z) :
  digitsFrom 0 (String c s) = Some n -> Atoi (String c s) = Some n.
Proof.
  intros Hd. assert (digitValue c <> None) as Hc.
  { intros Hn. cbn [digitsFrom] in Hd. by rewrite Hn in Hd. }
  apply digit_not_sign in Hc as [H1 H2]. unfold Atoi.
  rewrite bool_decide_false, bool_decide_false by done. exact Hd.
Qed.

(** A positive number does not start with a zero. *)
Lemma pretty_go_first (n : N) (s : string) :
  (0 < n)%N -> exists c s', pretty_N_go n s = String c s' /\ c <> "0"%char.
Proof.
  revert s. induction (N.lt_wf_0 n) as [n _ IH]; intros s Hn. rewrite pretty_N_go_step by done.
  destruct (decide (n < 10)%N) as [Hlt|Hge].
  - rewrite N.div_small, N.mod_small by done. rewrite pretty_N_go_0. eexists _, _. split; [done|].
    intros Hc. pose proof (digitValue_char n Hlt) as Hd. rewrite Hc in Hd. cbn in Hd. injection Hd. lia.
  - apply IH; [apply N.div_lt; lia|]. apply N.div_str_pos. lia.
Qed.

Lemma FormatUint_canonical (n : Z) :
  0 <= n ->
  FormatUint n = "0"%string \/ exists c s, FormatUint n = String c s /\ c <> "0"%char.
Proof.
  intros Hn. unfold FormatUint, pretty, pretty_N. destruct (decide _); [by left|right].
  apply pretty_go_first. lia.
Qed.

Lemma field2 (n : Z) :
  0 <= n < 100 ->
  exists c1 c2, fmt0 2 n = String c1 (String c2 EmptyString) /\
    Atoi (String c1 (String c2 EmptyString)) = Some n.
Proof.
  intros Hn. pose proof (fmt0_length 2 n Hn ltac:(lia)) as Hl.
  pose proof (fmt0_value 2 n ltac:(lia)) as Hv.
  destruct (fmt0 2 n) as [|c1 [|c2 [|c3 s]]]; cbn in Hl; try lia.
  exists c1, c2. split; [done|]. by apply Atoi_digits.
Qed.

Lemma field3 (n : Z) :
  0 <= n < 1000 ->
  exists c1 c2 c3, fmt0 3 n = String c1 (String c2 (String c3 EmptyString)) /\
    Atoi (String c1 (String c2 (String c3 EmptyString))) = Some n.
Proof.
  intros Hn. pose proof (fmt0_length 3 n Hn ltac:(lia)) as Hl.
  pose proof (fmt0_value 3 n ltac:(lia)) as Hv.
  destruct (fmt0 3 n) as [|c1 [|c2 [|c3 [|c4 s]]]]; cbn in Hl; try lia.
  exists c1, c2, c3. split; [done|]. by apply Atoi_digits.
Qed.

(** Four and six digits, whose first is not a sign. *)
Lemma field4 (n : Z) :
  0 <= n < 10000 ->
  exists c1 c2 c3 c4, fmt0 4 n = String c1 (String c2 (String c3 (String c4 EmptyString))) /\
    Atoi (String c1 (String c2 (String c3 (String c4 EmptyString)))) = Some n /\
    c1 <> "-"%char /\ c1 <> "+"%char.
Proof.
  intros Hn. pose proof (fmt0_length 4 n Hn ltac:(lia)) as Hl.
  pose proof (fmt0_value 4 n ltac:(lia)) as Hv.
  destruct (fmt0 4 n) as [|c1 [|c2 [|c3 [|c4 [|c5 s]]]]]; cbn in Hl; try lia.
  exists c1, c2, c3, c4. split; [done|]. split; [by apply Atoi_digits|].
  apply digit_not_sign. intros Hc. cbn [digitsFrom] in Hv. by rewrite Hc in Hv.
Qed.

Lemma field6 (n : Z) :
  0 <= n < 1000000 ->
  exists c1 c2 c3 c4 c5 c6,
    fmt0 6 n = String c1 (String c2 (String c3 (String c4 (String c5 (String c6 EmptyString))))) /\
    Atoi (String c1 (String c2 (String c3 (String c4 (String c5 (String c6 EmptyString)))))) = Some n.
Proof.
  intros Hn. pose proof (fmt0_length 6 n Hn ltac:(lia)) as Hl.
  pose proof (fmt0_value 6 n ltac:(lia)) as Hv.
  destruct (fmt0 6 n) as [|c1 [|c2 [|c3 [|c4 [|c5 [|c6 [|c7 s]]]]]]]; cbn in Hl; try lia.
  exists c1, c2, c3, c4, c5, c6. split; [done|]. by apply Atoi_digits.
Qed.

End Text.
