(* ===== verification/Base64.v ===== *)
(** * Base64 text

    Go's [encoding/base64]: [StdEncoding.EncodeToString] and the strict decoder
    [StdEncoding.Strict().DecodeString], which requires padding and zero
    trailing bits but, like every decoder of that package, skips carriage
    returns and line feeds. *)

From Stdlib.Strings Require Import Ascii.
From S2P Require Import Prelude Text.
Import Text.

Module Base64.

Local Open Scope Z_scope.

Definition alphabet : string := "ABCDEFGHIJKLMNOPQRSTUVWXYZabcdefghijklmnopqrstuvwxyz0123456789+/".

Definition digit (v : Z) : ascii := default "A"%char (String.get (Z.to_nat v) alphabet).

Definition value (c : ascii) : option Z :=
  let n := Z.of_N (N_of_ascii c) in
  if (65 <=? n) && (n <=? 90) then Some (n - 65)
  else if (97 <=? n) && (n <=? 122) then Some (n - 71)
  else if (48 <=? n) && (n <=? 57) then Some (n + 4)
  else if n =? 43 then Some 62
  else if n =? 47 then Some 63
  else None.

Fixpoint EncodeToString (bs : bytes) : string :=
  match bs with
  | [] => EmptyString
  | [a] =>
      let v := Z_of_byte a * 16 in
      String (digit (v / 64)) (String (digit (v mod 64)) (String "=" (String "=" EmptyString)))
  | [a; b] =>
      let v := (Z_of_byte a * 256 + Z_of_byte b) * 4 in
      String (digit (v / 4096)) (String (digit (v / 64 mod 64)) (String (digit (v mod 64))
        (String "=" EmptyString)))
  | a :: b :: c :: rest =>
      let v := Z_of_byte a * 65536 + Z_of_byte b * 256 + Z_of_byte c in
      String (digit (v / 262144)) (String (digit (v / 4096 mod 64)) (String (digit (v / 64 mod 64))
        (String (digit (v mod 64)) (EncodeToString rest))))
  end.

Definition isNewline (c : ascii) : bool := (N_of_ascii c =? 10)%N || (N_of_ascii c =? 13)%N.

(** Groups of four, the last one possibly padded. *)
Fixpoint decodeQuads (cs : list ascii) : option bytes :=
  match cs with
  | [] => Some []
  | c1 :: c2 :: c3 :: c4 :: rest =>
      v1 ← value c1;
      v2 ← value c2;
      match value c3 with
      | None =>
          if bool_decide (c3 = "="%char) && bool_decide (c4 = "="%char) &&
             bool_decide (rest = []) && (v2 mod 16 =? 0)
          then Some [byte_of_Z (v1 * 4 + v2 / 16)]
          else None
      | Some v3 =>
          match value c4 with
          | None =>
              if bool_decide (c4 = "="%char) && bool_decide (rest = []) && (v3 mod 4 =? 0)
              then Some [byte_of_Z (v1 * 4 + v2 / 16); byte_of_Z (v2 mod 16 * 16 + v3 / 4)]
              else None
          | Some v4 =>
              bs ← decodeQuads rest;
              Some (byte_of_Z (v1 * 4 + v2 / 16) :: byte_of_Z (v2 mod 16 * 16 + v3 / 4) ::
                    byte_of_Z (v3 mod 4 * 64 + v4) :: bs)
          end
      end
  | _ => None
  end.

Definition StrictDecodeString (s : string) : option bytes :=
  decodeQuads (List.filter (fun c => negb (isNewline c)) (chars s)).

(** ** Round trip *)

Lemma value_digit (v : Z) : 0 <= v < 64 -> value (digit v) = Some v /\ isNewline (digit v) = false.
Proof.
  intros Hv.
  assert (Forall (fun n => value (digit (Z.of_nat n)) = Some (Z.of_nat n) /\
                           isNewline (digit (Z.of_nat n)) = false) (seq 0 64)) as Hall.
  { repeat constructor. }
  rewrite Forall_forall in Hall. specialize (Hall (Z.to_nat v)).
  rewrite Z2Nat.id in Hall by lia. apply Hall, elem_of_seq. lia.
Qed.

Lemma bytes_ind3 (P : bytes -> Prop) :
  P [] -> (forall a, P [a]) -> (forall a b, P [a; b]) ->
  (forall a b c rest, P rest -> P (a :: b :: c :: rest)) -> forall bs, P bs.
Proof.
  intros H0 H1 H2 H3 bs.
  assert (P bs /\ (forall a, P (a :: bs)) /\ (forall a b, P (a :: b :: bs))) as [H _]; [|done].
  induction bs as [|c bs (IH0 & IH1 & IH2)]; [by split_and!|]. split_and!; auto.
Qed.

(** The bytes of a group from its six-bit digits. *)
Lemma group3 (a b c : Z) :
  0 <= a < 256 -> 0 <= b < 256 -> 0 <= c < 256 ->
  let v := a * 65536 + b * 256 + c in
  0 <= v / 262144 < 64 /\
  v / 262144 * 4 + v / 4096 mod 64 / 16 = a /\
  v / 4096 mod 64 mod 16 * 16 + v / 64 mod 64 / 4 = b /\
  v / 64 mod 64 mod 4 * 64 + v mod 64 = c.
Proof. intros Ha Hb Hc v. subst v. Z.div_mod_to_equations. lia. Qed.

Lemma group2 (a b : Z) :
  0 <= a < 256 -> 0 <= b < 256 ->
  let v := (a * 256 + b) * 4 in
  0 <= v / 4096 < 64 /\
  v / 4096 * 4 + v / 64 mod 64 / 16 = a /\ v / 64 mod 64 mod 16 * 16 + v mod 64 / 4 = b /\
  v mod 64 mod 4 = 0.
Proof. intros Ha Hb v. subst v. Z.div_mod_to_equations. lia. Qed.

Lemma group1 (a : Z) :
  0 <= a < 256 ->
  let v := a * 16 in
  0 <= v / 64 < 64 /\ v / 64 * 4 + v mod 64 / 16 = a /\ v mod 64 mod 16 = 0.
Proof. intros Ha v. subst v. Z.div_mod_to_equations. lia. Qed.

Lemma digit_facts (v : Z) : value (digit (v mod 64)) = Some (v mod 64) /\ isNewline (digit (v mod 64)) = false.
Proof. apply value_digit, Z.mod_pos_bound. lia. Qed.

Lemma StrictDecodeString_EncodeToString (bs : bytes) :
  StrictDecodeString (EncodeToString bs) = Some bs.
Proof.
  unfold StrictDecodeString. induction bs as [|a|a b|a b c rest IH] using bytes_ind3; [done|..];
    cbn [EncodeToString chars String.list_ascii_of_string List.filter].
  - destruct (group1 _ (Z_of_byte_range a)) as (Hr & Ha & Hz).
    destruct (value_digit _ Hr) as [V1 N1]. destruct (digit_facts (Z_of_byte a * 16)) as [V2 N2].
    rewrite N1, N2. cbn [negb isNewline decodeQuads]. rewrite V1, V2. cbn [mbind option_bind].
    change (value "="%char) with (@None Z). cbn iota. rewrite Hz, Ha. cbn.
    by rewrite byte_of_Z_of_byte.
  - destruct (group2 _ _ (Z_of_byte_range a) (Z_of_byte_range b)) as (Hr & Ha & Hb & Hz).
    set (v := (Z_of_byte a * 256 + Z_of_byte b) * 4) in *.
    destruct (value_digit _ Hr) as [V1 N1]. destruct (digit_facts (v / 64)) as [V2 N2].
    destruct (digit_facts v) as [V3 N3].
    rewrite N1, N2, N3. cbn [negb isNewline decodeQuads]. rewrite V1, V2, V3. cbn [mbind option_bind].
    change (value "="%char) with (@None Z). cbn iota. rewrite Hz, Ha, Hb. cbn.
    by rewrite !byte_of_Z_of_byte.
  - destruct (group3 _ _ _ (Z_of_byte_range a) (Z_of_byte_range b) (Z_of_byte_range c)) as (Hr & Ha & Hb & Hc).
    set (v := Z_of_byte a * 65536 + Z_of_byte b * 256 + Z_of_byte c) in *.
    destruct (value_digit _ Hr) as [V1 N1]. destruct (digit_facts (v / 4096)) as [V2 N2].
    destruct (digit_facts (v / 64)) as [V3 N3]. destruct (digit_facts v) as [V4 N4].
    rewrite N1, N2, N3, N4. cbn [negb decodeQuads]. rewrite V1, V2, V3, V4. cbn [mbind option_bind].
    unfold chars in IH. rewrite IH. cbn [mbind option_bind]. rewrite Ha, Hb, Hc.
    by rewrite !byte_of_Z_of_byte.
Qed.

End Base64.
