(* ===== verification/Mmr.v ===== *)
(** * The [mmr] package: [src/mmr/tree.go]

    The in-memory bagged MMR, its proofs and their verifiers.  The functions
    of the third-party module come from the class [DtMmr].  A Go slice access
    that can be out of range is [index], whose failure is [ErrPanic]; an early
    [return false] of a verifier is [Ok false]. *)

From S2P Require Import Prelude Sha256 Geometry DtMmr Hex.

Module Mmr.

Local Open Scope Z_scope.
Local Open Scope u64_scope.

(** ** Data *)

Definition hashSize : Z := 32.
Definition maxMMRSize : Z := 1125899906842624.

Record Tree := MkTree { nodes : list bytes }.

Record InclusionProof := MkInclusionProof {
  ip_V : Z;
  ip_Kind : string;
  ip_Size : Z;
  ip_LeafIndex : Z;
  ip_Witness : list bytes;
  ip_PeaksLeft : list bytes;
  ip_PeaksRight : list bytes
}.

Record RangeProof := MkRangeProof {
  rp_V : Z;
  rp_Kind : string;
  rp_Size : Z;
  rp_FromIndex : Z;
  rp_ToIndex : Z;
  rp_Witness : list bytes
}.

Record ConsistencyProof := MkConsistencyProof {
  cp_V : Z;
  cp_Kind : string;
  cp_OldSize : Z;
  cp_NewSize : Z;
  cp_OldPeaks : list bytes;
  cp_Witness : list (list bytes);
  cp_NewPeaks : list bytes
}.

Record pathStep := MkStep {
  sibling : Z;
  targetIsRight : bool;
  parent : Z
}.

(** ** Hashing and copying helpers *)

(** Values are immutable here, so a deep copy is the value. *)
Definition cloneProof (input : list bytes) : list bytes := map (fun value => value) input.
Definition cloneWitness (input : list (list bytes)) : list (list bytes) := map cloneProof input.

Definition interiorHash (left right : bytes) (position : Z) : bytes :=
  sha256 (be_bytes 8 (position +u 1) ++ left ++ right).

Definition leafHash (value : bytes) : bytes := sha256 (Byte.x00 :: value).

Definition zeroHash : bytes := replicate 32 Byte.x00.

Definition badWidth (node : bytes) : bool := negb (zlen node =? hashSize).

Section Tree.
Context `{DT : DtMmr}.

(** ** Sizes *)

Definition validMMRSize (size : Z) : bool :=
  if size =? 0 then true
  else if two63 - 1 <? size then false
  else FirstMMRSize (size -u 1) =? size.

Definition LeafCount (size : Z) : Z * bool :=
  if negb (validMMRSize size) then (0, false) else (dtLeafCount size, true).

Definition peakPositions (size : Z) : list Z :=
  if size =? 0 then [] else Peaks (size -u 1).

Definition RootFromPeaks (peaks : list bytes) : bytes :=
  if zlen peaks =? 0 then zeroHash else HashPeaksRHS sha256 (cloneProof peaks).

(** ** The node store behind a [Tree] *)

Definition nodeStore_Get (t : Tree) (i : Z) : result bytes :=
  match zget (nodes t) i with
  | Some node => Ok node
  | None => Err (ErrText "dtmmr.ErrNotFound")
  end.

Definition nodeStore_Append (t : Tree) (value : bytes) : Tree * result Z :=
  let t' := MkTree (nodes t ++ [value]) in (t', Ok (zlen (nodes t'))).

(** ** Construction *)

(** The loop of [New] over [index, node := range tree.nodes]. *)
Fixpoint checkNodes (all rest : list bytes) (i : Z) : check :=
  match rest with
  | [] => Ok tt
  | node :: rest' =>
      if badWidth node then Err (ErrText "node has wrong length")
      else
        let height := IndexHeight i in
        if height =? 0 then checkNodes all rest' (i + 1)
        else
          let left := i -u (2 <<u (height -u 1)) in
          let right := i -u 1 in
          l ← index all left;
          r ← index all right;
          if negb (bool_decide (node = interiorHash l r i))
          then Err (ErrText "interior node does not match its children")
          else checkNodes all rest' (i + 1)
  end.

Definition New (input : list bytes) : result Tree :=
  let tree := MkTree (cloneProof input) in
  if negb (validMMRSize (zlen (nodes tree))) then Err (ErrText "invalid complete MMR size")
  else
    _ ← checkNodes (nodes tree) (nodes tree) 0;
    Ok tree.

Definition Append (t : Tree) (value : bytes) : Tree * result Z :=
  if badWidth value then (t, Err (ErrText "CLL leaf value must be exactly 32 bytes"))
  else AddHashedLeaf nodeStore_Get nodeStore_Append sha256 t (leafHash value).

Definition AppendHexIdentity (t : Tree) (identity : string) : Tree * result Z :=
  match Hex.canonical identity with
  | Some id =>
      if badWidth id
      then (t, Err (ErrText "identity must be 64 lowercase hexadecimal characters"))
      else Append t id
  | None => (t, Err (ErrText "identity must be 64 lowercase hexadecimal characters"))
  end.

Definition Size (t : Tree) : Z := zlen (nodes t).

Definition Nodes (t : Tree) : list bytes := cloneProof (nodes t).

Definition Root (t : Tree) : result bytes :=
  if zlen (nodes t) =? 0 then Ok zeroHash
  else GetRoot (zlen (nodes t)) (nodeStore_Get t) sha256.

Definition peakHashesAtLocked (t : Tree) (size : Z) : result (list bytes) :=
  if size =? 0 then Ok []
  else if (zlen (nodes t) <? size) || negb (validMMRSize size)
  then Err (ErrText "invalid historical MMR size")
  else
    peaks ← PeakHashes (nodeStore_Get t) (size -u 1);
    Ok (cloneProof peaks).

Definition PeakHashesAt (t : Tree) (size : Z) : result (list bytes) := peakHashesAtLocked t size.

(** ** Positions and paths *)

(** [-1] when no peak contains the position. *)
Fixpoint containingPeakFrom (position : Z) (peaks : list Z) (i : Z) : Z :=
  match peaks with
  | [] => -1
  | peak :: rest =>
      let height := IndexHeight peak in
      let mountainSize := (1 <<u (height +u 1)) -u 1 in
      let start := peak -u mountainSize +u 1 in
      if (start <=? position) && (position <=? peak) then i
      else containingPeakFrom position rest (i + 1)
  end.

Definition containingPeak (position : Z) (peaks : list Z) : Z :=
  containingPeakFrom position peaks 0.

(** The loop of [pathToPeak]; [height] is [currentHeight]. *)
Fixpoint pathLoop (height : nat) (currentRoot target : Z) (steps : list pathStep) :
    list pathStep * Z :=
  match height with
  | O => (steps, currentRoot)
  | S height' =>
      if currentRoot =? target then (steps, currentRoot)
      else
        let leftSize := (1 <<u Z.of_nat height) -u 1 in
        let leftRoot := currentRoot -u leftSize -u 1 in
        let rightRoot := currentRoot -u 1 in
        if target <=? leftRoot
        then pathLoop height' leftRoot target (steps ++ [MkStep rightRoot false currentRoot])
        else pathLoop height' rightRoot target (steps ++ [MkStep leftRoot true currentRoot])
  end.

Definition pathToPeak (root height target : Z) : option (list pathStep) :=
  let '(steps, currentRoot) := pathLoop (Z.to_nat height) root target [] in
  if negb (currentRoot =? target) then None else Some (reverse steps).

(** [witness[i] = nodes[steps[i].sibling]]. *)
Definition siblingHashes (t : Tree) (steps : list pathStep) : result (list bytes) :=
  traverse (fun step => index (nodes t) (sibling step)) steps.

(** ** Proof generation *)

Definition InclusionProofAt (t : Tree) (leafIndex size : Z) : result InclusionProof :=
  if (zlen (nodes t) <? size) || negb (validMMRSize size) || (dtLeafCount size <=? leafIndex)
  then Err (ErrText "invalid MMR inclusion position")
  else
    let leafPosition := MMRIndex leafIndex in
    let peakPositions := Peaks (size -u 1) in
    let peakIndex := containingPeak leafPosition peakPositions in
    if peakIndex <? 0 then Err (ErrText "leaf index is not contained in MMR")
    else
      peak ← index peakPositions peakIndex;
      match pathToPeak peak (IndexHeight peak) leafPosition with
      | None => Err (ErrText "leaf index has no path to MMR peak")
      | Some steps =>
          witness ← siblingHashes t steps;
          allPeaks ← peakHashesAtLocked t size;
          Ok {| ip_V := 1; ip_Kind := "inclusion"; ip_Size := size; ip_LeafIndex := leafIndex;
                ip_Witness := witness;
                ip_PeaksLeft := cloneProof (take (Z.to_nat peakIndex) allPeaks);
                ip_PeaksRight := cloneProof (drop (Z.to_nat (peakIndex + 1)) allPeaks) |}
      end.

Definition InclusionProofOf (t : Tree) (leafIndex size : Z) : result InclusionProof :=
  InclusionProofAt t leafIndex size.

(** The witness loop of [ConsistencyProofAt] for one old peak. *)
Definition oldPeakWitness (t : Tree) (newPositions : list Z) (oldPeak : Z) : result (list bytes) :=
  let containing := containingPeak oldPeak newPositions in
  if containing <? 0 then Err (ErrText "old peak is not contained in new MMR")
  else
    root ← index newPositions containing;
    match pathToPeak root (IndexHeight root) oldPeak with
    | None => Err (ErrText "old peak has no path to new peak")
    | Some steps => siblingHashes t steps
    end.

Definition ConsistencyProofAt (t : Tree) (oldSize newSize : Z) : result ConsistencyProof :=
  if (newSize <? oldSize) || (zlen (nodes t) <? newSize) ||
     negb (validMMRSize oldSize) || negb (validMMRSize newSize)
  then Err (ErrText "invalid MMR consistency sizes")
  else
    let oldPositions := peakPositions oldSize in
    let newPositions := peakPositions newSize in
    oldPeaks ← peakHashesAtLocked t oldSize;
    newPeaks ← peakHashesAtLocked t newSize;
    witness ← traverse (oldPeakWitness t newPositions) oldPositions;
    Ok {| cp_V := 1; cp_Kind := "consistency"; cp_OldSize := oldSize; cp_NewSize := newSize;
          cp_OldPeaks := cloneProof oldPeaks; cp_Witness := cloneWitness witness;
          cp_NewPeaks := cloneProof newPeaks |}.

Definition ConsistencyProofOf (t : Tree) (oldSize newSize : Z) : result ConsistencyProof :=
  ConsistencyProofAt t oldSize newSize.

(** [height] is the node's height; at height 0 one of the first two cases
    always applies, so the recursion is never reached there. *)
Fixpoint rangeWitnesses (t : Tree) (height : nat) (peak leafStart lo hi : Z) (out : list bytes) :
    result (list bytes) :=
  let leafEnd := leafStart +u (1 <<u Z.of_nat height) -u 1 in
  if (leafEnd <? lo) || (hi <? leafStart) then
    node ← index (nodes t) peak;
    Ok (out ++ [node])
  else if (lo <=? leafStart) && (leafEnd <=? hi) then Ok out
  else
    match height with
    | O => Err ErrPanic
    | S height' =>
        let half := 1 <<u (Z.of_nat height -u 1) in
        out' ← rangeWitnesses t height' (peak -u (1 <<u Z.of_nat height)) leafStart lo hi out;
        rangeWitnesses t height' (peak -u 1) (leafStart +u half) lo hi out'
    end.

(** The loop of [RangeProofAt] over the peaks. *)
Fixpoint rangeOverPeaks (t : Tree) (positions : list Z) (leafStart lo hi : Z) (out : list bytes) :
    result (list bytes) :=
  match positions with
  | [] => Ok out
  | peak :: rest =>
      let height := IndexHeight peak in
      out' ← rangeWitnesses t (Z.to_nat height) peak leafStart lo hi out;
      rangeOverPeaks t rest (leafStart +u (1 <<u height)) lo hi out'
  end.

Definition RangeProofAt (t : Tree) (fromIndex toIndex size : Z) : result RangeProof :=
  if toIndex <? fromIndex then Err (ErrText "invalid range")
  else if (zlen (nodes t) <? size) || negb (validMMRSize size)
  then Err (ErrText "invalid MMR range size")
  else if dtLeafCount size <=? toIndex then Err (ErrText "to_index out of range")
  else
    witness ← rangeOverPeaks t (peakPositions size) 0 fromIndex toIndex [];
    Ok {| rp_V := 1; rp_Kind := "range"; rp_Size := size; rp_FromIndex := fromIndex;
          rp_ToIndex := toIndex; rp_Witness := witness |}.

Definition RangeProofOf (t : Tree) (fromIndex toIndex size : Z) : result RangeProof :=
  RangeProofAt t fromIndex toIndex size.

(** ** Verification *)

(** The accumulator loop shared by the two path verifiers; [Ok None] is the
    early [return false] on a sibling of the wrong width. *)
Fixpoint foldPath (steps : list pathStep) (witness : list bytes) (i : Z) (accumulator : bytes) :
    result (option bytes) :=
  match steps with
  | [] => Ok (Some accumulator)
  | step :: rest =>
      sib ← index witness i;
      if badWidth sib then Ok None
      else
        foldPath rest witness (i + 1)
          (if targetIsRight step then interiorHash sib accumulator (parent step)
           else interiorHash accumulator sib (parent step))
  end.

(** The loop of [VerifyConsistency] over the old peaks. *)
Fixpoint verifyOldPeaks (proof : ConsistencyProof) (newPositions oldPositions : list Z) (i : Z) :
    result bool :=
  match oldPositions with
  | [] => Ok true
  | oldPeak :: rest =>
      let containing := containingPeak oldPeak newPositions in
      if containing <? 0 then Ok false
      else
        root ← index newPositions containing;
        match pathToPeak root (IndexHeight root) oldPeak with
        | None => Ok false
        | Some steps =>
            witness ← index (cp_Witness proof) i;
            if negb (zlen steps =? zlen witness) then Ok false
            else
              start ← index (cp_OldPeaks proof) i;
              acc ← foldPath steps witness 0 start;
              match acc with
              | None => Ok false
              | Some accumulator =>
                  newPeak ← index (cp_NewPeaks proof) containing;
                  if negb (bool_decide (accumulator = newPeak)) then Ok false
                  else verifyOldPeaks proof newPositions rest (i + 1)
              end
        end
  end.

Definition VerifyConsistency (oldRoot newRoot : bytes) (proof : ConsistencyProof) : result bool :=
  if badWidth oldRoot || badWidth newRoot || negb (cp_V proof =? 1) ||
     negb (bool_decide (cp_Kind proof = "consistency"%string)) ||
     (cp_NewSize proof <? cp_OldSize proof) ||
     negb (validMMRSize (cp_OldSize proof)) || negb (validMMRSize (cp_NewSize proof))
  then Ok false
  else
    let oldPositions := peakPositions (cp_OldSize proof) in
    let newPositions := peakPositions (cp_NewSize proof) in
    if negb (zlen (cp_OldPeaks proof) =? zlen oldPositions) ||
       negb (zlen (cp_NewPeaks proof) =? zlen newPositions) ||
       negb (zlen (cp_Witness proof) =? zlen oldPositions)
    then Ok false
    else if existsb badWidth (cp_OldPeaks proof) || existsb badWidth (cp_NewPeaks proof)
    then Ok false
    else if negb (bool_decide (RootFromPeaks (cp_OldPeaks proof) = oldRoot)) ||
            negb (bool_decide (RootFromPeaks (cp_NewPeaks proof) = newRoot))
    then Ok false
    else verifyOldPeaks proof newPositions oldPositions 0.

Definition VerifyInclusion (root : bytes) (size leafIndex : Z) (value : bytes)
    (proof : InclusionProof) : result bool :=
  if badWidth root || badWidth value || negb (ip_V proof =? 1) ||
     negb (bool_decide (ip_Kind proof = "inclusion"%string)) ||
     negb (ip_Size proof =? size) || negb (ip_LeafIndex proof =? leafIndex) ||
     negb (validMMRSize size) || (dtLeafCount size <=? leafIndex)
  then Ok false
  else
    let positions := peakPositions size in
    let leafPosition := MMRIndex leafIndex in
    let peakIndex := containingPeak leafPosition positions in
    if (peakIndex <? 0) || negb (zlen (ip_PeaksLeft proof) =? peakIndex) ||
       negb (zlen (ip_PeaksRight proof) =? zlen positions - peakIndex - 1)
    then Ok false
    else
      peak ← index positions peakIndex;
      match pathToPeak peak (IndexHeight peak) leafPosition with
      | None => Ok false
      | Some steps =>
          if negb (zlen steps =? zlen (ip_Witness proof)) then Ok false
          else
            acc ← foldPath steps (ip_Witness proof) 0 (leafHash value);
            match acc with
            | None => Ok false
            | Some accumulator =>
                let peaks := ip_PeaksLeft proof ++ [accumulator] ++ ip_PeaksRight proof in
                if existsb badWidth peaks then Ok false
                else Ok (bool_decide (RootFromPeaks peaks = root))
            end
      end.

Definition VerifyHexInclusion (root : bytes) (mmrSize leafIndex : Z) (identity : string)
    (proof : InclusionProof) : result bool :=
  match Hex.canonical identity with
  | Some id =>
      if badWidth id then Ok false else VerifyInclusion root mmrSize leafIndex id proof
  | None => Ok false
  end.

(** [Some (node, cursor)] is [(node, true)] with the advanced cursor. *)
Fixpoint reconstructRangeSubtree (height : nat) (peak leafStart lo hi : Z)
    (digestByIndex : gmap Z bytes) (witness : list bytes) (cursor : Z) : option (bytes * Z) :=
  let leafEnd := leafStart +u (1 <<u Z.of_nat height) -u 1 in
  if (leafEnd <? lo) || (hi <? leafStart) then
    node ← zget witness cursor;
    Some (node, cursor + 1)
  else
    match height with
    | O =>
        body ← digestByIndex !! leafStart;
        Some (leafHash body, cursor)
    | S height' =>
        let half := 1 <<u (Z.of_nat height -u 1) in
        '(lhs, cursor) ← reconstructRangeSubtree height' (peak -u (1 <<u Z.of_nat height))
                            leafStart lo hi digestByIndex witness cursor;
        '(rhs, cursor) ← reconstructRangeSubtree height' (peak -u 1)
                            (leafStart +u half) lo hi digestByIndex witness cursor;
        Some (interiorHash lhs rhs peak, cursor)
    end.

(** The loop of [VerifyRange] over the peaks. *)
Fixpoint reconstructPeaks (positions : list Z) (leafStart lo hi : Z)
    (digestByIndex : gmap Z bytes) (witness : list bytes) (cursor : Z) :
    option (list bytes * Z) :=
  match positions with
  | [] => Some ([], cursor)
  | peak :: rest =>
      let height := IndexHeight peak in
      '(node, cursor) ← reconstructRangeSubtree (Z.to_nat height) peak leafStart lo hi
                          digestByIndex witness cursor;
      '(reconstructed, cursor) ← reconstructPeaks rest (leafStart +u (1 <<u height)) lo hi
                          digestByIndex witness cursor;
      Some (node :: reconstructed, cursor)
  end.

(** [digestByIndex[fromIndex+uint64(index)] = digest] for every digest. *)
Fixpoint digestMap (fromIndex : Z) (i : Z) (digests : list bytes) (m : gmap Z bytes) :
    gmap Z bytes :=
  match digests with
  | [] => m
  | digest :: rest => digestMap fromIndex (i + 1) rest (<[fromIndex +u i := digest]> m)
  end.

Definition VerifyRange (root : bytes) (size fromIndex toIndex : Z) (bodyDigests : list bytes)
    (proof : RangeProof) : bool :=
  if badWidth root || negb (rp_V proof =? 1) ||
     negb (bool_decide (rp_Kind proof = "range"%string)) then false
  else if maxMMRSize <=? size then false
  else if negb (rp_Size proof =? size) || negb (rp_FromIndex proof =? fromIndex) ||
          negb (rp_ToIndex proof =? toIndex) then false
  else if (toIndex <? fromIndex) ||
          negb (zlen bodyDigests =? (toIndex -u fromIndex) +u 1) then false
  else
    let '(leaves, ok) := LeafCount size in
    if negb ok || (leaves <=? toIndex) then false
    else if existsb badWidth bodyDigests then false
    else if existsb badWidth (rp_Witness proof) then false
    else
      let digestByIndex := digestMap fromIndex 0 bodyDigests ∅ in
      match reconstructPeaks (peakPositions size) 0 fromIndex toIndex digestByIndex
              (rp_Witness proof) 0 with
      | None => false
      | Some (reconstructed, cursor) =>
          if negb (cursor =? zlen (rp_Witness proof)) then false
          else bool_decide (RootFromPeaks reconstructed = root)
      end.

End Tree.

End Mmr.
