(* ===== verification/MmrBuild.v ===== *)
(** * Building an MMR

    Well-formed trees, what [New] accepts, and how [Append] refines appending
    a value to a list: the tree of a value list is determined by it, and its
    roots and historical peaks are those of an abstract Merkle definition that
    knows nothing about node storage. *)

From S2P Require Import Prelude Sha256 Geometry DtMmr DtMmrRef Mmr.
Import Geometry Mmr.

Module MmrBuild.

Local Open Scope Z_scope.

(** ** The abstract commitment of a value list *)

(** Hash of the node of height [h] over the leaves [[ls, ls + 2^h)]. *)
Fixpoint nodeHash (vs : list bytes) (h : nat) (ls : Z) : bytes :=
  match h with
  | O => leafHash (default [] (zget vs ls))
  | S h' =>
      sha256 (be_bytes 8 (node_pos ls (Z.of_nat h) + 1)
                ++ nodeHash vs h' ls ++ nodeHash vs h' (ls + 2 ^ Z.of_nat h'))
  end.

Definition logPeaks (vs : list bytes) : list bytes :=
  map (fun m => nodeHash vs (Z.to_nat (snd m)) (fst m)) (mountains (zlen vs)).

Definition logRoot (vs : list bytes) : bytes :=
  match vs with [] => zeroHash | _ => bag_rhs sha256 (logPeaks vs) end.

(** ** Well-formed trees *)

Definition node_ok (all : list bytes) (i : Z) (node : bytes) : Prop :=
  length node = 32%nat /\
  forall ls h, aligned h ls -> 0 < h -> node_pos ls h = i ->
    exists l r, zget all (i - 2 ^ h) = Some l /\ zget all (i - 1) = Some r /\
                node = interiorHash l r i.

Record tree_wf (t : Tree) (n : Z) : Prop := {
  wf_leaves : 0 <= n <= max_leaves;
  wf_size : zlen (nodes t) = mmr_size n;
  wf_nodes : forall i node, zget (nodes t) i = Some node -> node_ok (nodes t) i node
}.

(** [t] is a well-formed tree over exactly the values [vs]. *)
Record commits (t : Tree) (vs : list bytes) : Prop := {
  commits_wf : tree_wf t (zlen vs);
  commits_width : Forall (fun v => length v = 32%nat) vs;
  commits_leaf : forall j v, zget vs j = Some v -> zget (nodes t) (mmr_size j) = Some (leafHash v)
}.

Lemma leafHash_length (v : bytes) : length (leafHash v) = 32%nat.
Proof. apply Sha256.sum256_length. Qed.

Lemma interiorHash_length (l r : bytes) (p : Z) : length (interiorHash l r p) = 32%nat.
Proof. apply Sha256.sum256_length. Qed.

Lemma badWidth_false (v : bytes) : badWidth v = false <-> length v = 32%nat.
Proof. unfold badWidth, hashSize, zlen. rewrite negb_false_iff, Z.eqb_eq. lia. Qed.

Lemma badWidth_ok (v : bytes) : length v = 32%nat -> badWidth v = false.
Proof. apply badWidth_false. Qed.

Lemma existsb_badWidth (l : list bytes) :
  existsb badWidth l = false <-> Forall (fun v => length v = 32%nat) l.
Proof.
  induction l as [|v l IH]; simpl; [by split; [constructor|]|].
  rewrite orb_false_iff, IH, badWidth_false, Forall_cons. done.
Qed.

Lemma cloneProof_id (l : list bytes) : cloneProof l = l.
Proof. apply map_id. Qed.

Lemma cloneWitness_id (l : list (list bytes)) : cloneWitness l = l.
Proof.
  unfold cloneWitness. induction l as [|x l IH]; simpl; [done|]. by rewrite cloneProof_id, IH.
Qed.

Lemma node_ok_app (all more : list bytes) (i : Z) (node : bytes) :
  node_ok all i node -> node_ok (all ++ more) i node.
Proof.
  intros [Hw Hc]. split; [done|]. intros ls h Hal Hh Hpos.
  destruct (Hc ls h Hal Hh Hpos) as (l & r & Hl & Hr & ->).
  pose proof (zget_Some_range _ _ _ Hl). pose proof (zget_Some_range _ _ _ Hr).
  exists l, r. rewrite !zget_app_l by lia. done.
Qed.

(** No wrap-around in the child indices of a node. *)
Lemma children_index (ls h : Z) :
  aligned h ls -> 0 < h -> node_pos ls h < two63 ->
  u64_sub (node_pos ls h) (u64_shl 2 (u64_sub h 1)) = node_pos ls h - 2 ^ h /\
  u64_sub (node_pos ls h) 1 = node_pos ls h - 1 /\
  0 <= node_pos ls h - 2 ^ h < node_pos ls h - 1 + 1.
Proof.
  intros Hal Hh Hlt. pose proof Hal as (Hh0 & Hls & _).
  pose proof (node_pos_height_bound ls h Hh0 Hls Hlt).
  assert (2 ^ h <= node_pos ls h).
  { unfold node_pos. rewrite pow2_succ by lia. pose proof (mmr_size_ge ls Hls).
    pose proof (pow2_le 1 h ltac:(lia)). change (2 ^ 1) with 2 in *. lia. }
  assert (2 * 2 ^ (h - 1) = 2 ^ h) by (rewrite (pow2_pred h) by lia; done).
  pose proof (pow2_pos h Hh0).
  assert (two64 = 2 * two63) by reflexivity.
  rewrite (u64_sub_small h 1) by (unfold two64; lia).
  rewrite (u64_shl_small 2 (h - 1)) by lia.
  rewrite !u64_sub_small by lia. split; [lia|split; [done|lia]].
Qed.

Lemma u64_succ_small (p : Z) : 0 <= p < two63 -> u64_add p 1 = p + 1.
Proof. intros. apply u64_add_small. unfold two64, two63 in *. lia. Qed.

Section Laws.
Context `{DT : DtMmr} `{!DtMmrLaws DT}.

(** ** Sizes *)

Lemma validMMRSize_complete (n : Z) : 0 <= n <= max_leaves -> validMMRSize (mmr_size n) = true.
Proof.
  intros Hn. pose proof (mmr_size_bound n Hn). pose proof (mmr_size_ge n ltac:(lia)).
  unfold validMMRSize. destruct (Z.eqb_spec (mmr_size n) 0); [done|].
  rewrite (proj2 (Z.ltb_ge _ _)) by lia. apply Z.eqb_eq.
  rewrite u64_sub_small by (unfold two63, two64 in *; lia).
  assert (0 < n) by (destruct (Z.eq_dec n 0) as [->|]; [done|lia]).
  rewrite (law_FirstMMRSize (n - 1)); [f_equal; lia|lia|].
  pose proof (mmr_size_strict (n - 1) n). replace (n - 1 + 1) with n by lia. lia.
Qed.

Lemma validMMRSize_iff (size : Z) :
  0 <= size -> validMMRSize size = true <-> exists n, 0 <= n <= max_leaves /\ size = mmr_size n.
Proof.
  intros Hs. split; [|by intros (n & Hn & ->); apply validMMRSize_complete].
  unfold validMMRSize. destruct (Z.eqb_spec size 0) as [->|Hne].
  { intros _. exists 0. unfold max_leaves. done. }
  destruct (Z.ltb_spec (two63 - 1) size) as [|Hle]; [done|]. intros Heq%Z.eqb_eq.
  rewrite u64_sub_small in Heq by (unfold two63, two64 in *; lia).
  destruct (enclosing_leaf (size - 1) ltac:(lia)) as (n & Hn & Hb).
  assert (n < max_leaves).
  { apply mmr_size_lt_inv; [done|by unfold max_leaves|]. rewrite mmr_size_max. lia. }
  rewrite (law_FirstMMRSize n) in Heq by lia. exists (n + 1). split; [lia|done].
Qed.

Lemma LeafCount_complete (n : Z) : 0 <= n <= max_leaves -> LeafCount (mmr_size n) = (n, true).
Proof.
  intros Hn. unfold LeafCount. rewrite validMMRSize_complete by done. simpl.
  by rewrite law_LeafCount.
Qed.

Lemma peakPositions_complete (n : Z) :
  0 <= n <= max_leaves -> peakPositions (mmr_size n) = peak_positions n.
Proof.
  intros Hn. unfold peakPositions. pose proof (mmr_size_bound n Hn).
  pose proof (mmr_size_ge n ltac:(lia)).
  destruct (Z.eqb_spec (mmr_size n) 0) as [Heq|Hne].
  - assert (n = 0) as -> by lia. reflexivity.
  - rewrite u64_sub_small by (unfold two63, two64 in *; lia).
    apply law_Peaks. destruct (Z.eq_dec n 0) as [->|]; [done|lia].
Qed.

(** ** What [New] accepts *)

Lemma height_unique (ls h ls' h' : Z) :
  aligned h ls -> aligned h' ls' -> node_pos ls h < two63 -> node_pos ls' h' = node_pos ls h -> h' = h.
Proof.
  intros Hal Hal' Hlt Heq. rewrite <- (law_IndexHeight ls' h'), Heq by (done || lia).
  by apply law_IndexHeight.
Qed.

Lemma checkNodes_step (all rest : list bytes) (i : Z) (node : bytes) :
  0 <= i < two63 -> i < zlen all ->
  (node_ok all i node /\ checkNodes all (node :: rest) i = checkNodes all rest (i + 1)) \/
  (~ node_ok all i node /\ exists text, checkNodes all (node :: rest) i = Err (ErrText text)).
Proof.
  intros Hi Hlen. destruct (node_pos_total i ltac:(lia)) as (ls & h & Hal & <-).
  pose proof Hal as (Hh & Hls & _). cbn [checkNodes].
  rewrite law_IndexHeight by (done || lia). unfold node_ok.
  destruct (badWidth node) eqn:Hw.
  { right. split; [|eauto]. intros [Hlen' _]. apply badWidth_ok in Hlen'. congruence. }
  apply badWidth_false in Hw. destruct (Z.eqb_spec h 0) as [->|Hne].
  - left. split; [|done]. split; [done|]. intros ls' h' Hal' Hh' Heq.
    pose proof (height_unique ls 0 ls' h' Hal Hal' ltac:(lia) Heq). lia.
  - destruct (children_index ls h Hal ltac:(lia) ltac:(lia)) as (-> & -> & Hrange).
    pose proof (pow2_pos h Hh).
    destruct (zget_in_range all (node_pos ls h - 2 ^ h) ltac:(lia)) as [l Hl].
    destruct (zget_in_range all (node_pos ls h - 1) ltac:(lia)) as [r Hr].
    unfold index. rewrite Hl, Hr. cbn [mbind result_bind].
    case_bool_decide as Heq; simpl.
    + left. split; [|done]. split; [done|]. intros ls' h' Hal' Hh' Hpos.
      rewrite (height_unique ls h ls' h' Hal Hal' ltac:(lia) Hpos). eauto.
    + right. split; [|eauto]. intros [_ Hc].
      destruct (Hc ls h Hal ltac:(lia) eq_refl) as (l' & r' & Hl' & Hr' & ->). naive_solver.
Qed.

Lemma checkNodes_spec (all rest : list bytes) (i : Z) :
  0 <= i -> i + zlen rest <= zlen all -> zlen all < two63 ->
  (checkNodes all rest i = Ok tt <->
     forall j node, zget rest j = Some node -> node_ok all (i + j) node) /\
  checkNodes all rest i <> Err ErrPanic.
Proof.
  revert i. induction rest as [|node rest IH]; intros i Hi Hlen Hmax.
  { split; [|done]. split; [|done]. intros _ j node Hj%zget_Some_range. change (zlen []) with 0 in Hj. lia. }
  rewrite zlen_cons in Hlen. pose proof (zlen_nonneg rest).
  destruct (IH (i + 1) ltac:(lia) ltac:(lia) Hmax) as [IHok IHpanic].
  destruct (checkNodes_step all rest i node ltac:(lia) ltac:(lia)) as [[Hok ->]|[Hbad (text & ->)]].
  - split; [|done]. rewrite IHok. split; intros Hall j x Hj.
    + pose proof (zget_Some_range _ _ _ Hj). rewrite zget_lookup in Hj by lia.
      destruct (Z.eq_dec j 0) as [->|Hne]; [rewrite Z.add_0_r; naive_solver|].
      replace (Z.to_nat j) with (S (Z.to_nat (j - 1))) in Hj by lia. simpl in Hj.
      replace (i + j) with (i + 1 + (j - 1)) by lia. apply Hall. by rewrite zget_lookup by lia.
    + replace (i + 1 + j) with (i + (j + 1)) by lia. apply Hall.
      pose proof (zget_Some_range _ _ _ Hj). rewrite zget_lookup in * by lia.
      replace (Z.to_nat (j + 1)) with (S (Z.to_nat j)) by lia. done.
  - split; [|done]. split; [done|]. intros Hall. contradict Hbad.
    rewrite <- (Z.add_0_r i). by apply Hall.
Qed.

Lemma New_accepts (input : list bytes) (t : Tree) :
  New input = Ok t <-> t = MkTree input /\ exists n, tree_wf t n.
Proof.
  unfold New. cbn [nodes]. rewrite cloneProof_id. split.
  - destruct (validMMRSize (zlen input)) eqn:Hv; simpl; [|done].
    apply validMMRSize_iff in Hv as (n & Hn & Hlen); [|apply zlen_nonneg].
    pose proof (mmr_size_bound n Hn).
    destruct (checkNodes_spec input input 0 ltac:(done) ltac:(lia) ltac:(lia)) as [Hok _].
    destruct (checkNodes input input 0) as [[]|]; simpl; [|done]. intros [= <-].
    split; [done|]. exists n. split; try done. by apply Hok.
  - intros (-> & n & [Hn Hlen Hnodes]). simpl in *.
    rewrite Hlen, validMMRSize_complete by done. simpl.
    pose proof (mmr_size_bound n Hn).
    destruct (checkNodes_spec input input 0 ltac:(done) ltac:(lia) ltac:(lia)) as [[_ Hok] _].
    by rewrite Hok.
Qed.

Lemma New_no_panic (input : list bytes) : New input <> Err ErrPanic.
Proof.
  unfold New. cbn [nodes]. rewrite cloneProof_id.
  destruct (validMMRSize (zlen input)) eqn:Hv; simpl; [|done].
  apply validMMRSize_iff in Hv as (n & Hn & Hlen); [|apply zlen_nonneg].
  pose proof (mmr_size_bound n Hn).
  destruct (checkNodes_spec input input 0 ltac:(done) ltac:(lia) ltac:(lia)) as [_ Hp].
  destruct (checkNodes input input 0); simpl; [done|]. naive_solver.
Qed.

(** ** Appending *)

Lemma nodeStore_represents :
  store_represents nodeStore_Get nodeStore_Append (fun t ns => nodes t = ns).
Proof.
  split.
  - intros t ns i v <- Hv. unfold nodeStore_Get. by rewrite Hv.
  - intros t ns v <- _ _. exists (MkTree (nodes t ++ [v])). split; [|done].
    unfold nodeStore_Append. simpl. by rewrite zlen_app.
Qed.

Lemma Append_wf (t : Tree) (n : Z) (value : bytes) :
  tree_wf t n -> n < max_leaves -> length value = 32%nat ->
  exists t' added,
    Append t value = (t', Ok (mmr_size (n + 1))) /\
    nodes t' = nodes t ++ leafHash value :: added /\ tree_wf t' (n + 1).
Proof.
  intros [Hn Hlen Hnodes] Hmax Hw. unfold Append. rewrite badWidth_ok by done.
  edestruct (law_AddHashedLeaf Tree nodeStore_Get nodeStore_Append (fun t ns => nodes t = ns) sha256
    t (nodes t) (leafHash value) n nodeStore_represents Sha256.sum256_length) as (t' & Happ & Hrep);
    [done..|lia|apply leafHash_length|].
  rewrite Happ.
  destruct (backfill_spec IndexHeight law_IndexHeight sha256 n 64 0 (nodes t ++ [leafHash value]))
    as (added & Hb & Hsize & Hnew); [lia|apply aligned_zero; lia|autorewrite with golen; lia|done|].
  rewrite Hb in Hrep. rewrite Hb, Hsize. rewrite <- app_assoc in Hrep. simpl in Hrep.
  exists t', added. split; [done|]. split; [done|].
  rewrite <- app_assoc in Hsize, Hnew. simpl in Hsize, Hnew.
  pose proof (mmr_size_bound (n + 1) ltac:(lia)).
  split; [lia|by rewrite Hrep|]. rewrite Hrep. intros i node Hget.
  pose proof (zget_Some_range _ _ _ Hget) as Hrange. rewrite Hsize in Hrange.
  destruct (Z.lt_trichotomy i (zlen (nodes t))) as [Hlt|[Heq|Hgt]].
  - rewrite zget_app_l in Hget by done. by apply node_ok_app, Hnodes.
  - rewrite zget_app_r, Heq, Z.sub_diag in Hget by lia. injection Hget as <-.
    split; [apply leafHash_length|]. intros ls h Hal Hh Hpos.
    rewrite Heq, Hlen, <- node_pos_leaf in Hpos.
    pose proof (height_unique n 0 ls h (aligned_zero n ltac:(lia)) Hal) as Hu.
    rewrite node_pos_leaf in Hu. rewrite node_pos_leaf in Hpos. lia.
  - destruct (Hnew i node) as (g & Hg & Hg0 & Halg & Hi & ->); [|done|].
    { autorewrite with golen. lia. }
    split; [apply Sha256.sum256_length|]. intros ls h Hal Hh Hpos.
    assert (h = g) as ->.
    { rewrite <- Hg, <- Hpos. symmetry. apply law_IndexHeight; [done|lia]. }
    destruct (children_index ls g Hal Hh ltac:(lia)) as (_ & _ & Hcr). rewrite Hpos in Hcr.
    destruct (zget_in_range (nodes t ++ leafHash value :: added) (i - 2 ^ g) ltac:(lia)) as [l Hl].
    destruct (zget_in_range (nodes t ++ leafHash value :: added) (i - 1) ltac:(lia)) as [r Hr].
    exists l, r. rewrite Hl, Hr. split; [done|split; [done|]].
    unfold interiorHash. by rewrite u64_succ_small by lia.
Qed.

Lemma zget_snoc_inv {A} (l : list A) (a b : A) (j : Z) :
  zget (l ++ [a]) j = Some b -> (j = zlen l /\ b = a) \/ zget l j = Some b.
Proof.
  intros Hj. pose proof (zget_Some_range _ _ _ Hj) as Hr. autorewrite with golen in Hr.
  destruct (Z.eq_dec j (zlen l)) as [->|Hne].
  - rewrite zget_snoc in Hj. naive_solver.
  - rewrite zget_app_l in Hj by lia. auto.
Qed.

Lemma Append_commits (t : Tree) (vs : list bytes) (value : bytes) :
  commits t vs -> zlen vs < max_leaves -> length value = 32%nat ->
  exists t' added,
    Append t value = (t', Ok (mmr_size (zlen vs + 1))) /\
    nodes t' = nodes t ++ leafHash value :: added /\ commits t' (vs ++ [value]).
Proof.
  intros [Hwf Hwidth Hleaf] Hmax Hw.
  destruct (Append_wf t (zlen vs) value Hwf Hmax Hw) as (t' & added & Happ & Hnodes & Hwf').
  exists t', added. split; [done|]. split; [done|]. split.
  - by autorewrite with golen.
  - apply Forall_app. auto.
  - intros j v [[-> ->]|Hj]%zget_snoc_inv; rewrite Hnodes.
    + rewrite <- (wf_size _ _ Hwf), zget_app_r, Z.sub_diag by lia. done.
    + pose proof (Hleaf j v Hj) as Hv. pose proof (zget_Some_range _ _ _ Hv).
      by rewrite zget_app_l by lia.
Qed.

Lemma empty_commits : commits (MkTree []) [].
Proof.
  split; [split|constructor|].
  - change (zlen (@nil bytes)) with 0. unfold max_leaves. lia.
  - done.
  - intros i node Hi%zget_Some_range. change (zlen (nodes (MkTree []))) with 0 in Hi. lia.
  - intros j v Hj%zget_Some_range. change (zlen []) with 0 in Hj. lia.
Qed.

(** The tree built over a list of values. *)
Definition treeOf (vs : list bytes) : Tree := fold_left (fun t v => fst (Append t v)) vs (MkTree []).

Lemma treeOf_commits_from (vs pre : list bytes) (t : Tree) :
  commits t pre -> zlen pre + zlen vs <= max_leaves ->
  Forall (fun v => length v = 32%nat) vs ->
  commits (fold_left (fun t v => fst (Append t v)) vs t) (pre ++ vs).
Proof.
  revert pre t. induction vs as [|v vs IH]; intros pre t Hc Hmax Hall; cbn [fold_left].
  { by rewrite app_nil_r. }
  apply Forall_cons in Hall as [Hv Hall]. rewrite zlen_cons in Hmax. pose proof (zlen_nonneg vs).
  destruct (Append_commits t pre v Hc ltac:(lia) Hv) as (t' & added & Ha & _ & Hc').
  rewrite Ha. replace (pre ++ v :: vs) with ((pre ++ [v]) ++ vs) by by rewrite <- app_assoc.
  apply IH; [done| |done]. autorewrite with golen. lia.
Qed.

Lemma treeOf_commits (vs : list bytes) :
  zlen vs <= max_leaves -> Forall (fun v => length v = 32%nat) vs -> commits (treeOf vs) vs.
Proof. intros Hmax Hall. apply (treeOf_commits_from vs []); [apply empty_commits|done|done]. Qed.

(** ** Nodes, peaks and roots of a committed list *)

Lemma commits_length (t : Tree) (vs : list bytes) :
  commits t vs -> zlen (nodes t) = mmr_size (zlen vs) /\ 0 <= zlen vs <= max_leaves /\
  mmr_size (zlen vs) < two63.
Proof.
  intros [[Hn Hs _] _ _]. pose proof (mmr_size_bound _ Hn). lia.
Qed.

Lemma commits_node (t : Tree) (vs : list bytes) (h : nat) (ls : Z) :
  commits t vs -> aligned (Z.of_nat h) ls -> ls + 2 ^ Z.of_nat h <= zlen vs ->
  zget (nodes t) (node_pos ls (Z.of_nat h)) = Some (nodeHash vs h ls).
Proof.
  intros Hc. pose proof (commits_length t vs Hc) as (Hlen & Hn & Hmax).
  revert ls. induction h as [|h IH]; intros ls Hal Hle.
  - pose proof Hal as (_ & Hls & _). change (2 ^ Z.of_nat 0) with 1 in Hle.
    destruct (zget_in_range vs ls ltac:(lia)) as [v Hv].
    rewrite node_pos_leaf. simpl. rewrite Hv. by apply (commits_leaf t vs Hc).
  - pose proof Hal as (_ & Hls & _).
    assert (node_pos ls (Z.of_nat (S h)) < mmr_size (zlen vs)) as Hb by (apply node_pos_below; done || lia).
    pose proof (node_pos_nonneg ls (Z.of_nat (S h)) ltac:(lia) Hls).
    destruct (zget_in_range (nodes t) (node_pos ls (Z.of_nat (S h))) ltac:(lia)) as [node Hnode].
    destruct (wf_nodes _ _ (commits_wf _ _ Hc) _ _ Hnode) as [_ Hchild].
    destruct (Hchild _ _ Hal ltac:(lia) eq_refl) as (l & r & Hl & Hr & ->). rewrite Hnode.
    rewrite <- node_pos_left in Hl by lia.
    rewrite <- node_pos_right in Hr by (done || lia).
    pose proof (aligned_left ls (Z.of_nat (S h)) ltac:(lia) Hal) as Hall.
    pose proof (aligned_right ls (Z.of_nat (S h)) ltac:(lia) Hal) as Halr.
    rewrite (pow2_pred (Z.of_nat (S h))) in Hle by lia.
    replace (Z.of_nat (S h) - 1) with (Z.of_nat h) in * by lia.
    pose proof (pow2_pos (Z.of_nat h)).
    rewrite IH in Hl by (done || lia). rewrite IH in Hr by (done || lia).
    injection Hl as <-. injection Hr as <-. cbn [nodeHash]. unfold interiorHash.
    by rewrite u64_succ_small by lia.
Qed.

(** The values determine the tree. *)
Lemma commits_unique (t t' : Tree) (vs : list bytes) : commits t vs -> commits t' vs -> t = t'.
Proof.
  intros Hc Hc'. destruct (commits_length t vs Hc) as (Hlen & Hn & _).
  destruct (commits_length t' vs Hc') as (Hlen' & _ & _).
  destruct t as [ns], t' as [ns']. f_equal. cbn [nodes] in *. apply list_eq. intros i.
  destruct (Z.lt_ge_cases (Z.of_nat i) (mmr_size (zlen vs))) as [Hi|Hi].
  - destruct (node_pos_total (Z.of_nat i) ltac:(lia)) as (ls & h & Hal & Hpos). pose proof Hal as (Hh & _ & _).
    assert (ls + 2 ^ h <= zlen vs) as Hle by (apply node_pos_below; [done|lia|by rewrite Hpos]).
    rewrite <- (Z2Nat.id h Hh) in Hal, Hle, Hpos.
    pose proof (commits_node _ _ _ _ Hc Hal Hle) as H1. pose proof (commits_node _ _ _ _ Hc' Hal Hle) as H2.
    cbn [nodes] in H1, H2. rewrite Hpos in H1, H2. rewrite zget_lookup, Nat2Z.id in H1, H2 by lia. congruence.
  - rewrite !lookup_ge_None_2; [done| |]; unfold zlen in *; lia.
Qed.

Lemma nodeHash_take (vs : list bytes) (m : Z) (h : nat) (ls : Z) :
  0 <= ls -> ls + 2 ^ Z.of_nat h <= m -> m <= zlen vs ->
  nodeHash (take (Z.to_nat m) vs) h ls = nodeHash vs h ls.
Proof.
  revert ls. induction h as [|h IH]; intros ls Hls Hle Hm.
  - simpl. change (2 ^ Z.of_nat 0) with 1 in Hle. rewrite !zget_lookup by done.
    by rewrite lookup_take_lt by lia.
  - rewrite (pow2_pred (Z.of_nat (S h))) in Hle by lia.
    replace (Z.of_nat (S h) - 1) with (Z.of_nat h) in * by lia.
    pose proof (pow2_pos (Z.of_nat h)). cbn [nodeHash]. by rewrite !IH by lia.
Qed.

Lemma zlen_take {A} (l : list A) (m : Z) : 0 <= m <= zlen l -> zlen (take (Z.to_nat m) l) = m.
Proof. intros. unfold zlen in *. rewrite length_take. lia. Qed.

(** The peaks at a historical size are those of the prefix. *)
Lemma logPeaks_take (vs : list bytes) (m : Z) :
  0 <= m <= zlen vs -> m <= max_leaves ->
  logPeaks (take (Z.to_nat m) vs) =
  map (fun p => nodeHash vs (Z.to_nat (snd p)) (fst p)) (mountains m).
Proof.
  intros Hm Hmax. unfold logPeaks. rewrite zlen_take by done.
  apply map_ext_in. intros [s h] Hin%list_elem_of_In. cbn [fst snd].
  destruct (mountain_facts m s h ltac:(lia) Hin) as (_ & _ & Hh & Hs & Hle & _).
  apply nodeHash_take; rewrite ?Z2Nat.id by lia; lia.
Qed.

Lemma commits_peaks (t : Tree) (vs : list bytes) (m : Z) (get : Z -> result bytes) :
  commits t vs -> 0 <= m <= zlen vs ->
  (forall i v, zget (nodes t) i = Some v -> get i = Ok v) ->
  traverse get (peak_positions m) = Ok (logPeaks (take (Z.to_nat m) vs)).
Proof.
  intros Hc Hm Hget. pose proof (commits_length t vs Hc) as (Hlen & Hn & Hmax).
  rewrite logPeaks_take by lia. apply traverse_Ok. unfold peak_positions.
  apply Forall2_fmap_l, Forall2_fmap_r, Forall_Forall2_diag, Forall_forall.
  intros [s h] Hin. cbn [fst snd].
  destruct (mountain_facts m s h ltac:(lia) Hin) as (_ & Hal & Hh & Hs & Hle & _).
  apply Hget. cbn [fst snd]. rewrite <- (Z2Nat.id h) at 1 by lia.
  apply commits_node; rewrite ?Z2Nat.id by lia; done || lia.
Qed.

Lemma logPeaks_length (vs : list bytes) : zlen (logPeaks vs) = zlen (peak_positions (zlen vs)).
Proof. unfold zlen, logPeaks, peak_positions. by rewrite !length_map. Qed.

Lemma mountains_nonempty (n : Z) : 0 < n <= max_leaves -> mountains n <> [].
Proof.
  intros Hn Hnil. pose proof (mountains_tile n ltac:(lia)) as Ht. rewrite Hnil in Ht.
  inversion Ht. lia.
Qed.

Lemma logPeaks_nonempty (vs : list bytes) :
  0 < zlen vs <= max_leaves -> logPeaks vs <> [].
Proof.
  intros Hn H%map_eq_nil. by apply (mountains_nonempty (zlen vs)).
Qed.

Lemma RootFromPeaks_cons (peaks : list bytes) :
  peaks <> [] -> RootFromPeaks peaks = bag_rhs sha256 peaks.
Proof.
  intros Hne. unfold RootFromPeaks. rewrite cloneProof_id.
  destruct peaks as [|p ps]; [done|]. rewrite zlen_cons. pose proof (zlen_nonneg ps).
  rewrite (proj2 (Z.eqb_neq _ _)) by lia. by apply law_HashPeaksRHS.
Qed.

Lemma RootFromPeaks_logPeaks (vs : list bytes) :
  zlen vs <= max_leaves -> RootFromPeaks (logPeaks vs) = logRoot vs.
Proof.
  intros Hmax. destruct vs as [|v vs]; [done|].
  apply RootFromPeaks_cons, logPeaks_nonempty. rewrite zlen_cons in *.
  pose proof (zlen_nonneg vs). lia.
Qed.

Lemma bag_rhs_length (peaks : list bytes) :
  peaks <> [] -> Forall (fun v => length v = 32%nat) peaks -> length (bag_rhs sha256 peaks) = 32%nat.
Proof.
  intros Hne Hall. destruct peaks as [|p [|q ps]]; [done|by inversion Hall|apply Sha256.sum256_length].
Qed.

Lemma nodeHash_length (vs : list bytes) (h : nat) (ls : Z) : length (nodeHash vs h ls) = 32%nat.
Proof. destruct h; apply Sha256.sum256_length. Qed.

Lemma logPeaks_width (vs : list bytes) : Forall (fun v => length v = 32%nat) (logPeaks vs).
Proof. apply Forall_fmap, Forall_true. intros x. apply nodeHash_length. Qed.

Lemma logRoot_length (vs : list bytes) : zlen vs <= max_leaves -> length (logRoot vs) = 32%nat.
Proof.
  intros Hmax. destruct vs as [|v vs]; [done|]. apply bag_rhs_length; [|apply logPeaks_width].
  apply logPeaks_nonempty. rewrite zlen_cons in *. pose proof (zlen_nonneg vs). lia.
Qed.

Lemma get_store (t : Tree) (i : Z) (v : bytes) :
  zget (nodes t) i = Some v -> nodeStore_Get t i = Ok v.
Proof. intros Hv. unfold nodeStore_Get. by rewrite Hv. Qed.

Lemma peakHashesAtLocked_commits (t : Tree) (vs : list bytes) (m : Z) :
  commits t vs -> 0 <= m <= zlen vs ->
  peakHashesAtLocked t (mmr_size m) = Ok (logPeaks (take (Z.to_nat m) vs)).
Proof.
  intros Hc Hm. pose proof (commits_length t vs Hc) as (Hlen & Hn & Hmax).
  unfold peakHashesAtLocked. pose proof (mmr_size_mono m (zlen vs)). pose proof (mmr_size_ge m).
  destruct (Z.eqb_spec (mmr_size m) 0) as [Hz|Hnz].
  { assert (m = 0) as -> by lia. done. }
  rewrite (proj2 (Z.ltb_ge _ _)), validMMRSize_complete by lia. simpl.
  rewrite u64_sub_small by (unfold two63, two64 in *; lia).
  assert (0 < m) by (destruct (Z.eq_dec m 0) as [->|]; [done|lia]).
  rewrite (law_PeakHashes _ m (logPeaks (take (Z.to_nat m) vs))); [|lia|].
  { simpl. by rewrite cloneProof_id. }
  apply (commits_peaks t); [done|done|apply get_store].
Qed.

Lemma Root_commits (t : Tree) (vs : list bytes) : commits t vs -> Root t = Ok (logRoot vs).
Proof.
  intros Hc. pose proof (commits_length t vs Hc) as (Hlen & Hn & Hmax). unfold Root.
  rewrite Hlen. pose proof (mmr_size_ge (zlen vs)).
  destruct vs as [|v vs]; [done|]. rewrite zlen_cons in *. pose proof (zlen_nonneg vs).
  rewrite (proj2 (Z.eqb_neq _ _)) by lia.
  apply law_GetRoot; [lia|].
  pose proof (commits_peaks t (v :: vs) (zlen vs + 1) (nodeStore_Get t) Hc) as Hp.
  rewrite zlen_cons in Hp. rewrite Hp; [|lia|apply get_store].
  do 2 f_equal. apply take_ge. unfold zlen. simpl. lia.
Qed.

End Laws.

(** ** Claims *)

Section Claims.
Context `{DT : DtMmr} `{!DtMmrLaws DT}.

(** C1: [New] accepts a node sequence exactly when it is a complete MMR of
    32-byte nodes in which every interior node is the hash of its position and
    its two children, and then it returns that sequence; on every other input
    it returns an error and never panics. *)
Theorem New_accepts_exactly_wellformed (input : list bytes) :
  (forall t, New input = Ok t <-> t = MkTree input /\ exists n, tree_wf t n) /\
  New input <> Err ErrPanic.
Proof. split; [intros t; apply New_accepts|apply New_no_panic]. Qed.

(** C2: appending a 32-byte value to the tree of [vs] succeeds, returns the
    size of the MMR over one more leaf, keeps every existing node, and yields
    the tree of [vs ++ [value]]; a value of any other width is refused and the
    tree is unchanged. *)
Theorem Append_refines_snoc (t : Tree) (vs : list bytes) (value : bytes) :
  commits t vs -> zlen vs < max_leaves ->
  (length value = 32%nat ->
     exists t', Append t value = (t', Ok (mmr_size (zlen vs + 1))) /\
       (exists added, nodes t' = nodes t ++ added) /\ commits t' (vs ++ [value])) /\
  (length value <> 32%nat -> fst (Append t value) = t /\ is_ok (snd (Append t value)) = false).
Proof.
  intros Hc Hmax. split.
  - intros Hw. destruct (Append_commits t vs value Hc Hmax Hw) as (t' & added & Ha & Hn & Hc').
    exists t'. eauto.
  - intros Hw. unfold Append. destruct (badWidth value) eqn:E; [done|].
    by apply badWidth_false in E.
Qed.

(** The root of the tree of [vs] is the Merkle root of [vs], and the peaks
    it reports at any earlier complete size are those of the prefix of that
    many leaves. *)
Lemma roots_are_log_roots (t : Tree) (vs : list bytes) :
  commits t vs ->
  Root t = Ok (logRoot vs) /\
  forall m, 0 <= m <= zlen vs ->
    PeakHashesAt t (mmr_size m) = Ok (logPeaks (take (Z.to_nat m) vs)) /\
    RootFromPeaks (logPeaks (take (Z.to_nat m) vs)) = logRoot (take (Z.to_nat m) vs).
Proof.
  intros Hc. pose proof (commits_length t vs Hc) as (_ & Hn & _).
  split; [by apply Root_commits|]. intros m Hm.
  split; [by apply peakHashesAtLocked_commits|].
  apply RootFromPeaks_logPeaks. rewrite zlen_take; lia.
Qed.

End Claims.

(** ** Witnesses *)

Import Ref.

Definition sampleValue (b : byte) : bytes := replicate 32 b.
Definition sampleValues : list bytes := [sampleValue x01; sampleValue x02; sampleValue x03].

(** The tree built by the reference implementation over the sample values. *)
Definition buildTree (vs : list bytes) : Tree := treeOf (DT := dt_reference) vs.

Lemma sample_commits : commits (buildTree sampleValues) sampleValues.
Proof. apply (treeOf_commits (DT := dt_reference)); [vm_compute; congruence|]. by repeat constructor. Qed.

Lemma New_accepts_exactly_wellformed_witness :
  New (DT := dt_reference) (nodes (buildTree sampleValues)) = Ok (buildTree sampleValues).
Proof.
  apply (New_accepts_exactly_wellformed (DT := dt_reference)). split.
  - by destruct (buildTree sampleValues).
  - exists 3. apply sample_commits.
Defined.

Lemma Append_refines_snoc_witness :
  exists t', Append (DT := dt_reference) (buildTree sampleValues) (sampleValue x04) = (t', Ok 7) /\
    commits t' (sampleValues ++ [sampleValue x04]).
Proof.
  destruct (Append_refines_snoc (DT := dt_reference) (buildTree sampleValues) sampleValues
    (sampleValue x04) sample_commits eq_refl) as [H _].
  destruct (H eq_refl) as (t' & Ha & _ & Hc). exists t'. split; [exact Ha|exact Hc].
Defined.

End MmrBuild.
