(* ===== verification/MmrPaths.v ===== *)
(** * Paths to peaks

    [containingPeak] finds the mountain of a position, [pathToPeak] the path
    from any node of a mountain to its peak, and folding the siblings along
    that path rebuilds the peak. *)

From S2P Require Import Prelude Sha256 Geometry DtMmr Mmr MmrBuild.
Import Geometry Mmr MmrBuild.

Module MmrPaths.

Local Open Scope Z_scope.

(** ** Climbing a path with known sibling values *)

Definition combine (step : pathStep) (sib acc : bytes) : bytes :=
  if targetIsRight step then interiorHash sib acc (parent step)
  else interiorHash acc sib (parent step).

Fixpoint climb (val : Z -> bytes) (steps : list pathStep) (acc : bytes) : bytes :=
  match steps with
  | [] => acc
  | step :: rest => climb val rest (combine step (val (sibling step)) acc)
  end.

Lemma climb_app (val : Z -> bytes) (a b : list pathStep) (acc : bytes) :
  climb val (a ++ b) acc = climb val b (climb val a acc).
Proof. revert acc. induction a as [|s a IH]; intros acc; simpl; [done|]. apply IH. Qed.

(** [val] gives every interior node up to [top] the hash of its children. *)
Definition hashes_children (val : Z -> bytes) (top : Z) : Prop :=
  forall ls h, aligned h ls -> 0 < h -> node_pos ls h <= top ->
    val (node_pos ls h) =
    interiorHash (val (node_pos ls h - 2 ^ h)) (val (node_pos ls h - 1)) (node_pos ls h).

(** A path that is good for every consistent valuation. *)
Definition path_ok (steps : list pathStep) (target top : Z) : Prop :=
  Forall (fun s => 0 <= sibling s < top) steps /\
  forall val, hashes_children val top -> climb val steps (val target) = val top.

(** The child indices computed by [pathToPeak]. *)
Lemma descend_index (ls h : Z) :
  aligned h ls -> 0 < h -> node_pos ls h < two63 ->
  u64_sub (u64_sub (node_pos ls h) (u64_sub (u64_shl 1 h) 1)) 1 = node_pos ls (h - 1) /\
  u64_sub (node_pos ls h) 1 = node_pos (ls + 2 ^ (h - 1)) (h - 1).
Proof.
  intros Hal Hh Hlt. pose proof Hal as (Hh0 & Hls & _).
  pose proof (node_pos_height_bound ls h Hh0 Hls Hlt).
  destruct (children_index ls h Hal Hh Hlt) as (_ & Hr & Hrange).
  rewrite Hr, node_pos_left, node_pos_right by (done || lia).
  pose proof (pow2_pos h Hh0). split; [|done].
  rewrite u64_shl_one by lia.
  assert (two64 = 2 * two63) by reflexivity.
  rewrite (u64_sub_small (2 ^ h)) by lia.
  rewrite (u64_sub_small (node_pos ls h)) by lia.
  rewrite u64_sub_small by lia. lia.
Qed.

Lemma pathLoop_spec (h : nat) (ls target : Z) (acc : list pathStep) :
  aligned (Z.of_nat h) ls -> node_pos ls (Z.of_nat h) < two63 ->
  mmr_size ls <= target <= node_pos ls (Z.of_nat h) ->
  exists down, pathLoop h (node_pos ls (Z.of_nat h)) target acc = (acc ++ down, target) /\
    path_ok (reverse down) target (node_pos ls (Z.of_nat h)).
Proof.
  revert ls acc. induction h as [|h IH]; intros ls acc Hal Hlt Htarget.
  - exists []. rewrite app_nil_r. rewrite node_pos_leaf in *.
    assert (target = mmr_size ls) as -> by lia. done.
  - pose proof Hal as (_ & Hls & _). set (p := node_pos ls (Z.of_nat (S h))) in *.
    cbn [pathLoop]. destruct (Z.eqb_spec p target) as [->|Hne].
    { exists []. rewrite app_nil_r. done. }
    destruct (descend_index ls (Z.of_nat (S h)) Hal ltac:(lia) Hlt) as [Hleft Hright].
    fold p in Hleft, Hright. rewrite Hleft, Hright. clear Hleft Hright.
    pose proof (node_pos_left ls (Z.of_nat (S h)) ltac:(lia)) as Hl. fold p in Hl.
    pose proof (node_pos_right ls (Z.of_nat (S h)) ltac:(lia) Hal) as Hr. fold p in Hr.
    pose proof (aligned_left ls (Z.of_nat (S h)) ltac:(lia) Hal) as Hall.
    pose proof (aligned_right ls (Z.of_nat (S h)) ltac:(lia) Hal) as Halr.
    pose proof (mountain_end ls (Z.of_nat h) ltac:(lia)) as Hend.
    replace (Z.of_nat h + 1) with (Z.of_nat (S h)) in Hend by lia. specialize (Hend Hal).
    pose proof (pow2_pos (Z.of_nat (S h))).
    assert (forall val, hashes_children val p ->
      val p = interiorHash (val (p - 2 ^ Z.of_nat (S h))) (val (p - 1)) p) as Hp.
    { intros val Hval. apply Hval; [done|lia|]. fold p. lia. }
    replace (Z.of_nat (S h) - 1) with (Z.of_nat h) in * by lia.
    pose proof (node_pos_nonneg ls (Z.of_nat h) ltac:(lia) Hls).
    destruct (Z.leb_spec target (node_pos ls (Z.of_nat h))) as [Hle|Hgt].
    + destruct (IH ls (acc ++ [MkStep (p - 1) false p]) Hall ltac:(lia) ltac:(lia))
        as (down & Hdown & Hsib & Hclimb).
      exists (MkStep (p - 1) false p :: down). rewrite Hr, Hdown, <- app_assoc. split; [done|].
      rewrite reverse_cons. split.
      * apply Forall_app. split; [eapply Forall_impl; [done|]; simpl; lia|].
        constructor; [simpl; lia|done].
      * intros val Hval. rewrite climb_app, Hclimb; [|intros a g ???; apply Hval; done || lia].
        rewrite (Hp val Hval), <- Hl. done.
    + destruct (IH (ls + 2 ^ Z.of_nat h)
        (acc ++ [MkStep (node_pos ls (Z.of_nat h)) true p]) Halr ltac:(lia) ltac:(lia))
        as (down & Hdown & Hsib & Hclimb).
      exists (MkStep (node_pos ls (Z.of_nat h)) true p :: down).
      rewrite Hdown, <- app_assoc. split; [done|]. rewrite reverse_cons. split.
      * apply Forall_app. split; [eapply Forall_impl; [done|]; simpl; lia|].
        constructor; [simpl; lia|done].
      * intros val Hval. rewrite climb_app, Hclimb; [|intros a g ???; apply Hval; done || lia].
        rewrite (Hp val Hval), <- Hl, Hr. done.
Qed.

(** ** Folding witnesses *)

Lemma foldPath_climb (val : Z -> bytes) (steps : list pathStep) (pre : list bytes) (acc : bytes) :
  Forall (fun s => length (val (sibling s)) = 32%nat) steps ->
  foldPath steps (pre ++ map (fun s => val (sibling s)) steps) (zlen pre) acc =
  Ok (Some (climb val steps acc)).
Proof.
  revert pre acc. induction steps as [|s steps IH]; intros pre acc Hall; [done|].
  apply Forall_cons in Hall as [Hs Hall]. cbn [foldPath map climb].
  rewrite index_middle by done. cbn [mbind result_bind]. rewrite badWidth_ok by done.
  replace (pre ++ val (sibling s) :: map (fun s => val (sibling s)) steps)
    with ((pre ++ [val (sibling s)]) ++ map (fun s => val (sibling s)) steps) by by rewrite <- app_assoc.
  replace (zlen pre + 1) with (zlen (pre ++ [val (sibling s)])) by by rewrite zlen_app.
  rewrite IH by done. done.
Qed.

Section Laws.
Context `{DT : DtMmr} `{!DtMmrLaws DT}.

Lemma pathToPeak_spec (ls h target : Z) :
  aligned h ls -> node_pos ls h < two63 -> mmr_size ls <= target <= node_pos ls h ->
  exists steps, pathToPeak (node_pos ls h) (IndexHeight (node_pos ls h)) target = Some steps /\
    path_ok steps target (node_pos ls h).
Proof.
  intros Hal Hlt Ht. pose proof Hal as (Hh & _ & _). rewrite law_IndexHeight by done.
  destruct (Z_of_nat_complete h Hh) as [k ->].
  destruct (pathLoop_spec k ls target [] Hal Hlt Ht) as (down & Hdown & Hok).
  exists (reverse down). unfold pathToPeak. rewrite Nat2Z.id, Hdown, Z.eqb_refl. done.
Qed.

(** ** The containing peak *)

Lemma peak_start (s h : Z) :
  aligned h s -> 0 <= h <= 62 -> node_pos s h < two63 ->
  u64_add (u64_sub (node_pos s h) (u64_sub (u64_shl 1 (u64_add h 1)) 1)) 1 = mmr_size s.
Proof.
  intros (Hh & Hs & _) Hh62 Hlt. assert (two64 = 2 * two63) by reflexivity.
  assert (63 < two63) by done.
  rewrite (u64_add_small h 1) by lia. rewrite u64_shl_one by lia.
  pose proof (pow2_pos (h + 1) ltac:(lia)). pose proof (mmr_size_ge s Hs).
  assert (2 ^ (h + 1) <= 2 ^ 63) by (apply pow2_le; lia). rewrite <- two63_eq in *.
  rewrite (u64_sub_small (2 ^ (h + 1))) by lia.
  unfold u64_add, u64_sub. rewrite Zplus_mod_idemp_l.
  replace (node_pos s h - (2 ^ (h + 1) - 1) + 1) with (mmr_size s) by (unfold node_pos; lia).
  apply Z.mod_small. pose proof (node_pos_ge s h Hh Hs). lia.
Qed.

Lemma containingPeakFrom_spec (p i0 : Z) (ms : list (Z * Z)) (j : nat) (s h : Z) :
  Forall (fun m => aligned (snd m) (fst m) /\ snd m <= 62 /\ node_pos (fst m) (snd m) < two63) ms ->
  ms !! j = Some (s, h) -> mmr_size s <= p <= node_pos s h ->
  (forall i s' h', (i < j)%nat -> ms !! i = Some (s', h') -> node_pos s' h' < p) ->
  containingPeakFrom p (map (fun m => node_pos (fst m) (snd m)) ms) i0 = i0 + Z.of_nat j.
Proof.
  revert i0 j. induction ms as [|[s0 h0] ms IH]; intros i0 j Hall Hj Hp Hbefore; [done|].
  apply Forall_cons in Hall as [(Hal & Hh & Hlt) Hall]. cbn [fst snd] in *.
  pose proof Hal as (Hh0 & _ & _).
  cbn [map containingPeakFrom fst snd]. rewrite law_IndexHeight by done.
  rewrite peak_start by (done || lia). destruct j as [|j].
  - injection Hj as -> ->. rewrite !(proj2 (Z.leb_le _ _)) by lia. simpl. lia.
  - pose proof (Hbefore 0%nat s0 h0 ltac:(lia) eq_refl).
    rewrite (proj2 (Z.leb_gt p (node_pos s0 h0))), andb_false_r by lia.
    rewrite (IH (i0 + 1) j); [lia|done|done|done|].
    intros i s' h' Hi Hm. apply (Hbefore (S i)); [lia|done].
Qed.

Lemma mountains_bounded (n : Z) :
  0 <= n <= max_leaves ->
  Forall (fun m => aligned (snd m) (fst m) /\ snd m <= 62 /\ node_pos (fst m) (snd m) < two63)
    (mountains n).
Proof.
  intros Hn. apply Forall_forall. intros [s h] Hin. cbn [fst snd].
  destruct (mountain_facts n s h Hn Hin) as (_ & ? & ? & _ & _ & ? & ?). split; [done|]. lia.
Qed.

(** Every position of a complete MMR has a mountain and a good path to its peak. *)
Lemma locate (n p : Z) :
  0 <= n <= max_leaves -> 0 <= p < mmr_size n ->
  exists j s h steps,
    containingPeak p (peak_positions n) = Z.of_nat j /\
    mountains n !! j = Some (s, h) /\
    index (peak_positions n) (Z.of_nat j) = Ok (node_pos s h) /\
    pathToPeak (node_pos s h) (IndexHeight (node_pos s h)) p = Some steps /\
    path_ok steps p (node_pos s h) /\ node_pos s h < mmr_size n.
Proof.
  intros Hn Hp. destruct (mountains_cover n p Hn Hp) as (j & s & h & Hj & Hin & Hbefore).
  pose proof (list_elem_of_lookup_2 _ _ _ Hj) as Helem.
  destruct (mountain_facts n s h Hn Helem) as (_ & Hal & Hh & Hs & _ & Hlt & Hmax).
  destruct (pathToPeak_spec s h p Hal ltac:(lia) Hin) as (steps & Hpath & Hok).
  exists j, s, h, steps. split_and!; try done.
  - unfold containingPeak, peak_positions.
    rewrite (containingPeakFrom_spec p 0 (mountains n) j s h); [lia| |done|done|done].
    by apply mountains_bounded.
  - apply index_Ok. unfold peak_positions. rewrite zget_map, zget_lookup, Nat2Z.id by lia.
    by rewrite Hj.
Qed.

End Laws.

End MmrPaths.
