(* ===== verification/MmrProofs.v ===== *)
(** * Inclusion and consistency proofs are accepted

    The tree of a value list produces, for every leaf and every pair of
    complete historical sizes, proofs that its own verifiers accept against
    the abstract roots of the corresponding prefixes. *)

From S2P Require Import Prelude Sha256 Geometry DtMmr DtMmrRef Hex Mmr MmrBuild MmrPaths.
Import Geometry Mmr MmrBuild MmrPaths.

Module MmrProofs.

Local Open Scope Z_scope.

Definition treeVal (t : Tree) (i : Z) : bytes := default [] (zget (nodes t) i).

Definition prefix (vs : list bytes) (m : Z) : list bytes := take (Z.to_nat m) vs.

Lemma treeVal_get (t : Tree) (i : Z) :
  0 <= i < zlen (nodes t) -> zget (nodes t) i = Some (treeVal t i).
Proof. intros Hi. unfold treeVal. by destruct (zget_in_range (nodes t) i Hi) as [v ->]. Qed.

Section Laws.
Context `{DT : DtMmr} `{!DtMmrLaws DT}.
Context (t : Tree) (vs : list bytes) (Hc : commits t vs).

Lemma treeVal_hashes (top : Z) : top < zlen (nodes t) -> hashes_children (treeVal t) top.
Proof.
  intros Htop ls h Hal Hh Hle. pose proof Hal as (Hh0 & Hls & _).
  pose proof (node_pos_nonneg ls h Hh0 Hls).
  pose proof (treeVal_get t (node_pos ls h) ltac:(lia)) as Hv.
  destruct (wf_nodes _ _ (commits_wf _ _ Hc) _ _ Hv) as [_ Hcr].
  destruct (Hcr ls h Hal Hh eq_refl) as (l & r & Hl & Hr & ->).
  unfold treeVal. by rewrite Hl, Hr.
Qed.

Lemma treeVal_width (i : Z) : 0 <= i < zlen (nodes t) -> length (treeVal t i) = 32%nat.
Proof.
  intros Hi. apply (wf_nodes _ _ (commits_wf _ _ Hc) i). by apply treeVal_get.
Qed.

Lemma siblingHashes_ok (steps : list pathStep) (target top : Z) :
  path_ok steps target top -> top < zlen (nodes t) ->
  siblingHashes t steps = Ok (map (fun s => treeVal t (sibling s)) steps) /\
  Forall (fun s => length (treeVal t (sibling s)) = 32%nat) steps.
Proof.
  intros [Hsib _] Htop. split.
  - apply traverse_Ok, Forall2_fmap_r, Forall_Forall2_diag.
    eapply Forall_impl; [done|]. simpl. intros s Hs. apply index_Ok, treeVal_get. lia.
  - eapply Forall_impl; [done|]. simpl. intros s Hs. apply treeVal_width. lia.
Qed.

Lemma logPeaks_lookup (m : Z) (j : nat) (s h : Z) :
  0 <= m <= zlen vs -> mountains m !! j = Some (s, h) ->
  logPeaks (prefix vs m) !! j = Some (treeVal t (node_pos s h)).
Proof.
  intros Hm Hj. destruct (commits_length t vs Hc) as (Hlen & Hn & Hmax).
  destruct (mountain_facts m s h ltac:(lia) (list_elem_of_lookup_2 _ _ _ Hj))
    as (_ & Hal & Hh & Hs & Hle & Hlt & _).
  destruct (Z_of_nat_complete h ltac:(lia)) as [k ->].
  pose proof (commits_node t vs k s Hc Hal ltac:(lia)) as Hnode.
  unfold prefix. rewrite logPeaks_take by lia.
  change (map ?f ?l) with (f <$> l). rewrite list_lookup_fmap, Hj. cbn [fmap option_fmap option_map fst snd].
  unfold treeVal. rewrite Nat2Z.id, Hnode. done.
Qed.

Lemma peak_index (m : Z) (j : nat) (s h : Z) :
  0 <= m <= zlen vs -> mountains m !! j = Some (s, h) ->
  index (logPeaks (prefix vs m)) (Z.of_nat j) = Ok (treeVal t (node_pos s h)).
Proof.
  intros Hm Hj. apply index_Ok. rewrite zget_lookup, Nat2Z.id by lia. by apply logPeaks_lookup.
Qed.

Lemma positions_length (m : Z) :
  0 <= m <= zlen vs -> zlen (peak_positions m) = zlen (logPeaks (prefix vs m)).
Proof.
  intros Hm. rewrite logPeaks_length. unfold prefix. by rewrite zlen_take by done.
Qed.

Lemma prefix_root (m : Z) :
  0 <= m <= zlen vs -> RootFromPeaks (logPeaks (prefix vs m)) = logRoot (prefix vs m) /\
  length (logRoot (prefix vs m)) = 32%nat.
Proof.
  intros Hm. destruct (commits_length t vs Hc) as (_ & Hn & _).
  assert (zlen (prefix vs m) <= max_leaves) by (unfold prefix; rewrite zlen_take by done; lia).
  split; [by apply RootFromPeaks_logPeaks|by apply logRoot_length].
Qed.

(** ** Inclusion *)

Lemma split_peaks {A} (l : list A) (j : nat) (x : A) :
  l !! j = Some x ->
  take j l ++ [x] ++ drop (Z.to_nat (Z.of_nat j + 1)) l = l /\
  zlen (take j l) = Z.of_nat j /\ zlen (drop (Z.to_nat (Z.of_nat j + 1)) l) = zlen l - Z.of_nat j - 1.
Proof.
  intros Hj. replace (Z.to_nat (Z.of_nat j + 1)) with (S j) by lia.
  pose proof (lookup_lt_Some _ _ _ Hj). split; [by apply take_drop_middle|].
  unfold zlen. rewrite length_take, length_drop. lia.
Qed.

(** The proof the tree produces, and its acceptance. *)
Lemma inclusion_accepted (m leaf : Z) (v : bytes) :
  0 < m <= zlen vs -> leaf < m -> zget vs leaf = Some v ->
  exists proof, InclusionProofAt t leaf (mmr_size m) = Ok proof /\
    VerifyInclusion (logRoot (prefix vs m)) (mmr_size m) leaf v proof = Ok true.
Proof.
  intros Hm Hleaf Hv. destruct (commits_length t vs Hc) as (Hlen & Hn & Hmax).
  pose proof (zget_Some_range _ _ _ Hv) as Hr.
  pose proof (mmr_size_mono m (zlen vs) ltac:(lia)). pose proof (mmr_size_bound m ltac:(lia)).
  pose proof (mmr_size_strict leaf m ltac:(lia)). pose proof (mmr_size_ge leaf ltac:(lia)).
  destruct (locate m (mmr_size leaf) ltac:(lia) ltac:(lia))
    as (j & s & h & steps & Hcont & Hj & Hidx & Hpath & Hok & Hlt).
  destruct (siblingHashes_ok steps _ _ Hok ltac:(lia)) as [Hsibs Hwidths].
  pose proof (logPeaks_lookup m j s h ltac:(lia) Hj) as Hpeak.
  destruct (split_peaks _ _ _ Hpeak) as (Hsplit & Hl & Hrr).
  destruct (prefix_root m ltac:(lia)) as [Hroot Hrootw].
  eexists. split.
  - unfold InclusionProofAt.
    rewrite (proj2 (Z.ltb_ge _ _)), validMMRSize_complete, law_LeafCount, (proj2 (Z.leb_gt _ _)) by lia.
    cbn [negb orb]. rewrite law_MMRIndex by lia.
    rewrite u64_sub_small by (unfold two63, two64 in *; lia).
    rewrite law_Peaks, Hcont, (proj2 (Z.ltb_ge _ _)) by lia.
    rewrite Hidx. cbn [mbind result_bind]. rewrite Hpath, Hsibs. cbn [mbind result_bind].
    rewrite (peakHashesAtLocked_commits t vs m Hc) by lia. cbn [mbind result_bind]. reflexivity.
  - unfold VerifyInclusion. cbn [ip_V ip_Kind ip_Size ip_LeafIndex ip_Witness ip_PeaksLeft ip_PeaksRight].
    rewrite !Z.eqb_refl, bool_decide_true, validMMRSize_complete, law_LeafCount by (done || lia).
    rewrite (proj2 (Z.leb_gt _ _)), !badWidth_ok by
      (try done; try lia; exact (proj1 (Forall_forall _ _) (commits_width _ _ Hc) v
         ltac:(rewrite zget_lookup in Hv by lia; by eapply list_elem_of_lookup_2))).
    cbn [negb orb]. rewrite law_MMRIndex, peakPositions_complete, Hcont, !cloneProof_id by lia.
    rewrite Nat2Z.id. fold (prefix vs m).
    rewrite (proj2 (Z.ltb_ge _ _)), Hl, Hrr, positions_length, !Z.eqb_refl by lia. cbn [negb orb].
    rewrite Hidx. cbn [mbind result_bind]. rewrite Hpath.
    replace (zlen (map _ steps)) with (zlen steps) by (unfold zlen; by rewrite length_map).
    rewrite Z.eqb_refl. cbn [negb].
    pose proof (foldPath_climb (treeVal t) steps [] (leafHash v) Hwidths) as Hfold.
    simpl app in Hfold. change (zlen (@nil bytes)) with 0 in Hfold. rewrite Hfold. cbn [mbind result_bind].
    assert (leafHash v = treeVal t (mmr_size leaf)) as ->.
    { unfold treeVal. by rewrite (commits_leaf _ _ Hc leaf v Hv). }
    rewrite (proj2 Hok) by (apply treeVal_hashes; lia).
    rewrite Hsplit, (proj2 (existsb_badWidth _)) by apply logPeaks_width.
    by rewrite Hroot, bool_decide_true.
Qed.

(** ** Consistency *)

Lemma logPeaks_values (m : Z) :
  0 <= m <= zlen vs -> logPeaks (prefix vs m) = map (treeVal t) (peak_positions m).
Proof.
  intros Hm. apply list_eq. intros j. change (map ?f ?l) with (f <$> l).
  rewrite list_lookup_fmap. unfold peak_positions. change (map ?f ?l) with (f <$> l).
  rewrite list_lookup_fmap. destruct (mountains m !! j) as [[s h]|] eqn:Hj.
  - by rewrite (logPeaks_lookup m j s h Hm Hj).
  - cbn [fmap option_fmap option_map]. apply lookup_ge_None. apply lookup_ge_None in Hj.
    pose proof (positions_length m Hm) as Hl. unfold zlen, peak_positions in Hl.
    rewrite length_map in Hl. lia.
Qed.

Lemma oldPeakWitness_ok (m p : Z) :
  0 <= m <= zlen vs -> 0 <= p < mmr_size m ->
  exists j s h steps,
    containingPeak p (peak_positions m) = Z.of_nat j /\
    index (peak_positions m) (Z.of_nat j) = Ok (node_pos s h) /\
    index (logPeaks (prefix vs m)) (Z.of_nat j) = Ok (treeVal t (node_pos s h)) /\
    pathToPeak (node_pos s h) (IndexHeight (node_pos s h)) p = Some steps /\
    oldPeakWitness t (peak_positions m) p = Ok (map (fun s => treeVal t (sibling s)) steps) /\
    foldPath steps (map (fun s => treeVal t (sibling s)) steps) 0 (treeVal t p) =
      Ok (Some (treeVal t (node_pos s h))).
Proof.
  intros Hm Hp. destruct (commits_length t vs Hc) as (Hlen & Hn & Hmax).
  pose proof (mmr_size_mono m (zlen vs) ltac:(lia)).
  destruct (locate m p ltac:(lia) Hp) as (j & s & h & steps & Hcont & Hj & Hidx & Hpath & Hok & Hlt).
  destruct (siblingHashes_ok steps _ _ Hok ltac:(lia)) as [Hsibs Hwidths].
  exists j, s, h, steps. split_and!; try done.
  - by apply peak_index.
  - unfold oldPeakWitness. rewrite Hcont, (proj2 (Z.ltb_ge _ _)) by lia.
    rewrite Hidx. cbn [mbind result_bind]. by rewrite Hpath.
  - pose proof (foldPath_climb (treeVal t) steps [] (treeVal t p) Hwidths) as Hfold.
    simpl app in Hfold. change (zlen (@nil bytes)) with 0 in Hfold. rewrite Hfold.
    rewrite (proj2 Hok) by (apply treeVal_hashes; lia). done.
Qed.

Lemma verifyOldPeaks_ok (m : Z) (proof : ConsistencyProof) (rest : list Z)
    (wpre wrest : list (list bytes)) (ppre : list bytes) :
  0 <= m <= zlen vs -> cp_NewPeaks proof = logPeaks (prefix vs m) ->
  Forall (fun p => 0 <= p < mmr_size m) rest ->
  Forall2 (fun p w => oldPeakWitness t (peak_positions m) p = Ok w) rest wrest ->
  cp_Witness proof = wpre ++ wrest -> cp_OldPeaks proof = ppre ++ map (treeVal t) rest ->
  zlen ppre = zlen wpre ->
  verifyOldPeaks proof (peak_positions m) rest (zlen wpre) = Ok true.
Proof.
  intros Hm Hnew. revert wpre wrest ppre.
  induction rest as [|p rest IH]; intros wpre wrest ppre Hrange Hall Hwit Hold Hzl; [done|].
  apply Forall_cons in Hrange as [Hp Hrange]. inversion Hall as [|?? ? wrest' Hw Hall']; subst.
  destruct (oldPeakWitness_ok m p Hm Hp) as (j & s & h & steps & Hcont & Hidx & Hpeak & Hpath & Hw' & Hfold).
  rewrite Hw in Hw'. injection Hw' as ->.
  cbn [verifyOldPeaks]. rewrite Hcont, (proj2 (Z.ltb_ge _ _)) by lia.
  rewrite Hidx. cbn [mbind result_bind]. rewrite Hpath, Hwit, Hold, Hnew.
  rewrite index_middle by done. cbn [mbind result_bind].
  replace (zlen (map _ steps)) with (zlen steps) by (unfold zlen; by rewrite length_map).
  rewrite Z.eqb_refl. cbn [negb map].
  rewrite index_middle by done. cbn [mbind result_bind].
  rewrite Hfold. cbn [mbind result_bind]. rewrite Hpeak. cbn [mbind result_bind].
  rewrite bool_decide_true by done. cbn [negb].
  replace (zlen wpre + 1) with (zlen (wpre ++ [map (fun s => treeVal t (sibling s)) steps]))
    by by rewrite zlen_app.
  apply (IH _ wrest' (ppre ++ [treeVal t p])); try done; rewrite ?Hwit, ?Hold, <- ?app_assoc; try done.
  rewrite !zlen_app. unfold zlen in *. simpl. lia.
Qed.

Lemma peak_positions_range (m1 m2 : Z) :
  0 <= m1 <= m2 -> m2 <= max_leaves -> Forall (fun p => 0 <= p < mmr_size m2) (peak_positions m1).
Proof.
  intros Hm Hmax. unfold peak_positions. apply Forall_fmap, Forall_forall. intros [s h] Hin.
  cbn [fst snd compose]. destruct (mountain_facts m1 s h ltac:(lia) Hin) as (_ & _ & Hh & Hs & _ & Hlt & _).
  pose proof (mmr_size_mono m1 m2 Hm). pose proof (node_pos_nonneg s h ltac:(lia) Hs). simpl. lia.
Qed.

(** The proof the tree produces: peaks of both prefixes and the given paths. *)
Definition honestConsistency (m1 m2 : Z) (ws : list (list bytes)) : ConsistencyProof :=
  {| cp_V := 1; cp_Kind := "consistency"; cp_OldSize := mmr_size m1; cp_NewSize := mmr_size m2;
     cp_OldPeaks := logPeaks (prefix vs m1); cp_Witness := ws;
     cp_NewPeaks := logPeaks (prefix vs m2) |}.

Lemma consistency_produced (m1 m2 : Z) :
  0 <= m1 <= m2 -> m2 <= zlen vs ->
  exists ws, traverse (oldPeakWitness t (peak_positions m2)) (peak_positions m1) = Ok ws /\
    ConsistencyProofAt t (mmr_size m1) (mmr_size m2) = Ok (honestConsistency m1 m2 ws).
Proof.
  intros Hm12 Hm2. destruct (commits_length t vs Hc) as (Hlen & Hn & Hmax).
  pose proof (mmr_size_mono m1 m2 Hm12). pose proof (mmr_size_mono m2 (zlen vs) ltac:(lia)).
  pose proof (peak_positions_range m1 m2 Hm12 ltac:(lia)) as Hrange.
  destruct (traverse_total (oldPeakWitness t (peak_positions m2)) (peak_positions m1)) as [ws Hws].
  { eapply Forall_impl; [exact Hrange|]. intros p Hp. cbv beta in Hp |- *.
    destruct (oldPeakWitness_ok m2 p ltac:(lia) Hp) as (? & ? & ? & ? & _ & _ & _ & _ & -> & _). done. }
  exists ws. split; [done|].
  unfold ConsistencyProofAt. rewrite !(proj2 (Z.ltb_ge _ _)), !validMMRSize_complete by lia.
  cbn [negb orb]. rewrite !(peakHashesAtLocked_commits t vs _ Hc) by lia. cbn [mbind result_bind].
  rewrite !peakPositions_complete by lia. rewrite Hws. cbn [mbind result_bind].
  rewrite !cloneProof_id, cloneWitness_id. reflexivity.
Qed.

Lemma honestConsistency_verifies (m1 m2 : Z) (ws : list (list bytes)) :
  0 <= m1 <= m2 -> m2 <= zlen vs ->
  traverse (oldPeakWitness t (peak_positions m2)) (peak_positions m1) = Ok ws ->
  VerifyConsistency (logRoot (prefix vs m1)) (logRoot (prefix vs m2)) (honestConsistency m1 m2 ws)
    = Ok true.
Proof.
  intros Hm12 Hm2 Hws. destruct (commits_length t vs Hc) as (_ & Hn & _).
  pose proof (mmr_size_mono m1 m2 Hm12).
  pose proof (peak_positions_range m1 m2 Hm12 ltac:(lia)) as Hrange.
  destruct (prefix_root m1 ltac:(lia)) as [Hr1 Hw1]. destruct (prefix_root m2 ltac:(lia)) as [Hr2 Hw2].
  pose proof (positions_length m1 ltac:(lia)) as Hl1. pose proof (positions_length m2 ltac:(lia)) as Hl2.
  pose proof (traverse_length _ _ _ Hws) as Hwl.
  assert (zlen ws = zlen (peak_positions m1)) as Hzl by (unfold zlen; by rewrite Hwl).
  assert (verifyOldPeaks (honestConsistency m1 m2 ws) (peak_positions m2) (peak_positions m1) 0
    = Ok true) as Hloop.
  { apply (verifyOldPeaks_ok m2 _ _ [] ws []); [lia|done|done|by apply traverse_Ok|done| |done].
    apply logPeaks_values. lia. }
  revert Hloop. unfold VerifyConsistency, honestConsistency.
  cbn [cp_V cp_Kind cp_OldSize cp_NewSize cp_OldPeaks cp_Witness cp_NewPeaks]. intros Hloop.
  rewrite !badWidth_ok, Z.eqb_refl, bool_decide_true, (proj2 (Z.ltb_ge _ _)), !validMMRSize_complete
    by (done || lia).
  cbn [negb orb]. rewrite !peakPositions_complete by lia.
  rewrite Hzl, <- Hl1, <- Hl2, !Z.eqb_refl. cbn [negb orb].
  rewrite !(proj2 (existsb_badWidth _)) by apply logPeaks_width. cbn [orb].
  rewrite Hr1, Hr2, !bool_decide_true by done. cbn [negb orb]. exact Hloop.
Qed.

Lemma consistency_accepted (m1 m2 : Z) :
  0 <= m1 <= m2 -> m2 <= zlen vs ->
  exists proof, ConsistencyProofAt t (mmr_size m1) (mmr_size m2) = Ok proof /\
    VerifyConsistency (logRoot (prefix vs m1)) (logRoot (prefix vs m2)) proof = Ok true.
Proof.
  intros Hm12 Hm2. destruct (consistency_produced m1 m2 Hm12 Hm2) as (ws & Hws & Hp).
  exists (honestConsistency m1 m2 ws). split; [exact Hp|]. by apply honestConsistency_verifies.
Qed.

End Laws.

(** ** Claims *)

Section Claims.
Context `{DT : DtMmr} `{!DtMmrLaws DT}.

(** C3: for every leaf [leaf < m] of a tree over [vs] and every historical leaf
    count [m], the tree produces an inclusion proof at that size, and
    [VerifyInclusion] accepts it for the value at that leaf against the root of
    the first [m] values. *)
Theorem inclusion_proofs_verify (t : Tree) (vs : list bytes) (m leaf : Z) (v : bytes) :
  commits t vs -> 0 < m <= zlen vs -> leaf < m -> zget vs leaf = Some v ->
  exists proof, InclusionProofAt t leaf (mmr_size m) = Ok proof /\
    VerifyInclusion (logRoot (prefix vs m)) (mmr_size m) leaf v proof = Ok true.
Proof. intros. by apply (inclusion_accepted t vs). Qed.

(** C4: for all historical leaf counts [m1 <= m2], the tree produces a
    consistency proof and [VerifyConsistency] accepts it between the roots of
    the two prefixes. *)
Theorem consistency_proofs_verify (t : Tree) (vs : list bytes) (m1 m2 : Z) :
  commits t vs -> 0 <= m1 <= m2 -> m2 <= zlen vs ->
  exists proof, ConsistencyProofAt t (mmr_size m1) (mmr_size m2) = Ok proof /\
    VerifyConsistency (logRoot (prefix vs m1)) (logRoot (prefix vs m2)) proof = Ok true.
Proof. intros. by apply (consistency_accepted t vs). Qed.

End Claims.

(** ** Witnesses *)

Import Ref.

Lemma inclusion_proofs_verify_witness :
  exists proof, InclusionProofAt (DT := dt_reference) (buildTree sampleValues) 1 4 = Ok proof /\
    VerifyInclusion (DT := dt_reference) (logRoot sampleValues) 4 1 (sampleValue x02) proof = Ok true.
Proof.
  apply (inclusion_proofs_verify (DT := dt_reference) (buildTree sampleValues) sampleValues 3 1);
    [apply sample_commits|vm_compute; split; congruence|lia|reflexivity].
Defined.

Lemma consistency_proofs_verify_witness :
  exists proof, ConsistencyProofAt (DT := dt_reference) (buildTree sampleValues) 1 4 = Ok proof /\
    VerifyConsistency (DT := dt_reference) (logRoot [sampleValue x01]) (logRoot sampleValues) proof
      = Ok true.
Proof.
  apply (consistency_proofs_verify (DT := dt_reference) (buildTree sampleValues) sampleValues 1 3);
    [apply sample_commits|lia|vm_compute; congruence].
Defined.

End MmrProofs.
