(* ===== verification/MmrBinding.v ===== *)
(** * What an accepted proof binds

    The verifiers never panic, and an accepted proof determines the value, the
    old root and the proof itself, unless the messages hashed by the two runs
    contain a SHA-256 collision.  The messages of a run are computed by the
    transcript functions below, so a broken binding exhibits the collision. *)

From S2P Require Import Prelude Sha256 Geometry DtMmr DtMmrRef Hex Mmr MmrBuild MmrPaths MmrProofs.
Import Geometry Mmr MmrBuild MmrPaths MmrProofs.

Module MmrBinding.

Local Open Scope Z_scope.

Abbreviation width32 := (fun v : bytes => length v = 32%nat).

(** ** Transcripts *)

Definition collision (ms1 ms2 : list bytes) : Prop :=
  exists x y, x ∈ ms1 /\ y ∈ ms2 /\ x <> y /\ sha256 x = sha256 y.

Definition stepMsg (step : pathStep) (sib acc : bytes) : bytes :=
  be_bytes 8 (u64_add (parent step) 1) ++
  (if targetIsRight step then sib ++ acc else acc ++ sib).

Fixpoint climbList (steps : list pathStep) (ws : list bytes) (acc : bytes) : bytes :=
  match steps, ws with
  | step :: steps', w :: ws' => climbList steps' ws' (combine step w acc)
  | _, _ => acc
  end.

Fixpoint pathMsgs (steps : list pathStep) (ws : list bytes) (acc : bytes) : list bytes :=
  match steps, ws with
  | step :: steps', w :: ws' => stepMsg step w acc :: pathMsgs steps' ws' (combine step w acc)
  | _, _ => []
  end.

Fixpoint bagMsgs (peaks : list bytes) : list bytes :=
  match peaks with
  | [] => []
  | p :: ps => match ps with [] => [] | _ => (bag_rhs sha256 ps ++ p) :: bagMsgs ps end
  end.

Section Transcripts.
Context `{DT : DtMmr}.

(** The path from a position to its containing peak, as the verifiers compute it. *)
Definition stepsTo (positions : list Z) (target : Z) : option (list pathStep) :=
  match zget positions (containingPeak target positions) with
  | Some peak => pathToPeak peak (IndexHeight peak) target
  | None => None
  end.

Definition inclusionTranscript (size leafIndex : Z) (value : bytes) (proof : InclusionProof) :
    list bytes :=
  let steps := default [] (stepsTo (peakPositions size) (MMRIndex leafIndex)) in
  (Byte.x00 :: value) :: pathMsgs steps (ip_Witness proof) (leafHash value) ++
  bagMsgs (ip_PeaksLeft proof ++ [climbList steps (ip_Witness proof) (leafHash value)] ++
           ip_PeaksRight proof).

Fixpoint oldPeaksMsgs (newPositions oldPositions : list Z) (ws : list (list bytes))
    (olds : list bytes) : list bytes :=
  match oldPositions, ws, olds with
  | p :: ps, w :: ws', o :: os =>
      pathMsgs (default [] (stepsTo newPositions p)) w o ++ oldPeaksMsgs newPositions ps ws' os
  | _, _, _ => []
  end.

Definition consistencyTranscript (proof : ConsistencyProof) : list bytes :=
  oldPeaksMsgs (peakPositions (cp_NewSize proof)) (peakPositions (cp_OldSize proof))
    (cp_Witness proof) (cp_OldPeaks proof) ++ bagMsgs (cp_NewPeaks proof).

End Transcripts.

(** ** Collisions *)

Lemma collision_mono (a1 a2 b1 b2 : list bytes) :
  a1 ⊆ b1 -> a2 ⊆ b2 -> collision a1 a2 -> collision b1 b2.
Proof. intros H1 H2 (x & y & Hx & Hy & Hne & Heq). exists x, y. split_and!; [by apply H1|by apply H2|exact Hne|exact Heq]. Qed.

(** Equal digests of listed messages: the messages agree or collide. *)
Lemma sha256_bind (x y : bytes) (ms1 ms2 : list bytes) :
  x ∈ ms1 -> y ∈ ms2 -> sha256 x = sha256 y -> x = y \/ collision ms1 ms2.
Proof.
  intros Hx Hy Heq. destruct (decide (x = y)) as [|Hne]; [by left|right].
  exists x, y. split_and!; [exact Hx|exact Hy|exact Hne|exact Heq].
Qed.

Lemma combine_msg (step : pathStep) (w acc : bytes) : combine step w acc = sha256 (stepMsg step w acc).
Proof. unfold combine, stepMsg, interiorHash. by destruct (targetIsRight step). Qed.

Lemma combine_length (step : pathStep) (w acc : bytes) : width32 (combine step w acc).
Proof. rewrite combine_msg. apply Sha256.sum256_length. Qed.

Lemma stepMsg_inj (step : pathStep) (w1 a1 w2 a2 : bytes) :
  width32 w1 -> width32 w2 -> width32 a1 -> width32 a2 ->
  stepMsg step w1 a1 = stepMsg step w2 a2 -> w1 = w2 /\ a1 = a2.
Proof.
  intros Hw1 Hw2 Ha1 Ha2 Heq%app_inv_head. destruct (targetIsRight step);
    apply app_inj_1 in Heq as [-> ->]; try done; congruence.
Qed.

(** ** Paths bind their start and their witnesses *)

Lemma climbList_length (steps : list pathStep) (ws : list bytes) (acc : bytes) :
  width32 acc -> width32 (climbList steps ws acc).
Proof.
  revert ws acc. induction steps as [|s steps IH]; intros [|w ws] acc Hacc; try done.
  apply IH, combine_length.
Qed.

Lemma climbList_bind (steps : list pathStep) (ws1 ws2 : list bytes) (a1 a2 : bytes) :
  zlen steps = zlen ws1 -> zlen steps = zlen ws2 ->
  Forall width32 ws1 -> Forall width32 ws2 -> width32 a1 -> width32 a2 ->
  climbList steps ws1 a1 = climbList steps ws2 a2 ->
  (a1 = a2 /\ ws1 = ws2) \/ collision (pathMsgs steps ws1 a1) (pathMsgs steps ws2 a2).
Proof.
  unfold zlen. revert ws1 ws2 a1 a2.
  induction steps as [|s steps IH]; intros [|w1 ws1] [|w2 ws2] a1 a2 Hl1 Hl2 Hw1 Hw2 Ha1 Ha2 Heq;
    simpl in Hl1, Hl2; try lia; [by left|].
  apply Forall_cons in Hw1 as [Hx1 Hw1]. apply Forall_cons in Hw2 as [Hx2 Hw2].
  simpl in Heq. cbn [pathMsgs].
  destruct (IH ws1 ws2 _ _ ltac:(lia) ltac:(lia) Hw1 Hw2 (combine_length s w1 a1) (combine_length s w2 a2) Heq)
    as [[Hc ->]|Hcol].
  - rewrite !combine_msg in Hc.
    destruct (sha256_bind _ _ (stepMsg s w1 a1 :: pathMsgs steps ws2 (combine s w1 a1))
      (stepMsg s w2 a2 :: pathMsgs steps ws2 (combine s w2 a2)) (list_elem_of_here _ _) (list_elem_of_here _ _) Hc)
      as [Heqm|Hcol]; [left|by right].
    apply stepMsg_inj in Heqm as [-> ->]; done.
  - right. eapply collision_mono; [| |exact Hcol]; by apply list_subseteq_cons.
Qed.

Lemma bag_bind (ps1 ps2 : list bytes) :
  length ps1 = length ps2 -> Forall width32 ps1 -> Forall width32 ps2 ->
  bag_rhs sha256 ps1 = bag_rhs sha256 ps2 -> ps1 = ps2 \/ collision (bagMsgs ps1) (bagMsgs ps2).
Proof.
  revert ps2. induction ps1 as [|p1 ps1 IH]; intros [|p2 ps2] Hl Hw1 Hw2 Heq; try done; [by left|].
  simpl in Hl. apply Forall_cons in Hw1 as [Hp1 Hw1]. apply Forall_cons in Hw2 as [Hp2 Hw2].
  destruct ps1 as [|q1 qs1], ps2 as [|q2 qs2]; try (simpl in Hl; lia).
  { left. simpl in Heq. by subst. }
  set (r1 := q1 :: qs1) in *. set (r2 := q2 :: qs2) in *.
  change (sha256 (bag_rhs sha256 r1 ++ p1) = sha256 (bag_rhs sha256 r2 ++ p2)) in Heq.
  change (bagMsgs (p1 :: r1)) with ((bag_rhs sha256 r1 ++ p1) :: bagMsgs r1).
  change (bagMsgs (p2 :: r2)) with ((bag_rhs sha256 r2 ++ p2) :: bagMsgs r2).
  destruct (sha256_bind _ _ ((bag_rhs sha256 r1 ++ p1) :: bagMsgs r1)
    ((bag_rhs sha256 r2 ++ p2) :: bagMsgs r2) (list_elem_of_here _ _) (list_elem_of_here _ _) Heq)
    as [Hmsg|Hcol]; [|by right].
  apply app_inj_2 in Hmsg as [Hbag ->]; [|congruence].
  destruct (IH r2 ltac:(lia) Hw1 Hw2 Hbag) as [->|Hcol]; [by left|right].
  eapply collision_mono; [| |exact Hcol]; by apply list_subseteq_cons.
Qed.

(** ** Reading an accepted run *)

Lemma foldPath_Ok (steps : list pathStep) (pre ws : list bytes) (acc : bytes) :
  zlen steps = zlen ws ->
  foldPath steps (pre ++ ws) (zlen pre) acc =
    Ok (if existsb badWidth ws then None else Some (climbList steps ws acc)).
Proof.
  revert pre ws acc. unfold zlen at 1 2.
  induction steps as [|s steps IH]; intros pre [|w ws] acc Hl; simpl in Hl; try lia; [done|].
  cbn [foldPath climbList existsb]. rewrite index_middle by done. cbn [mbind result_bind].
  destruct (badWidth w) eqn:Hw; [done|]. cbn [orb].
  replace (pre ++ w :: ws) with ((pre ++ [w]) ++ ws) by by rewrite <- app_assoc.
  replace (zlen pre + 1) with (zlen (pre ++ [w])) by by rewrite zlen_app.
  apply IH. lia.
Qed.

Lemma foldPath_Ok0 (steps : list pathStep) (ws : list bytes) (acc : bytes) :
  zlen steps = zlen ws ->
  foldPath steps ws 0 acc =
    Ok (if existsb badWidth ws then None else Some (climbList steps ws acc)).
Proof. apply (foldPath_Ok steps []). Qed.

Section Runs.
Context `{DT : DtMmr}.

Lemma containingPeakFrom_range (p i0 : Z) (peaks : list Z) :
  0 <= i0 ->
  containingPeakFrom p peaks i0 = -1 \/ i0 <= containingPeakFrom p peaks i0 < i0 + zlen peaks.
Proof.
  revert i0. induction peaks as [|q peaks IH]; intros i0 Hi0; cbn [containingPeakFrom]; [by left|].
  rewrite zlen_cons. pose proof (zlen_nonneg peaks).
  destruct (_ && _); [right; lia|]. destruct (IH (i0 + 1) ltac:(lia)) as [->|Hr]; [by left|right; lia].
Qed.

Lemma containingPeak_index (p : Z) (peaks : list Z) :
  (containingPeak p peaks <? 0) = false ->
  exists peak, zget peaks (containingPeak p peaks) = Some peak /\
    0 <= containingPeak p peaks < zlen peaks.
Proof.
  intros Hc%Z.ltb_ge.
  assert (0 <= containingPeak p peaks < zlen peaks) as H.
  { pose proof (containingPeakFrom_range p 0 peaks (Z.le_refl 0)) as Hr.
    fold (containingPeak p peaks) in Hr. destruct Hr as [Hr|Hr]; [|done]. rewrite Hr in Hc. done. }
  destruct (zget_in_range peaks _ H) as [peak Hp]. eauto.
Qed.

(** ** The verifiers never panic *)

Lemma verifyOldPeaks_total (proof : ConsistencyProof) (newPositions oldPositions : list Z) (i : Z) :
  0 <= i -> i + zlen oldPositions <= zlen (cp_Witness proof) ->
  i + zlen oldPositions <= zlen (cp_OldPeaks proof) ->
  zlen (cp_NewPeaks proof) = zlen newPositions ->
  exists b, verifyOldPeaks proof newPositions oldPositions i = Ok b.
Proof.
  revert i. induction oldPositions as [|p rest IH]; intros i Hi Hw Ho Hn; [by eexists|].
  rewrite zlen_cons in *. pose proof (zlen_nonneg rest). cbn [verifyOldPeaks].
  destruct (_ <? 0) eqn:Hc; [by eexists|].
  destruct (containingPeak_index _ _ Hc) as (root & Hroot & Hrange).
  rewrite (proj2 (index_Ok _ _ _) Hroot). cbn [mbind result_bind].
  destruct (pathToPeak _ _ _) as [steps|]; [|by eexists].
  destruct (zget_in_range (cp_Witness proof) i ltac:(lia)) as [w Hwi].
  rewrite (proj2 (index_Ok _ _ _) Hwi). cbn [mbind result_bind].
  destruct (Z.eqb_spec (zlen steps) (zlen w)) as [Hl|]; [|by eexists]. cbn [negb].
  destruct (zget_in_range (cp_OldPeaks proof) i ltac:(lia)) as [o Hoi].
  rewrite (proj2 (index_Ok _ _ _) Hoi). cbn [mbind result_bind].
  rewrite foldPath_Ok0 by done. cbn [mbind result_bind].
  destruct (existsb badWidth w); [by eexists|].
  rewrite <- Hn in Hrange. destruct (zget_in_range _ _ Hrange) as [np Hnp].
  rewrite (proj2 (index_Ok _ _ _) Hnp). cbn [mbind result_bind].
  destruct (negb _); [by eexists|]. apply IH; lia.
Qed.

Lemma VerifyConsistency_total (oldRoot newRoot : bytes) (proof : ConsistencyProof) :
  exists b, VerifyConsistency oldRoot newRoot proof = Ok b.
Proof.
  unfold VerifyConsistency. destruct (_ || _); [by eexists|].
  destruct (_ || _) eqn:Hlens; [by eexists|].
  apply orb_false_iff in Hlens as [[H1 H2]%orb_false_iff H3].
  apply negb_false_iff, Z.eqb_eq in H1, H2, H3.
  destruct (_ || _); [by eexists|]. destruct (_ || _); [by eexists|].
  apply verifyOldPeaks_total; lia.
Qed.

Lemma VerifyInclusion_total (root : bytes) (size leafIndex : Z) (value : bytes) (proof : InclusionProof) :
  exists b, VerifyInclusion root size leafIndex value proof = Ok b.
Proof.
  unfold VerifyInclusion. destruct (_ || _); [by eexists|].
  destruct (_ || _) eqn:Hc; [by eexists|].
  apply orb_false_iff in Hc as [[Hc _]%orb_false_iff _].
  destruct (containingPeak_index _ _ Hc) as (peak & Hpeak & _).
  rewrite (proj2 (index_Ok _ _ _) Hpeak). cbn [mbind result_bind].
  destruct (pathToPeak _ _ _) as [steps|]; [|by eexists].
  destruct (Z.eqb_spec (zlen steps) (zlen (ip_Witness proof))) as [Hl|]; [|by eexists]. cbn [negb].
  rewrite foldPath_Ok0 by done. cbn [mbind result_bind].
  destruct (existsb badWidth (ip_Witness proof)); [by eexists|].
  destruct (existsb _ _); by eexists.
Qed.

(** ** Reading an accepted inclusion proof *)

(** What acceptance checks, with the lengths it forces. *)
Lemma VerifyInclusion_accepts (root : bytes) (size leaf : Z) (v : bytes) (p : InclusionProof) :
  VerifyInclusion root size leaf v p = Ok true ->
  length v = 32%nat /\ ip_V p = 1 /\ ip_Kind p = "inclusion"%string /\ ip_Size p = size /\
  ip_LeafIndex p = leaf /\ validMMRSize size = true /\ leaf < dtLeafCount size /\
  zlen (ip_PeaksLeft p) = containingPeak (MMRIndex leaf) (peakPositions size) /\
  zlen (ip_PeaksRight p) =
    zlen (peakPositions size) - containingPeak (MMRIndex leaf) (peakPositions size) - 1 /\
  exists steps, stepsTo (peakPositions size) (MMRIndex leaf) = Some steps /\
    zlen steps = zlen (ip_Witness p) /\ Forall width32 (ip_Witness p) /\
    Forall width32 (ip_PeaksLeft p) /\ Forall width32 (ip_PeaksRight p) /\
    RootFromPeaks (ip_PeaksLeft p ++ [climbList steps (ip_Witness p) (leafHash v)] ++ ip_PeaksRight p)
      = root.
Proof.
  unfold VerifyInclusion. destruct (_ || _) eqn:Hguard; [done|].
  rewrite !orb_false_iff, !negb_false_iff in Hguard.
  destruct Hguard as [[[[[[[_ Hv] HV] HK] HS] HL] Hsz] Hle].
  apply badWidth_false in Hv. apply Z.eqb_eq in HV, HS, HL. apply bool_decide_eq_true in HK.
  apply Z.leb_gt in Hle.
  destruct (_ || _) eqn:Hc; [done|]. rewrite !orb_false_iff, !negb_false_iff in Hc.
  destruct Hc as [[Hc Hpl] Hpr]. apply Z.eqb_eq in Hpl, Hpr.
  destruct (containingPeak_index _ _ Hc) as (peak & Hpeak & _).
  rewrite (proj2 (index_Ok _ _ _) Hpeak). cbn [mbind result_bind].
  unfold stepsTo. rewrite Hpeak.
  destruct (pathToPeak _ _ _) as [steps|]; [|done].
  destruct (Z.eqb_spec (zlen steps) (zlen (ip_Witness p))) as [Hl|]; [|done]. cbn [negb].
  rewrite foldPath_Ok0 by done. cbn [mbind result_bind].
  destruct (existsb badWidth (ip_Witness p)) eqn:Hw; [done|].
  destruct (existsb badWidth (_ ++ _)) eqn:Hpw; [done|]. intros [= Hroot%bool_decide_eq_true].
  apply existsb_badWidth in Hw, Hpw. rewrite !Forall_app in Hpw.
  split_and!; try done. exists steps. tauto.
Qed.

(** ** Reading an accepted consistency proof *)

(** Every old peak climbs, along its path, to the new peak that contains it. *)
Fixpoint oldPeaksClimb (newPositions : list Z) (newPeaks : list bytes) (rest : list Z)
    (ws : list (list bytes)) (olds : list bytes) : Prop :=
  match rest, ws, olds with
  | [], [], [] => True
  | p :: rest', w :: ws', o :: olds' =>
      (exists steps, stepsTo newPositions p = Some steps /\ zlen steps = zlen w /\
         Forall width32 w /\
         zget newPeaks (containingPeak p newPositions) = Some (climbList steps w o)) /\
      oldPeaksClimb newPositions newPeaks rest' ws' olds'
  | _, _, _ => False
  end.

Lemma verifyOldPeaks_accepts (proof : ConsistencyProof) (newPositions rest : list Z)
    (wpre wrest : list (list bytes)) (ppre prest : list bytes) :
  verifyOldPeaks proof newPositions rest (zlen wpre) = Ok true ->
  cp_Witness proof = wpre ++ wrest -> cp_OldPeaks proof = ppre ++ prest ->
  zlen ppre = zlen wpre -> length wrest = length rest -> length prest = length rest ->
  oldPeaksClimb newPositions (cp_NewPeaks proof) rest wrest prest.
Proof.
  revert wpre wrest ppre prest. induction rest as [|p rest IH];
    intros wpre [|w wrest] ppre [|o prest] Hrun Hw Ho Hz Hlw Hlo; try done.
  cbn [verifyOldPeaks] in Hrun. cbn [oldPeaksClimb].
  destruct (_ <? 0) eqn:Hc; [done|].
  destruct (containingPeak_index _ _ Hc) as (root & Hroot & Hrange).
  rewrite (proj2 (index_Ok _ _ _) Hroot) in Hrun. cbn [mbind result_bind] in Hrun.
  unfold stepsTo at 1. rewrite Hroot. destruct (pathToPeak _ _ _) as [steps|]; [|done].
  rewrite Hw, Ho, !index_middle in Hrun by done. cbn [mbind result_bind] in Hrun.
  destruct (Z.eqb_spec (zlen steps) (zlen w)) as [Hl|]; [|done]. cbn [negb] in Hrun.
  rewrite foldPath_Ok0 in Hrun by done. cbn [mbind result_bind] in Hrun.
  destruct (existsb badWidth w) eqn:Hbw; [done|]. apply existsb_badWidth in Hbw.
  destruct (index (cp_NewPeaks proof) _) as [np|] eqn:Hnp; [|done]. cbn [mbind result_bind] in Hrun.
  case_bool_decide as Hacc; [|done]. cbn [negb] in Hrun. subst np. apply index_Ok in Hnp.
  split; [by exists steps|].
  apply (IH (wpre ++ [w]) wrest (ppre ++ [o]) prest); rewrite <- ?app_assoc; try done.
  - by rewrite zlen_app.
  - by rewrite !zlen_app, Hz.
  - by injection Hlw.
  - by injection Hlo.
Qed.

Lemma VerifyConsistency_accepts (oldRoot newRoot : bytes) (p : ConsistencyProof) :
  VerifyConsistency oldRoot newRoot p = Ok true ->
  cp_V p = 1 /\ cp_Kind p = "consistency"%string /\ cp_OldSize p <= cp_NewSize p /\
  validMMRSize (cp_OldSize p) = true /\ validMMRSize (cp_NewSize p) = true /\
  zlen (cp_OldPeaks p) = zlen (peakPositions (cp_OldSize p)) /\
  zlen (cp_NewPeaks p) = zlen (peakPositions (cp_NewSize p)) /\
  Forall width32 (cp_OldPeaks p) /\ Forall width32 (cp_NewPeaks p) /\
  RootFromPeaks (cp_OldPeaks p) = oldRoot /\ RootFromPeaks (cp_NewPeaks p) = newRoot /\
  oldPeaksClimb (peakPositions (cp_NewSize p)) (cp_NewPeaks p) (peakPositions (cp_OldSize p))
    (cp_Witness p) (cp_OldPeaks p).
Proof.
  unfold VerifyConsistency. destruct (_ || _) eqn:Hguard; [done|].
  rewrite !orb_false_iff, !negb_false_iff in Hguard.
  destruct Hguard as [[[[[_ HV] HK] Hle] Hv1] Hv2].
  apply Z.eqb_eq in HV. apply bool_decide_eq_true in HK. apply Z.ltb_ge in Hle.
  destruct (_ || _) eqn:Hlens; [done|]. rewrite !orb_false_iff, !negb_false_iff, !Z.eqb_eq in Hlens.
  destruct Hlens as [[H1 H2] H3].
  destruct (_ || _) eqn:Hws; [done|]. apply orb_false_iff in Hws as [Hw1 Hw2].
  apply existsb_badWidth in Hw1, Hw2.
  destruct (_ || _) eqn:Hr; [done|]. rewrite orb_false_iff, !negb_false_iff, !bool_decide_eq_true in Hr.
  destruct Hr as [Hr1 Hr2]. intros Hloop. split_and!; try done.
  unfold zlen in H1, H3. apply (verifyOldPeaks_accepts p _ _ [] (cp_Witness p) [] (cp_OldPeaks p));
    (done || lia).
Qed.

Lemma oldPeaksClimb_bind (newPositions : list Z) (newPeaks : list bytes) (rest : list Z)
    (ws1 ws2 : list (list bytes)) (o1 o2 : list bytes) :
  oldPeaksClimb newPositions newPeaks rest ws1 o1 -> oldPeaksClimb newPositions newPeaks rest ws2 o2 ->
  Forall width32 o1 -> Forall width32 o2 ->
  (ws1 = ws2 /\ o1 = o2) \/
  collision (oldPeaksMsgs newPositions rest ws1 o1) (oldPeaksMsgs newPositions rest ws2 o2).
Proof.
  revert ws1 ws2 o1 o2. induction rest as [|p rest IH];
    intros [|w1 ws1] [|w2 ws2] [|o1 os1] [|o2 os2] H1 H2 Hw1 Hw2; try done; [by left|].
  destruct H1 as [(st1 & Hs1 & Hl1 & Hf1 & Hn1) H1], H2 as [(st2 & Hs2 & Hl2 & Hf2 & Hn2) H2].
  rewrite Hs1 in Hs2. injection Hs2 as <-. rewrite Hn1 in Hn2. injection Hn2 as Heq.
  apply Forall_cons in Hw1 as [Ho1 Hw1]. apply Forall_cons in Hw2 as [Ho2 Hw2].
  cbn [oldPeaksMsgs]. rewrite Hs1. cbn [default].
  destruct (climbList_bind st1 w1 w2 o1 o2 Hl1 Hl2 Hf1 Hf2 Ho1 Ho2 Heq) as [[-> ->]|Hcol].
  - destruct (IH _ _ _ _ H1 H2 Hw1 Hw2) as [[-> ->]|Hcol]; [by left|right].
    eapply collision_mono; [| |exact Hcol]; by apply list_subseteq_app_r.
  - right. eapply collision_mono; [| |exact Hcol]; by apply list_subseteq_app_l.
Qed.

End Runs.

(** ** Binding *)

Section Binding.
Context `{DT : DtMmr} `{!DtMmrLaws DT}.

Lemma RootFromPeaks_bind (ps1 ps2 : list bytes) :
  zlen ps1 = zlen ps2 -> Forall width32 ps1 -> Forall width32 ps2 ->
  RootFromPeaks ps1 = RootFromPeaks ps2 -> ps1 = ps2 \/ collision (bagMsgs ps1) (bagMsgs ps2).
Proof.
  unfold zlen. intros Hl Hw1 Hw2 Heq. destruct ps1 as [|a1 r1], ps2 as [|a2 r2]; try done; [by left|].
  rewrite !RootFromPeaks_cons in Heq by done. apply bag_bind; try done. lia.
Qed.

Lemma inclusion_bind (root : bytes) (size leaf : Z) (v1 v2 : bytes) (p1 p2 : InclusionProof) :
  VerifyInclusion root size leaf v1 p1 = Ok true -> VerifyInclusion root size leaf v2 p2 = Ok true ->
  (v1 = v2 /\ p1 = p2) \/
  collision (inclusionTranscript size leaf v1 p1) (inclusionTranscript size leaf v2 p2).
Proof.
  intros (Hv1 & HV1 & HK1 & HS1 & HL1 & _ & _ & Hpl1 & Hpr1 & st & Hst & Hz1 & Hw1 & Hwl1 & Hwr1 & Hr1)%VerifyInclusion_accepts
         (Hv2 & HV2 & HK2 & HS2 & HL2 & _ & _ & Hpl2 & Hpr2 & st2 & Hst2 & Hz2 & Hw2 & Hwl2 & Hwr2 & Hr2)%VerifyInclusion_accepts.
  rewrite Hst in Hst2. injection Hst2 as <-.
  unfold inclusionTranscript. rewrite Hst. cbn [default].
  pose proof (climbList_length st (ip_Witness p1) _ (leafHash_length v1)) as Hc1.
  pose proof (climbList_length st (ip_Witness p2) _ (leafHash_length v2)) as Hc2.
  set (c1 := climbList st (ip_Witness p1) (leafHash v1)) in *.
  set (c2 := climbList st (ip_Witness p2) (leafHash v2)) in *.
  destruct (RootFromPeaks_bind (ip_PeaksLeft p1 ++ [c1] ++ ip_PeaksRight p1)
    (ip_PeaksLeft p2 ++ [c2] ++ ip_PeaksRight p2)) as [Hpeaks|Hcol].
  - by rewrite !zlen_app, Hpl1, Hpl2, Hpr1, Hpr2.
  - rewrite !Forall_app, Forall_singleton. done.
  - rewrite !Forall_app, Forall_singleton. done.
  - congruence.
  - apply app_inj_1 in Hpeaks as [Hl Hpeaks]; [|unfold zlen in *; lia].
    injection Hpeaks as Hc Hr.
    destruct (climbList_bind st _ _ _ _ Hz1 Hz2 Hw1 Hw2 (leafHash_length v1) (leafHash_length v2) Hc)
      as [[Hleaf Hwit]|Hcol].
    + destruct (sha256_bind _ _ _ _ (list_elem_of_here (Byte.x00 :: v1)
        (pathMsgs st (ip_Witness p1) (leafHash v1) ++ bagMsgs (ip_PeaksLeft p1 ++ [c1] ++ ip_PeaksRight p1)))
        (list_elem_of_here (Byte.x00 :: v2)
        (pathMsgs st (ip_Witness p2) (leafHash v2) ++ bagMsgs (ip_PeaksLeft p2 ++ [c2] ++ ip_PeaksRight p2)))
        Hleaf) as [Heq|Hcol]; [left|by right].
      injection Heq as Hvv. split; [done|].
      destruct p1, p2; simpl in *; congruence.
    + right. eapply collision_mono; [| |exact Hcol];
        by apply list_subseteq_cons, list_subseteq_app_l.
  - right. eapply collision_mono; [| |exact Hcol];
      by apply list_subseteq_cons, list_subseteq_app_r.
Qed.

Lemma consistency_bind (old1 old2 newRoot : bytes) (p1 p2 : ConsistencyProof) :
  cp_OldSize p1 = cp_OldSize p2 -> cp_NewSize p1 = cp_NewSize p2 ->
  VerifyConsistency old1 newRoot p1 = Ok true -> VerifyConsistency old2 newRoot p2 = Ok true ->
  (old1 = old2 /\ p1 = p2) \/ collision (consistencyTranscript p1) (consistencyTranscript p2).
Proof.
  intros Hold Hnew
    (HV1 & HK1 & _ & _ & _ & _ & Hn1 & Hwo1 & Hwn1 & Hro1 & Hrn1 & Hcl1)%VerifyConsistency_accepts
    (HV2 & HK2 & _ & _ & _ & _ & Hn2 & Hwo2 & Hwn2 & Hro2 & Hrn2 & Hcl2)%VerifyConsistency_accepts.
  unfold consistencyTranscript. rewrite <- Hold, <- Hnew in *.
  destruct (RootFromPeaks_bind (cp_NewPeaks p1) (cp_NewPeaks p2)) as [Hpeaks|Hcol]; try congruence.
  - rewrite <- Hpeaks in Hcl2.
    destruct (oldPeaksClimb_bind _ _ _ _ _ _ _ Hcl1 Hcl2 Hwo1 Hwo2) as [[Hw Ho]|Hcol].
    + left. split; [congruence|]. destruct p1, p2; simpl in *; congruence.
    + right. eapply collision_mono; [| |exact Hcol]; by apply list_subseteq_app_l.
  - right. eapply collision_mono; [| |exact Hcol]; by apply list_subseteq_app_r.
Qed.

End Binding.

(** ** Claims *)

Section Totality.
Context `{DT : DtMmr}.

(** The proof verifiers return a verdict on every input, whatever the
    sizes, positions and proof contents: no slice access is ever out of
    range. *)
Lemma verifiers_never_panic (r1 r2 v : bytes) (size leaf : Z) (id : string)
    (ip : InclusionProof) (cp : ConsistencyProof) :
  (exists b, VerifyInclusion r1 size leaf v ip = Ok b) /\
  (exists b, VerifyHexInclusion r1 size leaf id ip = Ok b) /\
  (exists b, VerifyConsistency r1 r2 cp = Ok b).
Proof.
  split_and!; [apply VerifyInclusion_total| |apply VerifyConsistency_total].
  unfold VerifyHexInclusion. destruct (Hex.canonical id) as [b|]; [|by eexists].
  destruct (badWidth b); [by eexists|apply VerifyInclusion_total].
Qed.

End Totality.

Section Claims.
Context `{DT : DtMmr} `{!DtMmrLaws DT}.

(** C5: an inclusion proof is sound for the tree that made the root: if
    [VerifyInclusion] accepts a value at a leaf against the root of the first
    [m] values of a tree, then the value is the one at that leaf and the proof
    is the tree's own proof, or the messages the verifier hashed and those of
    the tree's own proof contain two different messages with one SHA-256
    digest. *)
Theorem inclusion_sound (t : Tree) (vs : list bytes) (m leaf : Z) (v : bytes) (p : InclusionProof) :
  commits t vs -> 0 < m <= zlen vs -> 0 <= leaf ->
  VerifyInclusion (logRoot (prefix vs m)) (mmr_size m) leaf v p = Ok true ->
  exists v' p', zget vs leaf = Some v' /\ InclusionProofAt t leaf (mmr_size m) = Ok p' /\
    ((v = v' /\ p = p') \/
     collision (inclusionTranscript (mmr_size m) leaf v p) (inclusionTranscript (mmr_size m) leaf v' p')).
Proof.
  intros Hc Hm Hleaf Hacc. destruct (commits_length t vs Hc) as (_ & Hmax & _).
  pose proof (VerifyInclusion_accepts _ _ _ _ _ Hacc) as (_ & _ & _ & _ & _ & _ & Hlt & _).
  rewrite law_LeafCount in Hlt by lia. assert (0 <= leaf < zlen vs) as Hr by lia.
  destruct (zget_in_range vs leaf Hr) as [v' Hv'].
  destruct (inclusion_accepted t vs Hc m leaf v' Hm Hlt Hv') as (p' & Hp' & Hacc').
  exists v', p'. split_and!; [done|done|]. by eapply inclusion_bind.
Qed.

(** C6: the log is append-only to a verifier: if [VerifyConsistency] accepts an
    old root of [m1] leaves against the root of the first [m2] values of a
    tree, the old root is the root of the first [m1] of the same values and the
    proof is the tree's own, or the hashed messages contain a SHA-256
    collision. *)
Theorem consistency_sound (t : Tree) (vs : list bytes) (m1 m2 : Z) (oldRoot : bytes)
    (p : ConsistencyProof) :
  commits t vs -> 0 <= m1 <= m2 -> m2 <= zlen vs ->
  cp_OldSize p = mmr_size m1 -> cp_NewSize p = mmr_size m2 ->
  VerifyConsistency oldRoot (logRoot (prefix vs m2)) p = Ok true ->
  exists p', ConsistencyProofAt t (mmr_size m1) (mmr_size m2) = Ok p' /\
    ((oldRoot = logRoot (prefix vs m1) /\ p = p') \/
     collision (consistencyTranscript p) (consistencyTranscript p')).
Proof.
  intros Hc Hm Hm2 Ho Hn Hacc.
  destruct (consistency_produced t vs Hc m1 m2 Hm Hm2) as (ws & Hws & Hp).
  exists (honestConsistency vs m1 m2 ws). split; [done|].
  eapply consistency_bind; [done|done|exact Hacc|]. by apply (honestConsistency_verifies t).
Qed.

End Claims.

(** ** Witnesses *)

Import Ref.

Lemma inclusion_sound_witness :
  exists p v' p', zget sampleValues 1 = Some v' /\
    InclusionProofAt (DT := dt_reference) (buildTree sampleValues) 1 4 = Ok p' /\
    ((sampleValue x02 = v' /\ p = p') \/
     collision (inclusionTranscript (DT := dt_reference) 4 1 (sampleValue x02) p)
       (inclusionTranscript (DT := dt_reference) 4 1 v' p')).
Proof.
  destruct (inclusion_accepted (DT := dt_reference) (buildTree sampleValues) sampleValues
    sample_commits 3 1 (sampleValue x02)) as (p & _ & Hp);
    [vm_compute; split; congruence|lia|reflexivity|].
  exists p. apply (inclusion_sound (DT := dt_reference) (buildTree sampleValues) sampleValues 3 1);
    [apply sample_commits|vm_compute; split; congruence|lia|exact Hp].
Defined.

Lemma consistency_sound_witness :
  exists p p', ConsistencyProofAt (DT := dt_reference) (buildTree sampleValues) 1 4 = Ok p' /\
    ((logRoot [sampleValue x01] = logRoot (prefix sampleValues 1) /\ p = p') \/
     collision (consistencyTranscript (DT := dt_reference) p)
       (consistencyTranscript (DT := dt_reference) p')).
Proof.
  destruct (consistency_produced (DT := dt_reference) (buildTree sampleValues) sampleValues
    sample_commits 1 3) as (ws & Hws & _); [lia|vm_compute; congruence|].
  exists (honestConsistency sampleValues 1 3 ws).
  apply (consistency_sound (DT := dt_reference) (buildTree sampleValues) sampleValues 1 3);
    [apply sample_commits|lia|vm_compute; congruence|reflexivity|reflexivity|].
  apply (honestConsistency_verifies (DT := dt_reference) (buildTree sampleValues) sampleValues
    sample_commits 1 3 ws); [lia|vm_compute; congruence|exact Hws].
Defined.

End MmrBinding.
