(* ===== verification/MmrNodes.v ===== *)
(** * Trees with equal peaks

    The peaks of a well-formed tree at a size determine every node below it:
    two trees with the same peaks have the same nodes there, or the messages
    hashed into their interior nodes contain a SHA-256 collision. *)

From S2P Require Import Prelude Sha256 Geometry DtMmr Mmr MmrBuild MmrPaths MmrProofs MmrBinding.
Import Geometry Mmr MmrBuild MmrPaths MmrProofs MmrBinding.

Module MmrNodes.

Local Open Scope Z_scope.

Section Trees.
Context `{DT : DtMmr} `{!DtMmrLaws DT}.

(** The message hashed into the node at [i], if it is an interior node. *)
Definition nodeMsg (ns : list bytes) (i : Z) : list bytes :=
  if IndexHeight i =? 0 then []
  else [be_bytes 8 (i + 1) ++ default [] (zget ns (i - 2 ^ IndexHeight i)) ++ default [] (zget ns (i - 1))].

Definition nodeMsgs (ns : list bytes) : list bytes :=
  flat_map (nodeMsg ns) (map Z.of_nat (seq 0 (length ns))).

Lemma nodeMsgs_in (ns : list bytes) (i : Z) (msg : bytes) :
  0 <= i < zlen ns -> msg ∈ nodeMsg ns i -> msg ∈ nodeMsgs ns.
Proof.
  intros Hi Hm. apply list_elem_of_In, in_flat_map. exists i. split; [|by apply list_elem_of_In].
  apply in_map_iff. exists (Z.to_nat i). split; [lia|]. apply in_seq. unfold zlen in Hi. lia.
Qed.

(** An interior node of a well-formed tree, by its children. *)
Lemma wf_children (t : Tree) (n : Z) (h : nat) (ls : Z) (node : bytes) :
  tree_wf t n -> aligned (Z.of_nat (S h)) ls -> zget (nodes t) (node_pos ls (Z.of_nat (S h))) = Some node ->
  exists l r msg, zget (nodes t) (node_pos ls (Z.of_nat h)) = Some l /\
    zget (nodes t) (node_pos (ls + 2 ^ Z.of_nat h) (Z.of_nat h)) = Some r /\
    length l = 32%nat /\ length r = 32%nat /\
    msg = be_bytes 8 (node_pos ls (Z.of_nat (S h)) + 1) ++ l ++ r /\ msg ∈ nodeMsgs (nodes t) /\ node = sha256 msg.
Proof.
  intros [Hn Hlen Hall] Hal Hnode. pose proof Hal as (Hh & Hls & _).
  pose proof (zget_Some_range _ _ _ Hnode) as Hrange. pose proof (mmr_size_bound n Hn).
  destruct (Hall _ _ Hnode) as [_ Hc]. destruct (Hc ls _ Hal ltac:(lia) eq_refl) as (l & r & Hl & Hr & ->).
  set (p := node_pos ls (Z.of_nat (S h))) in *. exists l, r, (be_bytes 8 (p + 1) ++ l ++ r).
  destruct (Hall _ _ Hl) as [Hwl _], (Hall _ _ Hr) as [Hwr _]. split_and!; try done.
  - rewrite <- Hl. unfold p. rewrite <- (node_pos_left ls (Z.of_nat (S h))) by lia. do 2 f_equal. lia.
  - rewrite <- Hr. unfold p. rewrite <- (node_pos_right ls (Z.of_nat (S h))) by (done || lia).
    replace (Z.of_nat (S h) - 1) with (Z.of_nat h) by lia. done.
  - apply (nodeMsgs_in _ p); [done|]. unfold nodeMsg, p.
    rewrite law_IndexHeight by (done || (fold p; lia)). rewrite (proj2 (Z.eqb_neq _ _)) by lia. fold p.
    rewrite Hl, Hr. left.
  - unfold interiorHash. by rewrite u64_succ_small by lia.
Qed.

(** Equal roots of two subtrees: equal leaves, or a collision. *)
Lemma subtree_bind (t1 t2 : Tree) (n1 n2 : Z) (h : nat) (ls : Z) (node : bytes) :
  tree_wf t1 n1 -> tree_wf t2 n2 -> aligned (Z.of_nat h) ls ->
  zget (nodes t1) (node_pos ls (Z.of_nat h)) = Some node -> zget (nodes t2) (node_pos ls (Z.of_nat h)) = Some node ->
  (forall p, ls <= p < ls + 2 ^ Z.of_nat h -> zget (nodes t1) (mmr_size p) = zget (nodes t2) (mmr_size p)) \/
  collision (nodeMsgs (nodes t1)) (nodeMsgs (nodes t2)).
Proof.
  intros Hw1 Hw2. revert ls node. induction h as [|h IH]; intros ls node Hal H1 H2.
  - left. change (Z.of_nat 0) with 0 in *. rewrite node_pos_leaf in *. change (2 ^ 0) with 1. intros p Hp.
    assert (p = ls) as -> by lia. congruence.
  - destruct (wf_children t1 n1 h ls node Hw1 Hal H1) as (l1 & r1 & m1 & Hl1 & Hr1 & Wl1 & Wr1 & -> & Hm1 & ->).
    destruct (wf_children t2 n2 h ls _ Hw2 Hal H2) as (l2 & r2 & m2 & Hl2 & Hr2 & Wl2 & Wr2 & -> & Hm2 & Heq).
    destruct (sha256_bind _ _ _ _ Hm1 Hm2 Heq) as [Hmsg|?]; [|by right].
    apply app_inv_head in Hmsg. apply app_inj_1 in Hmsg as [-> ->]; [|congruence].
    pose proof (aligned_left ls (Z.of_nat (S h)) ltac:(lia) Hal) as Hall.
    pose proof (aligned_right ls (Z.of_nat (S h)) ltac:(lia) Hal) as Halr.
    rewrite (pow2_pred (Z.of_nat (S h))) by lia. replace (Z.of_nat (S h) - 1) with (Z.of_nat h) in * by lia.
    destruct (IH ls l2 Hall Hl1 Hl2) as [Hleft|?]; [|by right].
    destruct (IH _ r2 Halr Hr1 Hr2) as [Hright|?]; [left|by right].
    intros p Hp. destruct (Z.lt_ge_cases p (ls + 2 ^ Z.of_nat h)); [apply Hleft|apply Hright]; lia.
Qed.

(** Leaves determine the nodes over them. *)
Lemma leaves_determine (t1 t2 : Tree) (n1 n2 n : Z) :
  tree_wf t1 n1 -> tree_wf t2 n2 -> 0 <= n <= n1 -> n <= n2 ->
  (forall p, 0 <= p < n -> zget (nodes t1) (mmr_size p) = zget (nodes t2) (mmr_size p)) ->
  take (Z.to_nat (mmr_size n)) (nodes t1) = take (Z.to_nat (mmr_size n)) (nodes t2).
Proof.
  intros Hw1 Hw2 Hn Hn2 Hleaf.
  assert (forall (h : nat) ls, aligned (Z.of_nat h) ls -> ls + 2 ^ Z.of_nat h <= n ->
    zget (nodes t1) (node_pos ls (Z.of_nat h)) = zget (nodes t2) (node_pos ls (Z.of_nat h))) as Hnode.
  { induction h as [|h IH]; intros ls Hal Hle; pose proof Hal as (_ & Hls & _).
    - change (Z.of_nat 0) with 0 in *. change (2 ^ 0) with 1 in Hle. rewrite !node_pos_leaf. apply Hleaf. lia.
    - assert (node_pos ls (Z.of_nat (S h)) < mmr_size n) as Hb by (apply node_pos_below; done || lia).
      pose proof (node_pos_nonneg ls (Z.of_nat (S h)) ltac:(lia) Hls).
      pose proof (mmr_size_mono n n1 ltac:(lia)). pose proof (mmr_size_mono n n2 ltac:(lia)).
      destruct (zget_in_range (nodes t1) (node_pos ls (Z.of_nat (S h)))) as [x1 Hx1]; [rewrite (wf_size _ _ Hw1); lia|].
      destruct (zget_in_range (nodes t2) (node_pos ls (Z.of_nat (S h)))) as [x2 Hx2]; [rewrite (wf_size _ _ Hw2); lia|].
      destruct (wf_children t1 n1 h ls x1 Hw1 Hal Hx1) as (l1 & r1 & m1 & Hl1 & Hr1 & _ & _ & -> & _ & ->).
      destruct (wf_children t2 n2 h ls x2 Hw2 Hal Hx2) as (l2 & r2 & m2 & Hl2 & Hr2 & _ & _ & -> & _ & ->).
      pose proof (aligned_left ls (Z.of_nat (S h)) ltac:(lia) Hal) as Hall.
      pose proof (aligned_right ls (Z.of_nat (S h)) ltac:(lia) Hal) as Halr.
      rewrite (pow2_pred (Z.of_nat (S h))) in Hle by lia.
      replace (Z.of_nat (S h) - 1) with (Z.of_nat h) in * by lia. pose proof (pow2_pos (Z.of_nat h)).
      rewrite IH in Hl1 by (done || lia). rewrite IH in Hr1 by (done || lia). congruence. }
  apply list_eq. intros i. destruct (Nat.lt_ge_cases i (Z.to_nat (mmr_size n))) as [Hi|Hi].
  - rewrite !lookup_take_lt by done.
    destruct (node_pos_total (Z.of_nat i) ltac:(lia)) as (ls & h & Hal & Hpos). pose proof Hal as (Hh & _ & _).
    assert (ls + 2 ^ h <= n) as Hle by (apply node_pos_below; [done|lia|rewrite Hpos; lia]).
    rewrite <- (Z2Nat.id h Hh) in Hal, Hle, Hpos. pose proof (Hnode _ _ Hal Hle) as H.
    rewrite Hpos, !zget_lookup, Nat2Z.id in H by lia. done.
  - rewrite !lookup_ge_None_2; [done| |]; rewrite length_take; lia.
Qed.

(** The peaks of a well-formed tree at an earlier size. *)
Lemma wf_peaks (t : Tree) (n m : Z) :
  tree_wf t n -> 0 <= m <= n ->
  exists peaks, PeakHashesAt t (mmr_size m) = Ok peaks /\
    Forall2 (fun p v => zget (nodes t) (node_pos (fst p) (snd p)) = Some v) (mountains m) peaks.
Proof.
  intros [Hn Hlen _] Hm. pose proof (mmr_size_mono m n ltac:(lia)). pose proof (mmr_size_ge m ltac:(lia)).
  pose proof (mmr_size_bound m ltac:(lia)).
  assert (exists peaks, Forall2 (fun p v => zget (nodes t) (node_pos (fst p) (snd p)) = Some v) (mountains m) peaks)
    as [peaks Hpeaks].
  { assert (forall ms, ms ⊆ mountains m -> exists peaks,
      Forall2 (fun p v => zget (nodes t) (node_pos (fst p) (snd p)) = Some v) ms peaks) as Hex; [|by apply Hex].
    induction ms as [|[s h] ms IH]; intros Hms; [by exists []|].
    destruct (IH ltac:(set_solver)) as [peaks Hp]. destruct (mountain_facts m s h ltac:(lia) ltac:(set_solver))
      as (_ & _ & Hh & Hs & _ & Hlt & _). pose proof (node_pos_nonneg s h ltac:(lia) Hs).
    destruct (zget_in_range (nodes t) (node_pos s h) ltac:(lia)) as [v Hv]. exists (v :: peaks). by constructor. }
  exists peaks. split; [|done]. unfold PeakHashesAt, peakHashesAtLocked.
  destruct (Z.eqb_spec (mmr_size m) 0) as [Hz|Hnz].
  { assert (m = 0) as -> by lia. assert (mountains 0 = []) as Hnil by (vm_compute; reflexivity).
    rewrite Hnil in Hpeaks. by apply Forall2_nil_inv_l in Hpeaks as ->. }
  rewrite (proj2 (Z.ltb_ge _ _)), validMMRSize_complete by lia. cbn [negb orb].
  rewrite u64_sub_small by (unfold two63, two64 in *; lia).
  assert (0 < m) by (destruct (Z.eq_dec m 0) as [->|]; [done|lia]).
  rewrite (law_PeakHashes _ m peaks); [cbn [mbind result_bind]; by rewrite cloneProof_id|lia|].
  apply traverse_Ok. unfold peak_positions. apply Forall2_fmap_l. eapply Forall2_impl; [exact Hpeaks|].
  intros p v Hv. by apply get_store.
Qed.

(** Two trees with the same peaks at a size have the same nodes below it. *)
Lemma peaks_bind (t1 t2 : Tree) (n1 n2 m : Z) :
  tree_wf t1 n1 -> tree_wf t2 n2 -> 0 <= m <= n1 -> m <= n2 ->
  PeakHashesAt t1 (mmr_size m) = PeakHashesAt t2 (mmr_size m) ->
  take (Z.to_nat (mmr_size m)) (nodes t1) = take (Z.to_nat (mmr_size m)) (nodes t2) \/
  collision (nodeMsgs (nodes t1)) (nodeMsgs (nodes t2)).
Proof.
  intros Hw1 Hw2 Hm Hm2 Heq. destruct (wf_peaks t1 n1 m Hw1 Hm) as (peaks & Hp1 & F1).
  destruct (wf_peaks t2 n2 m Hw2 ltac:(lia)) as (peaks2 & Hp2 & F2).
  assert (peaks2 = peaks) as -> by congruence. pose proof (wf_leaves _ _ Hw1) as Hmax.
  assert (forall ms pk, ms ⊆ mountains m ->
    Forall2 (fun p v => zget (nodes t1) (node_pos (fst p) (snd p)) = Some v) ms pk ->
    Forall2 (fun p v => zget (nodes t2) (node_pos (fst p) (snd p)) = Some v) ms pk ->
    (forall s h, (s, h) ∈ ms -> forall p, s <= p < s + 2 ^ h ->
       zget (nodes t1) (mmr_size p) = zget (nodes t2) (mmr_size p)) \/
    collision (nodeMsgs (nodes t1)) (nodeMsgs (nodes t2))) as Hall.
  { induction ms as [|[s h] ms IH]; intros pk Hms G1 G2; [left; intros s h Hin; set_solver|].
    apply Forall2_cons_inv_l in G1 as (v & pk' & Hv1 & G1 & ->). apply Forall2_cons in G2 as [Hv2 G2].
    cbn [fst snd] in *. destruct (mountain_facts m s h ltac:(lia) ltac:(set_solver)) as (_ & Hal & Hh & _).
    rewrite <- (Z2Nat.id h) in Hv1, Hv2, Hal by lia.
    destruct (subtree_bind t1 t2 n1 n2 (Z.to_nat h) s v Hw1 Hw2 Hal Hv1 Hv2) as [Hs|?]; [|by right].
    destruct (IH pk' ltac:(set_solver) G1 G2) as [Hr|?]; [left|by right].
    rewrite Z2Nat.id in Hs by lia. intros s' h' [[= -> ->]|Hin]%elem_of_cons; [done|by apply Hr]. }
  destruct (Hall (mountains m) peaks ltac:(done) F1 F2) as [Hleaf|?]; [left|by right].
  apply (leaves_determine t1 t2 n1 n2); [done|done|lia|lia|]. intros p Hp.
  pose proof (mmr_size_ge p ltac:(lia)). pose proof (mmr_size_strict p m ltac:(lia)).
  destruct (mountains_cover m (mmr_size p) ltac:(lia) ltac:(lia)) as (j & s & h & Hj & [Hlo Hhi] & _).
  apply list_elem_of_lookup_2 in Hj. apply (Hleaf s h Hj).
  destruct (mountain_facts m s h ltac:(lia) Hj) as (Hal1 & _ & Hh & Hs & _).
  pose proof (mountain_end s h ltac:(lia) Hal1). pose proof (pow2_pos h ltac:(lia)).
  split; [apply mmr_size_le_inv|apply mmr_size_lt_inv]; lia.
Qed.

End Trees.

End MmrNodes.
