(* ===== verification/MmrRange.v ===== *)
(** * Range proofs

    The tree produces a range proof for every leaf range of every complete
    historical size and [VerifyRange] accepts it; an accepted range determines
    every value of the range and the proof, unless the hashed messages contain
    a SHA-256 collision. *)

From S2P Require Import Prelude Sha256 Geometry DtMmr DtMmrRef Hex Mmr MmrBuild MmrPaths MmrProofs MmrBinding.
Import Geometry Mmr MmrBuild MmrPaths MmrProofs MmrBinding.

Module MmrRange.

Local Open Scope Z_scope.

(** ** Subtrees of the leaf range *)

(** A node of height [h] that starts at leaf [ls] and lies below the maximum. *)
Record subtree (h : nat) (ls : Z) : Prop := {
  subtree_aligned : aligned (Z.of_nat h) ls;
  subtree_max : ls + 2 ^ Z.of_nat h <= max_leaves
}.

Lemma subtree_small (h : nat) (ls : Z) :
  subtree h ls -> 0 <= ls /\ 0 < 2 ^ Z.of_nat h /\ Z.of_nat h <= 62 /\ ls + 2 ^ Z.of_nat h < two63.
Proof.
  intros [(_ & Hls & _) Hmax]. pose proof (pow2_pos (Z.of_nat h) ltac:(lia)).
  assert (max_leaves < two63) by done. split_and!; try done; [|lia].
  destruct (Z.le_gt_cases (Z.of_nat h) 62) as [|Hgt]; [done|].
  pose proof (pow2_le 63 (Z.of_nat h) ltac:(lia)). rewrite <- two63_eq in *. lia.
Qed.

Lemma subtree_end (h : nat) (ls : Z) :
  subtree h ls -> u64_sub (u64_add ls (u64_shl 1 (Z.of_nat h))) 1 = ls + 2 ^ Z.of_nat h - 1.
Proof.
  intros (Hls & Hp & Hh & Hlt)%subtree_small. assert (two64 = 2 * two63) by reflexivity.
  rewrite u64_shl_one, u64_add_small, u64_sub_small; lia.
Qed.

Lemma subtree_children (h : nat) (ls : Z) :
  subtree (S h) ls ->
  subtree h ls /\ subtree h (ls + 2 ^ Z.of_nat h) /\ 2 ^ Z.of_nat (S h) = 2 * 2 ^ Z.of_nat h.
Proof.
  intros [Hal Hmax]. pose proof (pow2_pos (Z.of_nat h) ltac:(lia)).
  pose proof (aligned_left ls (Z.of_nat (S h)) ltac:(lia) Hal) as Hl.
  pose proof (aligned_right ls (Z.of_nat (S h)) ltac:(lia) Hal) as Hr.
  assert (2 ^ Z.of_nat (S h) = 2 * 2 ^ Z.of_nat h) as Heq
    by (rewrite (pow2_pred (Z.of_nat (S h))) by lia; do 2 f_equal; lia).
  replace (Z.of_nat (S h) - 1) with (Z.of_nat h) in * by lia.
  split; [split; [done|lia]|split; [split; [done|lia]|done]].
Qed.

(** The positions and the first leaf of the children, as the code computes them. *)
Lemma subtree_steps (h : nat) (ls : Z) :
  subtree (S h) ls ->
  u64_sub (node_pos ls (Z.of_nat (S h))) (u64_shl 1 (Z.of_nat (S h))) = node_pos ls (Z.of_nat h) /\
  u64_sub (node_pos ls (Z.of_nat (S h))) 1 = node_pos (ls + 2 ^ Z.of_nat h) (Z.of_nat h) /\
  u64_add ls (u64_shl 1 (u64_sub (Z.of_nat (S h)) 1)) = ls + 2 ^ Z.of_nat h /\
  node_pos ls (Z.of_nat (S h)) < two63.
Proof.
  intros Hs. pose proof (subtree_small _ _ Hs) as (Hls & Hp & Hh & Hlt).
  destruct Hs as [Hal Hmax]. assert (two64 = 2 * two63) by reflexivity. assert (64 < two63) by done.
  assert (node_pos ls (Z.of_nat (S h)) < two63) as Hpos.
  { assert (0 <= max_leaves) as Hm0 by done.
    pose proof (proj2 (node_pos_below ls (Z.of_nat (S h)) max_leaves Hal Hm0) Hmax).
    pose proof (mmr_size_bound max_leaves (conj Hm0 (Z.le_refl _))). lia. }
  destruct (children_index ls (Z.of_nat (S h)) Hal ltac:(lia) Hpos) as (_ & Hr & Hrange).
  pose proof (node_pos_left ls (Z.of_nat (S h)) ltac:(lia)) as Hl.
  pose proof (node_pos_right ls (Z.of_nat (S h)) ltac:(lia) Hal) as Hright.
  rewrite (u64_sub_small (Z.of_nat (S h)) 1) by lia.
  replace (Z.of_nat (S h) - 1) with (Z.of_nat h) in * by lia.
  pose proof (pow2_le (Z.of_nat h) (Z.of_nat (S h)) ltac:(lia)).
  pose proof (pow2_pos (Z.of_nat h) ltac:(lia)).
  rewrite !u64_shl_one by lia. rewrite Hr, (u64_sub_small (node_pos _ _)), u64_add_small; lia.
Qed.

(** ** What a range proof contains *)

(** The hashes of the maximal subtrees outside [lo..hi], left to right, below a
    node; none inside the range. *)
Fixpoint outside (vs : list bytes) (h : nat) (ls lo hi : Z) : list bytes :=
  let leafEnd := ls + 2 ^ Z.of_nat h - 1 in
  if (leafEnd <? lo) || (hi <? ls) then [nodeHash vs h ls]
  else if (lo <=? ls) && (leafEnd <=? hi) then []
  else
    match h with
    | O => []
    | S h' => outside vs h' ls lo hi ++ outside vs h' (ls + 2 ^ Z.of_nat h') lo hi
    end.

Lemma outside_inside (vs : list bytes) (h : nat) (ls lo hi : Z) :
  lo <= ls -> ls + 2 ^ Z.of_nat h - 1 <= hi -> outside vs h ls lo hi = [].
Proof.
  intros Hlo Hhi. pose proof (pow2_pos (Z.of_nat h) ltac:(lia)).
  destruct h; cbn [outside]; rewrite !(proj2 (Z.ltb_ge _ _)), !(proj2 (Z.leb_le _ _)) by lia; done.
Qed.

(** A subtree that meets the range splits into its children. *)
Lemma outside_split (vs : list bytes) (h : nat) (ls lo hi : Z) :
  subtree (S h) ls -> lo <= ls + 2 ^ Z.of_nat (S h) - 1 -> ls <= hi ->
  outside vs (S h) ls lo hi = outside vs h ls lo hi ++ outside vs h (ls + 2 ^ Z.of_nat h) lo hi.
Proof.
  intros Hs Hlo Hhi. destruct (subtree_children _ _ Hs) as (_ & _ & Heq).
  pose proof (pow2_pos (Z.of_nat h) ltac:(lia)).
  destruct (decide (lo <= ls /\ ls + 2 ^ Z.of_nat (S h) - 1 <= hi)) as [[H1 H2]|Hno].
  - by rewrite !outside_inside by lia.
  - cbn [outside]. rewrite !(proj2 (Z.ltb_ge _ _)) by lia. cbn [orb].
    destruct (_ && _) eqn:Hin; [|done].
    apply andb_true_iff in Hin as [?%Z.leb_le ?%Z.leb_le]. tauto.
Qed.

(** A subtree outside the range is one witness. *)
Lemma outside_whole (vs : list bytes) (h : nat) (ls lo hi : Z) :
  ls + 2 ^ Z.of_nat h - 1 < lo \/ hi < ls -> outside vs h ls lo hi = [nodeHash vs h ls].
Proof.
  intros Ho. assert (((ls + 2 ^ Z.of_nat h - 1 <? lo) || (hi <? ls)) = true) as Heq.
  { apply orb_true_iff. rewrite !Z.ltb_lt. done. }
  destruct h; cbn [outside]; by rewrite Heq.
Qed.

(** ** Rebuilding a subtree, without the machine arithmetic *)

Inductive meets_spec (h : nat) (ls lo hi : Z) : Prop :=
| meets_not : ls + 2 ^ Z.of_nat h - 1 < lo \/ hi < ls -> meets_spec h ls lo hi
| meets_some : lo <= ls + 2 ^ Z.of_nat h - 1 -> ls <= hi -> meets_spec h ls lo hi.

Lemma meets_dec (h : nat) (ls lo hi : Z) : meets_spec h ls lo hi.
Proof.
  destruct (Z.lt_ge_cases (ls + 2 ^ Z.of_nat h - 1) lo); [by apply meets_not; left|].
  destruct (Z.lt_ge_cases hi ls); [by apply meets_not; right|by apply meets_some].
Qed.

Definition rebuild (h : nat) (ls lo hi : Z) (digs : gmap Z bytes) (wit : list bytes) (cursor : Z) :
    option (bytes * Z) :=
  reconstructRangeSubtree h (node_pos ls (Z.of_nat h)) ls lo hi digs wit cursor.

Section Rebuild.
Context (lo hi : Z) (digs : gmap Z bytes) (wit : list bytes) (cursor : Z).

Lemma rebuild_outside (h : nat) (ls : Z) :
  subtree h ls -> ls + 2 ^ Z.of_nat h - 1 < lo \/ hi < ls ->
  rebuild h ls lo hi digs wit cursor = node ← zget wit cursor; Some (node, cursor + 1).
Proof.
  intros Hs Ho. assert (((ls + 2 ^ Z.of_nat h - 1 <? lo) || (hi <? ls)) = true) as Heq.
  { apply orb_true_iff. rewrite !Z.ltb_lt. done. }
  unfold rebuild. destruct h; cbn [reconstructRangeSubtree]; by rewrite (subtree_end _ _ Hs), Heq.
Qed.

Lemma rebuild_leaf (ls : Z) :
  subtree 0 ls -> lo <= ls -> ls <= hi ->
  rebuild 0 ls lo hi digs wit cursor = body ← digs !! ls; Some (leafHash body, cursor).
Proof.
  intros Hs Hlo Hhi. unfold rebuild. cbn [reconstructRangeSubtree]. rewrite (subtree_end _ _ Hs).
  change (2 ^ Z.of_nat 0) with 1. by rewrite !(proj2 (Z.ltb_ge _ _)) by lia.
Qed.

Lemma rebuild_node (h : nat) (ls : Z) :
  subtree (S h) ls -> lo <= ls + 2 ^ Z.of_nat (S h) - 1 -> ls <= hi ->
  rebuild (S h) ls lo hi digs wit cursor =
    '(l, c1) ← rebuild h ls lo hi digs wit cursor;
    '(r, c2) ← rebuild h (ls + 2 ^ Z.of_nat h) lo hi digs wit c1;
    Some (interiorHash l r (node_pos ls (Z.of_nat (S h))), c2).
Proof.
  intros Hs Hlo Hhi. unfold rebuild. cbn [reconstructRangeSubtree]. rewrite (subtree_end _ _ Hs).
  destruct (subtree_steps _ _ Hs) as (-> & -> & -> & _).
  by rewrite !(proj2 (Z.ltb_ge _ _)) by lia.
Qed.

End Rebuild.

Section Produce.
Context `{DT : DtMmr} `{!DtMmrLaws DT}.
Context (t : Tree) (vs : list bytes) (Hc : commits t vs).

Lemma subtree_node (h : nat) (ls : Z) :
  subtree h ls -> ls + 2 ^ Z.of_nat h <= zlen vs ->
  index (nodes t) (node_pos ls (Z.of_nat h)) = Ok (nodeHash vs h ls).
Proof. intros [Hal _] Hle. by apply index_Ok, commits_node. Qed.

Lemma rangeWitnesses_ok (h : nat) (ls lo hi : Z) (out : list bytes) :
  subtree h ls -> ls + 2 ^ Z.of_nat h <= zlen vs -> lo <= hi ->
  rangeWitnesses t h (node_pos ls (Z.of_nat h)) ls lo hi out = Ok (out ++ outside vs h ls lo hi).
Proof.
  revert ls out. induction h as [|h IH]; intros ls out Hs Hle Hlohi;
    pose proof (subtree_node _ _ Hs Hle) as Hnode; pose proof (subtree_end _ _ Hs) as Hend;
    cbn [rangeWitnesses outside]; rewrite Hend.
  - change (2 ^ Z.of_nat 0) with 1 in *. destruct (_ || _) eqn:Ho; [by rewrite Hnode|].
    rewrite !orb_false_iff, !Z.ltb_ge in Ho. rewrite !(proj2 (Z.leb_le _ _)) by lia. cbn [andb].
    by rewrite app_nil_r.
  - destruct (subtree_children _ _ Hs) as (Hl & Hr & Heq).
    destruct (subtree_steps _ _ Hs) as (-> & -> & -> & _).
    destruct (_ || _); [by rewrite Hnode|].
    destruct (_ && _); [by rewrite app_nil_r|].
    pose proof (pow2_pos (Z.of_nat h) ltac:(lia)).
    rewrite IH by (done || lia). cbn [mbind result_bind]. rewrite IH by (done || lia).
    by rewrite app_assoc.
Qed.

(** [digs] holds the values of the range. *)
Definition digests_of (lo hi : Z) (digs : gmap Z bytes) : Prop :=
  forall i, lo <= i <= hi -> digs !! i = zget vs i.

Lemma reconstruct_ok (h : nat) (ls lo hi : Z) (digs : gmap Z bytes) (pre post wit : list bytes) :
  subtree h ls -> ls + 2 ^ Z.of_nat h <= zlen vs -> digests_of lo hi digs ->
  wit = pre ++ outside vs h ls lo hi ++ post ->
  rebuild h ls lo hi digs wit (zlen pre) =
    Some (nodeHash vs h ls, zlen pre + zlen (outside vs h ls lo hi)).
Proof.
  intros Hs Hle Hd ->. revert ls pre post Hs Hle.
  induction h as [|h IH]; intros ls pre post Hs Hle;
    match goal with
    | H : subtree ?k ls |- _ =>
        destruct (meets_dec k ls lo hi) as [Hout|Hlo Hhi];
        [rewrite rebuild_outside, outside_whole, zget_app_r, Z.sub_diag by (done || lia); reflexivity|]
    end.
  - change (2 ^ Z.of_nat 0) with 1 in *. pose proof (subtree_small _ _ Hs) as (Hls & _).
    rewrite rebuild_leaf, Hd, outside_inside, Z.add_0_r by (done || lia). cbn [nodeHash].
    assert (0 <= ls < zlen vs) as Hr by lia. by destruct (zget_in_range vs ls Hr) as [v ->].
  - destruct (subtree_children _ _ Hs) as (Hl & Hr & Heq).
    pose proof (pow2_pos (Z.of_nat h) ltac:(lia)).
    rewrite rebuild_node, outside_split by done. rewrite <- !app_assoc, IH by (done || lia).
    cbn [mbind option_bind].
    rewrite <- zlen_app, (app_assoc pre), IH by (done || lia). cbn [mbind option_bind].
    f_equal. f_equal; [|rewrite !zlen_app; lia].
    cbn [nodeHash]. unfold interiorHash. destruct (subtree_steps _ _ Hs) as (_ & _ & _ & Hlt).
    pose proof (node_pos_nonneg ls (Z.of_nat (S h)) ltac:(lia) (proj1 (subtree_small _ _ Hs))).
    by rewrite u64_succ_small by lia.
Qed.

(** Over the mountains. *)
Definition outsides (lo hi : Z) (ms : list (Z * Z)) : list bytes :=
  concat (map (fun m => outside vs (Z.to_nat (snd m)) (fst m) lo hi) ms).

Lemma tile_subtree (ls h e : Z) (ms : list (Z * Z)) :
  tiles (ls + 2 ^ h) ms e -> 0 <= h -> aligned (h + 1) ls -> e <= max_leaves ->
  subtree (Z.to_nat h) ls /\ ls + 2 ^ h <= e.
Proof.
  intros Ht Hh Hal He. apply tiles_le in Ht. split; [|done].
  split; rewrite Z2Nat.id by done; [|lia]. eapply aligned_le; [|done]. lia.
Qed.

Lemma tile_step (ls h : Z) :
  subtree (Z.to_nat h) ls -> 0 <= h ->
  IndexHeight (node_pos ls h) = h /\ u64_add ls (u64_shl 1 h) = ls + 2 ^ h.
Proof.
  intros Hs Hh. pose proof (subtree_small _ _ Hs) as (Hls & Hp & Hh62 & Hlt).
  destruct Hs as [Hal Hmax]. rewrite Z2Nat.id in * by done. assert (two64 = 2 * two63) by reflexivity.
  split; [|rewrite u64_shl_one, u64_add_small; lia].
  apply law_IndexHeight; [done|]. assert (0 <= max_leaves) as Hm0 by done.
  pose proof (proj2 (node_pos_below ls h max_leaves Hal Hm0) Hmax).
  pose proof (mmr_size_bound max_leaves (conj Hm0 (Z.le_refl _))). lia.
Qed.

Lemma rangeOverPeaks_ok (ls e lo hi : Z) (ms : list (Z * Z)) (out : list bytes) :
  tiles ls ms e -> e <= zlen vs -> lo <= hi ->
  rangeOverPeaks t (map (fun m => node_pos (fst m) (snd m)) ms) ls lo hi out =
  Ok (out ++ outsides lo hi ms).
Proof.
  intros Ht He Hlohi. destruct (commits_length t vs Hc) as (_ & Hmax & _).
  revert out. induction Ht as [e|ls h ms e Hal Hh Ht IH]; intros out.
  - unfold outsides. simpl. by rewrite app_nil_r.
  - destruct (tile_subtree _ _ _ _ Ht Hh Hal ltac:(lia)) as [Hs Hle].
    cbn [map rangeOverPeaks fst snd]. destruct (tile_step ls h Hs Hh) as [-> ->].
    pose proof (rangeWitnesses_ok (Z.to_nat h) ls lo hi out Hs) as Hw.
    rewrite Z2Nat.id in Hw by done. rewrite Hw by lia. cbn [mbind result_bind].
    rewrite IH by done. unfold outsides. cbn [map concat fst snd]. by rewrite app_assoc.
Qed.

Lemma reconstructPeaks_ok (ls e lo hi : Z) (ms : list (Z * Z)) (digs : gmap Z bytes)
    (pre post wit : list bytes) :
  tiles ls ms e -> e <= zlen vs -> digests_of lo hi digs -> wit = pre ++ outsides lo hi ms ++ post ->
  reconstructPeaks (map (fun m => node_pos (fst m) (snd m)) ms) ls lo hi digs wit (zlen pre) =
  Some (map (fun m => nodeHash vs (Z.to_nat (snd m)) (fst m)) ms, zlen pre + zlen (outsides lo hi ms)).
Proof.
  intros Ht He Hd ->. destruct (commits_length t vs Hc) as (_ & Hmax & _).
  revert pre. induction Ht as [e|ls h ms e Hal Hh Ht IH]; intros pre.
  - unfold outsides. simpl. by rewrite Z.add_0_r.
  - destruct (tile_subtree _ _ _ _ Ht Hh Hal ltac:(lia)) as [Hs Hle].
    cbn [map reconstructPeaks fst snd]. destruct (tile_step ls h Hs Hh) as [-> ->].
    change (outsides lo hi ((ls, h) :: ms)) with
      (outside vs (Z.to_nat h) ls lo hi ++ outsides lo hi ms).
    rewrite <- app_assoc.
    pose proof (reconstruct_ok (Z.to_nat h) ls lo hi digs pre (outsides lo hi ms ++ post)
      (pre ++ outside vs (Z.to_nat h) ls lo hi ++ outsides lo hi ms ++ post) Hs) as Hr.
    unfold rebuild in Hr. rewrite Z2Nat.id in Hr by done.
    rewrite Hr by (done || lia). cbn [mbind option_bind].
    rewrite <- zlen_app, (app_assoc pre), (IH He). cbn [mbind option_bind].
    by rewrite !zlen_app, Z.add_assoc.
Qed.

End Produce.

(** ** The digests of a range *)

Lemma digestMap_lookup (from i k : Z) (ds : list bytes) (m : gmap Z bytes) :
  0 <= from -> 0 <= i -> from + i + zlen ds <= two64 ->
  digestMap from i ds m !! k =
    if (from + i <=? k) && (k <? from + i + zlen ds) then zget ds (k - from - i) else m !! k.
Proof.
  intros Hf. revert i m. induction ds as [|d ds IH]; intros i m Hi Hlen.
  - cbn [digestMap]. rewrite zlen_nil. destruct (Z.leb_spec (from + i) k), (Z.ltb_spec k (from + i + 0));
      cbn [andb]; done || lia.
  - rewrite zlen_cons in *. pose proof (zlen_nonneg ds). cbn [digestMap].
    rewrite IH, u64_add_small by lia.
    destruct (Z.eq_dec k (from + i)) as [->|Hne].
    + rewrite (proj2 (Z.leb_gt _ _)), lookup_insert_eq by lia. cbn [andb].
      rewrite (proj2 (Z.leb_le _ _)), (proj2 (Z.ltb_lt _ _)) by lia. cbn [andb].
      by replace (from + i - from - i) with 0 by lia.
    + rewrite lookup_insert_ne by lia.
      destruct (Z.leb_spec (from + (i + 1)) k), (Z.leb_spec (from + i) k),
        (Z.ltb_spec k (from + (i + 1) + zlen ds)), (Z.ltb_spec k (from + i + (zlen ds + 1)));
        try lia; cbn [andb]; try done.
      rewrite !zget_lookup by lia.
      replace (Z.to_nat (k - from - i)) with (S (Z.to_nat (k - from - (i + 1)))) by lia. done.
Qed.

(** The values of the leaves [from..to]. *)
Definition slice (vs : list bytes) (from to : Z) : list bytes :=
  take (Z.to_nat (to - from + 1)) (drop (Z.to_nat from) vs).

Lemma slice_length (vs : list bytes) (from to : Z) :
  0 <= from <= to -> to < zlen vs -> zlen (slice vs from to) = to - from + 1.
Proof. unfold slice, zlen. intros. rewrite length_take, length_drop. lia. Qed.

Lemma slice_get (vs : list bytes) (from to i : Z) :
  0 <= from -> from <= i <= to -> zget (slice vs from to) (i - from) = zget vs i.
Proof.
  intros Hf Hi. unfold slice. rewrite !zget_lookup, lookup_take_lt, lookup_drop by lia. f_equal. lia.
Qed.

Lemma slice_digests (vs : list bytes) (from to : Z) :
  0 <= from <= to -> to < zlen vs -> zlen vs <= two64 ->
  digests_of vs from to (digestMap from 0 (slice vs from to) ∅).
Proof.
  intros Hf Ht Hmax i Hi. rewrite digestMap_lookup; rewrite ?slice_length by lia; try lia.
  rewrite (proj2 (Z.leb_le _ _)), (proj2 (Z.ltb_lt _ _)) by lia. cbn [andb].
  replace (i - from - 0) with (i - from) by lia. apply slice_get; lia.
Qed.

Section Accept.
Context `{DT : DtMmr} `{!DtMmrLaws DT}.
Context (t : Tree) (vs : list bytes) (Hc : commits t vs).

(** The proof the tree produces for a range. *)
Definition honestRange (m from to : Z) : RangeProof :=
  {| rp_V := 1; rp_Kind := "range"; rp_Size := mmr_size m; rp_FromIndex := from; rp_ToIndex := to;
     rp_Witness := outsides vs from to (mountains m) |}.

Lemma range_produced (m from to : Z) :
  m <= zlen vs -> 0 <= from <= to -> to < m ->
  RangeProofAt t from to (mmr_size m) = Ok (honestRange m from to).
Proof.
  intros Hm Hf Ht. destruct (commits_length t vs Hc) as (Hlen & Hn & _).
  pose proof (mmr_size_mono m (zlen vs) ltac:(lia)).
  unfold RangeProofAt. rewrite !(proj2 (Z.ltb_ge _ _)), validMMRSize_complete by lia. cbn [negb orb].
  rewrite law_LeafCount, (proj2 (Z.leb_gt _ _)), peakPositions_complete by lia.
  unfold peak_positions.
  rewrite (rangeOverPeaks_ok t vs Hc 0 m) by (lia || apply mountains_tile; lia). reflexivity.
Qed.

Lemma outside_width (h : nat) (ls lo hi : Z) : Forall width32 (outside vs h ls lo hi).
Proof.
  revert ls. induction h as [|h IH]; intros ls; cbn [outside];
    (destruct (_ || _); [apply Forall_singleton, nodeHash_length|]);
    (destruct (_ && _); [by constructor|]); [by constructor|]. by apply Forall_app.
Qed.

Lemma outsides_width (lo hi : Z) (ms : list (Z * Z)) : Forall width32 (outsides vs lo hi ms).
Proof.
  apply Forall_concat, Forall_fmap, Forall_true. intros x. apply outside_width.
Qed.

Lemma slice_width (from to : Z) : Forall width32 (slice vs from to).
Proof. apply Forall_take, Forall_drop, (commits_width t vs Hc). Qed.

Lemma honestRange_verifies (m from to : Z) :
  m <= zlen vs -> 0 <= from <= to -> to < m -> mmr_size m < maxMMRSize ->
  VerifyRange (logRoot (prefix vs m)) (mmr_size m) from to (slice vs from to) (honestRange m from to)
    = true.
Proof.
  intros Hm Hf Ht Hmax. destruct (commits_length t vs Hc) as (_ & Hn & _).
  assert (max_leaves + 1 < two64) by done.
  destruct (prefix_root t vs Hc m ltac:(lia)) as [Hr Hw].
  unfold VerifyRange, honestRange. cbn [rp_V rp_Kind rp_Size rp_FromIndex rp_ToIndex rp_Witness].
  rewrite badWidth_ok, !Z.eqb_refl, bool_decide_true by done. cbn [negb orb].
  rewrite (proj2 (Z.leb_gt _ _)), (proj2 (Z.ltb_ge _ _)) by lia.
  rewrite u64_sub_small, u64_add_small, slice_length, Z.eqb_refl by lia. cbn [negb orb].
  rewrite LeafCount_complete by lia. cbn [negb orb]. rewrite (proj2 (Z.leb_gt _ _)) by lia.
  rewrite !(proj2 (existsb_badWidth _)) by first [apply slice_width | apply outsides_width].
  rewrite peakPositions_complete by lia. unfold peak_positions.
  rewrite (reconstructPeaks_ok t vs Hc 0 m from to (mountains m) _ [] []); try lia;
    [|apply mountains_tile; lia|apply slice_digests; lia|by rewrite app_nil_r].
  rewrite zlen_nil, Z.add_0_l, Z.eqb_refl. cbn [negb].
  rewrite <- logPeaks_take by lia. fold (prefix vs m). rewrite Hr. by apply bool_decide_true.
Qed.

End Accept.

(** ** Transcripts of a range verification *)

Section Transcripts.
Context `{DT : DtMmr}.
Context (lo hi : Z) (digs : gmap Z bytes) (wit : list bytes).

Fixpoint subtreeMsgs (h : nat) (ls cursor : Z) : list bytes :=
  if (ls + 2 ^ Z.of_nat h - 1 <? lo) || (hi <? ls) then []
  else
    match h with
    | O => match digs !! ls with Some body => [Byte.x00 :: body] | None => [] end
    | S h' =>
        match rebuild h' ls lo hi digs wit cursor with
        | Some (l, c1) =>
            match rebuild h' (ls + 2 ^ Z.of_nat h') lo hi digs wit c1 with
            | Some (r, _) =>
                (be_bytes 8 (u64_add (node_pos ls (Z.of_nat h)) 1) ++ l ++ r) ::
                subtreeMsgs h' ls cursor ++ subtreeMsgs h' (ls + 2 ^ Z.of_nat h') c1
            | None => []
            end
        | None => []
        end
    end.

(** The peaks rebuilt over the mountains and the messages hashed for them. *)
Fixpoint rebuildPeaks (ms : list (Z * Z)) (cursor : Z) : option (list bytes * Z) :=
  match ms with
  | [] => Some ([], cursor)
  | (ls, h) :: ms' =>
      '(node, c1) ← rebuild (Z.to_nat h) ls lo hi digs wit cursor;
      '(nodes, c2) ← rebuildPeaks ms' c1;
      Some (node :: nodes, c2)
  end.

Fixpoint mountainMsgs (ms : list (Z * Z)) (cursor : Z) : list bytes :=
  match ms with
  | [] => []
  | (ls, h) :: ms' =>
      subtreeMsgs (Z.to_nat h) ls cursor ++
      match rebuild (Z.to_nat h) ls lo hi digs wit cursor with
      | Some (_, c1) => mountainMsgs ms' c1
      | None => []
      end
  end.

Lemma subtreeMsgs_node (h : nat) (ls cursor c1 c2 : Z) (l r : bytes) :
  lo <= ls + 2 ^ Z.of_nat (S h) - 1 -> ls <= hi ->
  rebuild h ls lo hi digs wit cursor = Some (l, c1) ->
  rebuild h (ls + 2 ^ Z.of_nat h) lo hi digs wit c1 = Some (r, c2) ->
  subtreeMsgs (S h) ls cursor =
    (be_bytes 8 (u64_add (node_pos ls (Z.of_nat (S h))) 1) ++ l ++ r) ::
    subtreeMsgs h ls cursor ++ subtreeMsgs h (ls + 2 ^ Z.of_nat h) c1.
Proof.
  intros Hlo Hhi Hl Hr. cbn [subtreeMsgs]. rewrite !(proj2 (Z.ltb_ge _ _)) by lia. cbn [orb].
  by rewrite Hl, Hr.
Qed.

Lemma subtreeMsgs_leaf (ls cursor : Z) (body : bytes) :
  lo <= ls -> ls <= hi -> digs !! ls = Some body -> subtreeMsgs 0 ls cursor = [Byte.x00 :: body].
Proof.
  intros Hlo Hhi Hd. cbn [subtreeMsgs]. change (2 ^ Z.of_nat 0) with 1.
  rewrite !(proj2 (Z.ltb_ge _ _)) by lia. cbn [orb]. by rewrite Hd.
Qed.

(** A rebuilt node has the width of a digest, and the cursor only advances. *)
Lemma rebuild_shape (h : nat) (ls cursor c : Z) (node : bytes) :
  subtree h ls -> Forall width32 wit -> rebuild h ls lo hi digs wit cursor = Some (node, c) ->
  cursor <= c /\ width32 node.
Proof.
  intros Hs Hw. revert ls cursor c node Hs. induction h as [|h IH]; intros ls cursor c node Hs Hrun;
    match goal with
    | H : subtree ?k ls |- _ => destruct (meets_dec k ls lo hi) as [Hout|Hlo Hhi]
    end.
  1, 3: rewrite rebuild_outside in Hrun by done;
    destruct (zget wit cursor) as [w|] eqn:Hz; [|done]; injection Hrun as -> <-; split; [lia|];
    pose proof (zget_Some_range _ _ _ Hz); rewrite zget_lookup in Hz by lia;
    by eapply (Forall_lookup_1 _ _ _ _ Hw).
  - change (2 ^ Z.of_nat 0) with 1 in *. rewrite rebuild_leaf in Hrun by (done || lia).
    destruct (digs !! ls) as [body|]; [|done]. injection Hrun as <- <-. split; [lia|apply leafHash_length].
  - rewrite rebuild_node in Hrun by done. destruct (subtree_children _ _ Hs) as (Hsl & Hsr & _).
    destruct (rebuild h ls lo hi digs wit cursor) as [[l c1]|] eqn:Hl; [|done].
    cbn [mbind option_bind] in Hrun.
    destruct (rebuild h (ls + _) lo hi digs wit c1) as [[r c2]|] eqn:Hr; [|done].
    cbn [mbind option_bind] in Hrun. injection Hrun as <- <-.
    destruct (IH _ _ _ _ Hsl Hl), (IH _ _ _ _ Hsr Hr). split; [lia|apply interiorHash_length].
Qed.

End Transcripts.

(** ** Binding *)

(** Injectivity on abstract values, so that no hash is computed. *)
Lemma Some_pair_inj {A B} (a a' : A) (b b' : B) : Some (a, b) = Some (a', b') -> a = a' /\ b = b'.
Proof. by intros [= -> ->]. Qed.


Section Bind.
Context `{DT : DtMmr}.
Context (lo hi : Z) (digs1 digs2 : gmap Z bytes) (wit1 wit2 : list bytes).
Hypothesis Hwit1 : Forall width32 wit1.
Hypothesis Hwit2 : Forall width32 wit2.

(** The two runs read the same witnesses in [c, c') and the same values in the
    part of [ls, le) that lies in the range. *)
Definition agree (ls le c c' : Z) : Prop :=
  (forall k, c <= k < c' -> zget wit1 k = zget wit2 k) /\
  (forall i, ls <= i < le -> lo <= i <= hi -> digs1 !! i = digs2 !! i).

Lemma agree_join (ls lm le c c' c'' : Z) :
  agree ls lm c c' -> agree lm le c' c'' -> agree ls le c c''.
Proof.
  intros [Hw1 Hd1] [Hw2 Hd2]. split.
  - intros k Hk. destruct (Z.lt_ge_cases k c'); [apply Hw1|apply Hw2]; lia.
  - intros i Hi Hr. destruct (Z.lt_ge_cases i lm); [apply Hd1|apply Hd2]; lia.
Qed.

Lemma agree_nil (e c : Z) : agree e e c c.
Proof. split; intros; lia. Qed.

(** The cursor moves by the shape of the tree alone. *)
Lemma rebuild_cursor (h : nat) (ls c c1 c2 : Z) (n1 n2 : bytes) :
  subtree h ls -> rebuild h ls lo hi digs1 wit1 c = Some (n1, c1) ->
  rebuild h ls lo hi digs2 wit2 c = Some (n2, c2) -> c1 = c2.
Proof.
  revert ls c c1 c2 n1 n2. induction h as [|h IH]; intros ls c c1 c2 n1 n2 Hs H1 H2;
    match goal with
    | H : subtree ?k ls |- _ => destruct (meets_dec k ls lo hi) as [Hout|Hlo Hhi]
    end.
  1, 3: rewrite rebuild_outside in H1, H2 by done;
    destruct (zget wit1 c), (zget wit2 c); cbn [mbind option_bind] in *; congruence.
  - change (2 ^ Z.of_nat 0) with 1 in *. rewrite rebuild_leaf in H1, H2 by (done || lia).
    destruct (digs1 !! ls), (digs2 !! ls); cbn [mbind option_bind] in *; congruence.
  - rewrite rebuild_node in H1, H2 by done. destruct (subtree_children _ _ Hs) as (Hsl & Hsr & _).
    destruct (rebuild h ls lo hi digs1 wit1 c) as [[l1 a1]|] eqn:Hl1; [|done].
    destruct (rebuild h ls lo hi digs2 wit2 c) as [[l2 a2]|] eqn:Hl2; [|done].
    cbn [mbind option_bind] in H1, H2. rewrite <- (IH _ _ _ _ _ _ Hsl Hl1 Hl2) in H2.
    destruct (rebuild h (ls + _) lo hi digs1 wit1 a1) as [[r1 b1]|] eqn:Hr1; [|done].
    destruct (rebuild h (ls + _) lo hi digs2 wit2 a1) as [[r2 b2]|] eqn:Hr2; [|done].
    cbn [mbind option_bind] in H1, H2. apply Some_pair_inj in H1 as [_ <-], H2 as [_ <-].
    by eapply IH.
Qed.

Lemma rebuild_bind (h : nat) (ls c c' : Z) (node : bytes) :
  subtree h ls -> rebuild h ls lo hi digs1 wit1 c = Some (node, c') ->
  rebuild h ls lo hi digs2 wit2 c = Some (node, c') ->
  agree ls (ls + 2 ^ Z.of_nat h) c c' \/
  collision (subtreeMsgs lo hi digs1 wit1 h ls c) (subtreeMsgs lo hi digs2 wit2 h ls c).
Proof.
  revert ls c c' node. induction h as [|h IH]; intros ls c c' node Hs H1 H2;
    match goal with
    | H : subtree ?k ls |- _ => destruct (meets_dec k ls lo hi) as [Hout|Hlo Hhi]
    end.
  1, 3: rewrite rebuild_outside in H1, H2 by done;
    destruct (zget wit1 c) eqn:Hz1, (zget wit2 c) eqn:Hz2; cbn [mbind option_bind] in *;
      try discriminate;
    left; injection H1 as -> <-; injection H2 as ->; split; [|lia];
    intros k Hk; replace k with c by lia; congruence.
  - change (2 ^ Z.of_nat 0) with 1 in *. rewrite rebuild_leaf in H1, H2 by (done || lia).
    destruct (digs1 !! ls) as [b1|] eqn:Hd1; [|done]. destruct (digs2 !! ls) as [b2|] eqn:Hd2; [|done].
    cbn [mbind option_bind] in *. apply Some_pair_inj in H1 as [<- <-], H2 as [Heq _].
    rewrite (subtreeMsgs_leaf lo hi digs1 wit1 ls c b1), (subtreeMsgs_leaf lo hi digs2 wit2 ls c b2)
      by (done || lia).
    destruct (sha256_bind _ _ _ _ (list_elem_of_here (Byte.x00 :: b1) [])
      (list_elem_of_here (Byte.x00 :: b2) []) (eq_sym Heq)) as [Hb|Hcol]; [left|by right].
    injection Hb as ->. split; [lia|]. intros i Hi _. replace i with ls by lia. congruence.
  - rewrite rebuild_node in H1, H2 by done. destruct (subtree_children _ _ Hs) as (Hsl & Hsr & Hpow).
    destruct (rebuild h ls lo hi digs1 wit1 c) as [[l1 a1]|] eqn:Hl1; [|done].
    destruct (rebuild h ls lo hi digs2 wit2 c) as [[l2 a2]|] eqn:Hl2; [|done].
    cbn [mbind option_bind] in H1, H2. pose proof (rebuild_cursor _ _ _ _ _ _ _ Hsl Hl1 Hl2). subst a2.
    destruct (rebuild h (ls + _) lo hi digs1 wit1 a1) as [[r1 b1]|] eqn:Hr1; [|done].
    destruct (rebuild h (ls + _) lo hi digs2 wit2 a1) as [[r2 b2]|] eqn:Hr2; [|done].
    cbn [mbind option_bind] in H1, H2. apply Some_pair_inj in H1 as [<- <-], H2 as [Heq ->].
    rewrite (subtreeMsgs_node _ _ _ _ _ _ _ _ _ _ _ Hlo Hhi Hl1 Hr1).
    rewrite (subtreeMsgs_node _ _ _ _ _ _ _ _ _ _ _ Hlo Hhi Hl2 Hr2).
    destruct (rebuild_shape _ _ _ _ _ _ _ _ _ Hsl Hwit1 Hl1) as [_ Hwl1].
    destruct (rebuild_shape _ _ _ _ _ _ _ _ _ Hsl Hwit2 Hl2) as [_ Hwl2].
    match goal with
    | |- _ \/ collision (?m1 :: ?s1 ++ ?s1') (?m2 :: ?s2 ++ ?s2') =>
        destruct (sha256_bind _ _ _ _ (list_elem_of_here m1 (s1 ++ s1'))
          (list_elem_of_here m2 (s2 ++ s2')) (eq_sym Heq)) as [Hm|Hcol]; [|by right]
    end.
    apply app_inv_head, app_inj_1 in Hm as [-> ->]; [|congruence].
    destruct (IH _ _ _ _ Hsl Hl1 Hl2) as [Ha|Hcol].
    + destruct (IH _ _ _ _ Hsr Hr1 Hr2) as [Hb|Hcol].
      * left. rewrite Hpow. replace (ls + 2 * 2 ^ Z.of_nat h) with (ls + 2 ^ Z.of_nat h + 2 ^ Z.of_nat h)
          by lia. by eapply agree_join.
      * right. eapply collision_mono; [| |exact Hcol];
          by apply list_subseteq_cons, list_subseteq_app_r.
    + right. eapply collision_mono; [| |exact Hcol];
        by apply list_subseteq_cons, list_subseteq_app_l.
Qed.

Lemma rebuildPeaks_bind (ls e c c1 c2 : Z) (ms : list (Z * Z)) (peaks : list bytes) :
  tiles ls ms e -> e <= max_leaves ->
  rebuildPeaks lo hi digs1 wit1 ms c = Some (peaks, c1) ->
  rebuildPeaks lo hi digs2 wit2 ms c = Some (peaks, c2) ->
  c1 = c2 /\
  (agree ls e c c1 \/
   collision (mountainMsgs lo hi digs1 wit1 ms c) (mountainMsgs lo hi digs2 wit2 ms c)).
Proof.
  intros Ht He. revert c peaks. induction Ht as [e|ls h ms e Hal Hh Ht IH]; intros c peaks H1 H2;
    cbn [rebuildPeaks mountainMsgs] in *.
  - injection H1 as <- <-. injection H2 as <-. split; [done|left; apply agree_nil].
  - destruct (tile_subtree _ _ _ _ Ht Hh Hal He) as [Hs _].
    destruct (rebuild _ ls lo hi digs1 wit1 c) as [[n1 a1]|] eqn:Hr1; [|done].
    destruct (rebuild _ ls lo hi digs2 wit2 c) as [[n2 a2]|] eqn:Hr2; [|done].
    cbn [mbind option_bind] in H1, H2. pose proof (rebuild_cursor _ _ _ _ _ _ _ Hs Hr1 Hr2). subst a2.
    destruct (rebuildPeaks lo hi digs1 wit1 ms a1) as [[ps1 b1]|] eqn:Hp1; [|done].
    destruct (rebuildPeaks lo hi digs2 wit2 ms a1) as [[ps2 b2]|] eqn:Hp2; [|done].
    cbn [mbind option_bind] in H1, H2. apply Some_pair_inj in H1 as [<- <-], H2 as [Heq <-].
    injection Heq as -> ->. destruct (IH He _ _ Hp1 Hp2) as [-> Hms]. split; [done|].
    destruct (rebuild_bind _ _ _ _ _ Hs Hr1 Hr2) as [Ha|Hcol].
    + rewrite Z2Nat.id in Ha by done. destruct Hms as [Hb|Hcol]; [left; by eapply agree_join|right].
      eapply collision_mono; [| |exact Hcol]; by apply list_subseteq_app_r.
    + right. eapply collision_mono; [| |exact Hcol]; by apply list_subseteq_app_l.
Qed.

End Bind.

(** The messages hashed by a verification of the range [from..to] of [m] leaves. *)
Definition rangeTranscript `{DT : DtMmr} (m from to : Z) (ds : list bytes) (p : RangeProof) :
    list bytes :=
  let digs := digestMap from 0 ds ∅ in
  mountainMsgs from to digs (rp_Witness p) (mountains m) 0 ++
  bagMsgs (match rebuildPeaks from to digs (rp_Witness p) (mountains m) 0 with
           | Some (peaks, _) => peaks
           | None => []
           end).

Section Sound.
Context `{DT : DtMmr} `{!DtMmrLaws DT}.

Lemma reconstructPeaks_rebuild (ls e lo hi c : Z) (ms : list (Z * Z)) (digs : gmap Z bytes)
    (wit : list bytes) :
  tiles ls ms e -> e <= max_leaves ->
  reconstructPeaks (map (fun m => node_pos (fst m) (snd m)) ms) ls lo hi digs wit c =
  rebuildPeaks lo hi digs wit ms c.
Proof.
  intros Ht He. revert c. induction Ht as [e|ls h ms e Hal Hh Ht IH]; intros c; [done|].
  destruct (tile_subtree _ _ _ _ Ht Hh Hal He) as [Hs _].
  cbn [map reconstructPeaks rebuildPeaks fst snd]. destruct (tile_step ls h Hs Hh) as [-> ->].
  unfold rebuild. rewrite Z2Nat.id by done.
  destruct (reconstructRangeSubtree _ _ _ _ _ _ _ _) as [[n a]|]; [|done].
  cbn [mbind option_bind]. by rewrite IH.
Qed.

Lemma rebuildPeaks_shape (ls e lo hi c c' : Z) (ms : list (Z * Z)) (digs : gmap Z bytes)
    (wit peaks : list bytes) :
  tiles ls ms e -> e <= max_leaves -> Forall width32 wit ->
  rebuildPeaks lo hi digs wit ms c = Some (peaks, c') ->
  zlen peaks = zlen ms /\ Forall width32 peaks.
Proof.
  intros Ht He Hw. revert c c' peaks. induction Ht as [e|ls h ms e Hal Hh Ht IH];
    intros c c' peaks Hrun; cbn [rebuildPeaks] in Hrun; [by injection Hrun as <- _|].
  destruct (tile_subtree _ _ _ _ Ht Hh Hal He) as [Hs _].
  destruct (rebuild _ ls lo hi digs wit c) as [[n a]|] eqn:Hr; [|done]. cbn [mbind option_bind] in Hrun.
  destruct (rebuildPeaks lo hi digs wit ms a) as [[ps b]|] eqn:Hp; [|done].
  cbn [mbind option_bind] in Hrun. apply Some_pair_inj in Hrun as [<- _].
  destruct (IH He _ _ _ Hp) as [Hl Hf]. destruct (rebuild_shape _ _ _ _ _ _ _ _ _ Hs Hw Hr) as [_ Hn].
  rewrite !zlen_cons, Hl. split; [done|by constructor].
Qed.

(** What acceptance checks. *)
Lemma VerifyRange_accepts (root : bytes) (m from to : Z) (ds : list bytes) (p : RangeProof) :
  0 <= m <= max_leaves -> 0 <= from < two64 -> 0 <= to < two64 ->
  VerifyRange root (mmr_size m) from to ds p = true ->
  from <= to /\ to < m /\ zlen ds = to - from + 1 /\
  rp_V p = 1 /\ rp_Kind p = "range"%string /\ rp_Size p = mmr_size m /\
  rp_FromIndex p = from /\ rp_ToIndex p = to /\ Forall width32 (rp_Witness p) /\
  exists peaks, RootFromPeaks peaks = root /\
    rebuildPeaks from to (digestMap from 0 ds ∅) (rp_Witness p) (mountains m) 0 =
      Some (peaks, zlen (rp_Witness p)).
Proof.
  intros Hm Hf Ht. unfold VerifyRange.
  destruct (_ || _) eqn:Hk; [done|]. rewrite !orb_false_iff, !negb_false_iff in Hk.
  destruct Hk as [[_ HV%Z.eqb_eq] HK%bool_decide_eq_true].
  destruct (maxMMRSize <=? mmr_size m); [done|].
  destruct (_ || _) eqn:Hfields; [done|].
  rewrite !orb_false_iff, !negb_false_iff, !Z.eqb_eq in Hfields. destruct Hfields as [[HS HF] HT].
  destruct (_ || _) eqn:Hlen; [done|]. rewrite orb_false_iff, negb_false_iff, Z.eqb_eq, Z.ltb_ge in Hlen.
  destruct Hlen as [Hft Hlen]. rewrite LeafCount_complete by done. cbn [negb orb].
  destruct (Z.leb_spec m to) as [|Htm]; [done|].
  assert (max_leaves + 1 < two64) by done. rewrite u64_sub_small, u64_add_small in Hlen by lia.
  destruct (existsb _ ds); [done|]. destruct (existsb _ _) eqn:Hw; [done|]. apply existsb_badWidth in Hw.
  rewrite peakPositions_complete by done. unfold peak_positions.
  rewrite (reconstructPeaks_rebuild 0 m) by (lia || by apply mountains_tile).
  destruct (rebuildPeaks _ _ _ _ _ _) as [[peaks c]|] eqn:Hr; [|done].
  destruct (Z.eqb_spec c (zlen (rp_Witness p))) as [->|]; [|done]. cbn [negb].
  intros Hroot%bool_decide_eq_true. split_and!; try done. by exists peaks.
Qed.

Lemma digests_ext (from to : Z) (ds1 ds2 : list bytes) :
  0 <= from <= to -> to + 1 < two64 -> zlen ds1 = to - from + 1 -> zlen ds2 = to - from + 1 ->
  (forall i, from <= i <= to -> digestMap from 0 ds1 ∅ !! i = digestMap from 0 ds2 ∅ !! i) ->
  ds1 = ds2.
Proof.
  intros Hf Ht Hl1 Hl2 Heq. apply list_eq. intros k.
  destruct (decide (k < length ds1)%nat) as [Hk|Hk].
  - assert (from <= from + Z.of_nat k <= to) as Hr by (unfold zlen in *; lia).
    specialize (Heq _ Hr). rewrite !digestMap_lookup in Heq by lia.
    rewrite !(proj2 (Z.leb_le _ _)), !(proj2 (Z.ltb_lt _ _)) in Heq by lia. cbn [andb] in Heq.
    replace (from + Z.of_nat k - from - 0) with (Z.of_nat k) in Heq by lia.
    by rewrite !zget_lookup, Nat2Z.id in Heq by lia.
  - unfold zlen in *. rewrite !lookup_ge_None_2 by lia. done.
Qed.

Lemma range_bind (root : bytes) (m from to : Z) (ds1 ds2 : list bytes) (p1 p2 : RangeProof) :
  0 <= m <= max_leaves -> 0 <= from < two64 -> 0 <= to < two64 ->
  VerifyRange root (mmr_size m) from to ds1 p1 = true ->
  VerifyRange root (mmr_size m) from to ds2 p2 = true ->
  (ds1 = ds2 /\ p1 = p2) \/
  collision (rangeTranscript m from to ds1 p1) (rangeTranscript m from to ds2 p2).
Proof.
  intros Hm Hf Ht
    (Hft & Htm & Hl1 & HV1 & HK1 & HS1 & HF1 & HT1 & Hw1 & ps1 & Hr1 & Hp1)%VerifyRange_accepts
    (_ & _ & Hl2 & HV2 & HK2 & HS2 & HF2 & HT2 & Hw2 & ps2 & Hr2 & Hp2)%VerifyRange_accepts; try done.
  pose proof (mountains_tile m Hm) as Htile.
  unfold rangeTranscript. rewrite Hp1, Hp2.
  destruct (rebuildPeaks_shape _ _ _ _ _ _ _ _ _ _ Htile (proj2 Hm) Hw1 Hp1) as [Hz1 Hps1].
  destruct (rebuildPeaks_shape _ _ _ _ _ _ _ _ _ _ Htile (proj2 Hm) Hw2 Hp2) as [Hz2 Hps2].
  destruct (RootFromPeaks_bind ps1 ps2) as [<-|Hcol]; try congruence.
  - destruct (rebuildPeaks_bind from to _ _ _ _ Hw1 Hw2 _ _ _ _ _ _ _ Htile (proj2 Hm) Hp1 Hp2)
      as [Hlen [[Hwit Hd]|Hcol]].
    + left. split.
      * assert (max_leaves + 1 < two64) by done.
        apply (digests_ext from to); try lia. intros i Hi. apply Hd; lia.
      * assert (rp_Witness p1 = rp_Witness p2) as Heq.
        { apply list_eq. intros k. unfold zlen in Hlen.
          destruct (decide (k < length (rp_Witness p1))%nat) as [Hk|Hk];
            [|rewrite !lookup_ge_None_2 by lia; done].
          assert (0 <= Z.of_nat k < zlen (rp_Witness p1)) as Hkr by (unfold zlen; lia).
          specialize (Hwit _ Hkr). by rewrite !zget_lookup, Nat2Z.id in Hwit by lia. }
        destruct p1, p2; simpl in *; congruence.
    + right. eapply collision_mono; [| |exact Hcol]; by apply list_subseteq_app_l.
  - right. eapply collision_mono; [| |exact Hcol]; by apply list_subseteq_app_r.
Qed.

End Sound.

(** ** Claims *)

Section Claims.
Context `{DT : DtMmr} `{!DtMmrLaws DT}.

(** C7: for every leaf range inside a complete historical size below
    [maxMMRSize], the tree produces a range proof and [VerifyRange] accepts it
    with the values of the range against the root of the prefix. *)
Theorem range_proofs_verify (t : Tree) (vs : list bytes) (m from to : Z) :
  commits t vs -> m <= zlen vs -> 0 <= from <= to -> to < m -> mmr_size m < maxMMRSize ->
  exists proof, RangeProofAt t from to (mmr_size m) = Ok proof /\
    VerifyRange (logRoot (prefix vs m)) (mmr_size m) from to (slice vs from to) proof = true.
Proof.
  intros. exists (honestRange vs m from to). split; [by apply range_produced|].
  by apply (honestRange_verifies t).
Qed.

(** C8: no leaf of an accepted range can be altered, dropped or replaced: if
    [VerifyRange] accepts digests for [from..to] against the root of the first
    [m] values of a tree, the digests are the values at those leaves and the
    proof is the tree's own, or the hashed messages contain a SHA-256
    collision. *)
Theorem range_sound (t : Tree) (vs : list bytes) (m from to : Z) (ds : list bytes) (p : RangeProof) :
  commits t vs -> 0 <= m <= zlen vs -> 0 <= from < two64 -> 0 <= to < two64 ->
  mmr_size m < maxMMRSize ->
  VerifyRange (logRoot (prefix vs m)) (mmr_size m) from to ds p = true ->
  exists p', RangeProofAt t from to (mmr_size m) = Ok p' /\
    ((ds = slice vs from to /\ p = p') \/
     collision (rangeTranscript m from to ds p) (rangeTranscript m from to (slice vs from to) p')).
Proof.
  intros Hc Hm Hf Ht Hmax Hacc. destruct (commits_length t vs Hc) as (_ & Hn & _).
  assert (0 <= m <= max_leaves) as Hm' by lia.
  pose proof (VerifyRange_accepts _ _ _ _ _ _ Hm' Hf Ht Hacc) as (Hft & Htm & _).
  exists (honestRange vs m from to). split; [apply range_produced; done || lia|].
  eapply range_bind; [done|done|done|exact Hacc|]. apply (honestRange_verifies t); done || lia.
Qed.

End Claims.

(** ** Witnesses *)

Import Ref.

Lemma range_proofs_verify_witness :
  exists proof, RangeProofAt (DT := dt_reference) (buildTree sampleValues) 1 2 4 = Ok proof /\
    VerifyRange (DT := dt_reference) (logRoot sampleValues) 4 1 2 [sampleValue x02; sampleValue x03]
      proof = true.
Proof.
  apply (range_proofs_verify (DT := dt_reference) (buildTree sampleValues) sampleValues 3 1 2);
    [apply sample_commits|vm_compute; congruence|lia|lia|reflexivity].
Defined.

Lemma range_sound_witness :
  exists p p', RangeProofAt (DT := dt_reference) (buildTree sampleValues) 1 2 4 = Ok p' /\
    (([sampleValue x02; sampleValue x03] = slice sampleValues 1 2 /\ p = p') \/
     collision (rangeTranscript (DT := dt_reference) 3 1 2 [sampleValue x02; sampleValue x03] p)
       (rangeTranscript (DT := dt_reference) 3 1 2 (slice sampleValues 1 2) p')).
Proof.
  exists (honestRange sampleValues 3 1 2).
  apply (range_sound (DT := dt_reference) (buildTree sampleValues) sampleValues 3 1 2);
    [apply sample_commits|vm_compute; split; congruence|unfold two64; lia|unfold two64; lia|reflexivity|].
  apply (honestRange_verifies (DT := dt_reference) (buildTree sampleValues) sampleValues
    sample_commits 3 1 2); [vm_compute; congruence|lia|lia|reflexivity].
Defined.

End MmrRange.
