(* ===== verification/Cll.v ===== *)
(** * The [cll] package: [src/cll/types.go], [validate.go]

    Constants and data of the log, and the identifier subset.  A [time.Time] is
    the number of nanoseconds since the Unix epoch; a pointer field is an
    option; a nil and an empty byte slice are both [[]], except where the code
    distinguishes them (an optional argument is then an option). *)

From S2P Require Import Prelude.

Module Cll.

Local Open Scope Z_scope.

(** ** Constants *)

Definition EntryBytes : Z := 32.
Definition MaxWitnesses : Z := 32.
Definition MaxCheckpointBytes : Z := 65536.
Definition MaxJournalEventBytes : Z := 4194304.
Definition MaxWitnessResponseBytes : Z := 2097152.
Definition MaxIdentifierBytes : Z := 191.
Definition MaxReasonBytes : Z := 4096.
Definition DefaultScanLimit : Z := 100.
Definition MaxScanLimit : Z := 1000.
Definition MaxPortableInteger : Z := 9007199254740991.
Definition MinPortableUnixMillis : Z := -8640000000000000.
Definition MaxPortableUnixMillis : Z := 8640000000000000.

(** ** Data *)

Inductive AppendOutcome : Set :=
| AppendInserted
| AppendIdempotent.

Record Entry := MkEntry {
  entry_Seq : Z;
  entry_Value : bytes;
  entry_AppendedAt : Z
}.

Record AppendInput := MkAppendInput {
  input_Value : bytes;
  input_AppendedAt : Z
}.

Record AppendResult := MkAppendResult {
  ar_Entry : Entry;
  ar_Outcome : AppendOutcome
}.

Record WitnessReceiptState := MkReceipt {
  receipt_Bytes : bytes;
  receipt_EntryHash : string;
  receipt_EntryHashScheme : string;
  receipt_LeafIndex : option Z;
  receipt_TreeSize : option Z
}.

Record WitnessState := MkWitness {
  wit_WitnessID : string;
  wit_CheckpointSize : Z;
  wit_Checkpoint : bytes;
  wit_Attempts : Z;
  wit_NextAttemptAt : Z;
  wit_Receipt : option WitnessReceiptState;
  wit_Permanent : bool;
  wit_LastError : string
}.

Record CheckpointState := MkCheckpoint {
  cpt_Bytes : bytes;
  cpt_Size : Z;
  cpt_IndexedSeq : Z;
  cpt_Peaks : list bytes
}.

Record State := MkState {
  st_Size : Z;
  st_Nodes : list bytes;
  st_IndexedSeq : Z;
  st_FirstPendingAt : option Z;
  st_Checkpoint : option CheckpointState;
  st_Witnesses : list WitnessState
}.

(** The zero [State] value. *)
Definition emptyState : State := MkState 0 [] 0 None None [].

#[global] Instance Entry_eq_dec : EqDecision Entry.
Proof. solve_decision. Defined.

#[global] Instance WitnessReceiptState_eq_dec : EqDecision WitnessReceiptState.
Proof. solve_decision. Defined.

#[global] Instance WitnessState_eq_dec : EqDecision WitnessState.
Proof. solve_decision. Defined.

#[global] Instance CheckpointState_eq_dec : EqDecision CheckpointState.
Proof. solve_decision. Defined.

#[global] Instance State_eq_dec : EqDecision State.
Proof. solve_decision. Defined.

(** ** Identifiers *)

(** The class [[A-Za-z0-9._:/-]]. *)
Definition identifierChar (c : Ascii.ascii) : bool :=
  let n := Z.of_N (Ascii.N_of_ascii c) in
  ((65 <=? n) && (n <=? 90)) || ((97 <=? n) && (n <=? 122)) || ((48 <=? n) && (n <=? 57)) ||
  (n =? 46) || (n =? 95) || (n =? 58) || (n =? 47) || (n =? 45).

Fixpoint allChars (p : Ascii.ascii -> bool) (s : string) : bool :=
  match s with
  | EmptyString => true
  | String c s' => p c && allChars p s'
  end.

(** [identifierPattern.MatchString]: one or more characters of the class. *)
Definition identifierPattern (s : string) : bool :=
  match s with EmptyString => false | _ => allChars identifierChar s end.

(** [len] of a Go string. *)
Definition strlen (s : string) : Z := Z.of_nat (String.length s).

Definition ValidateIdentifier (value : string) : check :=
  if (strlen value <? 1) || (MaxIdentifierBytes <? strlen value) || negb (identifierPattern value)
  then Err ErrInvalid
  else Ok tt.

End Cll.
