(* ===== verification/Portable.v ===== *)
(** * The portable time range: [src/internal/portable/time.go]

    Times are nanoseconds since the Unix epoch.  [Truncate] rounds towards the
    past, also before the epoch, because it works from the zero time, which is
    a whole number of seconds before the epoch. *)

From Stdlib.Strings Require Import Ascii.
From S2P Require Import Prelude Text Cll.
Import Text Cll.

Module Portable.

Local Open Scope Z_scope.

Definition Millisecond : Z := 1000000.

Definition NormalizeTime (value : Z) : Z := value - value mod Millisecond.

Definition ValidateTime (value : Z) : check :=
  let value := NormalizeTime value in
  let minimum := MinPortableUnixMillis * Millisecond in
  let maximum := MaxPortableUnixMillis * Millisecond in
  if (value <? minimum) || (maximum <? value) then Err (ErrText "time is outside the portable range")
  else Ok tt.

(** [ValidateTime(value) != nil] *)
Definition badTime (value : Z) : bool := negb (is_ok (ValidateTime value)).

(** ** The calendar

    The proleptic Gregorian date of a day, as [time.Time]'s [Year], [Month] and
    [Day] give it, by eras of 400 years (146097 days) that start on March 1. *)

Definition eraDays : Z := 146097.
Definition epochShift : Z := 719468.

Definition yearOfEra (doe : Z) : Z := (doe - doe / 1460 + doe / 36524 - doe / 146096) / 365.
Definition dayOfYear (doe : Z) : Z :=
  doe - (365 * yearOfEra doe + yearOfEra doe / 4 - yearOfEra doe / 100).
Definition monthIndex (doy : Z) : Z := (5 * doy + 2) / 153.

(** Year, month and day of the day number [days] since 1970-01-01. *)
Definition civil (days : Z) : Z * Z * Z :=
  let z := days + epochShift in
  let doe := z mod eraDays in
  let doy := dayOfYear doe in
  let mp := monthIndex doy in
  let d := doy - (153 * mp + 2) / 5 + 1 in
  let m := if mp <? 10 then mp + 3 else mp - 9 in
  let y := yearOfEra doe + z / eraDays * 400 in
  ((if m <=? 2 then y + 1 else y), m, d).

(** The day number of a date; the month is 1..12 and the day any number. *)
Definition daysOfCivil (year month day : Z) : Z :=
  let y := if month <=? 2 then year - 1 else year in
  let era := y / 400 in
  let yoe := y mod 400 in
  let mp := if 2 <? month then month - 3 else month + 9 in
  let doy := (153 * mp + 2) / 5 + day - 1 in
  let doe := yoe * 365 + yoe / 4 - yoe / 100 + doy in
  era * eraDays + doe - epochShift.

Definition Second : Z := 1000000000.
Definition secondsPerDay : Z := 86400.

(** [time.Date] in UTC: months carry into years, everything else adds up. *)
Definition Date (year month day hour minute second nanosecond : Z) : Z :=
  let m := month - 1 in
  let days := daysOfCivil (year + m / 12) (m mod 12 + 1) day in
  (days * secondsPerDay + hour * 3600 + minute * 60 + second) * Second + nanosecond.

(** [Date], then [Hour], [Minute], [Second] and [Nanosecond] of a time. *)
Definition unixDay (value : Z) : Z := value / Second / secondsPerDay.
Definition secondOfDay (value : Z) : Z := value / Second mod secondsPerDay.
Definition Hour (value : Z) : Z := secondOfDay value / 3600.
Definition Minute (value : Z) : Z := secondOfDay value mod 3600 / 60.
Definition SecondOf (value : Z) : Z := secondOfDay value mod 60.
Definition Nanosecond (value : Z) : Z := value mod Second.

(** ** The text format *)

Definition yearText (year : Z) : string :=
  if (0 <=? year) && (year <=? 9999) then fmt0 4 year
  else if year <? 0 then String "-" (fmt0 6 (- year)) else String "+" (fmt0 6 year).

Definition FormatTime (value : Z) : result string :=
  let value := NormalizeTime value in
  _ ← ValidateTime value;
  let '(year, month, day) := civil (unixDay value) in
  Ok (yearText year ++ "-" ++ fmt0 2 month ++ "-" ++ fmt0 2 day ++ "T" ++ fmt0 2 (Hour value) ++ ":"
        ++ fmt0 2 (Minute value) ++ ":" ++ fmt0 2 (SecondOf value) ++ "."
        ++ fmt0 3 (Nanosecond value / Millisecond) ++ "Z")%string.

Definition invalidTime {A} : result A := Err (ErrText "invalid portable time").

(** [strconv.Atoi(value[start:end])] *)
Definition parseField (value : string) (start stop : nat) : result Z :=
  match Atoi (substr value start stop) with
  | Some n => Ok n
  | None => invalidTime
  end.

Definition isSign (value : string) : bool := charIs value 0 "+" || charIs value 0 "-".

(** The separators at their fixed places after the year. *)
Definition layout (value : string) (separator : nat) : bool :=
  (Nat.eqb (String.length value) (separator + 20)) && charIs value separator "-" &&
  charIs value (separator + 3) "-" && charIs value (separator + 6) "T" &&
  charIs value (separator + 9) ":" && charIs value (separator + 12) ":" &&
  charIs value (separator + 15) "." && charIs value (separator + 19) "Z".

Definition ParseTime (value : string) : result Z :=
  if (strlen value <? 24) || negb (charIs value (String.length value - 1) "Z") then invalidTime
  else
    let yearWidth := (if isSign value then 6 else 4)%nat in
    let yearStart := (if isSign value then 1 else 0)%nat in
    let separator := (yearStart + yearWidth)%nat in
    if negb (layout value separator) then invalidTime
    else
      year ← parseField value yearStart separator;
      let year := if Nat.eqb yearStart 1 && charIs value 0 "-" then - year else year in
      month ← parseField value (separator + 1) (separator + 3);
      day ← parseField value (separator + 4) (separator + 6);
      hour ← parseField value (separator + 7) (separator + 9);
      minute ← parseField value (separator + 10) (separator + 12);
      second ← parseField value (separator + 13) (separator + 15);
      millisecond ← parseField value (separator + 16) (separator + 19);
      let parsed := Date year month day hour minute second (millisecond * Millisecond) in
      match FormatTime parsed with
      | Ok formatted => if bool_decide (formatted = value) then Ok parsed else invalidTime
      | Err _ => invalidTime
      end.

Lemma NormalizeTime_floor (t : Z) : NormalizeTime t = Millisecond * (t / Millisecond).
Proof. unfold NormalizeTime, Millisecond. pose proof (Z.div_mod t 1000000). lia. Qed.

Lemma NormalizeTime_idem (t : Z) : NormalizeTime (NormalizeTime t) = NormalizeTime t.
Proof.
  rewrite !NormalizeTime_floor. f_equal. rewrite Z.mul_comm. by apply Z.div_mul.
Qed.

Lemma NormalizeTime_bounds (t : Z) : NormalizeTime t <= t < NormalizeTime t + Millisecond.
Proof. unfold NormalizeTime, Millisecond. pose proof (Z.mod_pos_bound t 1000000). lia. Qed.

Lemma badTime_normalize (t : Z) : badTime (NormalizeTime t) = badTime t.
Proof. unfold badTime, ValidateTime. by rewrite NormalizeTime_idem. Qed.

End Portable.
