(* ===== verification/PortableFormat.v ===== *)
(** * The time text is the canonical form of the instant

    The calendar conversions invert each other, and [ParseTime] accepts exactly
    the texts [FormatTime] produces. *)

From Stdlib.Strings Require Import Ascii.
From S2P Require Import Prelude Text Cll Portable.
Import Text Cll Portable.

Module PortableFormat.

Local Open Scope Z_scope.

(** ** The calendar *)

Lemma yearOfEra_range (doe : Z) :
  0 <= doe < eraDays -> 0 <= yearOfEra doe < 400 /\ 0 <= dayOfYear doe <= 365.
Proof.
  unfold dayOfYear, yearOfEra, eraDays. intros Hd.
  Z.div_mod_to_equations. lia.
Qed.

Lemma monthIndex_range (doy : Z) :
  0 <= doy <= 365 ->
  0 <= monthIndex doy <= 11 /\ 0 <= doy - (153 * monthIndex doy + 2) / 5 <= 30.
Proof. unfold monthIndex. intros Hd. Z.div_mod_to_equations. lia. Qed.

(** [civil] gives a month, a day of the month and a year, and [daysOfCivil]
    gives back the day. *)
Lemma civil_inverse (days y m d : Z) :
  civil days = (y, m, d) ->
  1 <= m <= 12 /\ 1 <= d <= 31 /\ daysOfCivil y m d = days /\
  (-100000000 <= days <= 100000000 -> -300000 < y < 300000).
Proof.
  unfold civil. set (z := days + epochShift).
  pose proof (Z.mod_pos_bound z eraDays ltac:(done)) as Hdoe.
  pose proof (Z.div_mod z eraDays ltac:(done)) as Hz.
  destruct (yearOfEra_range (z mod eraDays) Hdoe) as [Hyoe Hdoy].
  destruct (monthIndex_range (dayOfYear (z mod eraDays)) Hdoy) as [Hmp Hday].
  set (doe := z mod eraDays) in *. set (era := z / eraDays) in *.
  set (yoe := yearOfEra doe) in *. set (doy := dayOfYear doe) in *.
  assert (doe = 365 * yoe + yoe / 4 - yoe / 100 + doy) as Hdoe'.
  { unfold doy, dayOfYear. fold yoe. lia. }
  clearbody yoe doy. set (mp := monthIndex doy) in *. clearbody mp.
  intros [= <- <- <-].
  assert ((yoe + era * 400) / 400 = era /\ (yoe + era * 400) mod 400 = yoe) as [He Hy].
  { rewrite Z.div_add, Z.mod_add, Z.div_small, Z.mod_small by lia. lia. }
  assert (-100000000 <= days <= 100000000 -> -690 <= era <= 690) as Hera.
  { unfold epochShift, eraDays in *. subst z. lia. }
  unfold daysOfCivil. destruct (Z.ltb_spec mp 10) as [H10|H10].
  - rewrite (proj2 (Z.leb_gt (mp + 3) 2)), (proj2 (Z.ltb_lt 2 (mp + 3))) by lia.
    rewrite He, Hy. replace (mp + 3 - 3) with mp by lia. split_and!; try lia.
  - rewrite (proj2 (Z.leb_le (mp - 9) 2)), (proj2 (Z.ltb_ge 2 (mp - 9))) by lia.
    replace (yoe + era * 400 + 1 - 1) with (yoe + era * 400) by lia.
    rewrite He, Hy. replace (mp - 9 + 9) with mp by lia. split_and!; try lia.
Qed.

(** ** Instants *)

Lemma clock_parts (t : Z) :
  0 <= Hour t < 24 /\ 0 <= Minute t < 60 /\ 0 <= SecondOf t < 60 /\ 0 <= Nanosecond t < Second /\
  (unixDay t * secondsPerDay + Hour t * 3600 + Minute t * 60 + SecondOf t) * Second + Nanosecond t = t.
Proof.
  unfold unixDay, Hour, Minute, SecondOf, secondOfDay, Nanosecond, secondsPerDay, Second.
  set (s := t / 1000000000). pose proof (Z.div_mod t 1000000000 ltac:(lia)). fold s in H.
  pose proof (Z.mod_pos_bound t 1000000000 ltac:(lia)).
  pose proof (Z.div_mod s 86400 ltac:(lia)). pose proof (Z.mod_pos_bound s 86400 ltac:(lia)).
  set (r := s mod 86400) in *. clearbody r.
  assert (0 <= r / 3600 < 24 /\ 0 <= r mod 3600 / 60 < 60 /\ 0 <= r mod 60 < 60 /\
    r = r / 3600 * 3600 + r mod 3600 / 60 * 60 + r mod 60) as (? & ? & ? & ?); [|lia].
  Z.div_mod_to_equations. lia.
Qed.

(** Assembling the parts of a normalized time gives it back. *)
Lemma Date_civil (t y m d : Z) :
  civil (unixDay t) = (y, m, d) -> t mod Millisecond = 0 ->
  Date y m d (Hour t) (Minute t) (SecondOf t) (Nanosecond t / Millisecond * Millisecond) = t.
Proof.
  intros (Hm & Hd & Hdays & _)%civil_inverse Hms. unfold Date.
  rewrite Z.div_small, Z.mod_small, Z.add_0_r by lia. replace (m - 1 + 1) with m by lia.
  rewrite Hdays. destruct (clock_parts t) as (_ & _ & _ & _ & Ht).
  assert (Nanosecond t / Millisecond * Millisecond = Nanosecond t) as ->; [|exact Ht].
  unfold Nanosecond, Millisecond, Second in *. Z.div_mod_to_equations. lia.
Qed.

Lemma ValidateTime_range (t : Z) :
  ValidateTime t = Ok tt <->
  MinPortableUnixMillis * Millisecond <= NormalizeTime t <= MaxPortableUnixMillis * Millisecond.
Proof.
  unfold ValidateTime.
  destruct (Z.ltb_spec (NormalizeTime t) (MinPortableUnixMillis * Millisecond)),
    (Z.ltb_spec (MaxPortableUnixMillis * Millisecond) (NormalizeTime t)); cbn [orb]; split; done || lia.
Qed.

Lemma valid_year (t y m d : Z) :
  ValidateTime t = Ok tt -> civil (unixDay (NormalizeTime t)) = (y, m, d) -> -300000 < y < 300000.
Proof.
  intros Hv%ValidateTime_range (_ & _ & _ & Hy)%civil_inverse. apply Hy.
  unfold unixDay, MinPortableUnixMillis, MaxPortableUnixMillis, Millisecond, Second, secondsPerDay in *.
  Z.div_mod_to_equations. lia.
Qed.

(** ** The text *)

(** The part after the year, from its digits. *)
Definition clockText (m1 m2 d1 d2 h1 h2 n1 n2 s1 s2 f1 f2 f3 : ascii) : string :=
  String "-" (String m1 (String m2 (String "-" (String d1 (String d2 (String "T" (String h1 (String h2
    (String ":" (String n1 (String n2 (String ":" (String s1 (String s2 (String "." (String f1
    (String f2 (String f3 (String "Z" EmptyString))))))))))))))))))).

Definition two (a b : ascii) : string := String a (String b EmptyString).
Definition three (a b c : ascii) : string := String a (two b c).

(** What [ParseTime] makes of well-placed fields. *)
Definition fieldsTime (year : Z) (m1 m2 d1 d2 h1 h2 n1 n2 s1 s2 f1 f2 f3 : ascii) : option Z :=
  month ← Atoi (two m1 m2); day ← Atoi (two d1 d2); hour ← Atoi (two h1 h2);
  minute ← Atoi (two n1 n2); second ← Atoi (two s1 s2); millisecond ← Atoi (three f1 f2 f3);
  Some (Date year month day hour minute second (millisecond * Millisecond)).

(** The year field of a text. *)
Definition yearField (year : Z) (text : string) : Prop :=
  (exists c1 c2 c3 c4, text = String c1 (String c2 (String c3 (String c4 EmptyString))) /\
     Atoi text = Some year /\ c1 <> "-"%char /\ c1 <> "+"%char) \/
  (exists sign digits c1 c2 c3 c4 c5 c6, text = String sign digits /\
     digits = String c1 (String c2 (String c3 (String c4 (String c5 (String c6 EmptyString))))) /\
     ((sign = "-"%char /\ Atoi digits = Some (- year)) \/ (sign = "+"%char /\ Atoi digits = Some year))).

Lemma yearText_field (y : Z) : -1000000 < y < 1000000 -> yearField y (yearText y).
Proof.
  intros Hy. unfold yearText, yearField.
  destruct (Z.leb_spec 0 y) as [H0|H0]; [destruct (Z.leb_spec y 9999) as [H9|H9]|]; cbn [andb].
  - left. destruct (field4 y ltac:(lia)) as (c1 & c2 & c3 & c4 & -> & ? & ? & ?).
    exists c1, c2, c3, c4. done.
  - right. rewrite (proj2 (Z.ltb_ge _ _)) by lia.
    destruct (field6 y ltac:(lia)) as (c1 & c2 & c3 & c4 & c5 & c6 & -> & ?).
    eexists _, _, c1, c2, c3, c4, c5, c6. split; [done|]. split; [done|]. by right.
  - right. rewrite (proj2 (Z.ltb_lt _ _)) by lia.
    destruct (field6 (- y) ltac:(lia)) as (c1 & c2 & c3 & c4 & c5 & c6 & -> & ?).
    eexists _, _, c1, c2, c3, c4, c5, c6. split; [done|]. split; [done|]. by left.
Qed.

(** Parsing a text of the right shape succeeds exactly when it is canonical. *)
Lemma ParseTime_fields (year t : Z) (text : string) (m1 m2 d1 d2 h1 h2 n1 n2 s1 s2 f1 f2 f3 : ascii) :
  yearField year text ->
  fieldsTime year m1 m2 d1 d2 h1 h2 n1 n2 s1 s2 f1 f2 f3 = Some t ->
  FormatTime t = Ok (String.append text (clockText m1 m2 d1 d2 h1 h2 n1 n2 s1 s2 f1 f2 f3)) ->
  ParseTime (String.append text (clockText m1 m2 d1 d2 h1 h2 n1 n2 s1 s2 f1 f2 f3)) = Ok t.
Proof.
  unfold fieldsTime. intros Hyear Hfields Hformat.
  destruct (Atoi (two m1 m2)) as [month|] eqn:Hm; [|done].
  destruct (Atoi (two d1 d2)) as [day|] eqn:Hd; [|done].
  destruct (Atoi (two h1 h2)) as [hour|] eqn:Hh; [|done].
  destruct (Atoi (two n1 n2)) as [minute|] eqn:Hn; [|done].
  destruct (Atoi (two s1 s2)) as [second|] eqn:Hs; [|done].
  destruct (Atoi (three f1 f2 f3)) as [ms|] eqn:Hf; [|done].
  cbn [mbind option_bind] in Hfields. injection Hfields as Ht.
  destruct Hyear as [(c1 & c2 & c3 & c4 & Htext & Hy & Hneg & Hpos)
                    |(sign & digits & c1 & c2 & c3 & c4 & c5 & c6 & Htext & Hdig & Hy)].
  - set (value := String.append text _) in *.
    assert (isSign value = false) as Hsign.
    { assert (String.get 0 value = Some c1) as Hg by (subst value text; reflexivity).
      unfold isSign, charIs. rewrite Hg, !bool_decide_false; [done|congruence..]. }
    unfold ParseTime. rewrite Hsign. cbn [Nat.add Nat.eqb].
    assert (layout value 4 = true) as -> by (subst value text; reflexivity).
    assert ((strlen value <? 24) || negb (charIs value (String.length value - 1) "Z") = false) as ->
      by (subst value text; reflexivity).
    cbn [negb andb]. unfold parseField.
    change (substr value (4 + 1) (4 + 3)) with (substr value 5 7).
    assert (substr value 0 4 = text) as -> by (subst value text; reflexivity). rewrite Hy.
    assert (substr value 5 7 = two m1 m2) as -> by (subst value text; reflexivity). rewrite Hm.
    assert (substr value 8 10 = two d1 d2) as -> by (subst value text; reflexivity). rewrite Hd.
    assert (substr value 11 13 = two h1 h2) as -> by (subst value text; reflexivity). rewrite Hh.
    assert (substr value 14 16 = two n1 n2) as -> by (subst value text; reflexivity). rewrite Hn.
    assert (substr value 17 19 = two s1 s2) as -> by (subst value text; reflexivity). rewrite Hs.
    assert (substr value 20 23 = three f1 f2 f3) as -> by (subst value text; reflexivity). rewrite Hf.
    cbn [mbind result_bind]. rewrite Ht, Hformat. by rewrite bool_decide_true.
  - set (value := String.append text _) in *.
    assert (String.get 0 value = Some sign) as Hget by (subst value text; reflexivity).
    assert (isSign value = true) as Hsign.
    { unfold isSign, charIs. rewrite Hget. destruct Hy as [[-> _]|[-> _]]; reflexivity. }
    unfold ParseTime. rewrite Hsign. cbn [Nat.add Nat.eqb].
    assert (layout value 7 = true) as -> by (subst value text digits; reflexivity).
    assert ((strlen value <? 24) || negb (charIs value (String.length value - 1) "Z") = false) as ->
      by (subst value text digits; reflexivity).
    cbn [negb andb]. unfold parseField.
    assert (substr value 1 7 = digits) as -> by (subst value text digits; reflexivity).
    assert (substr value 8 10 = two m1 m2) as -> by (subst value text digits; reflexivity). rewrite Hm.
    assert (substr value 11 13 = two d1 d2) as -> by (subst value text digits; reflexivity). rewrite Hd.
    assert (substr value 14 16 = two h1 h2) as -> by (subst value text digits; reflexivity). rewrite Hh.
    assert (substr value 17 19 = two n1 n2) as -> by (subst value text digits; reflexivity). rewrite Hn.
    assert (substr value 20 22 = two s1 s2) as -> by (subst value text digits; reflexivity). rewrite Hs.
    assert (substr value 23 26 = three f1 f2 f3) as -> by (subst value text digits; reflexivity). rewrite Hf.
    assert (charIs value 0 "-" = bool_decide (sign = "-"%char)) as ->.
    { unfold charIs. rewrite Hget. apply bool_decide_ext. split; congruence. }
    destruct Hy as [[-> Hy]|[-> Hy]]; rewrite Hy; cbn [mbind result_bind].
    + rewrite bool_decide_true, Z.opp_involutive, Ht, Hformat by done. by rewrite bool_decide_true.
    + rewrite bool_decide_false, Ht, Hformat by done. by rewrite bool_decide_true.
Qed.

(** ** Formatting *)

Lemma NormalizeTime_multiple (t : Z) : NormalizeTime t mod Millisecond = 0.
Proof. rewrite NormalizeTime_floor, Z.mul_comm. by apply Z.mod_mul. Qed.

Lemma FormatTime_normal (t : Z) : FormatTime (NormalizeTime t) = FormatTime t.
Proof. unfold FormatTime. by rewrite NormalizeTime_idem. Qed.

(** The text of a valid time, field by field. *)
Lemma FormatTime_shape (t : Z) :
  ValidateTime t = Ok tt ->
  exists y m1 m2 d1 d2 h1 h2 n1 n2 s1 s2 f1 f2 f3,
    -1000000 < y < 1000000 /\
    FormatTime t = Ok (String.append (yearText y) (clockText m1 m2 d1 d2 h1 h2 n1 n2 s1 s2 f1 f2 f3)) /\
    fieldsTime y m1 m2 d1 d2 h1 h2 n1 n2 s1 s2 f1 f2 f3 = Some (NormalizeTime t).
Proof.
  intros Hv. unfold FormatTime, fieldsTime.
  assert (ValidateTime (NormalizeTime t) = Ok tt) as -> by (unfold ValidateTime in *; by rewrite NormalizeTime_idem).
  cbn [mbind result_bind].
  destruct (civil (unixDay (NormalizeTime t))) as [[y m] d] eqn:Hc.
  destruct (civil_inverse _ _ _ _ Hc) as (Hm & Hd & _).
  pose proof (valid_year t y m d Hv Hc) as Hy.
  destruct (clock_parts (NormalizeTime t)) as (Hh & Hn & Hs & Hf & _).
  destruct (field2 m ltac:(lia)) as (m1 & m2 & -> & Am).
  destruct (field2 d ltac:(lia)) as (d1 & d2 & -> & Ad).
  destruct (field2 (Hour (NormalizeTime t)) ltac:(lia)) as (h1 & h2 & -> & Ah).
  destruct (field2 (Minute (NormalizeTime t)) ltac:(lia)) as (n1 & n2 & -> & An).
  destruct (field2 (SecondOf (NormalizeTime t)) ltac:(lia)) as (s1 & s2 & -> & As).
  assert (0 <= Nanosecond (NormalizeTime t) / Millisecond < 1000) as Hms.
  { unfold Second, Millisecond in *. Z.div_mod_to_equations. lia. }
  destruct (field3 (Nanosecond (NormalizeTime t) / Millisecond) Hms) as (f1 & f2 & f3 & -> & Af).
  exists y, m1, m2, d1, d2, h1, h2, n1, n2, s1, s2, f1, f2, f3. split; [lia|]. split; [reflexivity|].
  unfold two, three. unfold two. rewrite Am, Ad, Ah, An, As, Af. cbn [mbind option_bind]. f_equal.
  apply Date_civil; [done|]. apply NormalizeTime_multiple.
Qed.

Lemma ParseTime_FormatTime (t : Z) :
  ValidateTime t = Ok tt -> exists s, FormatTime t = Ok s /\ ParseTime s = Ok (NormalizeTime t).
Proof.
  intros (y & m1 & m2 & d1 & d2 & h1 & h2 & n1 & n2 & s1 & s2 & f1 & f2 & f3 & Hy & Hf & Hfields)%FormatTime_shape.
  eexists. split; [exact Hf|]. eapply ParseTime_fields; [by apply yearText_field|exact Hfields|].
  by rewrite FormatTime_normal.
Qed.

Lemma FormatTime_invalid (t : Z) (s : string) : FormatTime t = Ok s -> ValidateTime t = Ok tt.
Proof.
  unfold FormatTime, ValidateTime. rewrite NormalizeTime_idem.
  destruct (_ || _); [done|done].
Qed.

Lemma ParseTime_Ok (s : string) (t : Z) :
  ParseTime s = Ok t -> FormatTime t = Ok s /\ ValidateTime t = Ok tt /\ NormalizeTime t = t.
Proof.
  intros H. assert (FormatTime t = Ok s /\ t mod Millisecond = 0) as [Hf Hm].
  - revert H. unfold ParseTime. destruct (_ || _); [done|]. destruct (negb _); [done|].
    cbv zeta.
    repeat match goal with
    | |- mbind _ ?r = _ -> _ => destruct r; cbn [mbind result_bind]; [|done]
    end.
    match goal with |- context [Date ?y ?m ?d ?h ?n ?se ?ns] => set (parsed := Date y m d h n se ns) end.
    destruct (FormatTime parsed) as [formatted|] eqn:Hformat; [|done].
    case_bool_decide as Heq; [|done]. intros [= <-]. subst formatted. split; [done|].
    unfold parsed, Date, Second, Millisecond.
    match goal with |- ((?a * 1000000000) + ?b * 1000000) mod 1000000 = 0 =>
      replace (a * 1000000000 + b * 1000000) with ((a * 1000 + b) * 1000000) by lia end.
    by apply Z.mod_mul.
  - split; [done|]. split; [by eapply FormatTime_invalid|]. unfold NormalizeTime. lia.
Qed.

(** ** Claims *)

(** Every portable time has a text, and parsing the text gives the time
    rounded down to the millisecond; a time outside the portable range has
    none. *)
Lemma time_text_roundtrip (t : Z) :
  (ValidateTime t = Ok tt -> exists s, FormatTime t = Ok s /\ ParseTime s = Ok (NormalizeTime t)) /\
  (ValidateTime t <> Ok tt -> is_ok (FormatTime t) = false).
Proof.
  split; [apply ParseTime_FormatTime|]. intros Hv.
  destruct (FormatTime t) as [s|] eqn:Hf; [|done]. by apply FormatTime_invalid in Hf.
Qed.

(** The text of a time is canonical: whatever [ParseTime] accepts is exactly
    the text [FormatTime] gives for the parsed time, which is portable and a
    whole number of milliseconds; so two texts of one time are equal. *)
Lemma parsed_time_is_canonical (s : string) (t : Z) :
  ParseTime s = Ok t -> FormatTime t = Ok s /\ ValidateTime t = Ok tt /\ NormalizeTime t = t.
Proof. apply ParseTime_Ok. Qed.

(** ** Witnesses *)

End PortableFormat.
