(* ===== verification/Engine.v ===== *)
(** * The storage engine: [src/internal/backend/engine.go], [clone.go]

    The in-memory representation and the transition rules every backend
    shares.  A method takes the engine and returns the new engine with its
    result; a method that returns an error returns the engine it left.  The
    clone functions copy memory, which is the identity on values; they are
    kept where the code calls them, and [Alias] models the memory. *)

From stdpp Require Import pretty.
From S2P Require Import Prelude Hex DtMmr Mmr Cll Portable.
Import Cll Portable.

Module Engine.

Local Open Scope Z_scope.
Local Open Scope u64_scope.

(** ** [clone.go] *)

Definition cloneBytesList (values : list bytes) : list bytes := map (fun value => value) values.

Definition CloneEntry (value : Entry) : Entry :=
  MkEntry (entry_Seq value) (entry_Value value) (entry_AppendedAt value).

Definition cloneEntries (values : list Entry) : list Entry := map CloneEntry values.

Definition cloneReceipt (receipt : WitnessReceiptState) : WitnessReceiptState :=
  MkReceipt (receipt_Bytes receipt) (receipt_EntryHash receipt) (receipt_EntryHashScheme receipt)
    ((fun position => position) <$> receipt_LeafIndex receipt)
    ((fun size => size) <$> receipt_TreeSize receipt).

Definition CloneWitness (value : WitnessState) : WitnessState :=
  MkWitness (wit_WitnessID value) (wit_CheckpointSize value) (wit_Checkpoint value)
    (wit_Attempts value) (wit_NextAttemptAt value) (cloneReceipt <$> wit_Receipt value)
    (wit_Permanent value) (wit_LastError value).

Definition cloneStateHeader (value : State) : State :=
  MkState (st_Size value) [] (st_IndexedSeq value)
    ((fun timestamp => timestamp) <$> st_FirstPendingAt value)
    ((fun checkpoint => MkCheckpoint (cpt_Bytes checkpoint) (cpt_Size checkpoint)
        (cpt_IndexedSeq checkpoint) (cloneBytesList (cpt_Peaks checkpoint))) <$> st_Checkpoint value)
    [].

(** [value.Nodes = nodes; value.Witnesses = witnesses] *)
Definition with_rows (value : State) (nodes : list bytes) (witnesses : list WitnessState) : State :=
  MkState (st_Size value) nodes (st_IndexedSeq value) (st_FirstPendingAt value)
    (st_Checkpoint value) witnesses.

Definition CloneState (value : State) : State :=
  let nodes := cloneBytesList (st_Nodes value) in
  let witnesses := map CloneWitness (st_Witnesses value) in
  with_rows (cloneStateHeader value) nodes witnesses.

(** ** Keys and validation *)

Definition WitnessKey (id : string) (size : Z) : string :=
  String.append id (String Ascii.zero (pretty (Z.to_N size))).

Definition keyOf (witness : WitnessState) : string :=
  WitnessKey (wit_WitnessID witness) (wit_CheckpointSize witness).

Definition validEntryHash (value : string) : bool :=
  match Hex.DecodeString value with
  | Some decoded =>
      (zlen decoded =? EntryBytes) && bool_decide (Hex.EncodeToString decoded = value)
  | None => false
  end.

(** [position != nil && ( *position < 0 || uint64( *position) > MaxPortableInteger)] *)
Definition badPosition (position : option Z) : bool :=
  match position with
  | Some p => (p <? 0) || (MaxPortableInteger <? p)
  | None => false
  end.

Definition validateWitness (value : WitnessState) (class : error) : check :=
  if negb (is_ok (ValidateIdentifier (wit_WitnessID value))) || (wit_CheckpointSize value =? 0) ||
     (zlen (wit_Checkpoint value) <? 1) || (MaxCheckpointBytes <? zlen (wit_Checkpoint value)) ||
     badTime (wit_NextAttemptAt value) || (MaxReasonBytes <? strlen (wit_LastError value))
  then Err class
  else
    match wit_Receipt value with
    | None => Ok tt
    | Some receipt =>
        if (zlen (receipt_Bytes receipt) <? 1) ||
           (MaxWitnessResponseBytes <? zlen (receipt_Bytes receipt)) then Err class
        else if negb (bool_decide (receipt_EntryHash receipt = ""%string)) &&
                negb (validEntryHash (receipt_EntryHash receipt)) then Err class
        else if negb (bool_decide (receipt_EntryHashScheme receipt = ""%string)) &&
                negb (bool_decide (receipt_EntryHashScheme receipt = "legacy"%string)) then Err class
        else if badPosition (receipt_LeafIndex receipt) || badPosition (receipt_TreeSize receipt)
        then Err class
        else Ok tt
    end.

(** The loop over the witness rows with its [seen] set. *)
Fixpoint validateWitnesses (witnesses : list WitnessState) (seen : gset string) (class : error) :
    check :=
  match witnesses with
  | [] => Ok tt
  | witness :: rest =>
      _ ← validateWitness witness class;
      if bool_decide (keyOf witness ∈ seen) then Err class
      else validateWitnesses rest ({[keyOf witness]} ∪ seen) class
  end.

Definition badNode (node : bytes) : bool := negb (zlen node =? EntryBytes).

(** [bytes.Equal(left, right)] *)
Definition bytesEqual (left right : bytes) : bool := bool_decide (left = right).

Definition sameOptional (checkpoint : option CheckpointState) (expected : option bytes) : bool :=
  match checkpoint, expected with
  | None, None => true
  | Some checkpoint, Some expected => bytesEqual (cpt_Bytes checkpoint) expected
  | _, _ => false
  end.

Fixpoint prefixEqual (prefix values : list bytes) : bool :=
  match prefix, values with
  | [], _ => true
  | value :: prefix', other :: values' => bytesEqual value other && prefixEqual prefix' values'
  | _ :: _, [] => false
  end.

Definition listEqual (left right : list bytes) : bool :=
  (zlen left =? zlen right) && prefixEqual left right.

(** The checks of [validateStateMetadata] on a present checkpoint. *)
Definition validateCheckpoint (value : State) (checkpoint : CheckpointState) (class : error) : check :=
  if (zlen (cpt_Bytes checkpoint) <? 1) || (MaxCheckpointBytes <? zlen (cpt_Bytes checkpoint)) ||
     (cpt_Size checkpoint =? 0) || (st_Size value <? cpt_Size checkpoint) ||
     (st_IndexedSeq value <? cpt_IndexedSeq checkpoint)
  then Err class
  else if existsb badNode (cpt_Peaks checkpoint) then Err class
  else Ok tt.

Section Engine.
Context `{DT : DtMmr}.

Definition validateStateMetadata (value : State) (nodeCount : Z) (class : error) : check :=
  if negb (st_Size value =? nodeCount) then Err class
  else
    let '(leaves, complete) := Mmr.LeafCount (st_Size value) in
    if negb complete || negb (leaves =? st_IndexedSeq value) then Err class
    else if match st_FirstPendingAt value with Some t => badTime t | None => false end
    then Err class
    else
      _ ← match st_Checkpoint value with
          | Some checkpoint => validateCheckpoint value checkpoint class
          | None => Ok tt
          end;
      validateWitnesses (st_Witnesses value) ∅ class.

Definition validateState (value : State) (class : error) : check :=
  _ ← validateStateMetadata value (zlen (st_Nodes value)) class;
  if existsb badNode (st_Nodes value) then Err class else Ok tt.

(** ** Commits of the CLL state *)

(** The loop over [next.Witnesses]: [existing], [seen] and [added]. *)
Fixpoint addedWitnesses (existing : gmap string WitnessState) (witnesses : list WitnessState)
    (seen : gset string) (added : list WitnessState) : result (list WitnessState) :=
  match witnesses with
  | [] => Ok added
  | witness :: rest =>
      let key := keyOf witness in
      if bool_decide (key ∈ seen) then Err ErrInvalid
      else
        let seen := {[key]} ∪ seen in
        match existing !! key with
        | Some currentWitness =>
            if negb (bytesEqual (wit_Checkpoint currentWitness) (wit_Checkpoint witness))
            then Err ErrContention
            else addedWitnesses existing rest seen added
        | None => addedWitnesses existing rest seen (added ++ [CloneWitness witness])
        end
  end.

(** [existing[WitnessKey(...)] = witness] over the rows in order. *)
Definition existingRows (witnesses : list WitnessState) : gmap string WitnessState :=
  fold_left (fun existing witness => <[keyOf witness := witness]> existing) witnesses ∅.

(** The checks on the two checkpoints of a transition. *)
Definition checkpointTransition (current next : option CheckpointState) : check :=
  match current, next with
  | Some _, None => Err ErrContention
  | Some current, Some next =>
      if (cpt_Size next <? cpt_Size current) || (cpt_IndexedSeq next <? cpt_IndexedSeq current)
      then Err ErrContention
      else if (cpt_Size next =? cpt_Size current) &&
              (negb (bytesEqual (cpt_Bytes next) (cpt_Bytes current)) ||
               negb (cpt_IndexedSeq next =? cpt_IndexedSeq current) ||
               negb (listEqual (cpt_Peaks next) (cpt_Peaks current)))
      then Err ErrContention
      else Ok tt
  | None, _ => Ok tt
  end.

Definition validateCLLTransition (current next : State) : result (list WitnessState) :=
  if st_IndexedSeq next <? st_IndexedSeq current then Err ErrInvalid
  else
    _ ← checkpointTransition (st_Checkpoint current) (st_Checkpoint next);
    addedWitnesses (existingRows (st_Witnesses current)) (st_Witnesses next) ∅ [].

Definition ApplyCLL (current : State) (expectedSize : Z) (expectedCheckpoint : option bytes)
    (next : State) : result State :=
  if negb (st_Size current =? expectedSize) ||
     negb (sameOptional (st_Checkpoint current) expectedCheckpoint)
  then Err ErrContention
  else
    _ ← validateState next ErrInvalid;
    if (st_Size next <? st_Size current) || (st_IndexedSeq next <? st_IndexedSeq current) ||
       negb (prefixEqual (st_Nodes current) (st_Nodes next))
    then Err ErrInvalid
    else
      added ← validateCLLTransition current next;
      Ok (with_rows (cloneStateHeader next) (cloneBytesList (st_Nodes next))
            (map CloneWitness (st_Witnesses current ++ added))).

(** The loop of [ApplyWitness]: the rows before the match, then the result rows. *)
Fixpoint replaceWitness (expectedAttempts : Z) (next : WitnessState) (witnesses : list WitnessState) :
    result (list WitnessState) :=
  match witnesses with
  | [] => Err ErrContention
  | witness :: rest =>
      if negb (bool_decide (keyOf witness = keyOf next)) then
        rest' ← replaceWitness expectedAttempts next rest;
        Ok (witness :: rest')
      else if negb (wit_Attempts witness =? expectedAttempts) then Err ErrContention
      else if negb (bytesEqual (wit_Checkpoint witness) (wit_Checkpoint next)) then Err ErrContention
      else Ok (CloneWitness next :: rest)
  end.

Definition ApplyWitness (current : State) (expectedAttempts : Z) (next : WitnessState) :
    result State :=
  _ ← validateWitness next ErrInvalid;
  witnesses ← replaceWitness expectedAttempts next (st_Witnesses current);
  Ok (with_rows current (st_Nodes current) witnesses).

(** ** The engine *)

Record Engine := MkEngine {
  entries : list Entry;
  byValue : gmap bytes Z;
  state : State
}.

Record Snapshot := MkSnapshot {
  snap_entryCount : Z;
  snap_state : State
}.

Definition New : Engine := MkEngine [] ∅ emptyState.

Definition takeSnapshot (e : Engine) : Snapshot := MkSnapshot (zlen (entries e)) (state e).

Definition Restore (e : Engine) (snapshot : Snapshot) : Engine * check :=
  if zlen (entries e) <? snap_entryCount snapshot then (e, Err ErrCorrupt)
  else
    let removed := drop (Z.to_nat (snap_entryCount snapshot)) (entries e) in
    (MkEngine (take (Z.to_nat (snap_entryCount snapshot)) (entries e))
       (fold_left (fun m entry => delete (entry_Value entry) m) removed (byValue e))
       (snap_state snapshot), Ok tt).

Definition DeltaSince (e : Engine) (snapshot : Snapshot) : result State :=
  let before := snap_state snapshot in
  let current := state e in
  if zlen (st_Nodes current) <? zlen (st_Nodes before) then Err ErrCorrupt
  else
    let delta := CloneState (MkState (st_Size current) [] (st_IndexedSeq current)
                               (st_FirstPendingAt current) (st_Checkpoint current) []) in
    let existing : gset string := list_to_set (map keyOf (st_Witnesses before)) in
    Ok (with_rows delta (cloneBytesList (drop (length (st_Nodes before)) (st_Nodes current)))
          (map CloneWitness
             (List.filter (fun witness => negb (bool_decide (keyOf witness ∈ existing)))
                (st_Witnesses current)))).

Definition Entries (e : Engine) : list Entry := cloneEntries (entries e).

Definition LoadState (e : Engine) : State := CloneState (state e).

(** The validation loop of [Replace] at index [i]. *)
Fixpoint validateEntries (rest : list Entry) (i : Z) (seen : gset bytes) : check :=
  match rest with
  | [] => Ok tt
  | entry :: rest' =>
      if negb (entry_Seq entry =? i + 1) || (MaxPortableInteger <? entry_Seq entry) ||
         negb (zlen (entry_Value entry) =? EntryBytes) || badTime (entry_AppendedAt entry)
      then Err ErrCorrupt
      else if bool_decide (entry_Value entry ∈ seen) then Err ErrCorrupt
      else validateEntries rest' (i + 1) ({[entry_Value entry]} ∪ seen)
  end.

(** [e.byValue[string(entry.Value)] = index] from index [i]. *)
Fixpoint indexEntries (rest : list Entry) (i : Z) (m : gmap bytes Z) : gmap bytes Z :=
  match rest with
  | [] => m
  | entry :: rest' => indexEntries rest' (i + 1) (<[entry_Value entry := i]> m)
  end.

Definition Replace (e : Engine) (newEntries : list Entry) (newState : State) : Engine * check :=
  match validateEntries newEntries 0 ∅ with
  | Err err => (e, Err err)
  | Ok _ =>
      match validateState newState ErrCorrupt with
      | Err err => (e, Err err)
      | Ok _ =>
          let copied := cloneEntries newEntries in
          (MkEngine copied (indexEntries copied 0 ∅) (CloneState newState), Ok tt)
      end
  end.

Definition Append (e : Engine) (input : AppendInput) : Engine * result AppendResult :=
  if negb (zlen (input_Value input) =? EntryBytes) || badTime (input_AppendedAt input)
  then (e, Err ErrInvalid)
  else
    let key := input_Value input in
    match byValue e !! key with
    | Some i =>
        (e, entry ← index (entries e) i; Ok (MkAppendResult (CloneEntry entry) AppendIdempotent))
    | None =>
        let seq := zlen (entries e) + 1 in
        if MaxPortableInteger <? seq then (e, Err ErrInvalid)
        else
          let entry := MkEntry seq (input_Value input) (NormalizeTime (input_AppendedAt input)) in
          let entries' := entries e ++ [entry] in
          (MkEngine entries' (<[key := zlen entries' - 1]> (byValue e)) (state e),
           Ok (MkAppendResult (CloneEntry entry) AppendInserted))
    end.

Definition GetEntry (e : Engine) (value : bytes) : result Entry :=
  if negb (zlen value =? EntryBytes) then Err ErrInvalid
  else
    match byValue e !! value with
    | None => Err ErrNotFound
    | Some i => entry ← index (entries e) i; Ok (CloneEntry entry)
    end.

(** [e.entries[start:end]] *)
Definition subslice {A} (l : list A) (first last : Z) : list A :=
  take (Z.to_nat (last - first)) (drop (Z.to_nat first) l).

Definition ScanEntries (e : Engine) (afterSeq limit : Z) : result (list Entry) :=
  if (MaxPortableInteger <? afterSeq) || (limit <? 1) || (MaxScanLimit <? limit) then Err ErrInvalid
  else
    let count := zlen (entries e) in
    let start := if count <? afterSeq then count else afterSeq in
    let stop := start +u limit in
    let stop := if count <? stop then count else stop in
    Ok (cloneEntries (subslice (entries e) start stop)).

Definition CommitCLL (e : Engine) (expectedSize : Z) (expectedCheckpoint : option bytes)
    (next : State) : Engine * check :=
  match ApplyCLL (state e) expectedSize expectedCheckpoint next with
  | Err err => (e, Err err)
  | Ok updated => (MkEngine (entries e) (byValue e) updated, Ok tt)
  end.

(** The guards of [CommitCLLDelta] up to the transition check, which returns
    the added rows. *)
Definition checkDelta (current : State) (expectedSize : Z) (expectedCheckpoint : option bytes)
    (delta : State) : result (list WitnessState) :=
  if negb (st_Size current =? expectedSize) ||
     negb (sameOptional (st_Checkpoint current) expectedCheckpoint)
  then Err ErrContention
  else
    let addedCount := zlen (st_Nodes delta) in
    if (st_Size delta <? st_Size current) || (st_Size current +u addedCount <? st_Size current) ||
       negb (st_Size delta =? st_Size current +u addedCount)
    then Err ErrInvalid
    else
      _ ← validateStateMetadata delta (st_Size delta) ErrInvalid;
      if existsb badNode (st_Nodes delta) then Err ErrInvalid
      else validateCLLTransition current delta.

Definition CommitCLLDelta (e : Engine) (expectedSize : Z) (expectedCheckpoint : option bytes)
    (delta : State) : Engine * check :=
  let current := state e in
  match checkDelta current expectedSize expectedCheckpoint delta with
  | Err err => (e, Err err)
  | Ok added =>
      let result := with_rows (cloneStateHeader delta)
                      (st_Nodes current ++ cloneBytesList (st_Nodes delta))
                      (st_Witnesses current ++ added) in
      (MkEngine (entries e) (byValue e) result, Ok tt)
  end.

(** ** Witness rows *)

Definition duePending (now : Z) (witness : WitnessState) : bool :=
  match wit_Receipt witness with None => true | Some _ => false end &&
  negb (wit_Permanent witness) && negb (now <? wit_NextAttemptAt witness).

(** The comparison given to [sort.SliceStable]. *)
Definition pendingLess (a b : WitnessState) : bool :=
  if wit_CheckpointSize a =? wit_CheckpointSize b
  then String.ltb (wit_WitnessID a) (wit_WitnessID b)
  else wit_CheckpointSize a <? wit_CheckpointSize b.

(** A stable sort: the result of [sort.SliceStable] is the only permutation
    sorted by [less] that keeps the order of equivalent elements. *)
Fixpoint insertStable {A} (less : A -> A -> bool) (a : A) (l : list A) : list A :=
  match l with
  | [] => [a]
  | b :: l' => if less b a then b :: insertStable less a l' else a :: b :: l'
  end.

Definition SliceStable {A} (less : A -> A -> bool) (l : list A) : list A :=
  foldr (insertStable less) [] l.

Definition PendingWitnesses (e : Engine) (now limit : Z) : result (list WitnessState) :=
  if badTime now || (limit <? 1) || (MaxWitnesses <? limit) then Err ErrInvalid
  else
    let result := map CloneWitness (List.filter (duePending now) (st_Witnesses (state e))) in
    let result := SliceStable pendingLess result in
    Ok (if limit <? zlen result then take (Z.to_nat limit) result else result).

Fixpoint findWitness (key : string) (witnesses : list WitnessState) : result WitnessState :=
  match witnesses with
  | [] => Err ErrNotFound
  | witness :: rest =>
      if bool_decide (keyOf witness = key) then Ok (CloneWitness witness) else findWitness key rest
  end.

Definition GetWitness (e : Engine) (id : string) (size : Z) : result WitnessState :=
  if negb (is_ok (ValidateIdentifier id)) || (size =? 0) then Err ErrInvalid
  else findWitness (WitnessKey id size) (st_Witnesses (state e)).

Definition CommitWitness (e : Engine) (expectedAttempts : Z) (next : WitnessState) :
    Engine * check :=
  match ApplyWitness (state e) expectedAttempts next with
  | Err err => (e, Err err)
  | Ok updated => (MkEngine (entries e) (byValue e) updated, Ok tt)
  end.

End Engine.

End Engine.
