(* ===== verification/EngineLog.v ===== *)
(** * The entry log of the engine

    [Append], [GetEntry], [ScanEntries], [Restore] and [Replace] refine an
    abstract log, the list of identities and append times in order, in which
    the sequence number of an entry is its position. *)

From S2P Require Import Prelude Hex DtMmr DtMmrRef Mmr Cll Portable Engine.
Import Cll Portable Engine.

Module EngineLog.

Local Open Scope Z_scope.

(** ** The abstract log *)

Abbreviation log := (list (bytes * Z)).

Definition entryAt (i : Z) (p : bytes * Z) : Entry := MkEntry (i + 1) (fst p) (snd p).

(** The entries of a log whose first position is [i]. *)
Fixpoint entriesFrom (i : Z) (l : log) : list Entry :=
  match l with
  | [] => []
  | p :: l' => entryAt i p :: entriesFrom (i + 1) l'
  end.

Definition entriesOf (l : log) : list Entry := entriesFrom 0 l.

(** The entry of an identity. *)
Definition lookupEntry (l : log) (v : bytes) : option Entry :=
  List.find (fun entry => bool_decide (entry_Value entry = v)) (entriesOf l).

Definition specAppend (l : log) (input : AppendInput) : log * result AppendResult :=
  if negb (zlen (input_Value input) =? EntryBytes) || badTime (input_AppendedAt input)
  then (l, Err ErrInvalid)
  else
    match lookupEntry l (input_Value input) with
    | Some entry => (l, Ok (MkAppendResult entry AppendIdempotent))
    | None =>
        if zlen l <? MaxPortableInteger then
          let p := (input_Value input, NormalizeTime (input_AppendedAt input)) in
          (l ++ [p], Ok (MkAppendResult (entryAt (zlen l) p) AppendInserted))
        else (l, Err ErrInvalid)
    end.

Definition specGet (l : log) (v : bytes) : result Entry :=
  if zlen v =? EntryBytes then
    match lookupEntry l v with Some entry => Ok entry | None => Err ErrNotFound end
  else Err ErrInvalid.

(** The entries with sequence numbers in (afterSeq, afterSeq + limit]. *)
Definition specScan (l : log) (afterSeq limit : Z) : result (list Entry) :=
  if (afterSeq <=? MaxPortableInteger) && (1 <=? limit) && (limit <=? MaxScanLimit)
  then Ok (List.filter (fun entry => (afterSeq <? entry_Seq entry) && (entry_Seq entry <=? afterSeq + limit))
             (entriesOf l))
  else Err ErrInvalid.

(** ** Representation *)

Definition absEntry (entry : Entry) : bytes * Z := (entry_Value entry, entry_AppendedAt entry).
Definition absLog (e : Engine) : log := map absEntry (entries e).

Record entry_ok (i : Z) (entry : Entry) : Prop := {
  ok_seq : entry_Seq entry = i + 1;
  ok_seq_max : entry_Seq entry <= MaxPortableInteger;
  ok_width : zlen (entry_Value entry) = EntryBytes;
  ok_time : badTime (entry_AppendedAt entry) = false
}.

(** Entries are dense and valid, and [byValue] is exactly their index. *)
Record log_inv (es : list Entry) (m : gmap bytes Z) : Prop := {
  log_entries : forall i entry, zget es i = Some entry -> entry_ok i entry;
  log_index : forall v i, m !! v = Some i <-> exists entry, zget es i = Some entry /\ entry_Value entry = v
}.

Definition engine_log (e : Engine) : Prop := log_inv (entries e) (byValue e).

(** ** Clones *)

Lemma CloneEntry_id (entry : Entry) : CloneEntry entry = entry.
Proof. by destruct entry. Qed.

Lemma cloneEntries_id (es : list Entry) : cloneEntries es = es.
Proof. unfold cloneEntries. rewrite <- (map_id es) at 2. apply map_ext, CloneEntry_id. Qed.

Lemma cloneBytesList_id (l : list bytes) : cloneBytesList l = l.
Proof. apply map_id. Qed.

Lemma CloneWitness_id (w : WitnessState) : CloneWitness w = w.
Proof. destruct w as [id size cp att nxt [[b h s li ts]|] perm le]; unfold CloneWitness, cloneReceipt; cbn; [|done].
  by destruct li, ts. Qed.

Lemma CloneWitness_map (l : list WitnessState) : map CloneWitness l = l.
Proof. rewrite <- (map_id l) at 2. apply map_ext, CloneWitness_id. Qed.

Lemma cloneStateHeader_id (s : State) : cloneStateHeader s = with_rows s [] [].
Proof.
  destruct s as [size ns iseq t c ws]. unfold cloneStateHeader, with_rows.
  cbn [st_Size st_IndexedSeq st_FirstPendingAt st_Checkpoint]. f_equal; [by destruct t|].
  destruct c as [[b cs cseq ps]|]; [|done].
  cbn [fmap option_fmap option_map cpt_Bytes cpt_Size cpt_IndexedSeq cpt_Peaks].
  by rewrite cloneBytesList_id.
Qed.

Lemma CloneState_id (s : State) : CloneState s = s.
Proof.
  unfold CloneState. rewrite cloneStateHeader_id, cloneBytesList_id, CloneWitness_map.
  by destruct s.
Qed.

(** ** Positions *)

Lemma zget_nil {A} (i : Z) : zget (@nil A) i = None.
Proof.
  destruct (zget [] i) as [a|] eqn:H; [|done]. apply zget_Some_range in H.
  change (zlen (@nil A)) with 0 in H. lia.
Qed.

Lemma zget_app_cases {A} (l k : list A) (i : Z) (a : A) :
  zget (l ++ k) i = Some a <->
  zget l i = Some a \/ (zlen l <= i /\ zget k (i - zlen l) = Some a).
Proof.
  destruct (Z.lt_ge_cases i (zlen l)) as [Hlt|Hge].
  - rewrite zget_app_l by done. intuition lia.
  - rewrite zget_app_r by done. split; [intuition|]. intros [H%zget_Some_range|[_ H]]; [lia|done].
Qed.

Lemma zget_singleton {A} (x a : A) (i : Z) : zget [x] i = Some a <-> i = 0 /\ a = x.
Proof.
  split.
  - intros H. pose proof (zget_Some_range _ _ _ H) as Hr. change (zlen [x]) with 1 in Hr.
    assert (i = 0) as -> by lia. by injection H.
  - by intros [-> ->].
Qed.

Lemma log_values_unique (es : list Entry) (m : gmap bytes Z) (i j : Z) (a b : Entry) :
  log_inv es m -> zget es i = Some a -> zget es j = Some b -> entry_Value a = entry_Value b -> i = j.
Proof.
  intros Hinv Ha Hb Heq.
  assert (m !! entry_Value a = Some i) as H1 by (apply (log_index _ _ Hinv); eauto).
  assert (m !! entry_Value a = Some j) as H2 by (apply (log_index _ _ Hinv); eauto). congruence.
Qed.

Lemma entriesFrom_abs (i : Z) (es : list Entry) :
  (forall j entry, zget es j = Some entry -> entry_Seq entry = i + j + 1) ->
  entriesFrom i (map absEntry es) = es.
Proof.
  revert i. induction es as [|e es IH]; intros i Hes; [done|]. cbn [map entriesFrom].
  rewrite IH.
  - pose proof (Hes 0 e eq_refl). destruct e. unfold entryAt, absEntry. simpl in *. f_equal. f_equal. lia.
  - intros j entry Hj. pose proof (zget_Some_range _ _ _ Hj).
    rewrite (Hes (j + 1) entry); [lia|]. change (e :: es) with ([e] ++ es).
    rewrite zget_app_r by (change (zlen [e]) with 1; lia). change (zlen [e]) with 1.
    by replace (j + 1 - 1) with j by lia.
Qed.

Lemma entriesOf_abs (e : Engine) : engine_log e -> entriesOf (absLog e) = entries e.
Proof.
  intros Hinv. apply entriesFrom_abs. intros j entry Hj.
  rewrite (ok_seq _ _ (log_entries _ _ Hinv j entry Hj)). lia.
Qed.

Lemma absLog_length (e : Engine) : zlen (absLog e) = zlen (entries e).
Proof. unfold zlen, absLog. by rewrite length_map. Qed.

(** [byValue] finds the entry [lookupEntry] finds. *)
Lemma lookup_byValue (e : Engine) (v : bytes) :
  engine_log e ->
  lookupEntry (absLog e) v =
    i ← byValue e !! v; zget (entries e) i.
Proof.
  intros Hinv. unfold lookupEntry. rewrite entriesOf_abs by done.
  destruct (byValue e !! v) as [i|] eqn:Hv; cbn [mbind option_bind].
  - destruct (proj1 (log_index _ _ Hinv v i) Hv) as (entry & Hi & Hval). rewrite Hi.
    destruct (List.find _ _) as [entry'|] eqn:Hf.
    + apply find_some in Hf as [Hin Hval'%bool_decide_eq_true].
      apply list_elem_of_In, list_elem_of_lookup in Hin as [j Hj].
      assert (zget (entries e) (Z.of_nat j) = Some entry') as Hz
        by (rewrite zget_lookup, Nat2Z.id by lia; done).
      assert (i = Z.of_nat j) as -> by (apply (log_values_unique _ _ i (Z.of_nat j) _ _ Hinv Hi Hz); congruence).
      congruence.
    + exfalso. pose proof (zget_Some_range _ _ _ Hi). rewrite zget_lookup in Hi by lia.
      apply list_elem_of_lookup_2, list_elem_of_In in Hi.
      apply (find_none _ _ Hf) in Hi. cbv beta in Hi. by apply bool_decide_eq_false in Hi.
  - destruct (List.find _ _) as [entry'|] eqn:Hf; [|done]. exfalso.
    apply find_some in Hf as [Hin Hval'%bool_decide_eq_true].
    apply list_elem_of_In, list_elem_of_lookup in Hin as [j Hj].
    assert (byValue e !! v = Some (Z.of_nat j)) as Hs; [|congruence].
    apply (log_index _ _ Hinv). exists entry'. by rewrite zget_lookup, Nat2Z.id by lia.
Qed.

(** ** Appending *)

Lemma lookup_entry (e : Engine) (v : bytes) (i : Z) :
  engine_log e -> byValue e !! v = Some i ->
  exists entry, zget (entries e) i = Some entry /\ index (entries e) i = Ok entry /\
    lookupEntry (absLog e) v = Some entry.
Proof.
  intros Hinv Hv. destruct (proj1 (log_index _ _ Hinv v i) Hv) as (entry & Hi & _).
  exists entry. rewrite (lookup_byValue e v Hinv), Hv. by rewrite index_Ok.
Qed.

Lemma log_inv_snoc (es : list Entry) (m : gmap bytes Z) (entry : Entry) :
  log_inv es m -> entry_ok (zlen es) entry -> m !! entry_Value entry = None ->
  log_inv (es ++ [entry]) (<[entry_Value entry := zlen es]> m).
Proof.
  intros Hinv Hok Hnone. split.
  - intros i x [Hx|[Hge Hx]]%zget_app_cases; [by apply (log_entries _ _ Hinv)|].
    apply zget_singleton in Hx as [Hi ->]. by replace i with (zlen es) by lia.
  - intros v i. destruct (decide (v = entry_Value entry)) as [->|Hne].
    + rewrite lookup_insert_eq. split.
      * intros [= <-]. exists entry. by rewrite zget_snoc.
      * intros (x & [Hx|[Hge Hx]]%zget_app_cases & Hval).
        { assert (m !! entry_Value entry = Some i) as Hs by (apply (log_index _ _ Hinv); eauto).
          congruence. }
        apply zget_singleton in Hx as [Hi _]. f_equal. lia.
    + rewrite lookup_insert_ne by done. rewrite (log_index _ _ Hinv). split.
      * intros (x & Hx & Hval). exists x. rewrite zget_app_cases. tauto.
      * intros (x & [Hx|[Hge Hx]]%zget_app_cases & Hval); [by exists x|].
        apply zget_singleton in Hx as [_ ->]. congruence.
Qed.

Lemma zlen_snoc {A} (l : list A) (a : A) : zlen (l ++ [a]) = zlen l + 1.
Proof. by rewrite zlen_app. Qed.

Lemma Append_refine (e : Engine) (input : AppendInput) :
  engine_log e ->
  engine_log (fst (Append e input)) /\ state (fst (Append e input)) = state e /\
  (absLog (fst (Append e input)), snd (Append e input)) = specAppend (absLog e) input.
Proof.
  intros Hinv. unfold Append, specAppend.
  destruct (_ || _) eqn:Hbad; [done|].
  apply orb_false_iff in Hbad as [Hw%negb_false_iff%Z.eqb_eq Ht].
  destruct (byValue e !! input_Value input) as [i|] eqn:Hv.
  - destruct (lookup_entry e _ i Hinv Hv) as (entry & Hi & Hidx & ->). cbn [fst snd].
    rewrite Hidx. cbn [mbind result_bind]. by rewrite CloneEntry_id.
  - rewrite (lookup_byValue e _ Hinv), Hv, absLog_length. cbn [mbind option_bind].
    destruct (Z.ltb_spec MaxPortableInteger (zlen (entries e) + 1)) as [Hgt|Hle].
    + rewrite (proj2 (Z.ltb_ge _ _)) by lia. done.
    + rewrite (proj2 (Z.ltb_lt _ _)) by lia. cbn [fst snd state]. rewrite zlen_snoc, CloneEntry_id.
      replace (zlen (entries e) + 1 - 1) with (zlen (entries e)) by lia. split_and!; [|done|].
      * apply (log_inv_snoc _ _ (MkEntry _ (input_Value input) _) Hinv); [|done].
        split; cbn; [done|lia|done|]. by rewrite badTime_normalize.
      * unfold absLog. cbn [entries]. by rewrite map_app.
Qed.

Lemma GetEntry_refine (e : Engine) (v : bytes) :
  engine_log e -> GetEntry e v = specGet (absLog e) v.
Proof.
  intros Hinv. unfold GetEntry, specGet. destruct (zlen v =? EntryBytes); [|done]. cbn [negb].
  destruct (byValue e !! v) as [i|] eqn:Hv.
  - destruct (lookup_entry e _ i Hinv Hv) as (entry & Hi & Hidx & ->).
    rewrite Hidx. cbn [mbind result_bind]. by rewrite CloneEntry_id.
  - by rewrite (lookup_byValue e _ Hinv), Hv.
Qed.

(** ** Scanning *)

Lemma entriesFrom_length (i : Z) (l : log) : length (entriesFrom i l) = length l.
Proof. revert i. induction l as [|p l IH]; intros i; simpl; [done|]. by rewrite IH. Qed.

Lemma filter_window (i a b : Z) (l : log) :
  List.filter (fun entry => (a <? entry_Seq entry) && (entry_Seq entry <=? b)) (entriesFrom i l) =
  take (Z.to_nat (b - Z.max a i)) (drop (Z.to_nat (a - i)) (entriesFrom i l)).
Proof.
  revert i. induction l as [|p l IH]; intros i; cbn [entriesFrom List.filter]; [by rewrite drop_nil, take_nil|].
  rewrite IH. unfold entryAt at 1 2. cbn [entry_Seq].
  destruct (Z.ltb_spec a (i + 1)) as [Ha|Ha]; cbn [andb].
  - replace (Z.to_nat (a - i)) with 0%nat by lia. replace (Z.to_nat (a - (i + 1))) with 0%nat by lia.
    rewrite !Z.max_r by lia. destruct (Z.leb_spec (i + 1) b).
    + replace (Z.to_nat (b - i)) with (S (Z.to_nat (b - (i + 1)))) by lia. done.
    + replace (Z.to_nat (b - i)) with 0%nat by lia. by replace (Z.to_nat (b - (i + 1))) with 0%nat by lia.
  - replace (Z.to_nat (a - i)) with (S (Z.to_nat (a - (i + 1)))) by lia. rewrite !Z.max_l by lia. done.
Qed.

(** Clamping both ends to the length of the list changes nothing. *)
Lemma subslice_clamp {A} (l : list A) (a n : Z) :
  0 <= a -> 0 <= n ->
  let start := if zlen l <? a then zlen l else a in
  let stop := if zlen l <? start + n then zlen l else start + n in
  subslice l start stop = take (Z.to_nat n) (drop (Z.to_nat a) l).
Proof.
  cbv zeta. intros Ha Hn. unfold subslice, zlen.
  destruct (Z.ltb_spec (Z.of_nat (length l)) a).
  - rewrite (drop_ge l (Z.to_nat a)), drop_ge by lia. by rewrite !take_nil.
  - destruct (Z.ltb_spec (Z.of_nat (length l)) (a + n)).
    + rewrite !take_ge; [done| |]; rewrite length_drop; lia.
    + do 2 f_equal. lia.
Qed.

Lemma ScanEntries_refine (e : Engine) (afterSeq limit : Z) :
  engine_log e -> 0 <= afterSeq -> ScanEntries e afterSeq limit = specScan (absLog e) afterSeq limit.
Proof.
  intros Hinv Ha. unfold ScanEntries, specScan.
  destruct (Z.ltb_spec MaxPortableInteger afterSeq) as [Hgt|Hle].
  { by rewrite (proj2 (Z.leb_gt _ _)) by lia. }
  destruct (Z.ltb_spec limit 1) as [Hlt|Hl1].
  { by rewrite (proj2 (Z.leb_gt 1 limit)), andb_false_r by lia. }
  destruct (Z.ltb_spec MaxScanLimit limit) as [Hgt|Hl2].
  { by rewrite (proj2 (Z.leb_gt limit MaxScanLimit)), andb_false_r by lia. }
  rewrite !(proj2 (Z.leb_le _ _)) by lia. cbn [orb andb]. f_equal.
  unfold entriesOf. rewrite filter_window. fold (entriesOf (absLog e)). rewrite entriesOf_abs by done.
  rewrite cloneEntries_id.
  replace (afterSeq + limit - Z.max afterSeq 0) with limit by lia. rewrite Z.sub_0_r.
  rewrite <- subslice_clamp by lia. cbv zeta. unfold MaxPortableInteger, MaxScanLimit in *.
  rewrite u64_add_small; [done|]. pose proof (zlen_nonneg (entries e)).
  unfold two64. destruct (Z.ltb_spec (zlen (entries e)) afterSeq); lia.
Qed.

(** ** Paging *)

(** A reader that asks for the entries after the last one it has seen until a
    page is empty, as the checkpoint runner does. *)
Fixpoint scanPages (fuel : nat) (e : Engine) (afterSeq limit : Z) : result (list Entry) :=
  match fuel with
  | O => Err (ErrText "out of fuel")
  | S fuel' =>
      page ← ScanEntries e afterSeq limit;
      match page with
      | [] => Ok []
      | _ => rest ← scanPages fuel' e (afterSeq + zlen page) limit; Ok (page ++ rest)
      end
  end.

Lemma ScanEntries_window (e : Engine) (afterSeq limit : Z) :
  engine_log e -> 0 <= afterSeq <= MaxPortableInteger -> 1 <= limit <= MaxScanLimit ->
  ScanEntries e afterSeq limit = Ok (take (Z.to_nat limit) (drop (Z.to_nat afterSeq) (entries e))).
Proof.
  intros Hinv Ha Hl. rewrite ScanEntries_refine by (done || lia). unfold specScan.
  rewrite !(proj2 (Z.leb_le _ _)) by lia. cbn [andb]. unfold entriesOf. rewrite filter_window.
  fold (entriesOf (absLog e)). rewrite entriesOf_abs by done.
  replace (afterSeq + limit - Z.max afterSeq 0) with limit by lia. by rewrite Z.sub_0_r.
Qed.

Lemma log_length_bound (e : Engine) : engine_log e -> zlen (entries e) <= MaxPortableInteger.
Proof.
  intros Hinv. destruct (decide (zlen (entries e) = 0)) as [->|Hne]; [done|].
  pose proof (zlen_nonneg (entries e)).
  assert (0 <= zlen (entries e) - 1 < zlen (entries e)) as Hr by lia.
  destruct (zget_in_range _ _ Hr) as [entry Hi].
  destruct (log_entries _ _ Hinv _ _ Hi) as [Hseq Hmax _ _]. lia.
Qed.

Lemma scanPages_from (fuel : nat) (e : Engine) (afterSeq limit : Z) :
  engine_log e -> 1 <= limit <= MaxScanLimit -> 0 <= afterSeq <= zlen (entries e) ->
  zlen (entries e) - afterSeq < Z.of_nat fuel ->
  scanPages fuel e afterSeq limit = Ok (drop (Z.to_nat afterSeq) (entries e)).
Proof.
  intros Hinv Hl. pose proof (log_length_bound e Hinv) as Hb. revert afterSeq.
  induction fuel as [|fuel IH]; intros a Ha Hfuel; [lia|]. cbn [scanPages].
  rewrite ScanEntries_window by (done || lia). cbn [mbind result_bind].
  destruct (take _ _) as [|x page] eqn:Hp.
  - assert (length (take (Z.to_nat limit) (drop (Z.to_nat a) (entries e))) = 0%nat) as Hz by by rewrite Hp.
    rewrite length_take, length_drop in Hz. rewrite drop_ge by lia. done.
  - rewrite <- Hp. set (pg := take _ _) in *.
    assert (zlen pg = Z.min limit (zlen (entries e) - a)) as Hlen.
    { unfold pg, zlen. rewrite length_take, length_drop. unfold zlen in Ha. lia. }
    assert (0 < zlen pg) by (rewrite Hp, zlen_cons; pose proof (zlen_nonneg page); lia).
    rewrite IH by lia. cbn [mbind result_bind]. f_equal.
    rewrite <- (take_drop (Z.to_nat limit) (drop (Z.to_nat a) (entries e))) at 1. fold pg. f_equal.
    rewrite drop_drop. destruct (Z.le_gt_cases limit (zlen (entries e) - a)).
    + f_equal. lia.
    + unfold zlen in *. rewrite !drop_ge by lia. done.
Qed.

(** ** Rolling back *)

Lemma delete_values (more : list Entry) (m : gmap bytes Z) (v : bytes) :
  fold_left (fun m entry => delete (entry_Value entry) m) more m !! v =
  if decide (v ∈ map entry_Value more) then None else m !! v.
Proof.
  revert m. induction more as [|x more IH]; intros m; cbn [fold_left map].
  - rewrite decide_False; [done|apply not_elem_of_nil].
  - rewrite IH. destruct (decide (v ∈ map entry_Value more)) as [Hin|Hnin].
    + rewrite decide_True; [done|]. by right.
    + destruct (decide (v = entry_Value x)) as [->|Hne].
      * rewrite lookup_delete_eq, decide_True; [done|]. apply list_elem_of_here.
      * rewrite lookup_delete_ne, decide_False; [done| |congruence].
        rewrite elem_of_cons. tauto.
Qed.

Lemma Restore_exact (e e' : Engine) (more : list Entry) :
  engine_log e -> engine_log e' -> entries e' = entries e ++ more ->
  Restore e' (takeSnapshot e) = (e, Ok tt).
Proof.
  intros Hinv Hinv' Hmore. unfold Restore, takeSnapshot. cbn [snap_entryCount snap_state].
  rewrite Hmore, zlen_app. pose proof (zlen_nonneg more). rewrite (proj2 (Z.ltb_ge _ _)) by lia.
  unfold zlen at 1 2. rewrite Nat2Z.id, take_app_length, drop_app_length.
  f_equal. destruct e as [es m s]. cbn [entries byValue state] in *. f_equal.
  apply map_eq. intros v. rewrite delete_values.
  unfold engine_log in *. rewrite Hmore in Hinv'. cbn [entries byValue] in *.
  apply option_eq. intros i. rewrite (log_index _ _ Hinv).
  destruct (decide (v ∈ map entry_Value more)) as [Hin|Hnin].
  - split; [done|]. intros (x & Hx & Hval). exfalso.
    apply list_elem_of_fmap in Hin as (y & Hy & Hin). apply list_elem_of_lookup in Hin as [j Hj].
    assert (zget (es ++ more) (zlen es + Z.of_nat j) = Some y) as Hz.
    { rewrite zget_app_r by lia. rewrite zget_lookup by lia.
      by replace (Z.to_nat (zlen es + Z.of_nat j - zlen es)) with j by lia. }
    pose proof (zget_Some_range _ _ _ Hx).
    assert (zget (es ++ more) i = Some x) as Hx' by (rewrite zget_app_l by lia; done).
    pose proof (log_values_unique _ _ _ _ _ _ Hinv' Hx' Hz ltac:(congruence)). lia.
  - rewrite (log_index _ _ Hinv'). split.
    + intros (x & [Hx|[_ Hx]]%zget_app_cases & Hval); [by exists x|]. exfalso. apply Hnin.
      pose proof (zget_Some_range _ _ _ Hx). rewrite zget_lookup in Hx by lia.
      rewrite <- Hval. apply list_elem_of_fmap_2. by eapply list_elem_of_lookup_2.
    + intros (x & Hx & Hval). exists x. rewrite zget_app_cases. tauto.
Qed.

(** ** Loading stored entries *)

Lemma zget_cons_succ {A} (x : A) (l : list A) (j : Z) : 0 <= j -> zget (x :: l) (j + 1) = zget l j.
Proof.
  intros Hj. rewrite !zget_lookup by lia. by replace (Z.to_nat (j + 1)) with (S (Z.to_nat j)) by lia.
Qed.

Lemma zget_cons_inv {A} (x a : A) (l : list A) (i : Z) :
  zget (x :: l) i = Some a -> (i = 0 /\ a = x) \/ (0 < i /\ zget l (i - 1) = Some a).
Proof.
  intros H. pose proof (zget_Some_range _ _ _ H).
  destruct (Z.eq_dec i 0) as [->|Hne]; [left; by injection H|right].
  split; [lia|]. rewrite <- (zget_cons_succ x) by lia. by replace (i - 1 + 1) with i by lia.
Qed.

Lemma entry_check (i : Z) (entry : Entry) :
  (negb (entry_Seq entry =? i + 1) || (MaxPortableInteger <? entry_Seq entry) ||
   negb (zlen (entry_Value entry) =? EntryBytes) || badTime (entry_AppendedAt entry)) = false <->
  entry_ok i entry.
Proof.
  rewrite !orb_false_iff, !negb_false_iff, !Z.eqb_eq, Z.ltb_ge.
  split; [intros [[[]]]; by split|intros []; tauto].
Qed.

Lemma validateEntries_ok (rest : list Entry) (i : Z) (seen : gset bytes) :
  validateEntries rest i seen = Ok tt <->
  (forall j entry, zget rest j = Some entry -> entry_ok (i + j) entry) /\
  NoDup (map entry_Value rest) /\ (forall v, v ∈ map entry_Value rest -> v ∉ seen).
Proof.
  revert i seen. induction rest as [|x rest IH]; intros i seen; cbn [validateEntries map].
  - split; [|done]. intros _. split_and!; [|constructor|].
    + intros j y Hj. by rewrite zget_nil in Hj.
    + intros v Hv. by apply elem_of_nil in Hv.
  - destruct (_ || _) eqn:Hc.
    { split; [done|]. intros (Hok & _). specialize (Hok 0 x eq_refl). rewrite Z.add_0_r in Hok.
      apply entry_check in Hok. congruence. }
    apply entry_check in Hc. case_bool_decide as Hseen.
    { split; [done|]. intros (_ & _ & Hs). destruct (Hs (entry_Value x)); [left|done]. }
    rewrite IH, NoDup_cons. split.
    + intros (Hok & Hnd & Hs). split_and!; [| |done|].
      * intros j y [[-> ->]|[Hj Hy]]%zget_cons_inv; [by rewrite Z.add_0_r|].
        replace (i + j) with (i + 1 + (j - 1)) by lia. by apply Hok.
      * intros Hin. apply (Hs _ Hin). set_solver.
      * intros v [->|Hv]%elem_of_cons; [done|]. specialize (Hs v Hv). set_solver.
    + intros (Hok & [Hni Hnd] & Hs). split_and!; [|done|].
      * intros j y Hy. replace (i + 1 + j) with (i + (j + 1)) by lia. apply Hok.
        pose proof (zget_Some_range _ _ _ Hy). by rewrite zget_cons_succ by lia.
      * intros v Hv. assert (v ∉ seen) by (apply Hs; by right).
        assert (v <> entry_Value x) by congruence. set_solver.
Qed.

Lemma indexEntries_lookup (rest : list Entry) (i k : Z) (m : gmap bytes Z) (v : bytes) :
  NoDup (map entry_Value rest) ->
  indexEntries rest i m !! v = Some k <->
  (exists entry, zget rest (k - i) = Some entry /\ entry_Value entry = v) \/
  ((v ∉ map entry_Value rest) /\ m !! v = Some k).
Proof.
  revert i m. induction rest as [|x rest IH]; intros i m; cbn [indexEntries map].
  - intros _. split; [intros H; right; split; [apply not_elem_of_nil|done]|].
    intros [(y & Hy & _)|[_ H]]; [by rewrite zget_nil in Hy|done].
  - intros [Hni Hnd]%NoDup_cons. rewrite (IH (i + 1) _ Hnd). split.
    + intros [(y & Hy & Hv)|[Hv Hk]].
      * left. exists y. pose proof (zget_Some_range _ _ _ Hy).
        replace (k - i) with (k - (i + 1) + 1) by lia. by rewrite zget_cons_succ by lia.
      * destruct (decide (v = entry_Value x)) as [->|Hne].
        { rewrite lookup_insert_eq in Hk. injection Hk as ->. left. exists x. by rewrite Z.sub_diag. }
        rewrite lookup_insert_ne in Hk by done. right. split; [|done].
        rewrite elem_of_cons. tauto.
    + intros [(y & [[Hki ->]|[Hki Hy]]%zget_cons_inv & Hv)|[Hv Hk]].
      * right. split; [congruence|]. rewrite <- Hv, lookup_insert_eq. f_equal. lia.
      * left. exists y. by replace (k - (i + 1)) with (k - i - 1) by lia.
      * right. split; [by intros ?; apply Hv; right|]. rewrite lookup_insert_ne; [done|].
        intros Heq. apply Hv. rewrite Heq. by left.
Qed.

Lemma indexEntries_inv (es : list Entry) :
  validateEntries es 0 ∅ = Ok tt -> log_inv es (indexEntries es 0 ∅).
Proof.
  intros (Hok & Hnd & _)%validateEntries_ok. split; [exact Hok|].
  intros v i. rewrite indexEntries_lookup by done. rewrite Z.sub_0_r, lookup_empty. naive_solver.
Qed.

Lemma New_log : engine_log New.
Proof.
  unfold engine_log, New. cbn [entries byValue]. split.
  - intros i entry Hi. by rewrite zget_nil in Hi.
  - intros v i. rewrite lookup_empty. split; [done|]. intros (x & Hx & _). by rewrite zget_nil in Hx.
Qed.

(** ** Claims *)

(** C9: on an engine whose index is consistent with its dense entries, [Append],
    [GetEntry] and [ScanEntries] are exactly the operations of the abstract log
    of identities, with every error, and [Append] keeps the engine consistent
    and does not touch the CLL state. *)
Theorem engine_refines_log (e : Engine) (input : AppendInput) (v : bytes) (afterSeq limit : Z) :
  engine_log e -> 0 <= afterSeq ->
  GetEntry e v = specGet (absLog e) v /\
  ScanEntries e afterSeq limit = specScan (absLog e) afterSeq limit /\
  (absLog (fst (Append e input)), snd (Append e input)) = specAppend (absLog e) input /\
  engine_log (fst (Append e input)) /\ state (fst (Append e input)) = state e.
Proof.
  intros Hinv Ha. destruct (Append_refine e input Hinv) as (? & ? & ?).
  split_and!; [by apply GetEntry_refine|by apply ScanEntries_refine|done..].
Qed.

(** Reading page after page, from the position after the last entry seen,
    returns every entry of the log exactly once and in order, for every page
    limit the engine accepts. *)
Lemma scan_pages_enumerate_log (e : Engine) (limit : Z) (fuel : nat) :
  engine_log e -> 1 <= limit <= MaxScanLimit -> zlen (entries e) < Z.of_nat fuel ->
  scanPages fuel e 0 limit = Ok (entries e).
Proof.
  intros Hinv Hl Hfuel. pose proof (zlen_nonneg (entries e)).
  rewrite scanPages_from by (done || lia). done.
Qed.

(** Refused entries are corrupt. *)
Lemma validateEntries_corrupt (es : list Entry) (i : Z) (seen : gset bytes) (err : error) :
  validateEntries es i seen = Err err -> err = ErrCorrupt.
Proof.
  revert i seen. induction es as [|x es IH]; intros i seen; [done|]. cbn [validateEntries].
  destruct (_ || _); [by intros [= <-]|]. case_bool_decide; [by intros [= <-]|]. apply IH.
Qed.

(** ** Witnesses *)

Definition sampleInput (b : byte) : AppendInput := MkAppendInput (replicate 32 b) 1700000000123456789.

(** The engine after appending two identities and one of them again. *)
Definition sampleEngine : Engine :=
  fst (Append (fst (Append (fst (Append New (sampleInput Byte.x01))) (sampleInput Byte.x02)))
         (sampleInput Byte.x01)).

Lemma sampleEngine_log : engine_log sampleEngine.
Proof. unfold sampleEngine. do 3 apply Append_refine. apply New_log. Qed.

Lemma engine_refines_log_witness :
  GetEntry sampleEngine (replicate 32 Byte.x02) = specGet (absLog sampleEngine) (replicate 32 Byte.x02) /\
  ScanEntries sampleEngine 1 100 = specScan (absLog sampleEngine) 1 100 /\
  (absLog (fst (Append sampleEngine (sampleInput Byte.x03))),
   snd (Append sampleEngine (sampleInput Byte.x03))) = specAppend (absLog sampleEngine) (sampleInput Byte.x03) /\
  engine_log (fst (Append sampleEngine (sampleInput Byte.x03))) /\
  state (fst (Append sampleEngine (sampleInput Byte.x03))) = state sampleEngine.
Proof. apply engine_refines_log; [apply sampleEngine_log|lia]. Defined.

End EngineLog.
