(* ===== verification/EngineState.v ===== *)
(** * The CLL state of the engine

    Validity of a [State], the transitions [ApplyCLL] accepts, and the
    equivalence of a delta commit with the full commit it abbreviates. *)

From S2P Require Import Prelude Hex DtMmr DtMmrRef Mmr Cll Portable Engine EngineLog.
Import Cll Portable Engine EngineLog.

Module EngineState.

Local Open Scope Z_scope.

(** ** Valid witness rows *)

Definition witness_ok (w : WitnessState) : Prop := validateWitness w ErrInvalid = Ok tt.

#[global] Instance witness_ok_dec (w : WitnessState) : Decision (witness_ok w).
Proof. unfold witness_ok. apply _. Defined.

(** The class of the error is the only thing the class argument decides. *)
Lemma validateWitness_cases (w : WitnessState) (class : error) :
  (witness_ok w /\ validateWitness w class = Ok tt) \/
  (~ witness_ok w /\ validateWitness w class = Err class).
Proof.
  unfold witness_ok, validateWitness. destruct (_ || _); [by right|].
  destruct (wit_Receipt w) as [r|]; [|by left].
  destruct (_ || _); [by right|]. destruct (_ && _); [by right|]. destruct (_ && _); [by right|].
  destruct (_ || _); [by right|by left].
Qed.

Lemma validateWitnesses_cases (ws : list WitnessState) (seen : gset string) (class : error) :
  (validateWitnesses ws seen class = Ok tt \/ validateWitnesses ws seen class = Err class) /\
  (validateWitnesses ws seen class = Ok tt <->
   Forall witness_ok ws /\ NoDup (map keyOf ws) /\ forall k, k ∈ map keyOf ws -> k ∉ seen).
Proof.
  revert seen. induction ws as [|w ws IH]; intros seen; cbn [validateWitnesses map].
  - split; [by left|]. split; [|done]. intros _. split_and!; [constructor|constructor|].
    intros k Hk. by apply elem_of_nil in Hk.
  - destruct (validateWitness_cases w class) as [[Hok ->]|[Hbad ->]]; cbn [mbind result_bind].
    2: { split; [by right|]. split; [done|]. by intros [[? _]%Forall_cons _]. }
    case_bool_decide as Hseen.
    { split; [by right|]. split; [done|]. intros (_ & _ & Hs). destruct (Hs (keyOf w)); [left|done]. }
    destruct (IH ({[keyOf w]} ∪ seen)) as [Hcases Hiff]. split; [done|].
    rewrite Hiff, Forall_cons, NoDup_cons. split.
    + intros (Hws & Hnd & Hs). split_and!; [done|done| |done|].
      * intros Hin. apply (Hs _ Hin). set_solver.
      * intros k [->|Hk]%elem_of_cons; [done|]. specialize (Hs k Hk). set_solver.
    + intros ([_ Hws] & [Hni Hnd] & Hs). split_and!; [done|done|].
      intros k Hk. assert (k ∉ seen) by (apply Hs; by right).
      assert (k <> keyOf w) by congruence. set_solver.
Qed.

(** ** Valid states *)

Definition checkpoint_ok (s : State) (c : CheckpointState) : Prop :=
  1 <= zlen (cpt_Bytes c) <= MaxCheckpointBytes /\ cpt_Size c <> 0 /\ cpt_Size c <= st_Size s /\
  cpt_IndexedSeq c <= st_IndexedSeq s /\ Forall (fun p => zlen p = EntryBytes) (cpt_Peaks c).

Definition pending_ok (p : option Z) : Prop :=
  match p with Some t => badTime t = false | None => True end.

Lemma existsb_badNode (l : list bytes) :
  existsb badNode l = false <-> Forall (fun p => zlen p = EntryBytes) l.
Proof.
  induction l as [|v l IH]; cbn [existsb]; [done|].
  rewrite orb_false_iff, IH, Forall_cons. unfold badNode. by rewrite negb_false_iff, Z.eqb_eq.
Qed.

Lemma validateCheckpoint_cases (s : State) (c : CheckpointState) (class : error) :
  (validateCheckpoint s c class = Ok tt \/ validateCheckpoint s c class = Err class) /\
  (validateCheckpoint s c class = Ok tt <-> checkpoint_ok s c).
Proof.
  unfold validateCheckpoint, checkpoint_ok. rewrite <- existsb_badNode.
  destruct (_ || _) eqn:Hg; rewrite ?orb_false_iff in Hg.
  - split; [by right|]. split; [done|]. intros (H1 & H2 & H3 & H4 & _). exfalso. revert Hg.
    rewrite !(proj2 (Z.ltb_ge _ _)), (proj2 (Z.eqb_neq _ _)) by lia. done.
  - rewrite !Z.ltb_ge, Z.eqb_neq in Hg. destruct (existsb _ _).
    + split; [by right|]. split; [done|]. by intros (_ & _ & _ & _ & ?).
    + split; [by left|]. split; [intros _|done]. split_and!; try done; lia.
Qed.

Section State.
Context `{DT : DtMmr}.

Record state_wf (s : State) : Prop := {
  wf_size : st_Size s = zlen (st_Nodes s);
  wf_leaves : Mmr.LeafCount (st_Size s) = (st_IndexedSeq s, true);
  wf_pending : pending_ok (st_FirstPendingAt s);
  wf_checkpoint : forall c, st_Checkpoint s = Some c -> checkpoint_ok s c;
  wf_nodes : Forall (fun n => zlen n = EntryBytes) (st_Nodes s);
  wf_rows : Forall witness_ok (st_Witnesses s);
  wf_keys : NoDup (map keyOf (st_Witnesses s))
}.

(** The metadata part, for a claimed node count. *)
Definition metadata_ok (s : State) (nodeCount : Z) : Prop :=
  st_Size s = nodeCount /\ Mmr.LeafCount (st_Size s) = (st_IndexedSeq s, true) /\
  pending_ok (st_FirstPendingAt s) /\ (forall c, st_Checkpoint s = Some c -> checkpoint_ok s c) /\
  Forall witness_ok (st_Witnesses s) /\ NoDup (map keyOf (st_Witnesses s)).

Lemma validateStateMetadata_cases (s : State) (nodeCount : Z) (class : error) :
  (validateStateMetadata s nodeCount class = Ok tt \/
   validateStateMetadata s nodeCount class = Err class) /\
  (validateStateMetadata s nodeCount class = Ok tt <-> metadata_ok s nodeCount).
Proof.
  unfold validateStateMetadata, metadata_ok.
  destruct (Z.eqb_spec (st_Size s) nodeCount) as [Heq|Hne]; cbn [negb].
  2: { split; [by right|]. split; [done|]. by intros [? _]. }
  destruct (Mmr.LeafCount (st_Size s)) as [leaves complete].
  destruct (_ || _) eqn:Hl.
  { split; [by right|]. split; [done|]. intros (_ & [= -> ->] & _). by rewrite Z.eqb_refl in Hl. }
  apply orb_false_iff in Hl as [->%negb_false_iff ->%negb_false_iff%Z.eqb_eq].
  destruct (match st_FirstPendingAt s with Some t => badTime t | None => false end) eqn:Hp.
  { split; [by right|]. split; [done|]. intros (_ & _ & Hpend & _). unfold pending_ok in Hpend.
    destruct (st_FirstPendingAt s); congruence. }
  assert (pending_ok (st_FirstPendingAt s)) as Hpend by (unfold pending_ok; by destruct (st_FirstPendingAt s)).
  pose proof (validateWitnesses_cases (st_Witnesses s) ∅ class) as [Hwc Hwi].
  assert (forall k, k ∈ map keyOf (st_Witnesses s) -> k ∉ (∅ : gset string)) as Hempty by set_solver.
  destruct (st_Checkpoint s) as [c|].
  - destruct (validateCheckpoint_cases s c class) as [[Hc|Hc] Hci]; rewrite Hc in Hci |- *;
      cbn [mbind result_bind].
    + split; [done|]. rewrite Hwi. split.
      * intros (? & ? & _). split_and!; try done. intros c' [= <-]. by apply Hci.
      * intros (_ & _ & _ & _ & ? & ?). done.
    + split; [by right|]. split; [done|]. intros (_ & _ & _ & Hok & _).
      specialize (Hok c eq_refl). apply Hci in Hok. done.
  - cbn [mbind result_bind]. split; [done|]. rewrite Hwi. split; [|by intros (_ & _ & _ & _ & ? & ?)].
    intros (? & ? & _). by split_and!.
Qed.

Lemma validateState_cases (s : State) (class : error) :
  (validateState s class = Ok tt \/ validateState s class = Err class) /\
  (validateState s class = Ok tt <-> state_wf s).
Proof.
  unfold validateState. destruct (validateStateMetadata_cases s (zlen (st_Nodes s)) class) as [Hc Hi].
  destruct Hc as [Hc|Hc]; rewrite Hc in Hi |- *; cbn [mbind result_bind].
  - apply proj1 in Hi. destruct (Hi eq_refl) as (? & ? & ? & ? & ? & ?).
    destruct (existsb badNode (st_Nodes s)) eqn:Hn.
    + split; [by right|]. split; [done|]. intros Hwf. apply wf_nodes, existsb_badNode in Hwf. congruence.
    + split; [by left|]. split; [intros _|done]. apply existsb_badNode in Hn. by split.
  - split; [by right|]. split; [done|]. intros []. apply Hi. by split_and!.
Qed.

Lemma validMMRSize_bound (size : Z) : Mmr.validMMRSize size = true -> size <= two63 - 1.
Proof.
  unfold Mmr.validMMRSize. destruct (Z.eqb_spec size 0) as [->|]; [done|].
  destruct (Z.ltb_spec (two63 - 1) size); [done|]. done.
Qed.

Lemma LeafCount_bound (size leaves : Z) :
  Mmr.LeafCount size = (leaves, true) -> size <= two63 - 1.
Proof.
  unfold Mmr.LeafCount. destruct (Mmr.validMMRSize size) eqn:Hv; [|done].
  intros _. by apply validMMRSize_bound.
Qed.

(** ** Transitions *)

(** A checkpoint only advances, and is fixed at each size. *)
Definition checkpoint_le (current next : option CheckpointState) : Prop :=
  match current, next with
  | None, _ => True
  | Some _, None => False
  | Some c, Some c' =>
      cpt_Size c <= cpt_Size c' /\ cpt_IndexedSeq c <= cpt_IndexedSeq c' /\
      (cpt_Size c = cpt_Size c' -> c = c')
  end.

(** The rows of [next] whose key is new. *)
Definition newRows (current next : list WitnessState) : list WitnessState :=
  List.filter (fun w => negb (bool_decide (keyOf w ∈ map keyOf current))) next.

(** Rows of an existing key carry the checkpoint they were created with. *)
Definition rows_agree (current next : list WitnessState) : Prop :=
  forall w w', w ∈ current -> w' ∈ next -> keyOf w = keyOf w' -> wit_Checkpoint w = wit_Checkpoint w'.

Lemma prefixEqual_iff (l k : list bytes) : prefixEqual l k = true <-> l `prefix_of` k.
Proof.
  revert k. induction l as [|x l IH]; intros k; cbn [prefixEqual].
  - split; [intros _; apply prefix_nil|done].
  - destruct k as [|y k].
    + split; [done|]. by intros ?%prefix_nil_not.
    + rewrite andb_true_iff, IH. unfold bytesEqual. rewrite bool_decide_eq_true. split.
      * intros [-> ?]. by apply prefix_cons.
      * intros H. split; [by eapply prefix_cons_inv_1|by eapply prefix_cons_inv_2].
Qed.

Lemma listEqual_iff (l k : list bytes) : listEqual l k = true <-> l = k.
Proof.
  unfold listEqual. rewrite andb_true_iff, Z.eqb_eq, prefixEqual_iff. unfold zlen. split.
  - intros [Hlen Hp]. apply prefix_length_eq; [done|lia].
  - by intros ->.
Qed.

Lemma checkpointTransition_cases (current next : option CheckpointState) :
  (checkpoint_le current next /\ checkpointTransition current next = Ok tt) \/
  (~ checkpoint_le current next /\ checkpointTransition current next = Err ErrContention).
Proof.
  unfold checkpointTransition, checkpoint_le.
  destruct current as [c|]; [|by left]. destruct next as [c'|]; [|by right; split; [tauto|]].
  destruct (_ || _) eqn:Hlt.
  { right. split; [|done]. intros (? & ? & _). rewrite !(proj2 (Z.ltb_ge _ _)) in Hlt by lia. done. }
  apply orb_false_iff in Hlt as [Hs%Z.ltb_ge Hi%Z.ltb_ge].
  destruct (Z.eqb_spec (cpt_Size c') (cpt_Size c)) as [Heq|Hne]; cbn [andb].
  2: { left. split; [|done]. split_and!; [done|done|lia]. }
  destruct (_ || _) eqn:Hd.
  - right. split; [|done]. intros (_ & _ & Hsame). rewrite <- (Hsame (eq_sym Heq)) in Hd.
    unfold bytesEqual in Hd. rewrite bool_decide_true, Z.eqb_refl, (proj2 (listEqual_iff _ _)) in Hd by done.
    done.
  - left. split; [|done]. split_and!; [done|done|intros _].
    rewrite !orb_false_iff, !negb_false_iff in Hd.
    destruct Hd as [[Hb%bool_decide_eq_true Hx%Z.eqb_eq] Hp%listEqual_iff].
    destruct c, c'. cbn in *. congruence.
Qed.

Lemma existingRows_from (ws : list WitnessState) (m : gmap string WitnessState) (k : string)
    (w : WitnessState) :
  NoDup (map keyOf ws) ->
  fold_left (fun existing witness => <[keyOf witness := witness]> existing) ws m !! k = Some w <->
  (w ∈ ws /\ keyOf w = k) \/ ((k ∉ map keyOf ws) /\ m !! k = Some w).
Proof.
  revert m. induction ws as [|x ws IH]; intros m; cbn [fold_left map].
  - intros _. split; [intros H; right; split; [apply not_elem_of_nil|done]|].
    intros [[H _]|[_ H]]; [by apply elem_of_nil in H|done].
  - intros [Hni Hnd]%NoDup_cons. rewrite (IH _ Hnd). rewrite !elem_of_cons.
    destruct (decide (k = keyOf x)) as [->|Hne].
    + rewrite lookup_insert_eq. split.
      * intros [[Hin Hk]|[_ [= <-]]]; [|by left; split; [left|]].
        destruct Hni. rewrite <- Hk. by apply list_elem_of_fmap_2.
      * intros [[[->|Hin] Hk]|[Hk _]]; [by right|by left|tauto].
    + rewrite lookup_insert_ne by done. split.
      * intros [[Hin Hk]|[Hk Hm]]; [left; split; [by right|done]|right; tauto].
      * intros [[[->|Hin] Hk]|[Hk Hm]]; [congruence|by left|right; tauto].
Qed.

Lemma existingRows_lookup (ws : list WitnessState) (k : string) (w : WitnessState) :
  NoDup (map keyOf ws) -> existingRows ws !! k = Some w <-> w ∈ ws /\ keyOf w = k.
Proof.
  intros Hnd. unfold existingRows. rewrite existingRows_from by done. rewrite lookup_empty. naive_solver.
Qed.

Lemma existingRows_None (ws : list WitnessState) (k : string) :
  NoDup (map keyOf ws) -> existingRows ws !! k = None <-> k ∉ map keyOf ws.
Proof.
  intros Hnd. rewrite eq_None_not_Some. split.
  - intros Hn (w & -> & Hin)%list_elem_of_fmap. apply Hn. exists w. by apply existingRows_lookup.
  - intros Hni [w [Hin <-]%existingRows_lookup]; [|done]. apply Hni. by apply list_elem_of_fmap_2.
Qed.

Lemma rows_agree_cons (current : list WitnessState) (w : WitnessState) (ws : list WitnessState) :
  rows_agree current (w :: ws) <->
  (forall c, c ∈ current -> keyOf c = keyOf w -> wit_Checkpoint c = wit_Checkpoint w) /\
  rows_agree current ws.
Proof.
  unfold rows_agree. split.
  - intros H. split; [intros c Hc Hk; apply H; [done|left|done]|].
    intros c w' Hc Hw' Hk. apply H; [done|by right|done].
  - intros [H1 H2] c w' Hc [->|Hw']%elem_of_cons Hk; [by apply H1|by apply H2].
Qed.

Lemma addedWitnesses_cases (current ws : list WitnessState) (seen : gset string)
    (added : list WitnessState) :
  NoDup (map keyOf current) -> NoDup (map keyOf ws) -> (forall k, k ∈ map keyOf ws -> k ∉ seen) ->
  (rows_agree current ws /\
   addedWitnesses (existingRows current) ws seen added = Ok (added ++ newRows current ws)) \/
  (~ rows_agree current ws /\
   addedWitnesses (existingRows current) ws seen added = Err ErrContention).
Proof.
  intros Hc. revert seen added. induction ws as [|w ws IH]; intros seen added Hnd Hs.
  - left. split; [by intros ? ? ? ?%elem_of_nil|]. cbn. by rewrite app_nil_r.
  - cbn [map] in Hnd, Hs. apply NoDup_cons in Hnd as [Hni Hnd]. cbn [addedWitnesses].
    rewrite bool_decide_false by (apply Hs; left).
    assert (forall k, k ∈ map keyOf ws -> k ∉ {[keyOf w]} ∪ seen) as Hs'.
    { intros k Hk. assert (k ∉ seen) by (apply Hs; by right).
      assert (k <> keyOf w) by congruence. set_solver. }
    unfold newRows. cbn [List.filter]. rewrite rows_agree_cons.
    destruct (existingRows current !! keyOf w) as [c|] eqn:Hx.
    + apply existingRows_lookup in Hx as [Hin Hk]; [|done].
      rewrite bool_decide_true by (rewrite <- Hk; by apply list_elem_of_fmap_2). cbn [negb].
      unfold bytesEqual. case_bool_decide as Hcp; cbn [negb].
      2: { right. split; [|done]. intros [H _]. by apply Hcp, H. }
      destruct (IH _ added Hnd Hs') as [[Ha ->]|[Ha ->]]; [left|right]; (split; [|done]); [|tauto].
      split; [|done]. intros c' Hc' Hk'.
      assert (existingRows current !! keyOf w = Some c') as H1 by by apply existingRows_lookup.
      assert (existingRows current !! keyOf w = Some c) as H2 by by apply existingRows_lookup.
      congruence.
    + apply existingRows_None in Hx; [|done]. rewrite bool_decide_false by done. cbn [negb].
      rewrite CloneWitness_id.
      destruct (IH _ (added ++ [w]) Hnd Hs') as [[Ha ->]|[Ha ->]]; [left|right]; (split; [|]);
        [|by rewrite <- app_assoc|tauto|done].
      split; [|done]. intros c' Hc' Hk'. destruct Hx. rewrite <- Hk'. by apply list_elem_of_fmap_2.
Qed.

(** The order of the checks of [validateCLLTransition]. *)
Inductive transition_outcome (current next : State) : result (list WitnessState) -> Prop :=
| transition_backward :
    st_IndexedSeq next < st_IndexedSeq current -> transition_outcome current next (Err ErrInvalid)
| transition_conflict :
    st_IndexedSeq current <= st_IndexedSeq next ->
    ~ (checkpoint_le (st_Checkpoint current) (st_Checkpoint next) /\
       rows_agree (st_Witnesses current) (st_Witnesses next)) ->
    transition_outcome current next (Err ErrContention)
| transition_accept :
    st_IndexedSeq current <= st_IndexedSeq next ->
    checkpoint_le (st_Checkpoint current) (st_Checkpoint next) ->
    rows_agree (st_Witnesses current) (st_Witnesses next) ->
    transition_outcome current next (Ok (newRows (st_Witnesses current) (st_Witnesses next))).

Lemma validateCLLTransition_outcome (current next : State) :
  NoDup (map keyOf (st_Witnesses current)) -> NoDup (map keyOf (st_Witnesses next)) ->
  transition_outcome current next (validateCLLTransition current next).
Proof.
  intros Hc Hn. unfold validateCLLTransition.
  destruct (Z.ltb_spec (st_IndexedSeq next) (st_IndexedSeq current)); [by constructor|].
  destruct (checkpointTransition_cases (st_Checkpoint current) (st_Checkpoint next))
    as [[Hle ->]|[Hle ->]]; cbn [mbind result_bind]; [|by constructor; tauto].
  destruct (addedWitnesses_cases (st_Witnesses current) (st_Witnesses next) ∅ [] Hc Hn ltac:(set_solver))
    as [[Ha ->]|[Ha ->]]; constructor; tauto.
Qed.

(** ** Full commits *)

(** The compare-and-set condition. *)
Definition cas_matches (current : State) (expectedSize : Z) (expectedCheckpoint : option bytes) : Prop :=
  st_Size current = expectedSize /\ cpt_Bytes <$> st_Checkpoint current = expectedCheckpoint.

Lemma cas_check (current : State) (expectedSize : Z) (expectedCheckpoint : option bytes) :
  (negb (st_Size current =? expectedSize) ||
   negb (sameOptional (st_Checkpoint current) expectedCheckpoint)) = false <->
  cas_matches current expectedSize expectedCheckpoint.
Proof.
  unfold cas_matches, sameOptional, bytesEqual. rewrite orb_false_iff, !negb_false_iff, Z.eqb_eq.
  destruct (st_Checkpoint current), expectedCheckpoint; cbn; rewrite ?bool_decide_eq_true;
    naive_solver.
Qed.

Definition append_only (current next : State) : Prop :=
  st_Size current <= st_Size next /\ st_IndexedSeq current <= st_IndexedSeq next /\
  st_Nodes current `prefix_of` st_Nodes next.

(** The state after an accepted commit: the rows of [current] and the new ones. *)
Definition committed (current next : State) : State :=
  with_rows next (st_Nodes next)
    (st_Witnesses current ++ newRows (st_Witnesses current) (st_Witnesses next)).

Inductive commit_outcome (current : State) (expectedSize : Z) (expectedCheckpoint : option bytes)
    (next : State) : result State -> Prop :=
| commit_stale :
    ~ cas_matches current expectedSize expectedCheckpoint ->
    commit_outcome current expectedSize expectedCheckpoint next (Err ErrContention)
| commit_invalid :
    cas_matches current expectedSize expectedCheckpoint ->
    ~ (state_wf next /\ append_only current next) ->
    commit_outcome current expectedSize expectedCheckpoint next (Err ErrInvalid)
| commit_conflict :
    cas_matches current expectedSize expectedCheckpoint -> state_wf next -> append_only current next ->
    ~ (checkpoint_le (st_Checkpoint current) (st_Checkpoint next) /\
       rows_agree (st_Witnesses current) (st_Witnesses next)) ->
    commit_outcome current expectedSize expectedCheckpoint next (Err ErrContention)
| commit_accept :
    cas_matches current expectedSize expectedCheckpoint -> state_wf next -> append_only current next ->
    checkpoint_le (st_Checkpoint current) (st_Checkpoint next) ->
    rows_agree (st_Witnesses current) (st_Witnesses next) ->
    commit_outcome current expectedSize expectedCheckpoint next (Ok (committed current next)).

Lemma ApplyCLL_outcome (current : State) (expectedSize : Z) (expectedCheckpoint : option bytes)
    (next : State) :
  state_wf current ->
  commit_outcome current expectedSize expectedCheckpoint next
    (ApplyCLL current expectedSize expectedCheckpoint next).
Proof.
  intros Hwf. unfold ApplyCLL. destruct (_ || _) eqn:Hcas.
  { apply commit_stale. intros H%cas_check. congruence. }
  apply cas_check in Hcas.
  destruct (validateState_cases next ErrInvalid) as [[Hv|Hv] Hi]; rewrite Hv in Hi |- *;
    cbn [mbind result_bind].
  2: { apply commit_invalid; [done|]. intros [H%Hi _]. done. }
  apply proj1 in Hi. specialize (Hi eq_refl).
  destruct (_ || _) eqn:Happ.
  { apply commit_invalid; [done|]. intros (_ & Hs & Hx & Hp%prefixEqual_iff).
    rewrite Hp, !(proj2 (Z.ltb_ge _ _)) in Happ by done. done. }
  rewrite !orb_false_iff, negb_false_iff, prefixEqual_iff, !Z.ltb_ge in Happ.
  destruct Happ as [[Hs Hx] Hp].
  destruct (validateCLLTransition_outcome current next (wf_keys _ Hwf) (wf_keys _ Hi));
    cbn [mbind result_bind]; [lia|by apply commit_conflict|].
  rewrite cloneStateHeader_id, cloneBytesList_id, CloneWitness_map. by apply commit_accept.
Qed.

End State.

End EngineState.
