(* ===== verification/EngineHistory.v ===== *)
(** * Histories of the engine

    Every mutation keeps a valid engine valid and moves its state forward: the
    nodes grow at the end, the checkpoint never retreats or changes in place,
    and a witness row, once present, keeps its key and checkpoint.
    A delta commit is the full commit it abbreviates, and a snapshot undoes any
    history. *)

From S2P Require Import Prelude Geometry Hex DtMmr DtMmrRef Mmr Cll Portable Engine EngineLog EngineState.
Import Geometry Cll Portable Engine EngineLog EngineState.

Module EngineHistory.

Local Open Scope Z_scope.

(** ** The order of states *)

Definition row_le (w w' : WitnessState) : Prop :=
  keyOf w = keyOf w' /\ wit_Checkpoint w = wit_Checkpoint w'.

(** In any order: a relational store has its own. *)
Definition rows_le (ws ws' : list WitnessState) : Prop :=
  exists kept extra, ws' ≡ₚ kept ++ extra /\ Forall2 row_le ws kept.

Record state_le (s s' : State) : Prop := {
  le_append_only : append_only s s';
  le_checkpoint : checkpoint_le (st_Checkpoint s) (st_Checkpoint s');
  le_rows : rows_le (st_Witnesses s) (st_Witnesses s')
}.

#[global] Instance row_le_preorder : PreOrder row_le.
Proof. split; [by intros w|]. intros a b c [? ?] [? ?]. split; congruence. Qed.

#[global] Instance append_only_preorder : PreOrder append_only.
Proof.
  split; [intros s; by split_and!|]. intros a b c (? & ? & ?) (? & ? & ?).
  split_and!; [lia|lia|by etrans].
Qed.

#[global] Instance checkpoint_le_preorder : PreOrder checkpoint_le.
Proof.
  split; [intros [c|]; cbn; [split_and!|]; done|].
  intros [a|] [b|] [c|]; cbn; try done. intros (? & ? & Hab) (? & ? & Hbc).
  split_and!; [lia|lia|]. intros Heq. rewrite Hab by lia. apply Hbc. lia.
Qed.

#[global] Instance rows_le_preorder : PreOrder rows_le.
Proof.
  split; [intros ws; exists ws, []; rewrite app_nil_r; by split|].
  intros a b c (k1 & x1 & Hb & H1) (k2 & x2 & Hc & H2).
  destruct (Permutation_Forall2 Hb H2) as (l & Hl & H3). apply Forall2_app_inv_l in H3 as (k & x & Hk & Hx & ->).
  exists k, (x ++ x2). rewrite Hc, Hl, app_assoc. split; [done|]. by etrans.
Qed.

#[global] Instance state_le_preorder : PreOrder state_le.
Proof.
  split; [by split|]. intros a b c [] []. split; by etrans.
Qed.

(** ** Commits move forward *)

Lemma rows_le_app (ws extra : list WitnessState) : rows_le ws (ws ++ extra).
Proof. by exists ws, extra. Qed.

Lemma rows_le_replace (pre post : list WitnessState) (w w' : WitnessState) :
  row_le w w' -> rows_le (pre ++ w :: post) (pre ++ w' :: post).
Proof.
  intros Hw. exists (pre ++ w' :: post), []. rewrite app_nil_r. split; [done|].
  apply Forall2_app; [done|]. by constructor.
Qed.

Lemma committed_le (s next : State) :
  append_only s next -> checkpoint_le (st_Checkpoint s) (st_Checkpoint next) ->
  state_le s (committed s next).
Proof. intros Ha Hc. split; [done|done|apply rows_le_app]. Qed.

Section Histories.
Context `{DT : DtMmr}.

Lemma newRows_keys (ws next : list WitnessState) :
  NoDup (map keyOf ws) -> NoDup (map keyOf next) -> NoDup (map keyOf (ws ++ newRows ws next)).
Proof.
  intros Hw Hn. rewrite map_app. apply NoDup_app. split; [done|]. split.
  - intros k Hk (w & -> & Hin)%list_elem_of_fmap. unfold newRows in Hin.
    apply list_elem_of_In, filter_In in Hin as [_ Hin%negb_true_iff%bool_decide_eq_false]. done.
  - unfold newRows. clear Hw. induction next as [|w next IH]; [constructor|].
    cbn [map] in Hn. apply NoDup_cons in Hn as [Hni Hn]. cbn [List.filter].
    destruct (negb _); [|by apply IH]. cbn [map]. apply NoDup_cons. split; [|by apply IH].
    intros (x & Hx & Hin)%list_elem_of_fmap. apply Hni. rewrite Hx. apply list_elem_of_fmap_2.
    apply list_elem_of_In in Hin. apply filter_In in Hin as [Hin _]. by apply list_elem_of_In.
Qed.

Lemma Forall_newRows (P : WitnessState -> Prop) (ws next : list WitnessState) :
  Forall P next -> Forall P (newRows ws next).
Proof.
  rewrite !Forall_forall. intros Hall x Hx. apply Hall. unfold newRows in Hx.
  apply list_elem_of_In, filter_In in Hx as [Hx _]. by apply list_elem_of_In.
Qed.

Lemma committed_wf (s next : State) : state_wf s -> state_wf next -> state_wf (committed s next).
Proof.
  intros Hs Hn. destruct Hn as [Hsize Hleaves Hp Hc Hnodes Hrows Hkeys].
  split; cbn [committed with_rows st_Size st_Nodes st_IndexedSeq st_FirstPendingAt st_Checkpoint st_Witnesses];
    try done.
  - apply Forall_app. split; [apply (wf_rows _ Hs)|by apply Forall_newRows].
  - apply newRows_keys; [apply (wf_keys _ Hs)|done].
Qed.

(** ** Witness commits *)

(** The outcomes of a compare-and-set on one row. *)
Inductive witness_outcome (ws : list WitnessState) (expectedAttempts : Z) (next : WitnessState) :
    result (list WitnessState) -> Prop :=
| witness_missing :
    (keyOf next ∉ map keyOf ws) -> witness_outcome ws expectedAttempts next (Err ErrContention)
| witness_stale pre w post :
    ws = pre ++ w :: post -> keyOf w = keyOf next ->
    wit_Attempts w <> expectedAttempts \/ wit_Checkpoint w <> wit_Checkpoint next ->
    witness_outcome ws expectedAttempts next (Err ErrContention)
| witness_replaced pre w post :
    ws = pre ++ w :: post -> (keyOf next ∉ map keyOf pre) -> keyOf w = keyOf next ->
    wit_Attempts w = expectedAttempts -> wit_Checkpoint w = wit_Checkpoint next ->
    witness_outcome ws expectedAttempts next (Ok (pre ++ next :: post)).

Lemma replaceWitness_outcome (ws : list WitnessState) (expectedAttempts : Z) (next : WitnessState) :
  witness_outcome ws expectedAttempts next (replaceWitness expectedAttempts next ws).
Proof.
  induction ws as [|w ws IH]; cbn [replaceWitness]; [apply witness_missing, not_elem_of_nil|].
  case_bool_decide as Hk; cbn [negb].
  - destruct (Z.eqb_spec (wit_Attempts w) expectedAttempts) as [Ha|Ha]; cbn [negb].
    2: { apply (witness_stale _ _ _ [] w ws); auto. }
    unfold bytesEqual. case_bool_decide as Hc; cbn [negb].
    2: { apply (witness_stale _ _ _ [] w ws); auto. }
    rewrite CloneWitness_id. apply (witness_replaced _ _ _ [] w ws); try done. apply not_elem_of_nil.
  - destruct IH as [Hni|pre x post -> Hx Hd|pre x post -> Hni Hx Ha Hc]; cbn [mbind result_bind].
    + apply witness_missing. cbn [map]. rewrite not_elem_of_cons. auto.
    + by apply (witness_stale _ _ _ (w :: pre) x post).
    + apply (witness_replaced _ _ _ (w :: pre) x post); try done. cbn [map].
      rewrite not_elem_of_cons. auto.
Qed.

Lemma ApplyWitness_Ok (s s' : State) (expectedAttempts : Z) (next : WitnessState) :
  ApplyWitness s expectedAttempts next = Ok s' ->
  witness_ok next /\ exists pre w post,
    st_Witnesses s = pre ++ w :: post /\ (keyOf next ∉ map keyOf pre) /\ keyOf w = keyOf next /\
    wit_Attempts w = expectedAttempts /\ wit_Checkpoint w = wit_Checkpoint next /\
    s' = with_rows s (st_Nodes s) (pre ++ next :: post).
Proof.
  unfold ApplyWitness. destruct (validateWitness_cases next ErrInvalid) as [[Hok ->]|[_ ->]]; [|done].
  cbn [mbind result_bind]. destruct (replaceWitness_outcome (st_Witnesses s) expectedAttempts next);
    cbn [mbind result_bind]; try done.
  intros [= <-]. split; [done|]. eexists _, _, _. by split_and!.
Qed.

Lemma ApplyWitness_le (s s' : State) (expectedAttempts : Z) (next : WitnessState) :
  ApplyWitness s expectedAttempts next = Ok s' -> state_le s s'.
Proof.
  intros (_ & pre & w & post & Hws & _ & Hk & _ & Hc & ->)%ApplyWitness_Ok.
  split; cbn [with_rows st_Checkpoint st_Witnesses]; [done|done|].
  rewrite Hws. by apply rows_le_replace.
Qed.

Lemma ApplyWitness_wf (s s' : State) (expectedAttempts : Z) (next : WitnessState) :
  state_wf s -> ApplyWitness s expectedAttempts next = Ok s' -> state_wf s'.
Proof.
  intros [Hsize Hleaves Hp Hcp Hn Hr Hkeys] (Hok & pre & w & post & Hws & _ & Hk & _ & Hc & ->)%ApplyWitness_Ok.
  split; cbn [with_rows st_Size st_Nodes st_IndexedSeq st_FirstPendingAt st_Checkpoint st_Witnesses]; try done.
  - rewrite Hws in Hr. rewrite !Forall_app, !Forall_cons in *. tauto.
  - rewrite Hws in Hkeys. rewrite map_app in *. cbn [map] in *. by rewrite <- Hk.
Qed.

(** ** Delta commits *)

(** The full state a delta abbreviates. *)
Definition expand (current delta : State) : State :=
  with_rows delta (st_Nodes current ++ st_Nodes delta) (st_Witnesses delta).

Lemma metadata_expand (current delta : State) (n : Z) :
  metadata_ok delta n <-> metadata_ok (expand current delta) n.
Proof. done. Qed.

(** The node count of a delta is right exactly when its size is that of the
    expanded state; the machine addition cannot hide a mismatch. *)
Lemma delta_size (current delta : State) :
  state_wf current -> zlen (st_Nodes delta) < two63 ->
  ((st_Size delta <? st_Size current) ||
   (u64_add (st_Size current) (zlen (st_Nodes delta)) <? st_Size current) ||
   negb (st_Size delta =? u64_add (st_Size current) (zlen (st_Nodes delta)))) = false <->
  st_Size delta = zlen (st_Nodes current ++ st_Nodes delta).
Proof.
  intros Hwf Hlen. pose proof (LeafCount_bound _ _ (wf_leaves _ Hwf)).
  pose proof (wf_size _ Hwf). pose proof (zlen_nonneg (st_Nodes current)).
  pose proof (zlen_nonneg (st_Nodes delta)). assert (two64 = 2 * two63) by reflexivity.
  rewrite u64_add_small by lia. rewrite !orb_false_iff, negb_false_iff, Z.eqb_eq, !Z.ltb_ge, zlen_app. lia.
Qed.

Lemma expand_invalid (current delta : State) :
  state_wf current ->
  ~ (metadata_ok delta (zlen (st_Nodes current ++ st_Nodes delta)) /\
     Forall (fun n => zlen n = EntryBytes) (st_Nodes delta)) ->
  validateState (expand current delta) ErrInvalid = Err ErrInvalid.
Proof.
  intros Hwf Hbad. destruct (validateState_cases (expand current delta) ErrInvalid) as [[Hv|Hv] Hi]; [|done].
  exfalso. apply Hbad. destruct (proj1 Hi Hv) as [? ? ? ? Hn ? ?].
  cbn [expand with_rows st_Nodes] in Hn. apply Forall_app in Hn as [_ Hn]. split; [|done]. by split_and!.
Qed.

Lemma expand_valid (current delta : State) :
  state_wf current -> metadata_ok delta (zlen (st_Nodes current ++ st_Nodes delta)) ->
  Forall (fun n => zlen n = EntryBytes) (st_Nodes delta) -> state_wf (expand current delta).
Proof.
  intros Hwf (? & ? & ? & ? & ? & ?) Hn. split; try done.
  cbn [expand with_rows st_Nodes]. apply Forall_app. split; [apply (wf_nodes _ Hwf)|done].
Qed.

(** The guards of a delta commit agree with those of the full commit. *)
Lemma checkDelta_expand (current delta : State) (expectedSize : Z) (expectedCheckpoint : option bytes) :
  state_wf current -> zlen (st_Nodes delta) < two63 ->
  ApplyCLL current expectedSize expectedCheckpoint (expand current delta) =
  (added ← checkDelta current expectedSize expectedCheckpoint delta;
   Ok (with_rows (cloneStateHeader delta) (st_Nodes current ++ cloneBytesList (st_Nodes delta))
         (st_Witnesses current ++ added))).
Proof.
  intros Hwf Hlen. unfold ApplyCLL, checkDelta. destruct (_ || negb (sameOptional _ _)); [done|].
  pose proof (delta_size current delta Hwf Hlen) as Hsize.
  destruct (_ || _ || _) eqn:Hs.
  { rewrite expand_invalid; [done|done|]. intros [(Hm & _) _]. apply Hsize in Hm. congruence. }
  apply proj1 in Hsize. specialize (Hsize eq_refl).
  destruct (validateStateMetadata_cases delta (st_Size delta) ErrInvalid) as [[Hv|Hv] Hi]; rewrite Hv in Hi |- *;
    cbn [mbind result_bind].
  2: { rewrite expand_invalid; [done|done|]. intros [Hm _]. rewrite <- Hsize in Hm. apply Hi in Hm. done. }
  apply proj1 in Hi. specialize (Hi eq_refl). rewrite Hsize in Hi at 1.
  destruct (existsb badNode (st_Nodes delta)) eqn:Hn.
  { rewrite expand_invalid; [done|done|]. intros [_ Hf%existsb_badNode]. congruence. }
  apply existsb_badNode in Hn. pose proof (expand_valid current delta Hwf Hi Hn) as Hwf'.
  rewrite (proj2 (proj2 (validateState_cases (expand current delta) ErrInvalid)) Hwf').
  cbn [mbind result_bind].
  assert (st_Size current <= st_Size delta) as Hle.
  { rewrite Hsize, (wf_size _ Hwf), zlen_app. pose proof (zlen_nonneg (st_Nodes delta)). lia. }
  assert (prefixEqual (st_Nodes current) (st_Nodes (expand current delta)) = true) as ->.
  { apply prefixEqual_iff. cbn [expand with_rows st_Nodes]. by exists (st_Nodes delta). }
  cbn [negb]. change (st_Size (expand current delta)) with (st_Size delta).
  change (st_IndexedSeq (expand current delta)) with (st_IndexedSeq delta).
  rewrite (proj2 (Z.ltb_ge _ _) Hle). cbn [orb]. rewrite orb_false_r.
  change (validateCLLTransition current (expand current delta)) with (validateCLLTransition current delta).
  destruct (st_IndexedSeq delta <? st_IndexedSeq current) eqn:Hx.
  { unfold validateCLLTransition. by rewrite Hx. }
  destruct (validateCLLTransition current delta) as [added|err]; [|done]. cbn [mbind result_bind].
  by rewrite !cloneStateHeader_id, !cloneBytesList_id, CloneWitness_map.
Qed.

Lemma CommitCLLDelta_expand (e : Engine) (delta : State) (expectedSize : Z)
    (expectedCheckpoint : option bytes) :
  state_wf (state e) -> zlen (st_Nodes delta) < two63 ->
  CommitCLLDelta e expectedSize expectedCheckpoint delta =
  CommitCLL e expectedSize expectedCheckpoint (expand (state e) delta).
Proof.
  intros Hwf Hlen. unfold CommitCLLDelta, CommitCLL. rewrite checkDelta_expand by done.
  by destruct (checkDelta _ _ _ _).
Qed.

Lemma ApplyCLL_accept (current next : State) (expectedSize : Z) (expectedCheckpoint : option bytes) :
  state_wf current -> cas_matches current expectedSize expectedCheckpoint -> state_wf next ->
  append_only current next -> checkpoint_le (st_Checkpoint current) (st_Checkpoint next) ->
  rows_agree (st_Witnesses current) (st_Witnesses next) ->
  ApplyCLL current expectedSize expectedCheckpoint next = Ok (committed current next).
Proof.
  intros Hwf ? ? ? ? ?.
  destruct (ApplyCLL_outcome current expectedSize expectedCheckpoint next Hwf); tauto.
Qed.

(** What an accepted commit tells. *)
Lemma CommitCLL_Ok (e e' : Engine) (expectedSize : Z) (expectedCheckpoint : option bytes) (next : State) :
  state_wf (state e) -> CommitCLL e expectedSize expectedCheckpoint next = (e', Ok tt) ->
  cas_matches (state e) expectedSize expectedCheckpoint /\ state_wf next /\ append_only (state e) next /\
  checkpoint_le (st_Checkpoint (state e)) (st_Checkpoint next) /\
  rows_agree (st_Witnesses (state e)) (st_Witnesses next) /\
  e' = MkEngine (entries e) (byValue e) (committed (state e) next).
Proof.
  intros Hwf. unfold CommitCLL.
  destruct (ApplyCLL_outcome (state e) expectedSize expectedCheckpoint next Hwf); try done.
  intros [= <-]. by split_and!.
Qed.

(** The rows of a delta: those the commit added. *)
Lemma newRows_known (ws l : list WitnessState) :
  (forall w, w ∈ l -> keyOf w ∈ map keyOf ws) -> newRows ws l = [].
Proof.
  unfold newRows. induction l as [|x l IH]; intros Hl; [done|]. cbn [List.filter].
  rewrite bool_decide_true by (apply Hl; left). apply IH. intros w Hw. apply Hl. by right.
Qed.

Lemma newRows_idem (ws next : list WitnessState) : newRows ws (newRows ws next) = newRows ws next.
Proof.
  unfold newRows. induction next as [|x next IH]; [done|]. cbn [List.filter].
  destruct (negb (bool_decide (keyOf x ∈ map keyOf ws))) eqn:Hx; [|done].
  cbn [List.filter]. by rewrite Hx, IH.
Qed.

Lemma newRows_fresh (ws next : list WitnessState) : newRows ws (ws ++ newRows ws next) = newRows ws next.
Proof.
  unfold newRows at 1. rewrite List.filter_app. fold (newRows ws ws).
  fold (newRows ws (newRows ws next)). rewrite newRows_idem, newRows_known; [done|].
  intros w Hw. by apply list_elem_of_fmap_2.
Qed.

(** The delta of a commit. *)
Definition commitDelta (s next : State) : State :=
  with_rows next (drop (length (st_Nodes s)) (st_Nodes next)) (newRows (st_Witnesses s) (st_Witnesses next)).

Lemma DeltaSince_committed (e : Engine) (next : State) (es : list Entry) (m : gmap bytes Z) :
  append_only (state e) next ->
  DeltaSince (MkEngine es m (committed (state e) next)) (takeSnapshot e) =
  Ok (commitDelta (state e) next).
Proof.
  intros (_ & _ & Hp). unfold DeltaSince, takeSnapshot. cbn [snap_state state].
  assert (zlen (st_Nodes (state e)) <= zlen (st_Nodes (committed (state e) next))) as Hle.
  { unfold zlen. apply prefix_length in Hp. cbn [committed with_rows st_Nodes]. lia. }
  rewrite (proj2 (Z.ltb_ge _ _) Hle). f_equal.
  rewrite CloneState_id, cloneBytesList_id, CloneWitness_map. unfold commitDelta.
  cbn [committed with_rows st_Size st_Nodes st_IndexedSeq st_FirstPendingAt st_Checkpoint st_Witnesses].
  unfold with_rows. f_equal. rewrite <- (newRows_fresh (st_Witnesses (state e)) (st_Witnesses next)) at 2.
  unfold newRows at 2. apply List.filter_ext.
  intros w. f_equal. apply bool_decide_ext. by rewrite elem_of_list_to_set.
Qed.

Lemma commitDelta_expand (s next : State) :
  st_Nodes s `prefix_of` st_Nodes next ->
  expand s (commitDelta s next) =
  with_rows next (st_Nodes next) (newRows (st_Witnesses s) (st_Witnesses next)).
Proof.
  intros [k Hk]. unfold expand, commitDelta, with_rows.
  cbn [st_Size st_Nodes st_IndexedSeq st_FirstPendingAt st_Checkpoint st_Witnesses]. f_equal.
  by rewrite Hk, drop_app_length.
Qed.

Lemma commitDelta_applies (s next : State) (expectedSize : Z) (expectedCheckpoint : option bytes) :
  state_wf s -> cas_matches s expectedSize expectedCheckpoint -> state_wf next ->
  append_only s next -> checkpoint_le (st_Checkpoint s) (st_Checkpoint next) ->
  ApplyCLL s expectedSize expectedCheckpoint (expand s (commitDelta s next)) = Ok (committed s next).
Proof.
  intros Hwf Hcas [Hsz Hlv Hp Hcp Hn Hr Hk] Ha Hc. pose proof Ha as (Hs & Hx & Hpre).
  rewrite commitDelta_expand by done. rewrite ApplyCLL_accept; try done.
  - unfold committed, with_rows. cbn [st_Size st_Nodes st_IndexedSeq st_FirstPendingAt st_Checkpoint st_Witnesses].
    by rewrite newRows_idem.
  - split; try done.
    + cbn [with_rows st_Witnesses]. by apply Forall_newRows.
    + cbn [with_rows st_Witnesses].
      pose proof (newRows_keys _ _ (wf_keys _ Hwf) Hk) as H. rewrite map_app in H. by apply NoDup_app in H as (_ & _ & H).
  - intros w w' Hw Hw' Heq. cbn [with_rows st_Witnesses] in Hw'. unfold newRows in Hw'.
    apply list_elem_of_In, filter_In in Hw' as [_ Hw'%negb_true_iff%bool_decide_eq_false].
    destruct Hw'. rewrite <- Heq. by apply list_elem_of_fmap_2.
Qed.

(** ** Operations and histories *)

(** The mutations of the engine; reads do not change it. *)
Inductive Op :=
| OpAppend (input : AppendInput)
| OpCommitCLL (expectedSize : Z) (expectedCheckpoint : option bytes) (next : State)
| OpCommitDelta (expectedSize : Z) (expectedCheckpoint : option bytes) (delta : State)
| OpCommitWitness (expectedAttempts : Z) (next : WitnessState).

Definition perform (e : Engine) (op : Op) : Engine :=
  match op with
  | OpAppend input => fst (Append e input)
  | OpCommitCLL size checkpoint next => fst (CommitCLL e size checkpoint next)
  | OpCommitDelta size checkpoint delta => fst (CommitCLLDelta e size checkpoint delta)
  | OpCommitWitness attempts next => fst (CommitWitness e attempts next)
  end.

Definition run (e : Engine) (ops : list Op) : Engine := fold_left perform ops e.

(** A Go slice has fewer than 2^63 elements. *)
Definition op_sized (op : Op) : Prop :=
  match op with OpCommitDelta _ _ delta => zlen (st_Nodes delta) < two63 | _ => True end.

Record engine_ok (e : Engine) : Prop := {
  ok_log : engine_log e;
  ok_state : state_wf (state e)
}.

Record engine_le (e e' : Engine) : Prop := {
  le_entries : entries e `prefix_of` entries e';
  le_state : state_le (state e) (state e')
}.

#[global] Instance engine_le_preorder : PreOrder engine_le.
Proof. split; [by split|]. intros a b c [] []. split; by etrans. Qed.

(** Committing the delta of a transition makes it. *)
Lemma commitDelta_commits (e : Engine) (expectedSize : Z) (expectedCheckpoint : option bytes) (next : State) :
  state_wf (state e) -> cas_matches (state e) expectedSize expectedCheckpoint -> state_wf next ->
  append_only (state e) next -> checkpoint_le (st_Checkpoint (state e)) (st_Checkpoint next) ->
  CommitCLLDelta e expectedSize expectedCheckpoint (commitDelta (state e) next) =
  (MkEngine (entries e) (byValue e) (committed (state e) next), Ok tt).
Proof.
  intros He Hcas Hwf Ha Hc. rewrite CommitCLLDelta_expand; [|done|].
  - unfold CommitCLL. by rewrite commitDelta_applies.
  - pose proof (LeafCount_bound _ _ (wf_leaves _ Hwf)). rewrite (wf_size _ Hwf) in *.
    cbn [commitDelta with_rows st_Nodes]. unfold zlen in *. rewrite length_drop. lia.
Qed.

(** A mutation of the state alone. *)
Lemma state_step (e : Engine) (s' : State) :
  engine_ok e -> state_wf s' -> state_le (state e) s' ->
  engine_ok (MkEngine (entries e) (byValue e) s') /\ engine_le e (MkEngine (entries e) (byValue e) s').
Proof. intros [Hlog _] Hwf Hle. by split. Qed.

Lemma CommitCLL_step (e : Engine) (expectedSize : Z) (expectedCheckpoint : option bytes) (next : State) :
  engine_ok e ->
  engine_ok (fst (CommitCLL e expectedSize expectedCheckpoint next)) /\
  engine_le e (fst (CommitCLL e expectedSize expectedCheckpoint next)).
Proof.
  intros He. unfold CommitCLL.
  destruct (ApplyCLL_outcome (state e) expectedSize expectedCheckpoint next (ok_state _ He)); try by split.
  apply state_step; [done|apply committed_wf; [apply (ok_state _ He)|done]|by apply committed_le].
Qed.

Lemma perform_step (e : Engine) (op : Op) :
  engine_ok e -> op_sized op -> engine_ok (perform e op) /\ engine_le e (perform e op).
Proof.
  intros He Hop. destruct op as [input|size cp next|size cp delta|attempts next]; cbn [perform].
  - destruct (Append_refine e input (ok_log _ He)) as (Hlog & Hstate & _). split.
    + split; [done|]. rewrite Hstate. apply (ok_state _ He).
    + split; [|by rewrite Hstate]. unfold Append. destruct (_ || _); [done|].
      destruct (byValue e !! input_Value input); [done|]. destruct (_ <? _); [done|].
      by apply prefix_app_r.
  - by apply CommitCLL_step.
  - rewrite CommitCLLDelta_expand by (apply He || done). by apply CommitCLL_step.
  - unfold CommitWitness. destruct (ApplyWitness (state e) attempts next) as [s'|] eqn:Hw; [|by split].
    apply state_step; [done|by eapply ApplyWitness_wf; [apply He|]|by eapply ApplyWitness_le].
Qed.

Lemma run_forward (e : Engine) (ops : list Op) :
  engine_ok e -> Forall op_sized ops -> engine_ok (run e ops) /\ engine_le e (run e ops).
Proof.
  intros He Hops. revert e He. induction Hops as [|op ops Hop Hops IH]; intros e He; [by split|].
  destruct (perform_step e op He Hop) as [He' Hle]. destruct (IH _ He') as [Hok Hle'].
  split; [done|by etrans].
Qed.

(** Entries are found for ever at the same place. *)
Lemma GetEntry_grows (e e' : Engine) (v : bytes) (entry : Entry) :
  engine_log e -> engine_log e' -> entries e `prefix_of` entries e' ->
  GetEntry e v = Ok entry -> GetEntry e' v = Ok entry /\
  exists i, byValue e' !! v = Some i /\ index (entries e') i = Ok entry.
Proof.
  intros Hl Hl' [more Hmore]. unfold GetEntry. destruct (negb _); [done|].
  destruct (byValue e !! v) as [i|] eqn:Hv; [|done].
  destruct (proj1 (log_index _ _ Hl v i) Hv) as (x & Hx & Hxv).
  rewrite (proj2 (index_Ok _ _ _) Hx). cbn [mbind result_bind]. rewrite CloneEntry_id. intros [= <-].
  assert (zget (entries e') i = Some x) as Hx'.
  { rewrite Hmore, zget_app_cases. by left. }
  assert (byValue e' !! v = Some i) as Hv' by (apply (log_index _ _ Hl'); eauto).
  rewrite Hv'. apply index_Ok in Hx'. rewrite Hx'. cbn [mbind result_bind].
  rewrite CloneEntry_id. eauto.
Qed.

(** ** Claims *)

(** C10: [Replace] accepts exactly the stored entries that are dense from
    sequence 1, valid and free of duplicates, with a valid state; it then
    represents them with a consistent index, and otherwise reports corruption
    and leaves the engine as it was. *)
Theorem replace_loads_valid_logs (e : Engine) (es : list Entry) (st : State) :
  let valid := (forall i entry, zget es i = Some entry -> entry_ok i entry) /\
               NoDup (map entry_Value es) /\ state_wf st in
  (valid -> exists e', Replace e es st = (e', Ok tt) /\ engine_ok e' /\ Entries e' = es /\ LoadState e' = st) /\
  (~ valid -> Replace e es st = (e, Err ErrCorrupt)).
Proof.
  cbv zeta. assert (validateEntries es 0 ∅ = Ok tt <->
    (forall i entry, zget es i = Some entry -> entry_ok i entry) /\ NoDup (map entry_Value es)) as Hiff.
  { rewrite validateEntries_ok. split; [tauto|]. intros [? ?]. split_and!; [done..|]. set_solver. }
  destruct (validateState_cases st ErrCorrupt) as [Hcases Hwf]. unfold Replace.
  destruct (validateEntries es 0 ∅) as [[]|err] eqn:Hval.
  - destruct (proj1 Hiff eq_refl) as [H1 H2].
    destruct Hcases as [Hst|Hst]; rewrite Hst in Hwf |- *.
    2: { split; [|done]. by intros (_ & _ & ?%Hwf). }
    pose proof (proj1 Hwf eq_refl) as Hs. split; [intros _|intros Hno; by destruct Hno]. rewrite cloneEntries_id, CloneState_id.
    eexists. split; [done|]. split_and!.
    + split; [by apply indexEntries_inv|done].
    + apply cloneEntries_id.
    + apply CloneState_id.
  - apply validateEntries_corrupt in Hval as ->. split; [|done]. intros (H1 & H2 & _).
    by discriminate (proj2 Hiff (conj H1 H2)).
Qed.

(** C11: [CommitCLL] is a compare-and-set: it fails with [ErrContention] when the
    expected size or checkpoint is stale, with [ErrInvalid] when the next state
    is invalid or rewrites history, with [ErrContention] when the checkpoint
    would retreat or change in place or a witness row would change its
    checkpoint; otherwise the next state is stored with the existing witness
    rows first.  A failed commit leaves the engine as it was. *)
Theorem commit_outcomes (e : Engine) (expectedSize : Z) (expectedCheckpoint : option bytes) (next : State) :
  engine_ok e ->
  exists r, commit_outcome (state e) expectedSize expectedCheckpoint next r /\
    CommitCLL e expectedSize expectedCheckpoint next =
      match r with
      | Ok s' => (MkEngine (entries e) (byValue e) s', Ok tt)
      | Err err => (e, Err err)
      end.
Proof.
  intros He. exists (ApplyCLL (state e) expectedSize expectedCheckpoint next).
  split; [apply ApplyCLL_outcome, He|]. unfold CommitCLL. by destruct (ApplyCLL _ _ _ _).
Qed.

(** After any sequence of mutations, accepted or refused, the engine is
    still valid and has only moved forward: the old entries and nodes are
    prefixes of the new ones, the counters and the checkpoint have not
    retreated, the checkpoint of a size has not changed, and every witness row
    is at its place with its key and checkpoint. *)
Lemma history_moves_forward (e : Engine) (ops : list Op) :
  engine_ok e -> Forall op_sized ops -> engine_ok (run e ops) /\ engine_le e (run e ops).
Proof. apply run_forward. Qed.

(** Restoring a snapshot undoes any sequence of mutations made since it was
    taken: entries, index and state are exactly those of the snapshot. *)
Lemma snapshot_undoes_history (e : Engine) (ops : list Op) :
  engine_ok e -> Forall op_sized ops -> Restore (run e ops) (takeSnapshot e) = (e, Ok tt).
Proof.
  intros He Hops. destruct (run_forward e ops He Hops) as [[Hlog _] [[more Hmore] _]].
  by apply (Restore_exact e _ more); [apply He| |].
Qed.

(** A delta commit has the effect and the error of the full commit whose
    nodes are those of the engine followed by those of the delta. *)
Lemma delta_is_full_commit (e : Engine) (delta : State) (expectedSize : Z)
    (expectedCheckpoint : option bytes) :
  engine_ok e -> zlen (st_Nodes delta) < two63 ->
  CommitCLLDelta e expectedSize expectedCheckpoint delta =
  CommitCLL e expectedSize expectedCheckpoint (expand (state e) delta).
Proof. intros He. apply CommitCLLDelta_expand, He. Qed.

(** What the journal records replays: the delta taken after an accepted
    commit, applied with the same expectations to the engine as it was before,
    gives exactly the engine after the commit. *)
Lemma journal_delta_replays_commit (e e' : Engine) (expectedSize : Z)
    (expectedCheckpoint : option bytes) (next : State) :
  engine_ok e -> CommitCLL e expectedSize expectedCheckpoint next = (e', Ok tt) ->
  exists delta, DeltaSince e' (takeSnapshot e) = Ok delta /\
    CommitCLLDelta e expectedSize expectedCheckpoint delta = (e', Ok tt).
Proof.
  intros He (Hcas & Hwf & Ha & Hc & _ & ->)%CommitCLL_Ok; [|apply He].
  exists (commitDelta (state e) next). split; [by apply DeltaSince_committed|].
  by apply commitDelta_commits; [apply He|..].
Qed.

(** Once an identity is in the log its entry is permanent: after any later
    mutations [GetEntry] finds the same entry, and appending the identity again
    returns it as idempotent and changes nothing. *)
Lemma entries_are_permanent (e : Engine) (ops : list Op) (v : bytes) (entry : Entry) (at_time : Z) :
  engine_ok e -> Forall op_sized ops -> GetEntry e v = Ok entry -> badTime at_time = false ->
  GetEntry (run e ops) v = Ok entry /\
  Append (run e ops) (MkAppendInput v at_time) = (run e ops, Ok (MkAppendResult entry AppendIdempotent)).
Proof.
  intros He Hops Hget Ht. destruct (run_forward e ops He Hops) as [[Hlog _] [Hle _]].
  destruct (GetEntry_grows e _ v entry (ok_log _ He) Hlog Hle Hget) as (Hget' & i & Hi & Hidx).
  split; [done|]. unfold Append. cbn [input_Value input_AppendedAt]. rewrite Ht.
  unfold GetEntry in Hget. destruct (zlen v =? EntryBytes); [|done]. cbn [negb orb].
  rewrite Hi, Hidx. cbn [mbind result_bind]. by rewrite CloneEntry_id.
Qed.

End Histories.

Lemma New_ok `{DT : DtMmr} `{!DtMmrLaws DT} : engine_ok New.
Proof.
  split; [apply New_log|]. cbn [New state]. split; cbn; try done; try constructor.
  unfold Mmr.LeafCount. cbn [negb Mmr.validMMRSize Z.eqb].
  pose proof (law_LeafCount 0) as H. change (mmr_size 0) with 0 in H. rewrite H; [done|].
  by split.
Qed.

(** ** Witnesses *)

Import Ref.

Definition sampleRow : WitnessState :=
  MkWitness "https://witness.example" 1 [Byte.x01] 0 1700000000000000000 None false "".

Definition sampleNext : State :=
  MkState 1 [replicate 32 Byte.x07] 1 (Some 1700000000000000000)
    (Some (MkCheckpoint [Byte.x01] 1 1 [replicate 32 Byte.x07])) [sampleRow].

Definition sampleOps : list Op :=
  [OpAppend (sampleInput Byte.x03); OpCommitCLL 0 None sampleNext; OpCommitCLL 0 None sampleNext;
   OpCommitWitness 0 (MkWitness "https://witness.example" 1 [Byte.x01] 1 1700000005000000000 None false "busy")].

Lemma sampleEngine_ok : engine_ok (DT := dt_reference) sampleEngine.
Proof. split; [apply sampleEngine_log|apply (ok_state (DT := dt_reference) New New_ok)]. Qed.

Lemma sampleOps_sized : Forall op_sized sampleOps.
Proof. repeat constructor. Qed.

Lemma commit_outcomes_witness :
  exists r, commit_outcome (DT := dt_reference) (state sampleEngine) 0 None sampleNext r /\
    CommitCLL (DT := dt_reference) sampleEngine 0 None sampleNext =
      match r with
      | Ok s' => (MkEngine (entries sampleEngine) (byValue sampleEngine) s', Ok tt)
      | Err err => (sampleEngine, Err err)
      end.
Proof. apply (commit_outcomes (DT := dt_reference)), sampleEngine_ok. Defined.

Lemma replace_loads_valid_logs_witness :
  exists e', Replace (DT := dt_reference) New (entries sampleEngine) emptyState = (e', Ok tt) /\
    engine_ok (DT := dt_reference) e' /\ Entries e' = entries sampleEngine /\ LoadState e' = emptyState.
Proof.
  apply (replace_loads_valid_logs (DT := dt_reference) New (entries sampleEngine) emptyState).
  split; [exact (log_entries _ _ (ok_log (DT := dt_reference) _ sampleEngine_ok))|].
  split; [apply (bool_decide_unpack _); vm_compute; exact I|].
  exact (ok_state (DT := dt_reference) New New_ok).
Defined.

End EngineHistory.
