(* ===== verification/EngineWitness.v ===== *)
(** * Witness rows of the engine

    The row key is injective, the pending query returns the due rows in the
    order of checkpoint size and witness, and a row changes only by
    compare-and-set on its attempt count. *)

From Stdlib Require Import Sorting.Sorted.
From stdpp Require Import pretty.
From S2P Require Import Prelude Hex DtMmr DtMmrRef Mmr.
From S2P Require Import Cll Portable Engine EngineLog EngineState EngineHistory.
Import Cll Portable Engine EngineLog EngineState EngineHistory.

Module EngineWitness.

Local Open Scope Z_scope.

(** ** The row key *)

Definition notNul (c : Ascii.ascii) : bool := negb (bool_decide (c = Ascii.zero)).

Lemma pretty_go_chars (n : N) (s : string) :
  allChars notNul s = true -> allChars notNul (pretty_N_go n s) = true.
Proof.
  revert s. induction (N.lt_wf_0 n) as [n _ IH]; intros s Hs.
  destruct (decide (n = 0)%N) as [->|Hn]; [by rewrite pretty_N_go_0|].
  rewrite pretty_N_go_step by lia. apply IH; [apply N.div_lt; lia|].
  cbn [allChars]. rewrite Hs, andb_true_r. unfold pretty_N_char. by repeat case_match.
Qed.

Lemma pretty_chars (n : N) : allChars notNul (pretty n) = true.
Proof.
  unfold pretty, pretty_N. destruct (decide _); [done|]. by apply pretty_go_chars.
Qed.

Lemma append_chars (s t : string) (p : Ascii.ascii -> bool) :
  allChars p (String.append s t) = allChars p s && allChars p t.
Proof.
  induction s as [|c s IH]; [done|].
  change (String.append (String c s) t) with (String c (String.append s t)).
  cbn [allChars]. by rewrite IH, andb_assoc.
Qed.

(** The last NUL of the key separates the two parts. *)
Lemma nul_split (a b d1 d2 : string) :
  allChars notNul d1 = true -> allChars notNul d2 = true ->
  String.append a (String Ascii.zero d1) = String.append b (String Ascii.zero d2) -> a = b /\ d1 = d2.
Proof.
  intros H1 H2. revert b. induction a as [|c a IH]; intros [|c' b] Heq;
    repeat match goal with
    | H : context [String.append EmptyString ?t] |- _ => change (String.append EmptyString t) with t in H
    | H : context [String.append (String ?x ?s) ?t] |- _ =>
        change (String.append (String x s) t) with (String x (String.append s t)) in H
    end.
  - by injection Heq.
  - injection Heq as _ ->. rewrite append_chars in H1. apply andb_true_iff in H1 as [_ H1]. done.
  - injection Heq as _ <-. rewrite append_chars in H2. apply andb_true_iff in H2 as [_ H2]. done.
  - injection Heq as -> Heq. destruct (IH b Heq) as [-> ->]. done.
Qed.

Lemma WitnessKey_inj (id1 id2 : string) (size1 size2 : Z) :
  0 <= size1 -> 0 <= size2 -> WitnessKey id1 size1 = WitnessKey id2 size2 -> id1 = id2 /\ size1 = size2.
Proof.
  intros Hs1 Hs2 Heq. apply nul_split in Heq as [-> Heq]; [|apply pretty_chars..].
  apply (inj pretty) in Heq. split; [done|lia].
Qed.

(** ** Order of the pending rows *)

Lemma string_compare_lt_trans (a b c : string) :
  String.compare a b = Lt -> String.compare b c = Lt -> String.compare a c = Lt.
Proof.
  revert b c. induction a as [|x a IH]; intros [|y b] [|z c] Hab Hbc; try done.
  cbn [String.compare] in *. unfold Ascii.compare in *.
  destruct (N.compare_spec (Ascii.N_of_ascii x) (Ascii.N_of_ascii y)) as [Hxy|Hxy|Hxy]; try done;
  destruct (N.compare_spec (Ascii.N_of_ascii y) (Ascii.N_of_ascii z)) as [Hyz|Hyz|Hyz]; try done;
  destruct (N.compare_spec (Ascii.N_of_ascii x) (Ascii.N_of_ascii z)) as [Hxz|Hxz|Hxz]; try lia; try done.
  by eapply IH.
Qed.

Definition row_before (a b : WitnessState) : Prop := pendingLess a b = true.

Lemma row_before_iff (a b : WitnessState) :
  row_before a b <->
  wit_CheckpointSize a < wit_CheckpointSize b \/
  (wit_CheckpointSize a = wit_CheckpointSize b /\
   String.compare (wit_WitnessID a) (wit_WitnessID b) = Lt).
Proof.
  unfold row_before, pendingLess, String.ltb.
  destruct (Z.eqb_spec (wit_CheckpointSize a) (wit_CheckpointSize b)) as [Heq|Hne].
  - destruct (String.compare _ _); intuition (lia || done).
  - rewrite Z.ltb_lt. intuition lia.
Qed.

#[global] Instance row_before_transitive : Transitive row_before.
Proof.
  intros a b c. rewrite !row_before_iff. intros [?|[? Hab]] [?|[? Hbc]]; [left; lia..|].
  right. split; [lia|]. by eapply string_compare_lt_trans.
Qed.

(** Rows of different keys are comparable. *)
Lemma row_before_total (a b : WitnessState) :
  keyOf a <> keyOf b -> row_before a b \/ row_before b a.
Proof.
  intros Hk. rewrite !row_before_iff.
  destruct (Z.lt_total (wit_CheckpointSize a) (wit_CheckpointSize b)) as [?|[Hs|?]]; [auto| |auto].
  destruct (String.compare (wit_WitnessID a) (wit_WitnessID b)) eqn:Hc.
  - destruct Hk. unfold keyOf. apply String.compare_eq_iff in Hc. by rewrite Hc, Hs.
  - auto.
  - right; right. split; [done|]. rewrite String.compare_antisym, Hc. done.
Qed.

Lemma insertStable_perm {A} (less : A -> A -> bool) (a : A) (l : list A) : insertStable less a l ≡ₚ a :: l.
Proof.
  induction l as [|b l IH]; cbn [insertStable]; [done|]. destruct (less b a); [|done].
  rewrite IH. by constructor.
Qed.

Lemma SliceStable_perm {A} (less : A -> A -> bool) (l : list A) : SliceStable less l ≡ₚ l.
Proof.
  unfold SliceStable. induction l as [|a l IH]; cbn [foldr]; [done|].
  rewrite insertStable_perm. by constructor.
Qed.

Lemma insertStable_sorted (a : WitnessState) (l : list WitnessState) :
  (forall b, b ∈ l -> keyOf a <> keyOf b) -> StronglySorted row_before l ->
  StronglySorted row_before (insertStable pendingLess a l).
Proof.
  intros Hk Hs. induction Hs as [|b l Hs IH Hall]; cbn [insertStable]; [by repeat constructor|].
  destruct (pendingLess b a) eqn:Hba.
  - constructor; [apply IH; intros c Hc; apply Hk; by right|].
    apply Forall_forall. intros c Hc. rewrite insertStable_perm in Hc.
    apply elem_of_cons in Hc as [->|Hc]; [done|]. by apply (proj1 (Forall_forall _ _) Hall).
  - assert (row_before a b) as Hab.
    { destruct (row_before_total a b) as [|Hr]; [apply Hk; left|done|]. unfold row_before in Hr. congruence. }
    constructor; [by constructor|]. constructor; [done|].
    eapply Forall_impl; [exact Hall|]. intros c Hc. by trans b.
Qed.

Lemma SliceStable_sorted (l : list WitnessState) :
  NoDup (map keyOf l) -> StronglySorted row_before (SliceStable pendingLess l).
Proof.
  unfold SliceStable. induction l as [|a l IH]; cbn [foldr map]; [constructor|].
  intros [Hni Hnd]%NoDup_cons. apply insertStable_sorted; [|by apply IH].
  intros b Hb Heq. fold (SliceStable pendingLess l) in Hb. rewrite SliceStable_perm in Hb.
  apply Hni. rewrite Heq. by apply list_elem_of_fmap_2.
Qed.

(** ** Queries *)

Lemma findWitness_ok (k : string) (ws : list WitnessState) (w : WitnessState) :
  NoDup (map keyOf ws) -> findWitness k ws = Ok w <-> w ∈ ws /\ keyOf w = k.
Proof.
  induction ws as [|x ws IH]; cbn [map findWitness].
  - intros _. split; [done|]. by intros [?%elem_of_nil _].
  - intros [Hni Hnd]%NoDup_cons. rewrite elem_of_cons. case_bool_decide as Hk.
    + rewrite CloneWitness_id. split; [intros [= <-]; by split; [left|]|].
      intros [[->|Hin] Hw]; [done|]. destruct Hni. rewrite Hk, <- Hw. by apply list_elem_of_fmap_2.
    + rewrite (IH Hnd). split; [tauto|]. intros [[->|Hin] Hw]; [congruence|done].
Qed.

Lemma findWitness_cases (k : string) (ws : list WitnessState) :
  (k ∈ map keyOf ws /\ exists w, findWitness k ws = Ok w) \/
  ((k ∉ map keyOf ws) /\ findWitness k ws = Err ErrNotFound).
Proof.
  induction ws as [|x ws IH]; cbn [map findWitness]; [right; split; [apply not_elem_of_nil|done]|].
  case_bool_decide as Hk.
  - left. split; [rewrite <- Hk; left|by eexists].
  - destruct IH as [[Hin Hw]|[Hni Hw]]; [left|right]; (split; [|done]); [by right|].
    rewrite not_elem_of_cons. auto.
Qed.

Lemma findWitness_replace (k : string) (pre post : list WitnessState) (w w' : WitnessState) :
  keyOf w = keyOf w' -> keyOf w <> k ->
  findWitness k (pre ++ w' :: post) = findWitness k (pre ++ w :: post).
Proof.
  intros Heq Hne. induction pre as [|x pre IH]; cbn [app findWitness].
  - rewrite !bool_decide_false by congruence. done.
  - by rewrite IH.
Qed.

(** The row a witness commit may replace. *)
Definition cas_row (ws : list WitnessState) (expectedAttempts : Z) (next : WitnessState) : Prop :=
  exists w, w ∈ ws /\ keyOf w = keyOf next /\ wit_Attempts w = expectedAttempts /\
    wit_Checkpoint w = wit_Checkpoint next.

(** A valid row of a state with distinct keys is read back. *)
Lemma GetWitness_row (e : Engine) (pre : list WitnessState) (next : WitnessState) (post : list WitnessState) :
  witness_ok next -> NoDup (map keyOf (pre ++ next :: post)) ->
  st_Witnesses (state e) = pre ++ next :: post ->
  GetWitness e (wit_WitnessID next) (wit_CheckpointSize next) = Ok next.
Proof.
  intros Hok Hnd Hws. unfold GetWitness. rewrite Hws.
  assert (negb (is_ok (ValidateIdentifier (wit_WitnessID next))) || (wit_CheckpointSize next =? 0)
    = false) as ->.
  { unfold witness_ok, validateWitness in Hok. destruct (negb (is_ok _) || _); [done|done]. }
  apply findWitness_ok; [done|]. split; [apply elem_of_app; right; left|done].
Qed.

(** ** Commits beside witness commits *)

(** Engines that differ by what witness commits change: rows, each of which
    keeps its key and checkpoint.  No commit looks at the pending time it replaces. *)
Record rows_moved (e e' : Engine) : Prop := {
  moved_entries : entries e' = entries e;
  moved_size : st_Size (state e') = st_Size (state e);
  moved_nodes : st_Nodes (state e') = st_Nodes (state e);
  moved_indexed : st_IndexedSeq (state e') = st_IndexedSeq (state e);
  moved_checkpoint : st_Checkpoint (state e') = st_Checkpoint (state e);
  moved_rows : exists rows, st_Witnesses (state e') ≡ₚ rows /\ Forall2 row_le (st_Witnesses (state e)) rows
}.

#[global] Instance rows_moved_preorder : PreOrder rows_moved.
Proof.
  split; [intros e; split; [done..|]; by exists (st_Witnesses (state e))|].
  intros a b c [? ? ? ? ? (k1 & Hb & H1)] [? ? ? ? ? (k2 & Hc & H2)]. split; [congruence..|].
  destruct (Permutation_Forall2 Hb H2) as (k & Hk & H3). exists k. rewrite Hc. split; [done|by etrans].
Qed.

Lemma keys_le (ws rows : list WitnessState) : Forall2 row_le ws rows -> map keyOf ws = map keyOf rows.
Proof. induction 1 as [|w w' ws ws' [Hk _] _ IH]; [done|]. cbn [map]. by rewrite IH, Hk. Qed.

Lemma existingRows_moved (ws ws' rows : list WitnessState) (k : string) :
  NoDup (map keyOf ws) -> NoDup (map keyOf ws') -> ws' ≡ₚ rows -> Forall2 row_le ws rows ->
  wit_Checkpoint <$> existingRows ws' !! k = wit_Checkpoint <$> existingRows ws !! k.
Proof.
  intros Hnd Hnd' Hp Hrows. destruct (existingRows ws !! k) as [w|] eqn:Hw.
  - apply existingRows_lookup in Hw as [Hin Hk]; [|done]. apply list_elem_of_lookup in Hin as [i Hi].
    destruct (Forall2_lookup_l _ _ _ _ _ Hrows Hi) as (w' & Hi' & Hkey & Hc).
    rewrite (proj2 (existingRows_lookup ws' k w' Hnd')); [cbn; by rewrite Hc|]. split; [|congruence].
    rewrite Hp. by eapply list_elem_of_lookup_2.
  - apply existingRows_None in Hw; [|done]. rewrite (proj2 (existingRows_None ws' k Hnd')); [done|].
    intros Hin. apply Hw. rewrite Hp in Hin. apply list_elem_of_fmap in Hin as (w' & -> & Hin).
    apply list_elem_of_lookup in Hin as [i Hi]. destruct (Forall2_lookup_r _ _ _ _ _ Hrows Hi) as (w & Hw' & Hkey & _).
    rewrite <- Hkey. apply list_elem_of_fmap_2. by eapply list_elem_of_lookup_2.
Qed.

Lemma addedWitnesses_moved (existing existing' : gmap string WitnessState) (ws : list WitnessState) (seen : gset string)
    (added : list WitnessState) :
  (forall k, wit_Checkpoint <$> existing' !! k = wit_Checkpoint <$> existing !! k) ->
  addedWitnesses existing' ws seen added = addedWitnesses existing ws seen added.
Proof.
  intros Hk. revert seen added. induction ws as [|w ws IH]; intros seen added; [done|]. cbn [addedWitnesses].
  destruct (bool_decide _); [done|]. specialize (Hk (keyOf w)).
  destruct (existing !! keyOf w) as [c|], (existing' !! keyOf w) as [c'|]; cbn in Hk; try done.
  injection Hk as ->. by destruct (negb _).
Qed.

(** A commit checks of the rows only their keys and checkpoints, so it adds the
    same ones after witness commits. *)
Lemma ApplyCLL_moved `{DT : DtMmr} (e e' : Engine) (expectedSize : Z) (expectedCheckpoint : option bytes) (next : State) :
  engine_ok e -> engine_ok e' -> rows_moved e e' ->
  let commit added ws := Ok (with_rows next (st_Nodes next) (ws ++ added)) in
  exists added,
    ApplyCLL (state e) expectedSize expectedCheckpoint next = (a ← added; commit a (st_Witnesses (state e))) /\
    ApplyCLL (state e') expectedSize expectedCheckpoint next = (a ← added; commit a (st_Witnesses (state e'))).
Proof.
  intros He He' [_ Hsize Hnodes Hindexed Hcp (rows & Hp & Hrows)]. cbv zeta.
  assert (forall k, wit_Checkpoint <$> existingRows (st_Witnesses (state e')) !! k =
    wit_Checkpoint <$> existingRows (st_Witnesses (state e)) !! k) as Hex.
  { intros k. eapply existingRows_moved; [apply He|apply He'|exact Hp|exact Hrows]. }
  unfold ApplyCLL, validateCLLTransition. rewrite Hsize, Hnodes, Hindexed, Hcp, (addedWitnesses_moved _ _ _ _ _ Hex).
  destruct (_ || _); [by exists (Err ErrContention)|]. destruct (validateState _ _) as [[]|err]; [|by exists (Err err)].
  cbn [mbind result_bind]. destruct (_ || _); [by exists (Err ErrInvalid)|].
  destruct (_ <? _); [by exists (Err ErrInvalid)|]. destruct (checkpointTransition _ _) as [[]|err]; [|by exists (Err err)].
  cbn [mbind result_bind]. exists (addedWitnesses (existingRows (st_Witnesses (state e))) (st_Witnesses next) ∅ []).
  destruct (addedWitnesses _ _ _ _); [|done]. cbn [mbind result_bind].
  by rewrite cloneStateHeader_id, cloneBytesList_id, !CloneWitness_map.
Qed.

Section Claims.
Context `{DT : DtMmr}.

Lemma CommitWitness_cases (e : Engine) (expectedAttempts : Z) (next : WitnessState) :
  engine_ok e ->
  (~ witness_ok next /\ CommitWitness e expectedAttempts next = (e, Err ErrInvalid)) \/
  (witness_ok next /\ ~ cas_row (st_Witnesses (state e)) expectedAttempts next /\
   CommitWitness e expectedAttempts next = (e, Err ErrContention)) \/
  (witness_ok next /\ cas_row (st_Witnesses (state e)) expectedAttempts next /\
   exists pre w post, st_Witnesses (state e) = pre ++ w :: post /\ keyOf w = keyOf next /\
     CommitWitness e expectedAttempts next =
       (MkEngine (entries e) (byValue e)
          (with_rows (state e) (st_Nodes (state e)) (pre ++ next :: post)), Ok tt)).
Proof.
  intros He. pose proof (wf_keys _ (ok_state _ He)) as Hk. unfold CommitWitness, ApplyWitness.
  destruct (validateWitness_cases next ErrInvalid) as [[Hok ->]|[Hbad ->]]; [right|by left].
  cbn [mbind result_bind].
  destruct (replaceWitness_outcome (st_Witnesses (state e)) expectedAttempts next)
    as [Hni|pre w post Hws Hw Hd|pre w post Hws Hni Hw Ha Hc]; cbn [mbind result_bind].
  - left. split_and!; [done| |done]. intros (w & Hin & Hw & _). apply Hni. rewrite <- Hw.
    by apply list_elem_of_fmap_2.
  - left. split_and!; [done| |done]. intros (w' & Hin & Hw' & Ha & Hc). rewrite Hws in *.
    assert (w' = w) as ->; [|tauto].
    assert (findWitness (keyOf next) (pre ++ w :: post) = Ok w') as H1 by by apply findWitness_ok.
    assert (findWitness (keyOf next) (pre ++ w :: post) = Ok w) as H2.
    { apply findWitness_ok; [done|]. split; [|done]. apply elem_of_app. right. left. }
    congruence.
  - right. split_and!; [done| |].
    + exists w. rewrite Hws. split_and!; try done. apply elem_of_app. right. left.
    + by exists pre, w, post.
Qed.

Lemma CommitWitness_moves (e : Engine) (expectedAttempts : Z) (next : WitnessState) :
  engine_ok e -> rows_moved e (fst (CommitWitness e expectedAttempts next)).
Proof.
  intros He. destruct (CommitWitness_cases e expectedAttempts next He)
    as [[_ ->]|[(_ & _ & ->)|(_ & (x & Hin & Hx & _ & Hc) & pre & w & post & Hws & Hk & ->)]]; [reflexivity..|].
  split; [done..|]. cbn [fst state with_rows st_Witnesses]. rewrite Hws. eexists. split; [done|].
  apply Forall2_app; [done|]. constructor; [|done]. split; [done|].
  assert (x = w) as <-; [|done]. pose proof (wf_keys _ (ok_state _ He)) as Hnd.
  assert (findWitness (keyOf next) (st_Witnesses (state e)) = Ok x) as H1 by by apply findWitness_ok.
  assert (findWitness (keyOf next) (st_Witnesses (state e)) = Ok w) as H2; [|congruence].
  apply findWitness_ok; [done|]. split; [rewrite Hws; apply elem_of_app; right; left|done].
Qed.

(** C12: [PendingWitnesses] returns, for a portable time and a limit in range,
    the first [limit] of the due rows (no receipt, not permanent, due by
    [now]), in strictly increasing order of checkpoint size and then witness;
    every other query is refused with [ErrInvalid]. *)
Theorem pending_rows_are_due_and_ordered (e : Engine) (now limit : Z) :
  engine_ok e ->
  (badTime now = false /\ 1 <= limit <= MaxWitnesses ->
   exists due, due ≡ₚ List.filter (duePending now) (st_Witnesses (state e)) /\
     StronglySorted row_before due /\
     PendingWitnesses e now limit = Ok (take (Z.to_nat limit) due)) /\
  (badTime now = true \/ limit < 1 \/ MaxWitnesses < limit ->
   PendingWitnesses e now limit = Err ErrInvalid).
Proof.
  intros He. unfold PendingWitnesses. split.
  - intros (Ht & Hl). rewrite Ht, !(proj2 (Z.ltb_ge _ _)) by lia. cbn [orb].
    rewrite CloneWitness_map. eexists. split; [apply SliceStable_perm|]. split.
    + apply SliceStable_sorted. pose proof (wf_keys _ (ok_state _ He)) as Hk. revert Hk.
      generalize (st_Witnesses (state e)). clear. intros l. induction l as [|x l IH]; [done|].
      cbn [map List.filter]. intros [Hni Hnd]%NoDup_cons. destruct (duePending now x); [|by apply IH].
      cbn [map]. apply NoDup_cons. split; [|by apply IH].
      intros (y & Hy & [Hin _]%list_elem_of_In%filter_In)%list_elem_of_fmap. apply Hni. rewrite Hy.
      apply list_elem_of_fmap_2. by apply list_elem_of_In.
    + destruct (Z.ltb_spec limit (zlen (SliceStable pendingLess
        (List.filter (duePending now) (st_Witnesses (state e)))))) as [|Hge]; [done|].
      unfold zlen in Hge. by rewrite take_ge by lia.
  - intros [->|[Hl|Hl]]; [done| |].
    + by rewrite (proj2 (Z.ltb_lt _ _) Hl), orb_true_r.
    + by rewrite (proj2 (Z.ltb_lt _ _) Hl), orb_true_r.
Qed.

(** C13: [CommitWitness] replaces exactly the row of its key, and only when the
    row has the expected attempt count and the same checkpoint; afterwards
    [GetWitness] returns the new row for that key and the same answer as before
    for every other key.  An invalid row is [ErrInvalid] and a missing or
    changed one [ErrContention], and both leave the engine as it was. *)
Theorem witness_commit_is_cas (e : Engine) (expectedAttempts : Z) (next : WitnessState) :
  engine_ok e ->
  (~ witness_ok next -> CommitWitness e expectedAttempts next = (e, Err ErrInvalid)) /\
  (witness_ok next -> ~ cas_row (st_Witnesses (state e)) expectedAttempts next ->
   CommitWitness e expectedAttempts next = (e, Err ErrContention)) /\
  (witness_ok next -> cas_row (st_Witnesses (state e)) expectedAttempts next ->
   exists e', CommitWitness e expectedAttempts next = (e', Ok tt) /\
     GetWitness e' (wit_WitnessID next) (wit_CheckpointSize next) = Ok next /\
     (forall id size, WitnessKey id size <> keyOf next -> GetWitness e' id size = GetWitness e id size) /\
     entries e' = entries e /\ st_Nodes (state e') = st_Nodes (state e) /\
     st_Checkpoint (state e') = st_Checkpoint (state e)).
Proof.
  intros He. destruct (CommitWitness_cases e expectedAttempts next He)
    as [[Hbad Heq]|[(Hok & Hno & Heq)|(Hok & Hrow & pre & w & post & Hws & Hk & Heq)]].
  - split_and!; [done|done|done].
  - split_and!; [done|done|done].
  - split_and!; [done|done|]. intros _ _. eexists. split; [exact Heq|].
    pose proof (wf_keys _ (ok_state _ He)) as Hkeys. rewrite Hws in Hkeys.
    split_and!; try done.
    + apply (GetWitness_row _ pre next post); [done| |done].
      rewrite map_app in *. cbn [map] in *. by rewrite <- Hk.
    + intros id size Hne. unfold GetWitness. destruct (_ || _); [done|].
      cbn [state with_rows st_Witnesses]. rewrite Hws. apply findWitness_replace; congruence.
Qed.

(** No update is lost: when a witness commit has been accepted and has
    changed the attempt count, any other commit for that row still expecting
    the old count is refused and changes nothing. *)
Lemma stale_witness_commit_refused (e e' : Engine) (expectedAttempts : Z) (n1 n2 : WitnessState) :
  engine_ok e -> CommitWitness e expectedAttempts n1 = (e', Ok tt) ->
  wit_Attempts n1 <> expectedAttempts -> witness_ok n2 -> keyOf n2 = keyOf n1 ->
  CommitWitness e' expectedAttempts n2 = (e', Err ErrContention).
Proof.
  intros He H1 Hne Hok2 Hk.
  destruct (perform_step e (OpCommitWitness expectedAttempts n1) He I) as [He' _].
  cbn [perform] in He'. rewrite H1 in He'. cbn [fst] in He'.
  destruct (CommitWitness_cases e expectedAttempts n1 He)
    as [[_ Heq]|[(_ & _ & Heq)|(_ & _ & pre & w & post & Hws & Hkw & Heq)]]; try congruence.
  rewrite H1 in Heq. injection Heq as ->.
  destruct (CommitWitness_cases _ expectedAttempts n2 He') as [[Hbad _]|[(_ & _ & Heq2)|(_ & Hrow & _)]];
    [done|exact Heq2|exfalso].
  destruct Hrow as (x & Hin & Hx & Ha & _). cbn [state with_rows st_Witnesses] in Hin.
  pose proof (wf_keys _ (ok_state _ He')) as Hkeys. cbn [state with_rows st_Witnesses] in Hkeys.
  assert (findWitness (keyOf n1) (pre ++ n1 :: post) = Ok x) as F1 by (apply findWitness_ok; [done|]; split; [done|congruence]).
  assert (findWitness (keyOf n1) (pre ++ n1 :: post) = Ok n1) as F2.
  { apply findWitness_ok; [done|]. split; [|done]. apply elem_of_app. right. left. }
  congruence.
Qed.

End Claims.

(** ** Witnesses *)

Import Ref.

Definition pendingEngine : Engine :=
  fst (CommitCLL (DT := dt_reference) sampleEngine 0 None sampleNext).

Lemma pendingEngine_ok : engine_ok (DT := dt_reference) pendingEngine.
Proof. exact (proj1 (CommitCLL_step (DT := dt_reference) sampleEngine 0 None sampleNext sampleEngine_ok)). Qed.

Definition retried (attempts : Z) : WitnessState :=
  MkWitness "https://witness.example" 1 [Byte.x01] attempts 1700000005000000000 None false "busy".

Lemma pending_rows_are_due_and_ordered_witness :
  exists due, due ≡ₚ List.filter (duePending 1800000000000000000) (st_Witnesses (state pendingEngine)) /\
    StronglySorted row_before due /\
    PendingWitnesses pendingEngine 1800000000000000000 5 = Ok (take (Z.to_nat 5) due).
Proof.
  apply (pending_rows_are_due_and_ordered (DT := dt_reference) pendingEngine); [apply pendingEngine_ok|].
  split; [reflexivity|unfold MaxWitnesses; lia].
Defined.

Lemma witness_commit_is_cas_witness :
  exists e', CommitWitness pendingEngine 0 (retried 1) = (e', Ok tt) /\
    GetWitness e' "https://witness.example" 1 = Ok (retried 1) /\
    (forall id size, WitnessKey id size <> keyOf (retried 1) ->
       GetWitness e' id size = GetWitness pendingEngine id size) /\
    entries e' = entries pendingEngine /\ st_Nodes (state e') = st_Nodes (state pendingEngine) /\
    st_Checkpoint (state e') = st_Checkpoint (state pendingEngine).
Proof.
  apply (witness_commit_is_cas (DT := dt_reference) pendingEngine 0 (retried 1));
    [apply pendingEngine_ok|vm_compute; reflexivity|].
  exists sampleRow. split_and!; [vm_compute; left|reflexivity|reflexivity|reflexivity].
Defined.

End EngineWitness.
