(* ===== verification/Wire.v ===== *)
(** * The wire form of entries, rows and states: [src/internal/backend/wire.go]

    The records written to journals and metadata columns, with their base64,
    decimal and time fields.  Encoding to JSON text is not part of this file. *)

From Stdlib.Strings Require Import Ascii.
From S2P Require Import Prelude Text Base64 Hex DtMmr Mmr Cll Portable Engine.
Import Text Cll Portable Engine.

Module Wire.

Local Open Scope Z_scope.

(** ** Records *)

Record WireEntry := MkWireEntry {
  we_Seq : string;
  we_Value : string;
  we_AppendedAt : string
}.

Record WireWitness := MkWireWitness {
  ww_WitnessID : string;
  ww_CheckpointSize : string;
  ww_Checkpoint : string;
  ww_Attempts : Z;
  ww_NextAttemptAt : string;
  ww_Receipt : option string;
  ww_EntryHash : string;
  ww_EntryHashScheme : string;
  ww_LeafIndex : option Z;
  ww_TreeSize : option Z;
  ww_Permanent : bool;
  ww_LastError : string
}.

Record WireState := MkWireState {
  ws_Size : string;
  ws_IndexedSeq : string;
  ws_Nodes : list string;
  ws_FirstPendingAt : option string;
  ws_Checkpoint : option string;
  ws_CheckpointSize : option string;
  ws_CheckpointIndexedSeq : option string;
  ws_CheckpointPeaks : option (list string);
  ws_Witnesses : list WireWitness
}.

(** ** Fields *)

(** [value == "" || (len(value) > 1 && value[0] == '0')], then [ParseUint]. *)
Definition parseDecimal (value : string) : option Z :=
  match value with
  | EmptyString => None
  | String c (String _ _) => if bool_decide (c = "0"%char) then None else ParseUint value
  | _ => ParseUint value
  end.

Definition ParseDecimal (value : string) : option Z := parseDecimal value.

Definition encode (bs : bytes) : string := Base64.EncodeToString bs.

(** [base64.StdEncoding.Strict().DecodeString], an error as [ErrCorrupt]. *)
Definition decode (text : string) : result bytes :=
  match Base64.StrictDecodeString text with Some bs => Ok bs | None => Err ErrCorrupt end.

Definition decimal (text : string) : result Z :=
  match parseDecimal text with Some n => Ok n | None => Err ErrCorrupt end.

Definition timestamp (text : string) : result Z :=
  match ParseTime text with Ok t => Ok t | Err _ => Err ErrCorrupt end.

(** ** Entries *)

Definition EntryToWire (entry : Entry) : result WireEntry :=
  timestamp ← FormatTime (entry_AppendedAt entry);
  Ok (MkWireEntry (FormatUint (entry_Seq entry)) (encode (entry_Value entry)) timestamp).

Definition EntryFromWire (wire : WireEntry) : result Entry :=
  seq ← decimal (we_Seq wire);
  if (seq =? 0) || (MaxPortableInteger <? seq) then Err ErrCorrupt
  else
    value ← decode (we_Value wire);
    if negb (zlen value =? EntryBytes) then Err ErrCorrupt
    else
      appendedAt ← timestamp (we_AppendedAt wire);
      Ok (MkEntry seq value appendedAt).

(** ** Witness rows *)

Definition WitnessToWire (value : WitnessState) : result WireWitness :=
  timestamp ← FormatTime (wit_NextAttemptAt value);
  let fields receipt hash scheme leaf size :=
    MkWireWitness (wit_WitnessID value) (FormatUint (wit_CheckpointSize value))
      (encode (wit_Checkpoint value)) (wit_Attempts value) timestamp receipt hash scheme leaf size
      (wit_Permanent value) (wit_LastError value) in
  Ok (match wit_Receipt value with
      | Some r =>
          fields (Some (encode (receipt_Bytes r))) (receipt_EntryHash r) (receipt_EntryHashScheme r)
            (receipt_LeafIndex r) (receipt_TreeSize r)
      | None => fields None EmptyString EmptyString None None
      end).

(** The receipt of a row; without one, no receipt field may be present. *)
Definition receiptFromWire (wire : WireWitness) : result (option WitnessReceiptState) :=
  match ww_Receipt wire with
  | Some text =>
      receipt ← decode text;
      Ok (Some (MkReceipt receipt (ww_EntryHash wire) (ww_EntryHashScheme wire)
                  (ww_LeafIndex wire) (ww_TreeSize wire)))
  | None =>
      if negb (bool_decide (ww_EntryHash wire = EmptyString)) ||
         negb (bool_decide (ww_EntryHashScheme wire = EmptyString)) ||
         negb (bool_decide (ww_LeafIndex wire = None)) || negb (bool_decide (ww_TreeSize wire = None))
      then Err ErrCorrupt
      else Ok None
  end.

Definition WitnessFromWire (wire : WireWitness) : result WitnessState :=
  size ← decimal (ww_CheckpointSize wire);
  checkpoint ← decode (ww_Checkpoint wire);
  next ← timestamp (ww_NextAttemptAt wire);
  receipt ← receiptFromWire wire;
  let value := MkWitness (ww_WitnessID wire) size checkpoint (ww_Attempts wire) next receipt
                 (ww_Permanent wire) (ww_LastError wire) in
  _ ← validateWitness value ErrCorrupt;
  Ok value.

(** ** States *)

Definition StateToWire (value : State) : result WireState :=
  pending ← match st_FirstPendingAt value with
            | Some t => encoded ← FormatTime t; Ok (Some encoded)
            | None => Ok None
            end;
  witnesses ← traverse WitnessToWire (st_Witnesses value);
  let fields checkpoint size indexed peaks :=
    MkWireState (FormatUint (st_Size value)) (FormatUint (st_IndexedSeq value))
      (map encode (st_Nodes value)) pending checkpoint size indexed peaks witnesses in
  Ok (match st_Checkpoint value with
      | Some c =>
          fields (Some (encode (cpt_Bytes c))) (Some (FormatUint (cpt_Size c)))
            (Some (FormatUint (cpt_IndexedSeq c))) (Some (map encode (cpt_Peaks c)))
      | None => fields None None None None
      end).

(** The checkpoint tuple: all four fields or none. *)
Definition checkpointFromWire (wire : WireState) : result (option CheckpointState) :=
  match ws_Checkpoint wire, ws_CheckpointSize wire, ws_CheckpointIndexedSeq wire,
        ws_CheckpointPeaks wire with
  | None, None, None, None => Ok None
  | Some checkpoint, Some size, Some indexed, Some peaks =>
      checkpoint ← decode checkpoint;
      size ← decimal size;
      indexed ← decimal indexed;
      peaks ← traverse decode peaks;
      Ok (Some (MkCheckpoint checkpoint size indexed peaks))
  | _, _, _, _ => Err ErrCorrupt
  end.

Definition stateFromWire (wire : WireState) : result State :=
  size ← decimal (ws_Size wire);
  indexed ← decimal (ws_IndexedSeq wire);
  nodes ← traverse decode (ws_Nodes wire);
  pending ← match ws_FirstPendingAt wire with
            | Some text => t ← timestamp text; Ok (Some t)
            | None => Ok None
            end;
  checkpoint ← checkpointFromWire wire;
  witnesses ← traverse WitnessFromWire (ws_Witnesses wire);
  Ok (MkState size nodes indexed pending checkpoint witnesses).

Definition StateDeltaFromWire (wire : WireState) : result State := stateFromWire wire.

Definition StateFromWire `{DT : DtMmr} (wire : WireState) : result State :=
  value ← stateFromWire wire;
  _ ← validateState value ErrCorrupt;
  Ok value.

End Wire.
