(* ===== verification/WireProofs.v ===== *)
(** * Round trips of the wire form

    Encoding a valid value and decoding it gives the value with its times
    rounded down to the millisecond, which is what a reopened log contains;
    whatever decodes is valid. *)

From Stdlib.Strings Require Import Ascii.
From S2P Require Import Prelude Text Base64 Hex DtMmr DtMmrRef Mmr Cll Portable PortableFormat.
From S2P Require Import Engine EngineLog EngineState EngineHistory Wire.
Import Text Cll Portable PortableFormat Engine EngineLog EngineState EngineHistory Wire.

Module WireProofs.

Local Open Scope Z_scope.

(** ** Fields *)

Lemma parseDecimal_FormatUint (n : Z) : 0 <= n < two64 -> parseDecimal (FormatUint n) = Some n.
Proof.
  intros Hn. pose proof (ParseUint_FormatUint n Hn) as Hp. unfold parseDecimal.
  destruct (FormatUint_canonical n (proj1 Hn)) as [Hz|(c & s & Hs & Hc)].
  - rewrite Hz in *. exact Hp.
  - rewrite Hs in *. destruct s; [exact Hp|]. by rewrite bool_decide_false.
Qed.

Lemma decimal_FormatUint (n : Z) : 0 <= n < two64 -> decimal (FormatUint n) = Ok n.
Proof. intros Hn. unfold decimal. by rewrite parseDecimal_FormatUint. Qed.

Lemma decode_encode (bs : bytes) : decode (encode bs) = Ok bs.
Proof. unfold decode, encode. by rewrite Base64.StrictDecodeString_EncodeToString. Qed.

Lemma badTime_false (t : Z) : badTime t = false <-> ValidateTime t = Ok tt.
Proof. unfold badTime. destruct (ValidateTime t) as [[]|]; done. Qed.

Lemma timestamp_FormatTime (t : Z) :
  badTime t = false -> exists s, FormatTime t = Ok s /\ timestamp s = Ok (NormalizeTime t).
Proof.
  intros (s & Hs & Hp)%badTime_false%ParseTime_FormatTime. exists s. unfold timestamp. by rewrite Hp.
Qed.

Lemma timestamp_Ok (s : string) (t : Z) :
  timestamp s = Ok t -> badTime t = false /\ NormalizeTime t = t.
Proof.
  unfold timestamp. destruct (ParseTime s) as [t'|] eqn:Hp; [|done]. intros [= <-].
  apply ParseTime_Ok in Hp as (_ & ? & ?). by rewrite badTime_false.
Qed.

Lemma traverse_map {A B C} (f : B -> result C) (g : A -> B) (h : A -> C) (l : list A) :
  (forall a, a ∈ l -> f (g a) = Ok (h a)) -> traverse f (map g l) = Ok (map h l).
Proof.
  intros Hf. apply traverse_Ok. apply Forall2_fmap_l, Forall2_fmap_r, Forall_Forall2_diag, Forall_forall.
  exact Hf.
Qed.

Lemma traverse_decode (l : list bytes) : traverse decode (map encode l) = Ok l.
Proof.
  rewrite <- (map_id l) at 2. apply traverse_map. intros a _. apply decode_encode.
Qed.

(** ** Normal forms: what a reopened log contains *)

Definition normalEntry (entry : Entry) : Entry :=
  MkEntry (entry_Seq entry) (entry_Value entry) (NormalizeTime (entry_AppendedAt entry)).

Definition normalWitness (w : WitnessState) : WitnessState :=
  MkWitness (wit_WitnessID w) (wit_CheckpointSize w) (wit_Checkpoint w) (wit_Attempts w)
    (NormalizeTime (wit_NextAttemptAt w)) (wit_Receipt w) (wit_Permanent w) (wit_LastError w).

Definition normalState (s : State) : State :=
  MkState (st_Size s) (st_Nodes s) (st_IndexedSeq s) (NormalizeTime <$> st_FirstPendingAt s)
    (st_Checkpoint s) (map normalWitness (st_Witnesses s)).

Lemma normalWitness_ok (w : WitnessState) : witness_ok (normalWitness w) <-> witness_ok w.
Proof.
  unfold witness_ok, validateWitness, normalWitness.
  cbn [wit_WitnessID wit_CheckpointSize wit_Checkpoint wit_NextAttemptAt wit_Receipt wit_LastError].
  by rewrite badTime_normalize.
Qed.

Lemma normalState_wf `{DT : DtMmr} (s : State) : state_wf s -> state_wf (normalState s).
Proof.
  intros [Hsize Hl Hp Hc Hn Hr Hk]. split; cbn [normalState st_Size st_Nodes st_IndexedSeq st_FirstPendingAt
    st_Checkpoint st_Witnesses]; try done.
  - destruct (st_FirstPendingAt s) as [t|]; [|done]. cbn. by rewrite badTime_normalize.
  - rewrite Forall_map. eapply Forall_impl; [exact Hr|]. intros w. cbn. by rewrite normalWitness_ok.
  - rewrite map_map. exact Hk.
Qed.

(** ** Machine ranges: the Go types of the counters *)

Definition u64 (n : Z) : Prop := 0 <= n < two64.

Record state_u64 (s : State) : Prop := {
  u64_size : u64 (st_Size s);
  u64_indexed : u64 (st_IndexedSeq s);
  u64_checkpoint : forall c, st_Checkpoint s = Some c -> u64 (cpt_Size c) /\ u64 (cpt_IndexedSeq c);
  u64_rows : Forall (fun w => u64 (wit_CheckpointSize w)) (st_Witnesses s)
}.

(** ** Entries *)

Lemma entry_roundtrip (i : Z) (entry : Entry) :
  0 <= i -> entry_ok i entry ->
  exists wire, EntryToWire entry = Ok wire /\ EntryFromWire wire = Ok (normalEntry entry).
Proof.
  intros Hi [Hseq Hmax Hw Ht]. destruct (timestamp_FormatTime _ Ht) as (s & Hs & Hp).
  unfold EntryToWire. rewrite Hs. cbn [mbind result_bind]. eexists. split; [done|].
  unfold EntryFromWire. cbn [we_Seq we_Value we_AppendedAt].
  assert (MaxPortableInteger < two64) by done.
  rewrite decimal_FormatUint by (unfold MaxPortableInteger in *; lia). cbn [mbind result_bind].
  rewrite (proj2 (Z.eqb_neq _ _)), (proj2 (Z.ltb_ge _ _)) by lia. cbn [orb].
  rewrite decode_encode. cbn [mbind result_bind]. rewrite Hw, Z.eqb_refl. cbn [negb].
  by rewrite Hp.
Qed.

Lemma EntryFromWire_Ok (wire : WireEntry) (entry : Entry) :
  EntryFromWire wire = Ok entry ->
  entry_ok (entry_Seq entry - 1) entry /\ entry_Seq entry <> 0 /\ normalEntry entry = entry.
Proof.
  unfold EntryFromWire. destruct (decimal _) as [seq|]; [|done]. cbn [mbind result_bind].
  destruct (_ || _) eqn:Hseq; [done|]. apply orb_false_iff in Hseq as [H0%Z.eqb_neq Hmax%Z.ltb_ge].
  destruct (decode _) as [v|]; [|done]. cbn [mbind result_bind].
  destruct (Z.eqb_spec (zlen v) EntryBytes) as [Hw|]; [|done]. cbn [negb].
  destruct (timestamp _) as [t|] eqn:Ht; [|done]. cbn [mbind result_bind]. intros [= <-].
  apply timestamp_Ok in Ht as [Hb Hn]. split_and!; [split; cbn; try done; lia|done|].
  unfold normalEntry. cbn. by rewrite Hn.
Qed.

(** ** Witness rows *)

Lemma witness_roundtrip (w : WitnessState) :
  witness_ok w -> u64 (wit_CheckpointSize w) ->
  exists wire, WitnessToWire w = Ok wire /\ WitnessFromWire wire = Ok (normalWitness w).
Proof.
  intros Hok Hsize. assert (badTime (wit_NextAttemptAt w) = false) as Ht.
  { unfold witness_ok, validateWitness in Hok. destruct (_ || _) eqn:Hg; [done|].
    rewrite !orb_false_iff in Hg. tauto. }
  destruct (timestamp_FormatTime _ Ht) as (s & Hs & Hp).
  unfold WitnessToWire. rewrite Hs. cbn [mbind result_bind]. eexists. split; [done|].
  assert (validateWitness (normalWitness w) ErrCorrupt = Ok tt) as Hv.
  { destruct (validateWitness_cases (normalWitness w) ErrCorrupt) as [[_ H]|[H _]]; [done|].
    destruct H. by apply normalWitness_ok. }
  unfold WitnessFromWire. destruct (wit_Receipt w) as [r|] eqn:Hr;
    cbn [ww_WitnessID ww_CheckpointSize ww_Checkpoint ww_Attempts ww_NextAttemptAt ww_Permanent ww_LastError];
    rewrite decimal_FormatUint, decode_encode, Hp by done; cbn [mbind result_bind];
    unfold receiptFromWire;
    cbn [ww_Receipt ww_EntryHash ww_EntryHashScheme ww_LeafIndex ww_TreeSize].
  - rewrite decode_encode. cbn [mbind result_bind].
    unfold normalWitness in *. rewrite Hr in *. destruct r. cbn [receipt_Bytes receipt_EntryHash
      receipt_EntryHashScheme receipt_LeafIndex receipt_TreeSize] in *. by rewrite Hv.
  - cbn [negb bool_decide orb mbind result_bind]. rewrite !bool_decide_true by done. cbn [negb orb mbind result_bind].
    unfold normalWitness in *. rewrite Hr in *. by rewrite Hv.
Qed.

Lemma WitnessFromWire_Ok (wire : WireWitness) (w : WitnessState) :
  WitnessFromWire wire = Ok w -> witness_ok w /\ normalWitness w = w.
Proof.
  unfold WitnessFromWire. destruct (decimal _) as [size|]; [|done]. cbn [mbind result_bind].
  destruct (decode _) as [cp|]; [|done]. cbn [mbind result_bind].
  destruct (timestamp _) as [t|] eqn:Ht; [|done]. cbn [mbind result_bind].
  destruct (receiptFromWire wire) as [r|]; [|done]. cbn [mbind result_bind].
  destruct (validateWitness_cases (MkWitness (ww_WitnessID wire) size cp (ww_Attempts wire) t r
    (ww_Permanent wire) (ww_LastError wire)) ErrCorrupt) as [[Hok ->]|[_ ->]]; [|done].
  cbn [mbind result_bind]. intros [= <-]. split; [done|]. apply timestamp_Ok in Ht as [_ Hn].
  unfold normalWitness. cbn. by rewrite Hn.
Qed.

(** ** States *)

Lemma rows_roundtrip (ws : list WitnessState) :
  Forall witness_ok ws -> Forall (fun w => u64 (wit_CheckpointSize w)) ws ->
  exists wires, traverse WitnessToWire ws = Ok wires /\
    traverse WitnessFromWire wires = Ok (map normalWitness ws).
Proof.
  intros Hok Hu. induction Hok as [|w ws Hw Hok IH]; [by exists []|].
  apply Forall_cons in Hu as [Hs Hu]. destruct (IH Hu) as (wires & H1 & H2).
  destruct (witness_roundtrip w Hw Hs) as (wire & Ht & Hf). exists (wire :: wires).
  cbn [traverse map]. rewrite Ht, Hf. cbn [mbind result_bind]. rewrite H1, H2. done.
Qed.

Lemma pending_roundtrip (p : option Z) :
  pending_ok p ->
  exists encoded,
    match p with Some t => (e ← FormatTime t; Ok (Some e)) | None => Ok None end = Ok encoded /\
    match encoded with Some text => (t ← timestamp text; Ok (Some t)) | None => Ok None end =
      Ok (NormalizeTime <$> p).
Proof.
  destruct p as [t|]; [|by exists None]. intros (s & Hs & Hp)%timestamp_FormatTime.
  exists (Some s). rewrite Hs. cbn [mbind result_bind]. by rewrite Hp.
Qed.

Section Laws.
Context `{DT : DtMmr}.

Lemma state_roundtrip (s : State) :
  pending_ok (st_FirstPendingAt s) -> Forall witness_ok (st_Witnesses s) -> state_u64 s ->
  exists wire, StateToWire s = Ok wire /\ stateFromWire wire = Ok (normalState s).
Proof.
  intros Hp Hr [Us Ui Uc Ur].
  destruct (rows_roundtrip _ Hr Ur) as (wires & Htw & Hfw).
  destruct (pending_roundtrip _ Hp) as (encoded & Hte & Hfe).
  unfold StateToWire. rewrite Hte. cbn [mbind result_bind]. rewrite Htw. cbn [mbind result_bind].
  eexists. split; [done|]. unfold stateFromWire, checkpointFromWire, normalState.
  destruct (st_Checkpoint s) as [c|] eqn:Hcp;
    cbn [ws_Size ws_IndexedSeq ws_Nodes ws_FirstPendingAt ws_Checkpoint ws_CheckpointSize
         ws_CheckpointIndexedSeq ws_CheckpointPeaks ws_Witnesses];
    rewrite (decimal_FormatUint (st_Size s)), (decimal_FormatUint (st_IndexedSeq s)) by done;
    cbn [mbind result_bind];
    rewrite (traverse_decode (st_Nodes s)); cbn [mbind result_bind]; rewrite Hfe; cbn [mbind result_bind].
  - destruct (Uc c eq_refl) as [Ucs Uci].
    rewrite decode_encode. cbn [mbind result_bind]. rewrite !decimal_FormatUint by done.
    cbn [mbind result_bind]. rewrite traverse_decode. cbn [mbind result_bind]. rewrite Hfw.
    cbn [mbind result_bind]. by destruct c.
  - rewrite Hfw. done.
Qed.

Lemma stateFromWire_normal (wire : WireState) (s : State) :
  stateFromWire wire = Ok s -> normalState s = s.
Proof.
  unfold stateFromWire.
  intros (size & _ & (indexed & _ & (nodes & _ & (p & Hp & (c & _ & (ws & Hw & Hs)%bind_Ok)%bind_Ok)%bind_Ok)%bind_Ok)%bind_Ok)%bind_Ok.
  revert Hs.
  intros [= <-]. unfold normalState. cbn. f_equal.
  - destruct (ws_FirstPendingAt wire) as [text|]; [|by injection Hp as <-].
    destruct (timestamp text) as [t|] eqn:Ht; [|done]. cbn [mbind result_bind] in Hp.
    injection Hp as <-. apply timestamp_Ok in Ht as [_ Ht]. cbn. by rewrite Ht.
  - apply traverse_Ok in Hw. clear -Hw. induction Hw as [|wx w wires rows Hx Hw IH]; [done|].
    cbn [map]. rewrite IH. by apply WitnessFromWire_Ok in Hx as [_ ->].
Qed.

(** ** Claims *)

(** A valid entry, witness row or state encodes to its wire form, and
    decoding the wire form gives it back with its times rounded down to the
    millisecond; the decoded state is valid. *)
Lemma wire_roundtrip (entry : Entry) (w : WitnessState) (s : State) :
  entry_ok (entry_Seq entry - 1) entry -> 1 <= entry_Seq entry ->
  witness_ok w -> u64 (wit_CheckpointSize w) -> state_wf s -> state_u64 s ->
  (exists wire, EntryToWire entry = Ok wire /\ EntryFromWire wire = Ok (normalEntry entry)) /\
  (exists wire, WitnessToWire w = Ok wire /\ WitnessFromWire wire = Ok (normalWitness w)) /\
  (exists wire, StateToWire s = Ok wire /\ StateFromWire wire = Ok (normalState s)).
Proof.
  intros He Hseq Hw Hu Hs Hsu. split_and!.
  - apply (entry_roundtrip (entry_Seq entry - 1)); [lia|done].
  - by apply witness_roundtrip.
  - destruct (state_roundtrip s (wf_pending _ Hs) (wf_rows _ Hs) Hsu) as (wire & Ht & Hf). exists wire. split; [done|].
    unfold StateFromWire. rewrite Hf. cbn [mbind result_bind].
    by rewrite (proj2 (proj2 (validateState_cases _ ErrCorrupt)) (normalState_wf s Hs)).
Qed.

(** Whatever decodes is valid and in normal form: an entry with a portable
    sequence, identity and time, a valid witness row, a valid state; so what is
    read back once reads back the same ever after. *)
Lemma decoded_values_are_valid (we : WireEntry) (ww : WireWitness) (ws : WireState) :
  (forall entry, EntryFromWire we = Ok entry ->
     entry_ok (entry_Seq entry - 1) entry /\ entry_Seq entry <> 0 /\ normalEntry entry = entry) /\
  (forall w, WitnessFromWire ww = Ok w -> witness_ok w /\ normalWitness w = w) /\
  (forall s, StateFromWire ws = Ok s -> state_wf s /\ normalState s = s).
Proof.
  split_and!; [apply EntryFromWire_Ok|apply WitnessFromWire_Ok|].
  intros s. unfold StateFromWire. destruct (stateFromWire ws) as [s'|] eqn:Hs; [|done].
  cbn [mbind result_bind]. destruct (validateState_cases s' ErrCorrupt) as [[Hv|Hv] Hi]; rewrite Hv; [|done].
  cbn [mbind result_bind]. intros [= <-]. split; [by apply Hi|by eapply stateFromWire_normal].
Qed.

End Laws.

(** The strict decoder is not injective: line breaks inside the text are skipped. *)
Lemma decode_skips_newlines :
  decode (String "A" (String (ascii_of_N 10) "A==")) = decode "AA==" /\ is_ok (decode "AA==") = true.
Proof. vm_compute. done. Qed.

End WireProofs.
