(* ===== verification/NodeStore.v ===== *)
(** * The durable node store: [src/mmr/node_store.go]

    A flat file of 32-byte records.  Every operation of the operating system
    takes its outcome as an argument: a call that can only fail is a [check],
    and a write reports how many bytes reached the file before it failed.  A
    crash is a write that stops early, after which the file is reopened. *)

From S2P Require Import Prelude Sha256 Geometry DtMmr Mmr.

Module NodeStore.

Local Open Scope Z_scope.

Definition hashSize : nat := 32.

Record FileNodeStore := MkFileNodeStore {
  file : bytes;
  nodeCount : Z
}.

Record OpenReport := MkOpenReport {
  NodeCount : Z;
  TruncatedBytes : Z
}.

(** The outcome of a write: everything, or an error after some bytes. *)
Inductive WriteOutcome :=
| Written
| Failed (count : nat) (cause : error).

(** [WriteAt]: the bytes of [data] at offset [off], the rest unchanged; a file
    that is too short is extended with zeros. *)
Definition overwrite (contents : bytes) (off : nat) (data : bytes) : bytes :=
  take off contents ++ replicate (off - length contents) Byte.x00 ++ data ++
  drop (off + length data) contents.

Definition writeAt (contents : bytes) (off : nat) (data : bytes) (outcome : WriteOutcome) :
    bytes * check :=
  match outcome with
  | Written => (overwrite contents off data, Ok tt)
  | Failed count cause => (overwrite contents off (take count data), Err cause)
  end.

(** ** Opening *)

(** The file [OpenFileNodeStore] leaves and what it returns. *)
Definition OpenFileNodeStore (opened stated truncated synced : check) (contents : bytes) :
    bytes * result (FileNodeStore * OpenReport) :=
  match opened, stated with
  | Err err, _ => (contents, Err err)
  | _, Err err => (contents, Err err)
  | Ok _, Ok _ =>
      let len := zlen contents in
      let wholeRecords := len / 32 in
      let truncatedBytes := len mod 32 in
      let report := MkOpenReport wholeRecords truncatedBytes in
      if negb (truncatedBytes =? 0) then
        match truncated with
        | Err err => (contents, Err err)
        | Ok _ =>
            let contents := take (Z.to_nat (wholeRecords * 32)) contents in
            match synced with
            | Err err => (contents, Err err)
            | Ok _ => (contents, Ok (MkFileNodeStore contents wholeRecords, report))
            end
        end
      else (contents, Ok (MkFileNodeStore contents wholeRecords, report))
  end.

(** ** Reading and appending *)

Definition Size (s : FileNodeStore) : Z := nodeCount s.

(** [read] is the outcome of [ReadAt]; a file that ends inside the record is an
    unexpected end of file. *)
Definition Get (read : check) (s : FileNodeStore) (i : Z) : result bytes :=
  if nodeCount s <=? i then Err (ErrText "dtmmr.ErrNotFound")
  else
    _ ← read;
    let buffer := take hashSize (drop (Z.to_nat (i * 32)) (file s)) in
    if zlen buffer =? 32 then Ok buffer else Err (ErrText "EOF").

Definition Append (written : WriteOutcome) (synced : check) (s : FileNodeStore) (value : bytes) :
    FileNodeStore * result Z :=
  if negb (zlen value =? 32) then (s, Err (ErrText "MMR node must be exactly 32 bytes"))
  else
    let '(contents, r) := writeAt (file s) (Z.to_nat (nodeCount s * 32)) value written in
    let s := MkFileNodeStore contents (nodeCount s) in
    match r with
    | Err err => (s, Err err)
    | Ok _ =>
        match synced with
        | Err err => (s, Err err)
        | Ok _ => (MkFileNodeStore contents (nodeCount s + 1), Ok (nodeCount s + 1))
        end
    end.

(** [Nodes] with every read succeeding. *)
Definition Nodes (s : FileNodeStore) : result (list bytes) :=
  traverse (fun i => Get (Ok tt) s (Z.of_nat i)) (seq 0 (Z.to_nat (nodeCount s))).

Section Trees.
Context `{DT : DtMmr}.

Definition NewFromNodeStore (s : FileNodeStore) : result Mmr.Tree :=
  nodes ← Nodes s;
  Mmr.New nodes.

(** The loop of [RebuildFileNodeStoreFromLeaves] over the leaf values. *)
Fixpoint appendLeaves (s : FileNodeStore) (values : list bytes) : result FileNodeStore :=
  match values with
  | [] => Ok s
  | value :: rest =>
      if Mmr.badWidth value then Err (ErrText "CLL leaf value must be exactly 32 bytes")
      else
        match AddHashedLeaf (Get (Ok tt)) (Append Written (Ok tt)) sha256 s (Mmr.leafHash value) with
        | (s', Ok _) => appendLeaves s' rest
        | (_, Err err) => Err err
        end
  end.

(** Whatever file was there is removed first. *)
Definition RebuildFileNodeStoreFromLeaves (removed opened : check) (leafBodyDigests : list bytes) :
    result FileNodeStore :=
  _ ← removed;
  _ ← opened;
  appendLeaves (MkFileNodeStore [] 0) leafBodyDigests.

End Trees.

End NodeStore.
