(* ===== verification/NodeStoreProofs.v ===== *)
(** * The node file keeps its nodes

    Opening keeps the whole records and drops a torn tail; appending extends
    the records; a crash while a record is appended to a clean file loses at
    most that record; rebuilding gives the nodes of the tree of the values. *)

From S2P Require Import Prelude Sha256 Geometry DtMmr DtMmrRef Hex Mmr MmrBuild NodeStore.
Import Geometry Ref MmrBuild NodeStore.

Module NodeStoreProofs.

Local Open Scope Z_scope.

(** ** Records *)

Definition record (v : bytes) : Prop := length v = 32%nat.

(** The store holds [ns]; after them the file may hold what failed appends left. *)
Record holds (s : FileNodeStore) (ns : list bytes) : Prop := {
  holds_count : nodeCount s = zlen ns;
  holds_records : Forall record ns;
  holds_file : exists tail, file s = concat ns ++ tail
}.

(** Nothing follows the records. *)
Record clean (s : FileNodeStore) (ns : list bytes) : Prop := {
  clean_count : nodeCount s = zlen ns;
  clean_records : Forall record ns;
  clean_file : file s = concat ns
}.

Lemma clean_holds (s : FileNodeStore) (ns : list bytes) : clean s ns -> holds s ns.
Proof. intros [? ? Hf]. split; [done|done|]. exists []. by rewrite app_nil_r. Qed.

Lemma concat_records (ns : list bytes) : Forall record ns -> length (concat ns) = (32 * length ns)%nat.
Proof.
  induction 1 as [|v ns Hv Hns IH]; [done|]. unfold record in Hv. cbn [concat length].
  rewrite length_app. lia.
Qed.

Lemma record_offset (s : FileNodeStore) (ns : list bytes) :
  holds s ns -> Z.to_nat (nodeCount s * 32) = length (concat ns).
Proof.
  intros [Hc Hr _]. rewrite concat_records, Hc by done. unfold zlen. lia.
Qed.

Lemma concat_split (ns : list bytes) (i : nat) (v : bytes) :
  Forall record ns -> ns !! i = Some v ->
  exists pre post, concat ns = pre ++ v ++ post /\ length pre = (32 * i)%nat.
Proof.
  intros Hr Hi. exists (concat (take i ns)), (concat (drop (S i) ns)).
  rewrite <- (take_drop_middle ns i v Hi) at 1. rewrite concat_app. cbn [concat]. split; [done|].
  rewrite concat_records by by apply Forall_take.
  apply lookup_lt_Some in Hi. rewrite length_take. lia.
Qed.

Lemma Get_holds (s : FileNodeStore) (ns : list bytes) (i : nat) (v : bytes) :
  holds s ns -> ns !! i = Some v -> Get (Ok tt) s (Z.of_nat i) = Ok v.
Proof.
  intros [Hc Hr [tail Hf]] Hi. unfold Get.
  pose proof (lookup_lt_Some _ _ _ Hi). rewrite Hc.
  rewrite (proj2 (Z.leb_gt _ _)) by (unfold zlen; lia). cbn [mbind result_bind].
  destruct (concat_split ns i v Hr Hi) as (pre & post & Heq & Hpre).
  assert (record v) as Hv by (by eapply (Forall_lookup_1 _ _ _ _ Hr)). unfold record in Hv.
  rewrite Hf, Heq, <- !app_assoc.
  replace (Z.to_nat (Z.of_nat i * 32)) with (length pre) by lia.
  rewrite drop_app_length, (take_app_length' v) by done.
  unfold zlen. by rewrite Hv.
Qed.

Lemma Nodes_holds (s : FileNodeStore) (ns : list bytes) : holds s ns -> Nodes s = Ok ns.
Proof.
  intros Hs. unfold Nodes. rewrite (holds_count _ _ Hs). unfold zlen. rewrite Nat2Z.id.
  apply traverse_Ok. apply Forall2_same_length_lookup. split; [by rewrite length_seq|].
  intros i k v Hk Hv. apply lookup_seq in Hk as [-> _]. by apply Get_holds with ns.
Qed.

(** ** Appending *)

Lemma overwrite_end (a tail data : bytes) :
  overwrite (a ++ tail) (length a) data = a ++ data ++ drop (length data) tail.
Proof.
  unfold overwrite. rewrite take_app_length, length_app.
  replace (length a - (length a + length tail))%nat with 0%nat by lia. cbn [replicate app].
  by rewrite drop_app_add.
Qed.

Lemma Append_ok (s : FileNodeStore) (ns : list bytes) (v : bytes) :
  holds s ns -> record v ->
  exists s', Append Written (Ok tt) s v = (s', Ok (zlen ns + 1)) /\ holds s' (ns ++ [v]).
Proof.
  intros Hs Hv. pose proof (record_offset s ns Hs) as Hoff. destruct Hs as [Hc Hr [tail Hf]].
  unfold Append, record in *. rewrite (proj2 (Z.eqb_eq (zlen v) 32)) by (unfold zlen; lia). cbn [negb].
  unfold writeAt. rewrite Hoff, Hf, overwrite_end. cbn [nodeCount]. rewrite Hc.
  eexists. split; [done|]. split.
  - cbn [nodeCount]. by rewrite zlen_app.
  - apply Forall_app. split; [done|by constructor].
  - exists (drop (length v) tail). cbn [file]. rewrite concat_app. cbn [concat].
    by rewrite app_nil_r, <- app_assoc.
Qed.

Lemma Append_clean (s : FileNodeStore) (ns : list bytes) (v : bytes) :
  clean s ns -> record v ->
  exists s', Append Written (Ok tt) s v = (s', Ok (zlen ns + 1)) /\ clean s' (ns ++ [v]).
Proof.
  intros Hs Hv. pose proof (record_offset s ns (clean_holds _ _ Hs)) as Hoff. destruct Hs as [Hc Hr Hf].
  unfold Append, record in *. rewrite (proj2 (Z.eqb_eq (zlen v) 32)) by (unfold zlen; lia). cbn [negb].
  pose proof (overwrite_end (concat ns) [] v) as Hw. rewrite app_nil_r in Hw.
  unfold writeAt. rewrite Hoff, Hf, Hw. cbn [nodeCount]. rewrite Hc. eexists. split; [done|]. split.
  - cbn [nodeCount]. by rewrite zlen_app.
  - apply Forall_app. split; [done|by constructor].
  - cbn [file]. rewrite concat_app, drop_nil. cbn [concat]. by rewrite !app_nil_r.
Qed.

(** A refused or failed append leaves the nodes as they were. *)
Lemma Append_fail (s : FileNodeStore) (ns : list bytes) (v : bytes) (w : WriteOutcome) (sync : check) :
  holds s ns -> is_ok (snd (Append w sync s v)) = false -> holds (fst (Append w sync s v)) ns.
Proof.
  intros Hs. pose proof (record_offset s ns Hs) as Hoff. destruct Hs as [Hc Hr [tail Hf]].
  unfold Append. destruct (negb _); [intros _; split; [done|done|by exists tail]|].
  unfold writeAt. rewrite Hoff, Hf. destruct w as [|k cause].
  - rewrite overwrite_end. destruct sync; [done|]. intros _. split; [done|done|]. by eexists.
  - rewrite overwrite_end. intros _. split; [done|done|]. by eexists.
Qed.

(** ** Opening *)

(** The whole records of a file. *)
Fixpoint chunks (n : nat) (contents : bytes) : list bytes :=
  match n with
  | O => []
  | S n' => take 32 contents :: chunks n' (drop 32 contents)
  end.

Lemma chunks_records (n : nat) (contents : bytes) :
  (32 * n <= length contents)%nat ->
  Forall record (chunks n contents) /\ length (chunks n contents) = n /\
  concat (chunks n contents) = take (32 * n) contents.
Proof.
  revert contents. induction n as [|n IH]; intros c Hl; cbn [chunks].
  { split_and!; [constructor|done|]. by rewrite Nat.mul_0_r, take_0. }
  destruct (IH (drop 32 c)) as (Hr & Hn & Hcat); [rewrite length_drop; lia|]. split_and!.
  - constructor; [|done]. unfold record. rewrite length_take. lia.
  - cbn [length]. by rewrite Hn.
  - cbn [concat]. rewrite Hcat. replace (32 * S n)%nat with (32 + 32 * n)%nat by lia.
    by rewrite <- take_take_drop.
Qed.

Lemma chunks_concat (ns : list bytes) (tail : bytes) :
  Forall record ns -> chunks (length ns) (concat ns ++ tail) = ns.
Proof.
  induction 1 as [|v ns Hv Hns IH]; [done|]. cbn [length chunks concat].
  rewrite <- app_assoc. unfold record in Hv. by rewrite take_app_length', drop_app_length', IH.
Qed.

Lemma Open_spec (contents : bytes) :
  let n := (length contents / 32)%nat in
  exists s, OpenFileNodeStore (Ok tt) (Ok tt) (Ok tt) (Ok tt) contents =
      (file s, Ok (s, MkOpenReport (Z.of_nat n) (Z.of_nat (length contents mod 32)))) /\
    clean s (chunks n contents).
Proof.
  cbv zeta. set (n := (length contents / 32)%nat).
  assert (zlen contents / 32 = Z.of_nat n) as Hdiv by (unfold zlen, n; rewrite Nat2Z.inj_div; done).
  assert (zlen contents mod 32 = Z.of_nat (length contents mod 32)) as Hmod
    by (unfold zlen; rewrite Nat2Z.inj_mod; done).
  assert (32 * n <= length contents)%nat as Hle by (unfold n; apply Nat.Div0.mul_div_le).
  destruct (chunks_records n contents Hle) as (Hr & Hn & Hcat).
  unfold OpenFileNodeStore. rewrite Hdiv, Hmod.
  replace (Z.to_nat (Z.of_nat n * 32)) with (32 * n)%nat by lia.
  destruct (Z.eqb_spec (Z.of_nat (length contents mod 32)) 0) as [Hz|Hnz]; cbn [negb].
  - exists (MkFileNodeStore contents (Z.of_nat n)). split; [reflexivity|].
    split; cbn [nodeCount file]; [unfold zlen; by rewrite Hn|done|]. rewrite Hcat, take_ge; [done|]. pose proof (Nat.div_mod_eq (length contents) 32). unfold n. lia.
  - exists (MkFileNodeStore (take (32 * n) contents) (Z.of_nat n)). split; [reflexivity|].
    split; cbn [nodeCount file]; [unfold zlen; by rewrite Hn|done|]. by rewrite Hcat.
Qed.

Lemma clean_unique (s s' : FileNodeStore) (ns : list bytes) : clean s ns -> clean s' ns -> s = s'.
Proof. destruct s, s'. intros [? _ ?] [? _ ?]. cbn in *. by subst. Qed.

Lemma Open_records (ns : list bytes) (tail : bytes) :
  Forall record ns -> (length tail < 32)%nat ->
  exists s, OpenFileNodeStore (Ok tt) (Ok tt) (Ok tt) (Ok tt) (concat ns ++ tail) =
      (file s, Ok (s, MkOpenReport (zlen ns) (zlen tail))) /\ clean s ns.
Proof.
  intros Hr Ht. destruct (Open_spec (concat ns ++ tail)) as (s & Ho & Hs). exists s.
  rewrite length_app, concat_records, (Nat.mul_comm 32) in Ho, Hs by done.
  rewrite Nat.add_comm in Ho, Hs.
  rewrite Nat.div_add, Nat.div_small in Ho, Hs by lia. cbn [Nat.add] in Ho, Hs.
  rewrite Nat.Div0.mod_add, Nat.mod_small in Ho by lia.
  rewrite chunks_concat in Hs by done. split; [exact Ho|done].
Qed.

(** ** Rebuilding *)

Section Rebuild.
Context `{DT : DtMmr} `{!DtMmrLaws DT}.

Lemma file_represents : store_represents (Get (Ok tt)) (Append Written (Ok tt)) clean.
Proof.
  split.
  - intros s ns i v Hs Hv. pose proof (zget_Some_range _ _ _ Hv) as Hi.
    replace i with (Z.of_nat (Z.to_nat i)) by lia. apply Get_holds with ns; [by apply clean_holds|].
    by rewrite <- zget_lookup by lia.
  - intros s ns v Hs Hv _. by apply Append_clean.
Qed.

(** The file store follows the in-memory tree node for node. *)
Lemma appendLeaf_follows (s : FileNodeStore) (t : Mmr.Tree) (vs : list bytes) (v : bytes) :
  clean s (Mmr.nodes t) -> commits t vs -> zlen vs < max_leaves -> record v ->
  exists s' t' size,
    AddHashedLeaf (Get (Ok tt)) (Append Written (Ok tt)) sha256 s (Mmr.leafHash v) = (s', Ok size) /\
    Mmr.Append t v = (t', Ok size) /\ clean s' (Mmr.nodes t') /\ commits t' (vs ++ [v]).
Proof.
  intros Hs Hc Hmax Hv. pose proof (commits_length t vs Hc) as (Hlen & Hn & _).
  destruct (law_AddHashedLeaf FileNodeStore _ _ _ sha256 s (Mmr.nodes t) (Mmr.leafHash v) (zlen vs)
    file_represents Sha256.sum256_length Hs Hlen ltac:(lia) (leafHash_length v)) as (s' & Happ & Hs').
  destruct (Append_commits t vs v Hc Hmax Hv) as (t' & added & Ha & _ & Hc').
  destruct (law_AddHashedLeaf Mmr.Tree Mmr.nodeStore_Get Mmr.nodeStore_Append
    (fun t ns => Mmr.nodes t = ns) sha256 t (Mmr.nodes t) (Mmr.leafHash v) (zlen vs)
    nodeStore_represents Sha256.sum256_length eq_refl Hlen ltac:(lia) (leafHash_length v))
    as (t'' & Happ' & Ht'').
  exists s', t', (mmr_size (zlen vs + 1)).
  assert (t'' = t' /\ zlen (Mmr.nodes t'') = mmr_size (zlen vs + 1)) as [-> Hsize].
  { revert Ha. unfold Mmr.Append. rewrite badWidth_ok, Happ' by done. rewrite <- Ht''.
    intros [= <- <-]. done. }
  rewrite <- Hsize, Ht'' at 1. rewrite Ht''. done.
Qed.

Lemma appendLeaves_commits (vs : list bytes) (s : FileNodeStore) (t : Mmr.Tree) (pre : list bytes) :
  clean s (Mmr.nodes t) -> commits t pre -> zlen (pre ++ vs) <= max_leaves -> Forall record vs ->
  exists s' t', appendLeaves s vs = Ok s' /\ clean s' (Mmr.nodes t') /\ commits t' (pre ++ vs).
Proof.
  intros Hs Hc Hmax Hvs. revert s t pre Hs Hc Hmax. induction Hvs as [|v vs Hv _ IH]; intros s t pre Hs Hc Hmax.
  { exists s, t. by rewrite app_nil_r. }
  rewrite zlen_app, zlen_cons in Hmax. pose proof (zlen_nonneg vs).
  destruct (appendLeaf_follows s t pre v Hs Hc ltac:(lia) Hv) as (s' & t' & size & Ha & _ & Hs' & Hc').
  cbn [appendLeaves]. rewrite badWidth_ok, Ha by done.
  replace (pre ++ v :: vs) with ((pre ++ [v]) ++ vs) by by rewrite <- app_assoc. apply (IH s' t'); [done|done|].
  rewrite !zlen_app, zlen_cons. change (zlen []) with 0. lia.
Qed.

Lemma appendLeaves_bad_width (vs : list bytes) (s : FileNodeStore) :
  ~ Forall record vs -> is_ok (appendLeaves s vs) = false.
Proof.
  revert s. induction vs as [|v vs IH]; intros s Hvs; [by destruct Hvs|]. cbn [appendLeaves].
  destruct (Mmr.badWidth v) eqn:Hv; [done|]. apply badWidth_false in Hv.
  destruct (AddHashedLeaf _ _ _ _ _) as [s' [?|?]]; [|done]. apply IH.
  intros Hr. apply Hvs. by constructor.
Qed.

End Rebuild.

(** ** Properties *)

(** Opening any file keeps exactly its whole records, reports how many
    there are and how many trailing bytes were dropped, and leaves the file cut
    at the last record; reading the nodes back gives those records, so nothing
    but the torn tail is lost, and opening again changes nothing and reports no
    torn tail. *)
Lemma open_recovers_whole_records (contents : bytes) :
  exists s ns torn,
    OpenFileNodeStore (Ok tt) (Ok tt) (Ok tt) (Ok tt) contents =
      (file s, Ok (s, MkOpenReport (zlen ns) (zlen torn))) /\
    contents = concat ns ++ torn /\ (length torn < 32)%nat /\ Forall record ns /\
    file s = concat ns /\ Size s = zlen ns /\ Nodes s = Ok ns /\
    OpenFileNodeStore (Ok tt) (Ok tt) (Ok tt) (Ok tt) (file s) =
      (file s, Ok (s, MkOpenReport (zlen ns) 0)).
Proof.
  set (n := (length contents / 32)%nat).
  assert (32 * n <= length contents)%nat as Hle by (unfold n; apply Nat.Div0.mul_div_le).
  pose proof (Nat.div_mod_eq (length contents) 32) as Hdm. fold n in Hdm.
  pose proof (Nat.mod_upper_bound (length contents) 32 ltac:(done)) as Hmod.
  destruct (chunks_records n contents Hle) as (Hr & _ & Hcat).
  set (ns := chunks n contents) in *. set (torn := drop (32 * n) contents).
  assert (length torn < 32)%nat as Ht by (unfold torn; rewrite length_drop; lia).
  assert (contents = concat ns ++ torn) as Hc by (unfold torn; by rewrite Hcat, take_drop).
  destruct (Open_records ns torn Hr Ht) as (s & Ho & Hs).
  destruct (Open_records ns [] Hr ltac:(cbn; lia)) as (s' & Ho' & Hs').
  rewrite app_nil_r, (clean_unique s' s ns Hs' Hs) in Ho'.
  exists s, ns, torn. rewrite Hc at 1. rewrite (clean_file s ns Hs) in *.
  split_and!; try done; [by apply holds_count, clean_holds|by apply Nodes_holds, clean_holds].
Qed.

(** C19: on a store that holds the nodes [ns] (possibly with the remains of
    failed appends behind them), every node can be read and no other index;
    appending a 32-byte node adds it at the end and returns the new count; an
    append that is refused, or that fails while writing or while syncing, leaves
    the count and the nodes as they were, so a retry starts from the same
    place. *)
Theorem node_store_refines_list (s : FileNodeStore) (ns : list bytes) :
  holds s ns ->
  Nodes s = Ok ns /\ Size s = zlen ns /\
  (forall i v, ns !! i = Some v -> Get (Ok tt) s (Z.of_nat i) = Ok v) /\
  (forall read i, zlen ns <= i -> Get read s i = Err (ErrText "dtmmr.ErrNotFound")) /\
  (forall v, record v ->
     exists s', Append Written (Ok tt) s v = (s', Ok (zlen ns + 1)) /\ holds s' (ns ++ [v])) /\
  (forall v written synced, ~ record v -> Append written synced s v = (s, Err (ErrText "MMR node must be exactly 32 bytes"))) /\
  (forall v written synced, is_ok (snd (Append written synced s v)) = false ->
     holds (fst (Append written synced s v)) ns).
Proof.
  intros Hs. split_and!.
  - by apply Nodes_holds.
  - apply Hs.
  - intros i v. by apply Get_holds.
  - intros read i Hi. unfold Get. by rewrite (holds_count _ _ Hs), (proj2 (Z.leb_le _ _)).
  - intros v. by apply Append_ok.
  - intros v w sy Hv. unfold Append. unfold record in Hv.
    by rewrite (proj2 (Z.eqb_neq (zlen v) 32)) by (unfold zlen; lia).
  - intros v w sy. by apply Append_fail.
Qed.

(** C20: a crash while a node is appended to a file with nothing behind its
    records, after any number of its bytes reached the file, loses at most that
    node: reopening gives the old nodes and reports the torn bytes, unless the
    whole record was written, in which case the new node is there too. *)
Theorem crash_loses_at_most_one_record (s : FileNodeStore) (ns : list bytes) (v : bytes)
    (written : nat) (cause : error) (synced : check) :
  clean s ns -> record v ->
  exists s' report,
    OpenFileNodeStore (Ok tt) (Ok tt) (Ok tt) (Ok tt) (file (fst (Append (Failed written cause) synced s v))) =
      (file s', Ok (s', report)) /\
    clean s' (if (written <? 32)%nat then ns else ns ++ [v]) /\
    TruncatedBytes report = if (written <? 32)%nat then Z.of_nat written else 0.
Proof.
  intros Hs Hv. pose proof (record_offset s ns (clean_holds _ _ Hs)) as Hoff.
  pose proof Hs as [Hc Hr Hf]. pose proof (overwrite_end (concat ns) [] (take written v)) as Hw.
  unfold record in Hv. rewrite app_nil_r, drop_nil, app_nil_r in Hw.
  unfold Append. rewrite (proj2 (Z.eqb_eq (zlen v) 32)) by (unfold zlen; lia). cbn [negb].
  unfold writeAt. rewrite Hoff, Hf, Hw. cbn [fst file].
  destruct (Nat.ltb_spec written 32).
  - destruct (Open_records ns (take written v) Hr) as (s' & Ho & Hs'); [rewrite length_take; lia|].
    exists s', (MkOpenReport (zlen ns) (zlen (take written v))). split; [done|split; [done|]].
    cbn [TruncatedBytes]. unfold zlen. rewrite length_take. lia.
  - rewrite take_ge by lia.
    destruct (Open_records (ns ++ [v]) []) as (s' & Ho & Hs');
      [apply Forall_app; split; [done|by constructor]|cbn; lia|].
    rewrite concat_app in Ho. cbn [concat] in Ho. rewrite !app_nil_r in Ho.
    exists s', (MkOpenReport (zlen (ns ++ [v])) 0). done.
Qed.

(** Rebuilding the node file from leaf values of 32 bytes succeeds and
    leaves exactly the nodes of the MMR that commits to those values, so the tree
    loaded from the file is that tree; a value of another width makes the rebuild
    fail. *)
Lemma rebuild_gives_the_tree `{DT : DtMmr} `{!DtMmrLaws DT} (values : list bytes) :
  zlen values <= max_leaves ->
  (Forall record values ->
     exists s t, RebuildFileNodeStoreFromLeaves (Ok tt) (Ok tt) values = Ok s /\
       file s = concat (Mmr.nodes t) /\ NewFromNodeStore s = Ok t /\ commits t values) /\
  (~ Forall record values ->
     is_ok (RebuildFileNodeStoreFromLeaves (Ok tt) (Ok tt) values) = false).
Proof.
  intros Hmax. split; [|by apply appendLeaves_bad_width]. intros Hvs.
  destruct (appendLeaves_commits values (MkFileNodeStore [] 0) (Mmr.MkTree []) []) as (s & t & Ha & Hs & Hc);
    [by split|apply empty_commits|done|done|].
  exists s, t. split; [done|]. split; [apply Hs|]. split; [|done].
  unfold NewFromNodeStore. rewrite (Nodes_holds s (Mmr.nodes t)) by by apply clean_holds.
  cbn [mbind result_bind]. apply New_accepts. split; [by destruct t|]. exists (zlen values). apply Hc.
Qed.

(** ** What a crash can leave after a failed append *)

(** The first append writes its record but fails to sync; the next append
    crashes half-way.  The file then has one whole record, half of each node,
    and opening reports no torn tail. *)
Lemma mixed_record_is_accepted :
  let a := replicate 32 x01 in
  let b := replicate 32 x02 in
  let s0 := MkFileNodeStore [] 0 in
  let s1 := fst (Append Written (Err (ErrText "sync")) s0 a) in
  let s2 := fst (Append (Failed 16 (ErrText "crash")) (Ok tt) s1 b) in
  let mixed := replicate 16 x02 ++ replicate 16 x01 in
  OpenFileNodeStore (Ok tt) (Ok tt) (Ok tt) (Ok tt) (file s2) =
    (mixed, Ok (MkFileNodeStore mixed 1, MkOpenReport 1 0)).
Proof. vm_compute. reflexivity. Qed.

(** A crash after the leaf of [AddHashedLeaf] was appended and before its
    parent was: both records are whole, so opening reports no torn tail, and no
    tree can be loaded. *)
Lemma leaf_without_parent_is_rejected :
  let leaf b := Mmr.leafHash (replicate 32 b) in
  let s1 := fst (Append Written (Ok tt) (MkFileNodeStore [] 0) (leaf x01)) in
  let s2 := fst (Append Written (Ok tt) s1 (leaf x02)) in
  OpenFileNodeStore (Ok tt) (Ok tt) (Ok tt) (Ok tt) (file s2) = (file s2, Ok (s2, MkOpenReport 2 0)) /\
  NewFromNodeStore (DT := dt_reference) s2 = Err (ErrText "invalid complete MMR size").
Proof. vm_compute. split; reflexivity. Qed.

(** ** Witnesses *)

Definition sampleRecord : bytes := replicate 32 x01.
Definition sampleStore : FileNodeStore := MkFileNodeStore sampleRecord 1.

Lemma sampleStore_clean : clean sampleStore [sampleRecord].
Proof. split; [done|by repeat constructor|done]. Qed.

Lemma node_store_refines_list_witness :
  Nodes sampleStore = Ok [sampleRecord] /\
  holds (fst (Append Written (Err (ErrText "sync")) sampleStore sampleRecord)) [sampleRecord].
Proof.
  pose proof (node_store_refines_list sampleStore [sampleRecord] (clean_holds _ _ sampleStore_clean))
    as (Hn & _ & _ & _ & _ & _ & Hf).
  split; [exact Hn|]. apply Hf. reflexivity.
Defined.

Lemma crash_loses_at_most_one_record_witness :
  exists s' report,
    OpenFileNodeStore (Ok tt) (Ok tt) (Ok tt) (Ok tt)
      (file (fst (Append (Failed 5 (ErrText "crash")) (Ok tt) sampleStore sampleRecord))) =
      (file s', Ok (s', report)) /\
    clean s' [sampleRecord] /\ TruncatedBytes report = 5.
Proof.
  exact (crash_loses_at_most_one_record sampleStore [sampleRecord] sampleRecord 5 (ErrText "crash")
    (Ok tt) sampleStore_clean eq_refl).
Defined.

End NodeStoreProofs.
