(* ===== verification/Rfc9162.v ===== *)
(** * Receipt inclusion proofs: [src/witness/verify.go]

    The Merkle tree of RFC 9162 that a transparency log keeps, its inclusion
    paths, and [rootFromProof], which recomputes the root from a path.  The
    tree hash and the paths are defined from the RFC, without reference to the
    verifier. *)

From S2P Require Import Prelude Sha256 MmrBinding.
Import MmrBinding.

Module Rfc9162.

Local Open Scope Z_scope.

(** ** The verifier *)

Definition maxTreeSize : Z := 4611686018427387904.

Definition nodeHash (left right : bytes) : bytes := sha256 (Byte.x01 :: left ++ right).

(** [sha256.Sum256(append([]byte{0}, entry...))] *)
Definition entryLeaf (entry : bytes) : bytes := sha256 (Byte.x00 :: entry).

(** [for k <= (n-1)/2 { k *= 2 }] *)
Fixpoint powerLoop (fuel : nat) (n k : Z) : Z :=
  match fuel with
  | O => k
  | S fuel' => if k <=? Z.quot (n - 1) 2 then powerLoop fuel' n (i64 (k * 2)) else k
  end.

Definition largestPowerBelow (n : Z) : Z := if n <=? 1 then 1 else powerLoop 64 n 1.

(** [for size > 1 { ... }] *)
Fixpoint expectedLoop (fuel : nat) (size index count : Z) : Z :=
  match fuel with
  | O => count
  | S fuel' =>
      if 1 <? size then
        let k := largestPowerBelow size in
        if index <? k then expectedLoop fuel' k index (count + 1)
        else expectedLoop fuel' (size - k) (index - k) (count + 1)
      else count
  end.

Definition expectedPath (size index : Z) : Z := expectedLoop 64 size index 0.

(** The closure [fold]: [siblings] lists the remaining path from its end, and
    what is left of it is returned with the hash. *)
Fixpoint fold (leaf : bytes) (siblings : list bytes) (n m : Z) : list bytes * option bytes :=
  if n =? 1 then (siblings, Some leaf)
  else
    match siblings with
    | [] => ([], None)
    | sibling :: siblings =>
        let k := largestPowerBelow n in
        if m <? k then
          let '(rest, child) := fold leaf siblings k m in
          (rest, (fun child => nodeHash child sibling) <$> child)
        else
          let '(rest, child) := fold leaf siblings (n - k) (m - k) in
          (rest, (fun child => nodeHash sibling child) <$> child)
    end.

Definition rootFromProof (entry : bytes) (index size : Z) (path : list bytes) : option bytes :=
  if (index <? 0) || (size <=? index) || (maxTreeSize <? size) ||
     negb (zlen path =? expectedPath size index)
  then None
  else
    match fold (entryLeaf entry) (rev path) size index with
    | ([], root) => root
    | _ => None
    end.

(** ** The tree hash of RFC 9162, section 2.1 *)

(** The largest power of two smaller than [n]. *)
Definition splitPoint (n : Z) : Z := 2 ^ Z.log2 (n - 1).

Fixpoint mthFuel (fuel : nat) (entries : list bytes) : bytes :=
  match fuel, entries with
  | _, [] => sha256 []
  | _, [entry] => entryLeaf entry
  | O, _ => []
  | S fuel', _ =>
      let k := Z.to_nat (splitPoint (zlen entries)) in
      nodeHash (mthFuel fuel' (take k entries)) (mthFuel fuel' (drop k entries))
  end.

Definition mth (entries : list bytes) : bytes := mthFuel (length entries) entries.

(** The inclusion path of entry [m], from the leaf up. *)
Fixpoint pathFuel (fuel : nat) (m : Z) (entries : list bytes) : list bytes :=
  match fuel, entries with
  | _, [] => []
  | _, [_] => []
  | O, _ => []
  | S fuel', _ =>
      let k := splitPoint (zlen entries) in
      let l := take (Z.to_nat k) entries in
      let r := drop (Z.to_nat k) entries in
      if m <? k then pathFuel fuel' m l ++ [mth r] else pathFuel fuel' (m - k) r ++ [mth l]
  end.

Definition inclusionPath (m : Z) (entries : list bytes) : list bytes :=
  pathFuel (length entries) m entries.

(** ** Powers of two *)

Lemma powerLoop_spec (fuel : nat) (n i : Z) :
  0 <= i -> 2 ^ i < n < two63 -> 62 - i < Z.of_nat fuel ->
  exists j, 0 <= j /\ powerLoop fuel n (2 ^ i) = 2 ^ j /\ 2 ^ j < n <= 2 * 2 ^ j.
Proof.
  revert i. induction fuel as [|fuel IH]; intros i Hi Hn Hfuel; cbn [powerLoop].
  { pose proof (pow2_le 63 i ltac:(lia)). rewrite two63_eq in Hn. lia. }
  pose proof (pow2_pos i Hi). rewrite Z.quot_div_nonneg by lia.
  pose proof (Z.div_mod (n - 1) 2 ltac:(lia)). pose proof (Z.mod_pos_bound (n - 1) 2 ltac:(lia)).
  destruct (Z.leb_spec (2 ^ i) ((n - 1) / 2)) as [Hle|Hgt].
  - assert (2 ^ i * 2 < n) by lia. rewrite i64_small by (unfold two63 in *; lia).
    replace (2 ^ i * 2) with (2 ^ (i + 1)) in * by (rewrite pow2_succ; lia).
    apply IH; lia.
  - exists i. split_and!; [done|done|lia|lia].
Qed.

Lemma pow2_bracket (n i j : Z) :
  0 <= i -> 0 <= j -> 2 ^ i < n <= 2 * 2 ^ i -> 2 ^ j < n <= 2 * 2 ^ j -> i = j.
Proof.
  intros Hi Hj [Hi1 Hi2] [Hj1 Hj2].
  destruct (Z.lt_trichotomy i j) as [Hlt|[->|Hlt]]; [|done|].
  - pose proof (pow2_le (i + 1) j ltac:(lia)) as H. rewrite pow2_succ in H; lia.
  - pose proof (pow2_le (j + 1) i ltac:(lia)) as H. rewrite pow2_succ in H; lia.
Qed.

Lemma splitPoint_spec (n : Z) :
  2 <= n -> exists j, 0 <= j /\ splitPoint n = 2 ^ j /\ 2 ^ j < n <= 2 * 2 ^ j.
Proof.
  intros Hn. exists (Z.log2 (n - 1)). pose proof (Z.log2_spec (n - 1) ltac:(lia)) as [Hl Hu].
  pose proof (Z.log2_nonneg (n - 1)). rewrite Z.pow_succ_r in Hu by done.
  split_and!; [done|done|lia|lia].
Qed.

Lemma largestPowerBelow_split (n : Z) : 2 <= n < two63 -> largestPowerBelow n = splitPoint n.
Proof.
  intros Hn. unfold largestPowerBelow. rewrite (proj2 (Z.leb_gt _ _)) by lia.
  destruct (powerLoop_spec 64 n 0) as (i & Hi & Hp & Hbi); [lia|cbn; lia|lia|].
  change (2 ^ 0) with 1 in Hp. destruct (splitPoint_spec n) as (j & Hj & -> & Hbj); [lia|].
  rewrite Hp. f_equal. by apply (pow2_bracket n).
Qed.

(** ** Unfolding the specification *)

(** A list of at least two entries splits into a full left half and the rest. *)
Definition splits (l r : list bytes) : Prop :=
  exists j, 0 <= j /\ zlen l = 2 ^ j /\ 0 < zlen r <= 2 ^ j.

Lemma splits_point (l r : list bytes) : splits l r -> splitPoint (zlen (l ++ r)) = zlen l.
Proof.
  intros (j & Hj & Hl & Hr). rewrite zlen_app. pose proof (pow2_pos j Hj).
  destruct (splitPoint_spec (zlen l + zlen r)) as (i & Hi & -> & Hb); [lia|].
  rewrite Hl. f_equal. apply (pow2_bracket (zlen l + zlen r)); [done|done|done|lia].
Qed.

Lemma splits_exists (d : list bytes) : 2 <= zlen d -> exists l r, d = l ++ r /\ splits l r.
Proof.
  intros Hd. destruct (splitPoint_spec (zlen d) Hd) as (j & Hj & Hs & Hb).
  exists (take (Z.to_nat (2 ^ j)) d), (drop (Z.to_nat (2 ^ j)) d).
  pose proof (pow2_pos j Hj). split; [by rewrite take_drop|]. exists j.
  unfold zlen in *. rewrite length_take, length_drop. lia.
Qed.

(** Induction along the splits. *)
Lemma mth_ind (P : list bytes -> Prop) :
  (forall e, P [e]) -> (forall l r, splits l r -> P l -> P r -> P (l ++ r)) ->
  forall d, d <> [] -> P d.
Proof.
  intros Hleaf Hnode d. remember (length d) as n eqn:Hn. revert d Hn.
  induction n as [n IH] using lt_wf_ind. intros d -> Hd.
  destruct d as [|a [|b d]]; [done|apply Hleaf|].
  destruct (splits_exists (a :: b :: d)) as (l & r & Heq & Hs); [unfold zlen; cbn; lia|].
  pose proof Hs as (j & Hj & Hl & Hr). pose proof (pow2_pos j Hj). rewrite Heq in IH |- *.
  rewrite length_app in IH. unfold zlen in *.
  apply Hnode; [done| |]; (eapply IH; [|reflexivity|]; [lia|]).
  - intros ->. cbn in Hl. lia.
  - intros ->. cbn in Hr. lia.
Qed.

Lemma splits_take (l r : list bytes) :
  splits l r -> let k := Z.to_nat (splitPoint (zlen (l ++ r))) in
  take k (l ++ r) = l /\ drop k (l ++ r) = r.
Proof.
  intros Hs. cbv zeta. rewrite splits_point by done. unfold zlen. rewrite Nat2Z.id.
  by rewrite take_app_length, drop_app_length.
Qed.

Lemma splits_shape (l r : list bytes) :
  splits l r -> exists a b d, l ++ r = a :: b :: d /\
    (length l < length (l ++ r))%nat /\ (length r < length (l ++ r))%nat.
Proof.
  intros (j & Hj & Hl & Hr). pose proof (pow2_pos j Hj). unfold zlen in *. rewrite length_app.
  destruct l as [|a l]; [cbn in *; lia|]. destruct r as [|b r]; [cbn in *; lia|].
  destruct l as [|c l]; cbn [app length] in *; eexists _, _, _; (split; [reflexivity|lia]).
Qed.

Lemma mthFuel_step (fuel : nat) (l r : list bytes) :
  splits l r -> mthFuel (S fuel) (l ++ r) = nodeHash (mthFuel fuel l) (mthFuel fuel r).
Proof.
  intros Hs. destruct (splits_shape l r Hs) as (a & b & d & Heq & _ & _).
  pose proof (splits_take l r Hs) as [Ht Hd]. rewrite Heq in Ht, Hd |- *. cbn [mthFuel].
  by rewrite Ht, Hd.
Qed.

Lemma pathFuel_step (fuel : nat) (m : Z) (l r : list bytes) :
  splits l r ->
  pathFuel (S fuel) m (l ++ r) =
    if m <? zlen l then pathFuel fuel m l ++ [mth r] else pathFuel fuel (m - zlen l) r ++ [mth l].
Proof.
  intros Hs. destruct (splits_shape l r Hs) as (a & b & d & Heq & _ & _).
  pose proof (splits_take l r Hs) as [Ht Hd]. rewrite <- (splits_point l r Hs).
  rewrite Heq in Ht, Hd |- *. cbn [pathFuel]. by rewrite Ht, Hd.
Qed.

(** One entry, or a split with smaller halves. *)
Lemma entries_cases (d : list bytes) :
  d = [] \/ (exists e, d = [e]) \/
  exists l r, d = l ++ r /\ splits l r /\ (length l < length d)%nat /\ (length r < length d)%nat.
Proof.
  destruct d as [|a [|b d]]; [by left|right; left; by exists a|right; right].
  destruct (splits_exists (a :: b :: d)) as (l & r & -> & Hs); [unfold zlen; cbn; lia|].
  exists l, r. destruct (splits_shape l r Hs) as (_ & _ & _ & _ & Hl & Hr). done.
Qed.

Lemma mthFuel_fuel (n f g : nat) (d : list bytes) :
  (length d <= n)%nat -> (length d <= f)%nat -> (length d <= g)%nat -> mthFuel f d = mthFuel g d.
Proof.
  revert f g d. induction n as [|n IH]; intros f g d Hn Hf Hg.
  all: destruct (entries_cases d) as [->|[[e ->]|(l & r & -> & Hs & Hl & Hr)]]; [by destruct f, g| |];
    [by destruct f, g|].
  - lia.
  - destruct f as [|f], g as [|g]; [lia..|]. rewrite !mthFuel_step by done.
    by rewrite (IH f g l), (IH f g r) by lia.
Qed.

Lemma pathFuel_fuel (n f g : nat) (m : Z) (d : list bytes) :
  (length d <= n)%nat -> (length d <= f)%nat -> (length d <= g)%nat ->
  pathFuel f m d = pathFuel g m d.
Proof.
  revert f g m d. induction n as [|n IH]; intros f g m d Hn Hf Hg.
  all: destruct (entries_cases d) as [->|[[e ->]|(l & r & -> & Hs & Hl & Hr)]]; [by destruct f, g| |];
    [by destruct f, g|].
  - lia.
  - destruct f as [|f], g as [|g]; [lia..|]. rewrite !pathFuel_step by done.
    by rewrite (IH f g m l), (IH f g _ r) by lia.
Qed.

Lemma mth_app (l r : list bytes) : splits l r -> mth (l ++ r) = nodeHash (mth l) (mth r).
Proof.
  intros Hs. destruct (splits_shape l r Hs) as (_ & _ & _ & _ & Hl & Hr). unfold mth.
  destruct (length (l ++ r)) as [|n]; [lia|]. rewrite mthFuel_step by done.
  by rewrite (mthFuel_fuel n n (length l) l), (mthFuel_fuel n n (length r) r) by lia.
Qed.

Lemma inclusionPath_app (m : Z) (l r : list bytes) :
  splits l r ->
  inclusionPath m (l ++ r) =
    if m <? zlen l then inclusionPath m l ++ [mth r] else inclusionPath (m - zlen l) r ++ [mth l].
Proof.
  intros Hs. destruct (splits_shape l r Hs) as (_ & _ & _ & _ & Hl & Hr). unfold inclusionPath.
  destruct (length (l ++ r)) as [|n]; [lia|]. rewrite pathFuel_step by done.
  by rewrite (pathFuel_fuel n n (length l) m l), (pathFuel_fuel n n (length r) _ r) by lia.
Qed.

(** ** The verifier on honest paths *)

Lemma splits_lpb (l r : list bytes) :
  splits l r -> zlen (l ++ r) < two63 -> largestPowerBelow (zlen (l ++ r)) = zlen l.
Proof.
  intros Hs Hlt. rewrite <- (splits_point l r Hs). apply largestPowerBelow_split.
  destruct Hs as (j & Hj & Hl & Hr). pose proof (pow2_pos j Hj). rewrite zlen_app in *. lia.
Qed.

Lemma expectedLoop_path (d : list bytes) (i : nat) (fuel : nat) (m count : Z) :
  d <> [] -> zlen d <= 2 ^ Z.of_nat i -> zlen d < two63 -> 0 <= m < zlen d -> (i <= fuel)%nat ->
  expectedLoop fuel (zlen d) m count = count + zlen (inclusionPath m d).
Proof.
  intros Hd. revert i fuel m count. revert d Hd.
  apply (mth_ind (fun d => forall i fuel m count, zlen d <= 2 ^ Z.of_nat i -> zlen d < two63 ->
    0 <= m < zlen d -> (i <= fuel)%nat ->
    expectedLoop fuel (zlen d) m count = count + zlen (inclusionPath m d))).
  - intros e i fuel m count _ _ _ _. change (inclusionPath m [e]) with (@nil bytes).
    change (zlen (@nil bytes)) with 0. rewrite Z.add_0_r. by destruct fuel.
  - intros l r Hs IHl IHr i fuel m count Hi Hlt Hm Hf.
    pose proof Hs as (j & Hj & Hl & Hr). pose proof (pow2_pos j Hj).
    pose proof (splits_lpb l r Hs Hlt) as Hk. rewrite zlen_app in *.
    assert (j < Z.of_nat i) as Hji.
    { destruct (Z.lt_ge_cases j (Z.of_nat i)); [done|].
      pose proof (pow2_le (Z.of_nat i) j ltac:(lia)). lia. }
    destruct i as [|i]; [lia|]. destruct fuel as [|fuel]; [lia|].
    assert (2 ^ j <= 2 ^ Z.of_nat i) by (apply pow2_le; lia).
    cbn [expectedLoop]. rewrite (proj2 (Z.ltb_lt 1 _)) by lia. rewrite Hk, (inclusionPath_app m l r Hs).
    destruct (Z.ltb_spec m (zlen l)).
    + rewrite (IHl i) by lia. rewrite zlen_app. change (zlen [mth r]) with 1. lia.
    + replace (zlen l + zlen r - zlen l) with (zlen r) by lia.
      rewrite (IHr i) by lia. rewrite zlen_app. change (zlen [mth l]) with 1. lia.
Qed.

Lemma fold_path (d rest : list bytes) (m : Z) (entry : bytes) :
  d <> [] -> zlen d < two63 -> zget d m = Some entry ->
  fold (entryLeaf entry) (rev (inclusionPath m d) ++ rest) (zlen d) m = (rest, Some (mth d)).
Proof.
  intros Hd. revert d Hd rest m.
  apply (mth_ind (fun d => forall rest m, zlen d < two63 -> zget d m = Some entry ->
    fold (entryLeaf entry) (rev (inclusionPath m d) ++ rest) (zlen d) m = (rest, Some (mth d)))).
  - intros e rest m _ Hm. pose proof (zget_Some_range _ _ _ Hm) as Hr. change (zlen [e]) with 1 in Hr.
    replace m with 0 in * by lia. injection Hm as ->. by destruct rest.
  - intros l r Hs IHl IHr rest m Hlt Hm. pose proof Hs as (j & Hj & Hl & Hr).
    pose proof (pow2_pos j Hj). pose proof (splits_lpb l r Hs Hlt) as Hk.
    pose proof (mth_app l r Hs) as Hroot. pose proof (inclusionPath_app m l r Hs) as Hp.
    rewrite Hp, Hroot. rewrite zlen_app in *. destruct (Z.ltb_spec m (zlen l)) as [Hml|Hml].
    + rewrite rev_unit. cbn [app fold]. rewrite (proj2 (Z.eqb_neq _ 1)) by lia.
      rewrite Hk, (proj2 (Z.ltb_lt _ _)) by done. rewrite zget_app_l in Hm by done.
      rewrite IHl by (done || lia). done.
    + rewrite rev_unit. cbn [app fold]. rewrite (proj2 (Z.eqb_neq _ 1)) by lia.
      rewrite Hk, (proj2 (Z.ltb_ge _ _)) by done. rewrite zget_app_r in Hm by done.
      replace (zlen l + zlen r - zlen l) with (zlen r) by lia.
      rewrite IHr by (done || lia). done.
Qed.

(** ** What an accepted path binds *)

Definition width32 (v : bytes) : Prop := length v = 32%nat.

(** The messages hashed by [fold], from the root down. *)
Fixpoint foldMsgs (leaf : bytes) (siblings : list bytes) (n m : Z) : list bytes :=
  if n =? 1 then []
  else
    match siblings with
    | [] => []
    | sibling :: siblings =>
        let k := largestPowerBelow n in
        if m <? k then
          (Byte.x01 :: default [] (snd (fold leaf siblings k m)) ++ sibling) :: foldMsgs leaf siblings k m
        else
          (Byte.x01 :: sibling ++ default [] (snd (fold leaf siblings (n - k) (m - k)))) ::
          foldMsgs leaf siblings (n - k) (m - k)
    end.

Definition transcript (entry : bytes) (index size : Z) (path : list bytes) : list bytes :=
  (Byte.x00 :: entry) :: foldMsgs (entryLeaf entry) (rev path) size index.

Lemma fold_width (leaf : bytes) (sibs rest : list bytes) (n m : Z) (r : bytes) :
  width32 leaf -> fold leaf sibs n m = (rest, Some r) -> width32 r.
Proof.
  intros Hw. destruct sibs as [|sib sibs]; cbn [fold]; destruct (n =? 1); try (by intros [= <- <-]); try done.
  destruct (m <? _); destruct (fold _ _ _ _) as [rest' [c|]]; cbn; try done;
    intros [= <- <-]; apply Sha256.sum256_length.
Qed.

(** Two messages of one node that agree on their hash. *)
Lemma node_binding (l1 r1 l2 r2 : bytes) (ms1 ms2 : list bytes) :
  length l1 = length l2 -> nodeHash l1 r1 = nodeHash l2 r2 ->
  (Byte.x01 :: l1 ++ r1) ∈ ms1 -> (Byte.x01 :: l2 ++ r2) ∈ ms2 ->
  (l1 = l2 /\ r1 = r2) \/ collision ms1 ms2.
Proof.
  intros Hlen Heq H1 H2. destruct (decide (Byte.x01 :: l1 ++ r1 = Byte.x01 :: l2 ++ r2)) as [Hm|Hm].
  - left. apply (f_equal tail) in Hm. cbn [tail] in Hm. by apply app_inj_1 in Hm.
  - right. exists (Byte.x01 :: l1 ++ r1), (Byte.x01 :: l2 ++ r2).
    split; [exact H1|split; [exact H2|split; [exact Hm|exact Heq]]].
Qed.

Lemma collision_cons (x y : bytes) (ms1 ms2 : list bytes) :
  collision ms1 ms2 -> collision (x :: ms1) (y :: ms2).
Proof. apply collision_mono; set_solver. Qed.

Lemma fmap_Some_pair {A B C} (p : A * option B) (f : B -> C) (a : A) (c : C) :
  (let '(x, y) := p in (x, f <$> y)) = (a, Some c) -> exists b, p = (a, Some b) /\ c = f b.
Proof. destruct p as [x [b|]]; cbn; [|done]. intros H. injection H as <- <-. by exists b. Qed.

Lemma fold_binding (s1 s2 : list bytes) (n m : Z) (l1 l2 r : bytes) :
  width32 l1 -> width32 l2 -> Forall width32 s1 -> Forall width32 s2 ->
  fold l1 s1 n m = ([], Some r) -> fold l2 s2 n m = ([], Some r) ->
  (l1 = l2 /\ s1 = s2) \/ collision (foldMsgs l1 s1 n m) (foldMsgs l2 s2 n m).
Proof.
  intros Hw1 Hw2 Hs1. revert s2 n m r. induction Hs1 as [|a s1 Ha Hs1 IH]; intros s2 n m r Hs2.
  - destruct s2 as [|b s2]; cbn [fold]; destruct (n =? 1); try done. intros [= <-] [= <-]. by left.
  - destruct Hs2 as [|b s2 Hb Hs2]; cbn [fold foldMsgs]; destruct (n =? 1); try done.
    destruct (m <? _).
    + intros (c1 & H1 & Hr1)%fmap_Some_pair (c2 & H2 & Hr2)%fmap_Some_pair.
      pose proof (fold_width _ _ _ _ _ _ Hw1 H1) as Hc1. pose proof (fold_width _ _ _ _ _ _ Hw2 H2) as Hc2.
      rewrite H1, H2. cbn [snd default].
      destruct (node_binding c1 a c2 b
        ((Byte.x01 :: c1 ++ a) :: foldMsgs l1 s1 (largestPowerBelow n) m)
        ((Byte.x01 :: c2 ++ b) :: foldMsgs l2 s2 (largestPowerBelow n) m)) as [[-> ->]|Hcol];
        [unfold width32 in *; lia|by rewrite <- Hr1|by left|by left| |by right].
      destruct (IH s2 _ _ c2 Hs2 H1 H2) as [[-> ->]|Hcol]; [by left|right; by apply collision_cons].
    + intros (c1 & H1 & Hr1)%fmap_Some_pair (c2 & H2 & Hr2)%fmap_Some_pair.
      pose proof (fold_width _ _ _ _ _ _ Hw1 H1) as Hc1. pose proof (fold_width _ _ _ _ _ _ Hw2 H2) as Hc2.
      rewrite H1, H2. cbn [snd default].
      destruct (node_binding a c1 b c2
        ((Byte.x01 :: a ++ c1) :: foldMsgs l1 s1 (n - largestPowerBelow n) (m - largestPowerBelow n))
        ((Byte.x01 :: b ++ c2) :: foldMsgs l2 s2 (n - largestPowerBelow n) (m - largestPowerBelow n)))
        as [[-> ->]|Hcol]; [unfold width32 in *; lia|by rewrite <- Hr1|by left|by left| |by right].
      destruct (IH s2 _ _ c2 Hs2 H1 H2) as [[-> ->]|Hcol]; [by left|right; by apply collision_cons].
Qed.

Lemma rootFromProof_accepts (entry : bytes) (index size : Z) (path : list bytes) (root : bytes) :
  rootFromProof entry index size path = Some root <->
  0 <= index < size /\ size <= maxTreeSize /\ zlen path = expectedPath size index /\
  fold (entryLeaf entry) (rev path) size index = ([], Some root).
Proof.
  unfold rootFromProof. destruct (_ || _) eqn:Hg.
  - split; [done|]. intros (Hi & Hs & Hp & _). rewrite !orb_true_iff, negb_true_iff, !Z.ltb_lt,
      Z.leb_le, Z.eqb_neq in Hg. lia.
  - gobool. destruct (fold _ _ _ _) as [[|x rest] o]; split; try done.
    + intros ->. split_and!; done || lia.
    + by intros (_ & _ & _ & [= ->]).
    + by intros (_ & _ & _ & ?).
Qed.

Lemma inclusionPath_shape (d : list bytes) (i : nat) (m : Z) :
  d <> [] -> zlen d <= 2 ^ Z.of_nat i ->
  Forall width32 (inclusionPath m d) /\ width32 (mth d) /\ (length (inclusionPath m d) <= i)%nat.
Proof.
  intros Hd. revert d Hd i m. apply (mth_ind (fun d => forall i m, zlen d <= 2 ^ Z.of_nat i ->
    Forall width32 (inclusionPath m d) /\ width32 (mth d) /\ (length (inclusionPath m d) <= i)%nat)).
  - intros e i m _. split_and!; [constructor|apply Sha256.sum256_length|cbn; lia].
  - intros l r Hs IHl IHr i m Hi. pose proof Hs as (j & Hj & Hl & Hr). rewrite zlen_app in Hi.
    destruct i as [|i]; [pose proof (pow2_pos j Hj); cbn in Hi; lia|].
    assert (2 ^ j <= 2 ^ Z.of_nat i).
    { apply pow2_le. split; [done|]. destruct (Z.lt_ge_cases (Z.of_nat i) j); [|lia].
      pose proof (pow2_le (Z.of_nat (S i)) j ltac:(lia)). lia. }
    rewrite (inclusionPath_app m l r Hs), (mth_app l r Hs).
    destruct (IHl i m ltac:(lia)) as (Hpl & Hwl & Hll). destruct (IHr i (m - zlen l) ltac:(lia)) as (Hpr & Hwr & Hlr).
    split_and!; [|apply Sha256.sum256_length|]; destruct (m <? zlen l).
    1,2: apply Forall_app; split; [done|by constructor].
    all: rewrite length_app; cbn [length]; lia.
Qed.

Lemma expectedPath_honest (d : list bytes) (m : Z) :
  zlen d <= maxTreeSize -> 0 <= m < zlen d -> expectedPath (zlen d) m = zlen (inclusionPath m d).
Proof.
  intros Hmax Hm. unfold expectedPath. rewrite (expectedLoop_path d 62); [lia|..]; try done; try lia.
  - intros ->. change (zlen (@nil bytes)) with 0 in Hm. lia.
  - unfold maxTreeSize, two63 in *. lia.
Qed.

(** ** Properties *)

(** The loops of [expectedPath] and [largestPowerBelow] stop on every tree
    size the verifier admits: the split point is the largest power of two below
    the size, more iterations than the fuel allows would change nothing, and the
    expected path has at most 62 hashes. *)
Lemma path_length_terminates (size index : Z) (extra : nat) :
  0 <= index < size -> size <= maxTreeSize ->
  (1 < size -> largestPowerBelow size = splitPoint size /\ splitPoint size < size <= 2 * splitPoint size) /\
  expectedLoop (64 + extra) size index 0 = expectedPath size index /\
  0 <= expectedPath size index <= 62.
Proof.
  intros Hi Hs. assert (size < two63) as Hlt by (unfold maxTreeSize, two63 in *; lia).
  set (d := replicate (Z.to_nat size) (@nil byte)).
  assert (zlen d = size) as Hd by (unfold d, zlen; rewrite length_replicate; lia).
  assert (d <> []) as Hne by (intros Hn; rewrite Hn in Hd; change (zlen (@nil bytes)) with 0 in Hd; lia).
  pose proof (expectedPath_honest d index ltac:(lia) ltac:(lia)) as He.
  destruct (inclusionPath_shape d 62 index Hne) as (_ & _ & Hlen); [rewrite Hd; exact Hs|].
  rewrite Hd in He. rewrite He. split_and!.
  - intros H1. split; [by apply largestPowerBelow_split; lia|].
    destruct (splitPoint_spec size ltac:(lia)) as (j & _ & -> & Hb). lia.
  - rewrite <- Hd. by rewrite (expectedLoop_path d 62) by (done || rewrite ?Hd; done || lia).
  - apply zlen_nonneg.
  - unfold zlen. lia.
Qed.

(** The verifier accepts what an RFC 9162 log produces: for every entry of a
    log of at most [2^62] entries, the root recomputed from the entry and its
    inclusion path is the tree hash of the log. *)
Lemma honest_path_root (log : list bytes) (index : Z) (entry : bytes) :
  zlen log <= maxTreeSize -> zget log index = Some entry ->
  Forall width32 (inclusionPath index log) /\
  rootFromProof entry index (zlen log) (inclusionPath index log) = Some (mth log).
Proof.
  intros Hmax Hget. pose proof (zget_Some_range _ _ _ Hget) as Hi.
  assert (log <> []) as Hne by (intros ->; change (zlen (@nil bytes)) with 0 in Hi; lia).
  split; [by apply (inclusionPath_shape log 62)|]. apply rootFromProof_accepts.
  split_and!; [lia|lia|done|by rewrite expectedPath_honest|].
  rewrite <- (app_nil_r (rev _)). apply fold_path; [done| |done].
  unfold maxTreeSize, two63 in *. lia.
Qed.

(** Two accepted paths for one position and one root. *)
Lemma rootFromProof_bind (entry entry' : bytes) (index size : Z) (path path' : list bytes) (root : bytes) :
  Forall width32 path -> Forall width32 path' ->
  rootFromProof entry index size path = Some root -> rootFromProof entry' index size path' = Some root ->
  (entry = entry' /\ path = path') \/
  collision (transcript entry index size path) (transcript entry' index size path').
Proof.
  intros Hw Hw' (_ & _ & _ & H1)%rootFromProof_accepts (_ & _ & _ & H2)%rootFromProof_accepts.
  destruct (fold_binding (rev path) (rev path') size index (entryLeaf entry) (entryLeaf entry') root)
    as [[Hl Hp]|Hcol]; try apply Sha256.sum256_length; try (by apply Forall_rev); try done.
  - apply (f_equal (@rev bytes)) in Hp. rewrite !rev_involutive in Hp.
    destruct (sha256_bind (Byte.x00 :: entry) (Byte.x00 :: entry')
      (transcript entry index size path) (transcript entry' index size path')) as [He|Hcol];
      [by left|by left|exact Hl| |by right].
    left. apply (f_equal tail) in He. done.
  - right. by apply collision_cons.
Qed.

End Rfc9162.
