(* ===== verification/Utf8.v ===== *)
(** * UTF-8 text: [unicode/utf8] and [strings.ToValidUTF8]

    The well-formed encodings of the Unicode standard (no overlong forms, no
    surrogates, nothing above U+10FFFF), as the functions of the Go library that
    [src/witness/client.go] calls see them. *)

From S2P Require Import Prelude.

Module Utf8.

Local Open Scope Z_scope.

Definition between (b : byte) (lo hi : Z) : bool := (lo <=? Z_of_byte b) && (Z_of_byte b <=? hi).

(** Width of the rune that starts with [b], and the range of its second byte. *)
Definition firstInfo (b : byte) : option (nat * Z * Z) :=
  if between b 0 0x7F then Some (1%nat, 0, 0)
  else if between b 0xC2 0xDF then Some (2%nat, 0x80, 0xBF)
  else if between b 0xE0 0xE0 then Some (3%nat, 0xA0, 0xBF)
  else if between b 0xED 0xED then Some (3%nat, 0x80, 0x9F)
  else if between b 0xE1 0xEF then Some (3%nat, 0x80, 0xBF)
  else if between b 0xF0 0xF0 then Some (4%nat, 0x90, 0xBF)
  else if between b 0xF1 0xF3 then Some (4%nat, 0x80, 0xBF)
  else if between b 0xF4 0xF4 then Some (4%nat, 0x80, 0x8F)
  else None.

Definition continuation (b : byte) : bool := between b 0x80 0xBF.

(** Width of the well-formed rune at the head of [s]; [None] where
    [DecodeRune] returns [RuneError] with width 1, or 0 at the end. *)
Definition runeWidth (s : bytes) : option nat :=
  match s with
  | [] => None
  | b :: t =>
      match firstInfo b with
      | None => None
      | Some (w, lo, hi) =>
          if Nat.eqb w 1 then Some 1%nat
          else
            match t with
            | [] => None
            | c :: t =>
                if between c lo hi && Nat.leb (w - 2) (length t) &&
                   forallb continuation (take (w - 2) t)
                then Some w else None
            end
      end
  end.

Fixpoint validFuel (fuel : nat) (s : bytes) : bool :=
  match fuel, s with
  | _, [] => true
  | O, _ => false
  | S fuel', _ =>
      match runeWidth s with
      | Some w => validFuel fuel' (drop w s)
      | None => false
      end
  end.

Definition Valid (s : bytes) : bool := validFuel (length s) s.

(** [strings.ToValidUTF8]: a run of invalid bytes becomes one replacement;
    [invalid] says that the previous byte was invalid. *)
Fixpoint toValidFuel (fuel : nat) (replacement s : bytes) (invalid : bool) : bytes :=
  match fuel, s with
  | _, [] => []
  | O, _ => []
  | S fuel', _ :: t =>
      match runeWidth s with
      | Some w => take w s ++ toValidFuel fuel' replacement (drop w s) false
      | None => (if invalid then [] else replacement) ++ toValidFuel fuel' replacement t true
      end
  end.

Definition ToValidUTF8 (s replacement : bytes) : bytes := toValidFuel (length s) replacement s false.

(** ** Runes *)

Definition rune (r : bytes) : Prop := runeWidth r = Some (length r).

Lemma firstInfo_width (b : byte) (w : nat) (lo hi : Z) :
  firstInfo b = Some (w, lo, hi) -> (1 <= w <= 4)%nat.
Proof.
  unfold firstInfo. repeat (destruct (between _ _ _); [intros [= <- _ _]; lia|]). done.
Qed.

Lemma runeWidth_bounds (s : bytes) (w : nat) :
  runeWidth s = Some w -> (1 <= w <= 4)%nat /\ (w <= length s)%nat.
Proof.
  destruct s as [|b t]; cbn [runeWidth]; [done|].
  destruct (firstInfo b) as [[[w' lo] hi]|] eqn:Hf; [|done]. apply firstInfo_width in Hf.
  destruct (Nat.eqb_spec w' 1); [intros [= <-]; cbn; lia|]. destruct t as [|c t]; [done|].
  destruct (_ && _) eqn:Hc; [|done]. intros [= <-]. apply andb_prop in Hc as [Hc _].
  apply andb_prop in Hc as [_ Hl%Nat.leb_le]. cbn [length]. lia.
Qed.

(** Only the bytes of the rune matter. *)
Lemma runeWidth_ext (s t : bytes) (w : nat) :
  runeWidth s = Some w -> take w s = take w t -> (w <= length t)%nat -> runeWidth t = Some w.
Proof.
  intros Hw Heq Hl. pose proof (runeWidth_bounds s w Hw) as [Hwb Hs]. revert Hw.
  destruct w as [|w]; [lia|]. destruct s as [|b s], t as [|b' t]; cbn [length] in *; try lia.
  cbn [take] in Heq. injection Heq as <- Heq. cbn [runeWidth].
  destruct (firstInfo b) as [[[w' lo] hi]|]; [|done].
  destruct (Nat.eqb_spec w' 1) as [|H1]; [done|].
  destruct s as [|c s]; [done|]. destruct (_ && _) eqn:Hc; [|done]. intros [= ->].
  destruct w as [|w]; [done|]. destruct t as [|c' t]; cbn [length] in *; [lia|].
  cbn [take] in Heq. injection Heq as <- Heq. cbn [Nat.sub] in *. rewrite Nat.sub_0_r in *.
  apply andb_prop in Hc as [[Hr _]%andb_prop Hcont]. rewrite Heq in Hcont.
  by rewrite Hr, Hcont, (proj2 (Nat.leb_le _ _)) by lia.
Qed.

Lemma rune_take (s : bytes) (w : nat) : runeWidth s = Some w -> rune (take w s).
Proof.
  intros Hw. pose proof (runeWidth_bounds s w Hw) as [_ Hl]. unfold rune.
  assert (length (take w s) = w) as Hlen by (rewrite length_take; lia). rewrite Hlen.
  apply (runeWidth_ext s); [done| |lia]. by rewrite take_take, Nat.min_id.
Qed.

Lemma rune_app (r t : bytes) : rune r -> runeWidth (r ++ t) = Some (length r).
Proof.
  intros Hr. apply (runeWidth_ext r); [done| |rewrite length_app; lia].
  by rewrite take_app_length, firstn_all.
Qed.

Lemma rune_length (r : bytes) : rune r -> (1 <= length r <= 4)%nat.
Proof. intros Hr. by apply (runeWidth_bounds r). Qed.

(** A proper prefix of a rune starts no rune. *)
Lemma rune_cut (r : bytes) (k : nat) : rune r -> (k < length r)%nat -> runeWidth (take k r) = None.
Proof.
  unfold rune. intros Hr Hk. destruct k as [|k]; [done|]. destruct r as [|b r]; [done|].
  cbn [length] in *. revert Hr. cbn [take runeWidth].
  destruct (firstInfo b) as [[[w lo] hi]|]; [|done].
  destruct (Nat.eqb_spec w 1); [intros [= ?]; lia|].
  destruct r as [|c r]; [done|]. destruct (_ && _); [|done]. intros [= ->].
  destruct k as [|k]; [done|]. cbn [take length] in *.
  rewrite (proj2 (Nat.leb_gt _ _)), andb_false_r; [done|]. rewrite length_take. lia.
Qed.

(** ** Valid text is a sequence of runes *)

Lemma concat_rune (r : bytes) (rs : list bytes) : concat (r :: rs) = r ++ concat rs.
Proof. done. Qed.

Lemma validFuel_runes (fuel : nat) (rs : list bytes) (t : bytes) :
  Forall rune rs -> (length (concat rs ++ t) <= fuel)%nat ->
  exists fuel', validFuel fuel (concat rs ++ t) = validFuel fuel' t /\ (length t <= fuel')%nat.
Proof.
  intros Hrs. revert fuel. induction Hrs as [|r rs Hr Hrs IH]; intros fuel Hf; [by exists fuel|].
  pose proof (rune_length r Hr) as Hl. rewrite concat_rune, <- app_assoc in *. rewrite length_app in Hf.
  destruct fuel as [|fuel]; [lia|]. destruct r as [|b r]; [cbn in Hl; lia|]. cbn [validFuel app].
  change (b :: r ++ concat rs ++ t) with ((b :: r) ++ concat rs ++ t).
  rewrite rune_app, drop_app_length by done. apply IH. lia.
Qed.

Lemma Valid_iff (s : bytes) : Valid s = true <-> exists rs, Forall rune rs /\ s = concat rs.
Proof.
  split.
  - unfold Valid. generalize (length s) as fuel. intros fuel. revert s.
    induction fuel as [|fuel IH]; intros s; cbn [validFuel].
    { destruct s; [|done]. intros _. by exists []. }
    destruct s as [|b s]; [intros _; by exists []|].
    destruct (runeWidth (b :: s)) as [w|] eqn:Hw; [|done].
    intros (rs & Hrs & Heq)%IH. exists (take w (b :: s) :: rs).
    split; [constructor; [by apply rune_take|done]|]. by rewrite concat_rune, <- Heq, take_drop.
  - intros (rs & Hrs & ->). destruct (validFuel_runes (length (concat rs)) rs [] Hrs) as (f & Hv & _).
    { rewrite app_nil_r. lia. }
    rewrite app_nil_r in Hv. unfold Valid. rewrite Hv. by destruct f.
Qed.

Lemma Valid_cut (rs : list bytes) (r : bytes) (k : nat) :
  Forall rune rs -> rune r -> (0 < k < length r)%nat -> Valid (concat rs ++ take k r) = false.
Proof.
  intros Hrs Hr Hk. unfold Valid.
  destruct (validFuel_runes (length (concat rs ++ take k r)) rs (take k r) Hrs) as (f & -> & Hf); [lia|].
  rewrite length_take in Hf. destruct f as [|f]; [lia|]. cbn [validFuel].
  rewrite (rune_cut r k) by (done || lia).
  destruct (take k r) eqn:Ht; [|done]. apply (f_equal length) in Ht. rewrite length_take in Ht. cbn in Ht. lia.
Qed.

(** Cutting valid text leaves whole runes and less than one rune. *)
Lemma take_runes (rs : list bytes) (n : nat) :
  Forall rune rs ->
  (n >= length (concat rs))%nat \/
  exists pre r post k, rs = pre ++ r :: post /\ (k < length r)%nat /\
    take n (concat rs) = concat pre ++ take k r /\ (length (concat pre) + k = n)%nat.
Proof.
  intros Hrs. revert n. induction Hrs as [|r rs Hr Hrs IH]; intros n; [left; cbn; lia|].
  destruct (Nat.lt_ge_cases n (length r)) as [Hn|Hn].
  - right. exists [], r, rs, n. rewrite concat_rune, take_app_le by lia. done.
  - destruct (IH (n - length r)%nat) as [Hge|(pre & r' & post & k & -> & Hk & Ht & Hs)].
    + left. rewrite concat_rune, length_app. lia.
    + right. exists (r :: pre), r', post, k. rewrite !concat_rune, length_app, <- app_assoc, <- Ht.
      replace n with (length r + (n - length r))%nat at 1 by lia.
      rewrite take_app_add. split_and!; done || lia.
Qed.

(** ** Replacing invalid bytes *)

Lemma toValid_runes (fuel : nat) (rs : list bytes) (replacement : bytes) (invalid : bool) :
  Forall rune rs -> (length (concat rs) <= fuel)%nat ->
  toValidFuel fuel replacement (concat rs) invalid = concat rs.
Proof.
  intros Hrs. revert fuel invalid. induction Hrs as [|r rs Hr Hrs IH]; intros fuel invalid Hf.
  { by destruct fuel. }
  pose proof (rune_length r Hr) as Hl. rewrite concat_rune in *. rewrite length_app in Hf.
  destruct fuel as [|fuel]; [lia|]. destruct r as [|b r]; [cbn in Hl; lia|]. cbn [toValidFuel app].
  change (b :: r ++ concat rs) with ((b :: r) ++ concat rs).
  rewrite rune_app, take_app_length, drop_app_length by done. rewrite IH by lia. done.
Qed.

Lemma ToValidUTF8_valid (s replacement : bytes) :
  rune replacement -> Valid (ToValidUTF8 s replacement) = true.
Proof.
  intros Hrep. apply Valid_iff. unfold ToValidUTF8. generalize (length s) as fuel, false as invalid.
  intros fuel. revert s. induction fuel as [|fuel IH]; intros s invalid; cbn [toValidFuel].
  { exists []. by destruct s. }
  destruct s as [|b s]; [by exists []|]. destruct (runeWidth (b :: s)) as [w|] eqn:Hw.
  - destruct (IH (drop w (b :: s)) false) as (rs & Hrs & ->). exists (take w (b :: s) :: rs).
    split; [constructor; [by apply rune_take|done]|done].
  - destruct (IH s true) as (rs & Hrs & ->). destruct invalid; [by exists rs|].
    exists (replacement :: rs). split; [by constructor|done].
Qed.

Lemma ToValidUTF8_id (s replacement : bytes) : Valid s = true -> ToValidUTF8 s replacement = s.
Proof. intros (rs & Hrs & ->)%Valid_iff. by apply toValid_runes. Qed.

End Utf8.
