(* ===== verification/Delivery.v ===== *)
(** * Witness delivery: failed attempts and backoff

    [boundedText] of [src/witness/client.go] and [failedWitness] and [backoff]
    of [src/witness/runner.go]: the row a failed delivery writes and the delay
    before the next attempt. *)

From S2P Require Import Prelude Text Utf8 DtMmr DtMmrRef Cll Portable Engine EngineLog EngineState EngineHistory EngineWitness.
Import Text Cll Portable Engine EngineState EngineHistory EngineWitness.

Module Delivery.

Local Open Scope Z_scope.

(** ** Error text *)

(** The encoding of U+FFFD. *)
Definition replacementChar : bytes := [Byte.xef; Byte.xbf; Byte.xbd].

(** [for len(value) > 0 && !utf8.ValidString(value) { value = value[:len(value)-1] }] *)
Fixpoint trimToValid (fuel : nat) (value : bytes) : bytes :=
  match fuel with
  | O => value
  | S fuel' =>
      if (0 <? zlen value) && negb (Utf8.Valid value)
      then trimToValid fuel' (take (length value - 1) value)
      else value
  end.

Definition boundedBytes (value : bytes) : bytes :=
  let value := Utf8.ToValidUTF8 value replacementChar in
  if zlen value <=? MaxReasonBytes then value
  else
    let value := take (Z.to_nat MaxReasonBytes) value in
    trimToValid (length value) value.

Definition boundedText (value : string) : string := stringOf (boundedBytes (bytesOf value)).

(** ** Retries *)

Record DeliveryConfig := MkDeliveryConfig {
  PollInterval : Z;
  BaseBackoff : Z;
  MaxBackoff : Z;
  Jitter : bool
}.

Definition Minute : Z := 60 * 1000000000.

Definition DefaultDeliveryConfig : DeliveryConfig :=
  MkDeliveryConfig Minute 1000000000 (60 * Minute) true.

(** The loop of [backoff]; durations are [int64] nanoseconds. *)
Fixpoint backoffLoop (fuel : nat) (config : DeliveryConfig) (attempts count delay : Z) : Z :=
  match fuel with
  | O => delay
  | S fuel' =>
      if (count <? attempts) && (delay <? MaxBackoff config) then
        let delay :=
          if i64 (MaxBackoff config - delay) <? delay then MaxBackoff config else i64 (delay * 2) in
        backoffLoop fuel' config attempts (count + 1) delay
      else delay
  end.

(** [draw n] is [rand.Int64N(n)]. *)
Definition backoff (draw : Z -> Z) (config : DeliveryConfig) (attempts : Z) : Z :=
  let delay := backoffLoop 64 config attempts 0 (BaseBackoff config) in
  if Jitter config && (0 <? delay) then draw delay else delay.

Definition two32 : Z := 4294967296.

Definition failedWitness (item : WitnessState) (now : Z) (permanent : bool) (reason : string)
    (delay : Z) : WitnessState :=
  MkWitness (wit_WitnessID item) (wit_CheckpointSize item) (wit_Checkpoint item)
    ((wit_Attempts item + 1) mod two32) (now + delay) (wit_Receipt item) permanent
    (boundedText reason).

(** ** Bounded text *)

Lemma stringOf_length (bs : bytes) : strlen (stringOf bs) = zlen bs.
Proof. unfold strlen, zlen. by rewrite stringOf_size. Qed.

Lemma replacement_rune : Utf8.rune replacementChar.
Proof. done. Qed.

(** Trimming whole runes followed by part of one drops exactly the part. *)
Lemma trimToValid_runes (rs : list bytes) (r : bytes) (k : nat) (fuel : nat) :
  Forall Utf8.rune rs -> Utf8.rune r -> (k < length r)%nat -> (k <= fuel)%nat ->
  trimToValid fuel (concat rs ++ take k r) = concat rs.
Proof.
  intros Hrs Hr Hk. revert fuel. induction k as [|k IH]; intros fuel Hf.
  - rewrite take_0, app_nil_r.
    assert (Utf8.Valid (concat rs) = true) as Hv by (apply Utf8.Valid_iff; by exists rs).
    destruct fuel; cbn [trimToValid]; [done|]. by rewrite Hv, andb_false_r.
  - destruct fuel as [|fuel]; [lia|]. cbn [trimToValid].
    rewrite (Utf8.Valid_cut rs r (S k)) by (done || lia).
    assert (length (concat rs ++ take (S k) r) = length (concat rs) + S k)%nat as Hlen
      by (rewrite length_app, length_take; lia).
    rewrite (proj2 (Z.ltb_lt 0 _)) by (unfold zlen; lia). cbn [andb negb].
    replace (length (concat rs ++ take (S k) r) - 1)%nat with (length (concat rs) + k)%nat by lia.
    rewrite take_app_add, take_take, Nat.min_l by lia. apply IH; lia.
Qed.

Lemma boundedBytes_spec (value : bytes) :
  let valid := Utf8.ToValidUTF8 value replacementChar in
  let out := boundedBytes value in
  Utf8.Valid out = true /\ zlen out <= MaxReasonBytes /\ out `prefix_of` valid /\
  (zlen valid <= MaxReasonBytes -> out = valid) /\
  (MaxReasonBytes < zlen valid -> MaxReasonBytes - 3 <= zlen out).
Proof.
  cbv zeta. unfold boundedBytes.
  pose proof (Utf8.ToValidUTF8_valid value replacementChar replacement_rune) as Hv.
  set (v := Utf8.ToValidUTF8 value replacementChar) in *.
  destruct (Z.leb_spec (zlen v) MaxReasonBytes) as [Hle|Hgt].
  { split_and!; [done|done|done|done|lia]. }
  apply Utf8.Valid_iff in Hv as (rs & Hrs & Hvrs). rewrite Hvrs in *.
  destruct (Utf8.take_runes rs (Z.to_nat MaxReasonBytes) Hrs) as [Hge|(pre & r & post & k & Hs & Hk & Ht & Hlen)].
  { unfold zlen, MaxReasonBytes in *. lia. }
  rewrite Hs in Hrs. apply Forall_app in Hrs as [Hpre [Hr _]%Forall_cons].
  pose proof (Utf8.rune_length r Hr). rewrite Ht, (trimToValid_runes pre r k) by
    (done || rewrite ?length_app, ?length_take; lia).
  split_and!.
  - apply Utf8.Valid_iff. by exists pre.
  - unfold zlen, MaxReasonBytes in *. lia.
  - rewrite Hs, concat_app. by apply prefix_app_r.
  - lia.
  - unfold zlen, MaxReasonBytes in *. lia.
Qed.

(** ** The backoff loop *)

Record config_ok (config : DeliveryConfig) : Prop := {
  base_positive : 0 < BaseBackoff config;
  base_le_max : BaseBackoff config <= MaxBackoff config;
  max_duration : MaxBackoff config < two63
}.

(** The delay after [n] failures: doubled each time, up to the maximum. *)
Definition delayAfter (config : DeliveryConfig) (n : Z) : Z :=
  Z.min (BaseBackoff config * 2 ^ n) (MaxBackoff config).

Lemma delayAfter_max (config : DeliveryConfig) (m n : Z) :
  config_ok config -> 0 <= m <= n -> delayAfter config m = MaxBackoff config ->
  delayAfter config n = MaxBackoff config.
Proof.
  intros [Hb _ _] Hmn. unfold delayAfter. pose proof (pow2_le m n Hmn). intros Hm.
  assert (BaseBackoff config * 2 ^ m <= BaseBackoff config * 2 ^ n) by (apply Z.mul_le_mono_nonneg_l; lia).
  lia.
Qed.

Lemma delayAfter_range (config : DeliveryConfig) (n : Z) :
  config_ok config -> 0 <= n -> BaseBackoff config <= delayAfter config n <= MaxBackoff config.
Proof.
  intros [Hb Hm _] Hn. unfold delayAfter. pose proof (pow2_pos n Hn).
  assert (BaseBackoff config * 1 <= BaseBackoff config * 2 ^ n) by (apply Z.mul_le_mono_nonneg_l; lia).
  lia.
Qed.

Lemma backoffLoop_spec (config : DeliveryConfig) (fuel : nat) (attempts count : Z) :
  config_ok config -> 0 <= count <= attempts -> 63 - count < Z.of_nat fuel ->
  backoffLoop fuel config attempts count (delayAfter config count) = delayAfter config attempts.
Proof.
  intros Hok. revert count. induction fuel as [|fuel IH]; intros count Hc Hf; cbn [backoffLoop].
  - assert (delayAfter config 64 = MaxBackoff config) as H64.
    { destruct Hok as [Hb _ Hm]. unfold delayAfter. change (2 ^ 64) with two64. unfold two63, two64 in *. lia. }
    by rewrite !(delayAfter_max config 64) by (done || lia).
  - pose proof (delayAfter_range config count Hok ltac:(lia)) as Hr. destruct Hok as [Hb Hm Hd] eqn:Hok'.
    destruct (Z.ltb_spec count attempts) as [Hlt|Hge]; cbn [andb]; [|by replace attempts with count by lia].
    destruct (Z.ltb_spec (delayAfter config count) (MaxBackoff config)) as [Hd1|Hd1].
    2: { symmetry. rewrite (delayAfter_max config count) by (done || lia). lia. }
    rewrite (i64_small (MaxBackoff config - _)) by (unfold two63 in *; lia).
    rewrite <- (IH (count + 1)) by lia. f_equal.
    unfold delayAfter in *. rewrite pow2_succ by lia.
    destruct (Z.ltb_spec (MaxBackoff config - Z.min (BaseBackoff config * 2 ^ count) (MaxBackoff config))
      (Z.min (BaseBackoff config * 2 ^ count) (MaxBackoff config))); [lia|].
    rewrite i64_small by (unfold two63 in *; lia). lia.
Qed.

(** ** Properties *)

(** The text kept of a failure is valid UTF-8 of at most 4096 bytes, so it
    passes the row validation and survives JSON; it is a prefix of the reason
    with invalid bytes replaced, all of it when that fits and otherwise all but
    at most three bytes of the first 4096; bounding again changes nothing. *)
Lemma bounded_text_is_stable (value : string) :
  let out := bytesOf (boundedText value) in
  Utf8.Valid out = true /\ strlen (boundedText value) <= MaxReasonBytes /\
  out `prefix_of` Utf8.ToValidUTF8 (bytesOf value) replacementChar /\
  (zlen (Utf8.ToValidUTF8 (bytesOf value) replacementChar) <= MaxReasonBytes ->
     out = Utf8.ToValidUTF8 (bytesOf value) replacementChar) /\
  (MaxReasonBytes < zlen (Utf8.ToValidUTF8 (bytesOf value) replacementChar) ->
     MaxReasonBytes - 3 <= zlen out) /\
  boundedText (boundedText value) = boundedText value.
Proof.
  cbv zeta. destruct (boundedBytes_spec (bytesOf value)) as (Hv & Hl & Hp & Hid & Hlow).
  unfold boundedText. rewrite !bytesOf_stringOf, stringOf_length. split_and!; [done..|].
  f_equal. destruct (boundedBytes_spec (boundedBytes (bytesOf value))) as (_ & _ & _ & Hid' & _).
  rewrite (Utf8.ToValidUTF8_id _ _ Hv) in Hid'. by apply Hid'.
Qed.

(** C21: the delay after [attempts] failures is the base delay doubled
    [attempts] times, but never more than the maximum, for every attempt count
    of 32 bits and without overflow; with jitter it is a draw below that. *)
Theorem backoff_is_bounded_doubling (draw : Z -> Z) (config : DeliveryConfig) (attempts : Z) :
  config_ok config -> 0 <= attempts < two32 -> (forall n, 0 < n -> 0 <= draw n < n) ->
  let full := Z.min (BaseBackoff config * 2 ^ attempts) (MaxBackoff config) in
  backoffLoop 64 config attempts 0 (BaseBackoff config) = full /\
  (Jitter config = false -> backoff draw config attempts = full) /\
  (Jitter config = true -> 0 <= backoff draw config attempts < full) /\
  BaseBackoff config <= full <= MaxBackoff config.
Proof.
  intros Hok Ha Hdraw. cbv zeta. change (Z.min _ _) with (delayAfter config attempts).
  pose proof (delayAfter_range config attempts Hok ltac:(lia)) as Hr.
  assert (backoffLoop 64 config attempts 0 (BaseBackoff config) = delayAfter config attempts) as Hloop.
  { rewrite <- (backoffLoop_spec config 64 attempts 0) by (done || lia). f_equal.
    unfold delayAfter. destruct Hok. change (2 ^ 0) with 1. lia. }
  unfold backoff. rewrite Hloop. destruct Hok as [Hb _ _]. split_and!; [done| | |lia|lia].
  - by intros ->.
  - intros ->. rewrite (proj2 (Z.ltb_lt 0 _)) by lia. cbn [andb]. apply Hdraw. lia.
Qed.

Lemma failedWitness_ok (item : WitnessState) (now : Z) (permanent : bool) (reason : string) (delay : Z) :
  witness_ok item -> badTime (now + delay) = false ->
  witness_ok (failedWitness item now permanent reason delay).
Proof.
  unfold witness_ok, validateWitness, failedWitness. cbn. intros Hok Ht.
  destruct (boundedBytes_spec (bytesOf reason)) as (_ & Hl & _). rewrite <- stringOf_length in Hl.
  fold (boundedText reason) in Hl. rewrite Ht, (proj2 (Z.ltb_ge MaxReasonBytes (strlen (boundedText reason)))) by done.
  rewrite orb_false_r. destruct (_ || badTime _ || _) eqn:Hg in Hok; [done|].
  apply orb_false_iff in Hg as [[Hg _]%orb_false_iff _]. by rewrite Hg.
Qed.

(** A failed delivery of a stored row can always be recorded, whatever the
    error text: committing the failed row against the attempt count that was
    read succeeds, the row read back is the failed one with one attempt more,
    and it is pending again exactly when the failure may be retried, the row
    had no receipt, and its delay has passed. *)
Lemma failed_delivery_is_recorded `{DT : DtMmr} (e : Engine) (item : WitnessState) (now delay : Z)
    (permanent : bool) (reason : string) :
  engine_ok e -> item ∈ st_Witnesses (state e) -> badTime (now + delay) = false ->
  let next := failedWitness item now permanent reason delay in
  exists e', CommitWitness e (wit_Attempts item) next = (e', Ok tt) /\
    GetWitness e' (wit_WitnessID item) (wit_CheckpointSize item) = Ok next /\
    (0 <= wit_Attempts item < two32 - 1 -> wit_Attempts next = wit_Attempts item + 1) /\
    (forall t, duePending t next = true <->
       permanent = false /\ wit_Receipt item = None /\ now + delay <= t).
Proof.
  intros He Hin Ht. cbv zeta. set (next := failedWitness item now permanent reason delay).
  pose proof (wf_rows _ (ok_state _ He)) as Hrows. rewrite Forall_forall in Hrows.
  assert (witness_ok next) as Hok by (by apply failedWitness_ok; [apply Hrows|]).
  destruct (CommitWitness_cases e (wit_Attempts item) next He)
    as [[Hbad _]|[(_ & Hno & _)|(_ & Hrow & pre & w & post & Hws & Hk & Heq)]]; [done| |].
  { destruct Hno. by exists item. }
  pose proof (wf_keys _ (ok_state _ He)) as Hkeys. rewrite Hws, map_app in Hkeys. cbn [map] in Hkeys.
  eexists. split; [exact Heq|]. split_and!.
  - apply (GetWitness_row _ pre next post); [done| |done]. rewrite map_app. cbn [map]. by rewrite <- Hk.
  - intros Ha. cbn. apply Z.mod_small. unfold two32 in *. lia.
  - intros t. unfold duePending. cbn. destruct (wit_Receipt item), permanent; cbn [andb negb].
    + split; [done|]. by intros (? & _).
    + split; [done|]. by intros (_ & ? & _).
    + split; [done|]. by intros (? & _).
    + rewrite negb_true_iff, Z.ltb_ge. tauto.
Qed.

(** ** Witnesses *)

Import DtMmrRef.Ref.

Lemma backoff_is_bounded_doubling_witness :
  backoffLoop 64 DefaultDeliveryConfig 5 0 1000000000 = 32000000000 /\
  0 <= backoff (fun n => n / 2) DefaultDeliveryConfig 5 < 32000000000.
Proof.
  assert (config_ok DefaultDeliveryConfig) as Hok by (split; vm_compute; done || discriminate).
  destruct (backoff_is_bounded_doubling (fun n => n / 2) DefaultDeliveryConfig 5 Hok) as (Hl & _ & Hj & _).
  - unfold two32. lia.
  - intros n Hn. split; [by apply Z.div_pos; lia|apply Z.div_lt; lia].
  - split; [exact Hl|by apply Hj].
Defined.

End Delivery.
