(* ===== verification/Json.v ===== *)
(** * JSON text: [encoding/json] of the Go library

    The values, the compact encoder that [json.Marshal] uses, and the decoder
    behind [json.Unmarshal], over bytes.  Strings are Go strings: arbitrary
    bytes, of which the encoder replaces those that are not UTF-8. *)

From S2P Require Import Prelude Utf8.

Module Json.

Local Open Scope Z_scope.

(** A number is kept as its text; an object keeps its members in order. *)
Inductive json :=
| JNull
| JBool (b : bool)
| JNumber (text : bytes)
| JString (s : bytes)
| JArray (elements : list json)
| JObject (members : list (bytes * json)).

(** ** Encoding *)

Definition hexDigit (d : Z) : byte := byte_of_Z (if d <? 10 then 48 + d else 87 + d).

Definition u00 (b : byte) : bytes :=
  [x5c; x75; x30; x30; hexDigit (Z_of_byte b / 16); hexDigit (Z_of_byte b mod 16)].

(** One ASCII byte inside a string; the HTML characters are escaped too. *)
Definition appendAscii (b : byte) : bytes :=
  match b with
  | x22 => [x5c; x22]
  | x5c => [x5c; x5c]
  | x08 => [x5c; x62]
  | x0c => [x5c; x66]
  | x0a => [x5c; x6e]
  | x0d => [x5c; x72]
  | x09 => [x5c; x74]
  | x3c | x3e | x26 => u00 b
  | _ => if Z_of_byte b <? 32 then u00 b else [b]
  end.

(** The line and paragraph separators, which are escaped. *)
Definition lineSeparator : bytes := [xe2; x80; xa8].
Definition paragraphSeparator : bytes := [xe2; x80; xa9].

Definition appendRune (r : bytes) : bytes :=
  match r with
  | [b] => appendAscii b
  | _ =>
      if bool_decide (r = lineSeparator) then [x5c; x75; x32; x30; x32; x38]
      else if bool_decide (r = paragraphSeparator) then [x5c; x75; x32; x30; x32; x39]
      else r
  end.

Fixpoint appendRunes (fuel : nat) (s : bytes) : bytes :=
  match fuel, s with
  | _, [] => []
  | O, _ => []
  | S fuel', _ :: t =>
      match Utf8.runeWidth s with
      | Some w => appendRune (take w s) ++ appendRunes fuel' (drop w s)
      | None => [x5c; x75; x66; x66; x66; x64] ++ appendRunes fuel' t
      end
  end.

Definition appendString (s : bytes) : bytes := x22 :: appendRunes (length s) s ++ [x22].

Definition comma : byte := x2c.

(** Separate by commas. *)
Fixpoint commas (parts : list bytes) : bytes :=
  match parts with
  | [] => []
  | [part] => part
  | part :: rest => part ++ comma :: commas rest
  end.

Fixpoint encode (v : json) : bytes :=
  match v with
  | JNull => [x6e; x75; x6c; x6c]
  | JBool true => [x74; x72; x75; x65]
  | JBool false => [x66; x61; x6c; x73; x65]
  | JNumber text => text
  | JString s => appendString s
  | JArray elements => x5b :: commas (map encode elements) ++ [x5d]
  | JObject members =>
      x7b :: commas (map (fun m => appendString (fst m) ++ x3a :: encode (snd m)) members) ++ [x7d]
  end.

(** ** Decoding strings *)

Definition hexValue (b : byte) : option Z :=
  let z := Z_of_byte b in
  if (48 <=? z) && (z <=? 57) then Some (z - 48)
  else if (97 <=? z) && (z <=? 102) then Some (z - 87)
  else if (65 <=? z) && (z <=? 70) then Some (z - 55)
  else None.

(** The four digits after [\u]. *)
Definition hex4 (s : bytes) : option (Z * bytes) :=
  match s with
  | a :: b :: c :: d :: t =>
      match hexValue a, hexValue b, hexValue c, hexValue d with
      | Some a, Some b, Some c, Some d => Some (((a * 16 + b) * 16 + c) * 16 + d, t)
      | _, _, _, _ => None
      end
  | _ => None
  end.

(** [utf8.AppendRune] *)
Definition encodeRune (c : Z) : bytes :=
  if c <? 0x80 then [byte_of_Z c]
  else if c <? 0x800 then [byte_of_Z (0xC0 + c / 64); byte_of_Z (0x80 + c mod 64)]
  else if c <? 0x10000 then
    [byte_of_Z (0xE0 + c / 4096); byte_of_Z (0x80 + c / 64 mod 64); byte_of_Z (0x80 + c mod 64)]
  else
    [byte_of_Z (0xF0 + c / 262144); byte_of_Z (0x80 + c / 4096 mod 64);
     byte_of_Z (0x80 + c / 64 mod 64); byte_of_Z (0x80 + c mod 64)].

Definition replacement : bytes := [xef; xbf; xbd].

Definition isHigh (c : Z) : bool := (0xD800 <=? c) && (c <? 0xDC00).
Definition isLow (c : Z) : bool := (0xDC00 <=? c) && (c <? 0xE000).

(** The rune of an escape [\uXXXX], given what follows it: a surrogate pair is
    one rune, and a lone surrogate is replaced. *)
Definition escapedRune (c : Z) (t : bytes) : bytes * bytes :=
  if isHigh c then
    match t with
    | x5c :: x75 :: t' =>
        match hex4 t' with
        | Some (c', t'') =>
            if isLow c'
            then (encodeRune ((c - 0xD800) * 1024 + (c' - 0xDC00) + 0x10000), t'')
            else (replacement, t)
        | None => (replacement, t)
        end
    | _ => (replacement, t)
    end
  else if isLow c then (replacement, t)
  else (encodeRune c, t).

(** After a backslash. *)
Definition escape (s : bytes) : option (bytes * bytes) :=
  match s with
  | x22 :: t => Some ([x22], t)
  | x5c :: t => Some ([x5c], t)
  | x2f :: t => Some ([x2f], t)
  | x62 :: t => Some ([x08], t)
  | x66 :: t => Some ([x0c], t)
  | x6e :: t => Some ([x0a], t)
  | x72 :: t => Some ([x0d], t)
  | x74 :: t => Some ([x09], t)
  | x75 :: t =>
      match hex4 t with Some (c, t') => Some (escapedRune c t') | None => None end
  | _ => None
  end.

(** After the opening quote, up to and including the closing one. *)
Fixpoint parseString (fuel : nat) (s : bytes) : option (bytes * bytes) :=
  match fuel, s with
  | O, _ => None
  | _, [] => None
  | S fuel', b :: t =>
      let continue (part : bytes) (rest : bytes) :=
        match parseString fuel' rest with
        | Some (tail, rest') => Some (part ++ tail, rest')
        | None => None
        end in
      match b with
      | x22 => Some ([], t)
      | x5c =>
          match escape t with
          | Some (part, rest) => continue part rest
          | None => None
          end
      | _ =>
          if Z_of_byte b <? 32 then None
          else
            match Utf8.runeWidth s with
            | Some w => continue (take w s) (drop w s)
            | None => continue replacement t
            end
      end
  end.

(** ** Decoding values *)

Definition isSpace (b : byte) : bool :=
  match b with x20 | x09 | x0a | x0d => true | _ => false end.

Fixpoint skip (s : bytes) : bytes :=
  match s with
  | b :: t => if isSpace b then skip t else s
  | [] => []
  end.

Definition isDigit (b : byte) : bool := (48 <=? Z_of_byte b) && (Z_of_byte b <=? 57).

(** The digits at the head of [s], and the rest. *)
Fixpoint digits (s : bytes) : bytes * bytes :=
  match s with
  | b :: t =>
      if isDigit b then let '(ds, rest) := digits t in (b :: ds, rest) else ([], s)
  | [] => ([], [])
  end.

(** At least one digit. *)
Definition digits1 (s : bytes) : option (bytes * bytes) :=
  match digits s with ([], _) => None | r => Some r end.

(** The integer part: zero, or digits that do not start with zero. *)
Definition intPart (s : bytes) : option (bytes * bytes) :=
  match s with
  | x30 :: t => Some ([x30], t)
  | _ => digits1 s
  end.

Definition fraction (s : bytes) : option (bytes * bytes) :=
  match s with
  | x2e :: t =>
      match digits1 t with Some (ds, rest) => Some (x2e :: ds, rest) | None => None end
  | _ => Some ([], s)
  end.

Definition exponentSign (s : bytes) : bytes * bytes :=
  match s with
  | x2b :: t => ([x2b], t)
  | x2d :: t => ([x2d], t)
  | _ => ([], s)
  end.

Definition exponentDigits (e : byte) (t : bytes) : option (bytes * bytes) :=
  let '(sign, t) := exponentSign t in
  match digits1 t with Some (ds, rest) => Some (e :: sign ++ ds, rest) | None => None end.

Definition exponent (s : bytes) : option (bytes * bytes) :=
  match s with
  | x65 :: t => exponentDigits x65 t
  | x45 :: t => exponentDigits x45 t
  | _ => Some ([], s)
  end.

Definition unsignedNumber (s : bytes) : option (bytes * bytes) :=
  match intPart s with
  | Some (i, t) =>
      match fraction t with
      | Some (f, t) =>
          match exponent t with
          | Some (e, t) => Some (i ++ f ++ e, t)
          | None => None
          end
      | None => None
      end
  | None => None
  end.

Definition parseNumber (s : bytes) : option (bytes * bytes) :=
  match s with
  | x2d :: t =>
      match unsignedNumber t with Some (n, rest) => Some (x2d :: n, rest) | None => None end
  | _ => unsignedNumber s
  end.

(** [strings.CutPrefix] *)
Fixpoint cutPrefix (pre s : bytes) : option bytes :=
  match pre, s with
  | [], _ => Some s
  | a :: pre', b :: s' => if bool_decide (a = b) then cutPrefix pre' s' else None
  | _ :: _, [] => None
  end.

Definition literal (text s : bytes) (v : json) : option (json * bytes) :=
  match cutPrefix text s with Some rest => Some (v, rest) | None => None end.

(** Nesting beyond this is an error. *)
Definition maxNestingDepth : Z := 10000.

(** A value at the head of [s]; [depth] arrays and objects are open. *)
Fixpoint parseValue (fuel : nat) (depth : Z) (s : bytes) : option (json * bytes) :=
  match fuel with
  | O => None
  | S fuel' =>
      let u := skip s in
      match u with
      | x22 :: t =>
          match parseString (length t) t with
          | Some (str, rest) => Some (JString str, rest)
          | None => None
          end
      | x5b :: t =>
          if maxNestingDepth <? depth + 1 then None
          else
            match skip t with
            | x5d :: rest => Some (JArray [], rest)
            | _ =>
                match parseElements fuel' (depth + 1) t with
                | Some (elements, rest) => Some (JArray elements, rest)
                | None => None
                end
            end
      | x7b :: t =>
          if maxNestingDepth <? depth + 1 then None
          else
            match skip t with
            | x7d :: rest => Some (JObject [], rest)
            | _ =>
                match parseMembers fuel' (depth + 1) t with
                | Some (members, rest) => Some (JObject members, rest)
                | None => None
                end
            end
      | x6e :: _ => literal [x6e; x75; x6c; x6c] u JNull
      | x74 :: _ => literal [x74; x72; x75; x65] u (JBool true)
      | x66 :: _ => literal [x66; x61; x6c; x73; x65] u (JBool false)
      | _ =>
          match parseNumber u with
          | Some (text, rest) => Some (JNumber text, rest)
          | None => None
          end
      end
  end
(** The elements of an array, up to and including the bracket. *)
with parseElements (fuel : nat) (depth : Z) (s : bytes) : option (list json * bytes) :=
  match fuel with
  | O => None
  | S fuel' =>
      match parseValue fuel' depth s with
      | Some (v, t) =>
          match skip t with
          | x2c :: t =>
              match parseElements fuel' depth t with
              | Some (vs, rest) => Some (v :: vs, rest)
              | None => None
              end
          | x5d :: rest => Some ([v], rest)
          | _ => None
          end
      | None => None
      end
  end
(** The members of an object, up to and including the brace. *)
with parseMembers (fuel : nat) (depth : Z) (s : bytes) : option (list (bytes * json) * bytes) :=
  match fuel with
  | O => None
  | S fuel' =>
      match skip s with
      | x22 :: t =>
          match parseString (length t) t with
          | Some (key, t) =>
              match skip t with
              | x3a :: t =>
                  match parseValue fuel' depth t with
                  | Some (v, t) =>
                      match skip t with
                      | x2c :: t =>
                          match parseMembers fuel' depth t with
                          | Some (ms, rest) => Some ((key, v) :: ms, rest)
                          | None => None
                          end
                      | x7d :: rest => Some ([(key, v)], rest)
                      | _ => None
                      end
                  | None => None
                  end
              | _ => None
              end
          | None => None
          end
      | _ => None
      end
  end.

(** One value and nothing after it but space. *)
Definition decode (s : bytes) : option json :=
  match parseValue (2 * length s + 2) 0 s with
  | Some (v, rest) => match skip rest with [] => Some v | _ => None end
  | None => None
  end.

End Json.
