(* ===== verification/JsonProofs.v ===== *)
(** * JSON text: the decoder reads back what the encoder writes *)

From S2P Require Import Prelude Text Utf8 Json.
Import Text Json.

Module JsonProofs.

Local Open Scope Z_scope.

(** ** Strings *)

(** One step of [parseString]. *)
Definition prepend (part : bytes) (r : option (bytes * bytes)) : option (bytes * bytes) :=
  match r with Some (tail, rest) => Some (part ++ tail, rest) | None => None end.

Lemma parseString_ascii (fuel : nat) (b : byte) (t : bytes) :
  Utf8.rune [b] -> parseString (S fuel) (appendAscii b ++ t) = prepend [b] (parseString fuel t).
Proof. intros Hb. destruct b; first [discriminate Hb|reflexivity]. Qed.

Lemma rune_first (b : byte) (r : bytes) :
  Utf8.rune (b :: r) -> r <> [] -> b <> x22 /\ b <> x5c /\ 32 <= Z_of_byte b.
Proof.
  intros Hr Hne. assert (length (b :: r) <> 1%nat) as Hl by (destruct r; [done|cbn; lia]).
  unfold Utf8.rune in Hr. cbn [Utf8.runeWidth] in Hr.
  destruct (Utf8.firstInfo b) as [[[w lo] hi]|] eqn:Hf; [|done].
  destruct (Nat.eqb_spec w 1) as [|Hw]; [injection Hr as Hr; cbn [length] in Hl; lia|]. clear Hr Hl Hne r.
  destruct b; first [vm_compute in Hf; congruence | split_and!; [done|done|vm_compute; discriminate]].
Qed.

Lemma parseString_rune (fuel : nat) (r t : bytes) :
  Utf8.rune r -> parseString (S fuel) (appendRune r ++ t) = prepend r (parseString fuel t).
Proof.
  intros Hr. pose proof (Utf8.rune_app r t Hr) as Hw.
  destruct r as [|b [|c r]]; [done|by apply parseString_ascii|]. unfold appendRune.
  case_bool_decide as H1; [rewrite H1; reflexivity|]. case_bool_decide as H2; [rewrite H2; reflexivity|].
  destruct (rune_first b (c :: r) Hr ltac:(done)) as (Hq & Hb & H32).
  pose proof (take_app_length (b :: c :: r) t) as Ht. pose proof (drop_app_length (b :: c :: r) t) as Hd.
  cbn [app] in Hw, Ht, Hd |- *. cbn [parseString]. rewrite Hw, Ht, Hd.
  rewrite (proj2 (Z.ltb_ge _ 32)) by done. clear Hw Ht Hd Hr H32 H1 H2.
  destruct b; done.
Qed.

Lemma appendRunes_runes (rs : list bytes) (fuel : nat) :
  Forall Utf8.rune rs -> (length (concat rs) <= fuel)%nat ->
  appendRunes fuel (concat rs) = concat (map appendRune rs).
Proof.
  intros Hrs. revert fuel. induction Hrs as [|r rs Hr Hrs IH]; intros fuel Hf; [by destruct fuel|].
  pose proof (Utf8.rune_length r Hr) as Hl. cbn [concat map] in *. rewrite length_app in Hf.
  destruct fuel as [|fuel]; [lia|]. destruct r as [|b r]; [cbn in Hl; lia|].
  cbn [appendRunes app]. change (b :: r ++ concat rs) with ((b :: r) ++ concat rs).
  rewrite Utf8.rune_app, take_app_length, drop_app_length by done. by rewrite IH by lia.
Qed.

Lemma appendRune_length (r : bytes) : Utf8.rune r -> (1 <= length (appendRune r))%nat.
Proof.
  intros Hr. pose proof (Utf8.rune_length r Hr). destruct r as [|b [|c r]]; cbn in *; [lia| |].
  - destruct b; cbn; lia.
  - repeat case_bool_decide; cbn; lia.
Qed.

Lemma runes_length (rs : list bytes) :
  Forall Utf8.rune rs -> (length rs <= length (concat (map appendRune rs)))%nat.
Proof.
  induction 1 as [|r rs Hr Hrs IH]; [done|]. cbn [map concat length]. rewrite length_app.
  pose proof (appendRune_length r Hr). lia.
Qed.

Lemma parseString_runes (rs : list bytes) (fuel : nat) (rest : bytes) :
  Forall Utf8.rune rs -> (length rs < fuel)%nat ->
  parseString fuel (concat (map appendRune rs) ++ x22 :: rest) = Some (concat rs, rest).
Proof.
  intros Hrs. revert fuel. induction Hrs as [|r rs Hr Hrs IH]; intros fuel Hf.
  { destruct fuel; [cbn in Hf; lia|done]. }
  cbn [length map concat] in *. destruct fuel as [|fuel]; [lia|].
  rewrite <- app_assoc, parseString_rune, IH by (done || lia). done.
Qed.

(** What follows the opening quote of an encoded string. *)
Lemma parseString_appendString (s rest t : bytes) :
  Utf8.Valid s = true -> appendString s ++ rest = x22 :: t -> parseString (length t) t = Some (s, rest).
Proof.
  intros (rs & Hrs & ->)%Utf8.Valid_iff. unfold appendString.
  rewrite appendRunes_runes by done. cbn [app]. rewrite <- app_assoc. intros [= <-].
  apply parseString_runes; [done|]. rewrite length_app. cbn [length app].
  pose proof (runes_length rs Hrs). lia.
Qed.

(** ** Numbers *)

(** What may follow a value inside an array or an object, or at the end. *)
Definition delimited (rest : bytes) : Prop :=
  match rest with [] => True | b :: _ => b = x2c \/ b = x5d \/ b = x7d end.

(** ASCII without control characters. *)
Definition plain (b : byte) : Prop := 32 <= Z_of_byte b < 128.

Lemma plain_all (s : bytes) :
  forallb (fun b => (32 <=? Z_of_byte b) && (Z_of_byte b <? 128)) s = true -> Forall plain s.
Proof.
  intros Hs. rewrite Forall_forall. intros b Hb%list_elem_of_In.
  rewrite List.forallb_forall in Hs. specialize (Hs b Hb). unfold plain. gobool. lia.
Qed.

Definition number_ok (text : bytes) : Prop :=
  match text with
  | b :: _ => (isDigit b = true \/ b = x2d) /\ Forall plain text
  | [] => False
  end /\
  forall rest, delimited rest -> parseNumber (text ++ rest) = Some (text, rest).

Lemma digits_all (ds rest : bytes) :
  Forall (fun b => isDigit b = true) ds -> delimited rest -> digits (ds ++ rest) = (ds, rest).
Proof.
  intros Hds Hrest. induction Hds as [|b ds Hb Hds IH]; cbn [app digits].
  - destruct rest as [|b rest]; [done|]. cbn [digits]. by destruct Hrest as [-> |[-> | ->]].
  - by rewrite Hb, IH.
Qed.

Lemma fraction_none (rest : bytes) : delimited rest -> fraction rest = Some ([], rest).
Proof. destruct rest as [|b rest]; [done|]. by intros [-> |[-> | ->]]. Qed.

Lemma exponent_none (rest : bytes) : delimited rest -> exponent rest = Some ([], rest).
Proof. destruct rest as [|b rest]; [done|]. by intros [-> |[-> | ->]]. Qed.

(** Decimal digits without a leading zero, or zero itself. *)
Definition canonicalDigits (ds : bytes) : Prop :=
  Forall (fun b => isDigit b = true) ds /\
  match ds with [] => False | b :: t => b = x30 -> t = [] end.

Lemma unsignedNumber_digits (ds rest : bytes) :
  canonicalDigits ds -> delimited rest -> unsignedNumber (ds ++ rest) = Some (ds, rest).
Proof.
  intros [Hds Hz] Hrest. destruct ds as [|b ds]; [done|].
  assert (intPart ((b :: ds) ++ rest) = Some (b :: ds, rest)) as Hi.
  { pose proof (digits_all (b :: ds) rest Hds Hrest) as Hd.
    destruct (decide (b = x30)) as [->|Hb]; [by rewrite (Hz eq_refl)|].
    transitivity (digits1 ((b :: ds) ++ rest)); [by destruct b|]. unfold digits1. by rewrite Hd. }
  unfold unsignedNumber. rewrite Hi, fraction_none, exponent_none by done. by rewrite app_nil_r.
Qed.

Lemma digits_plain (ds : bytes) : Forall (fun b => isDigit b = true) ds -> Forall plain ds.
Proof.
  intros Hds. eapply Forall_impl; [exact Hds|]. intros b Hb. unfold isDigit in Hb. unfold plain. gobool. lia.
Qed.

Lemma number_ok_digits (ds : bytes) : canonicalDigits ds -> number_ok ds.
Proof.
  intros Hds. pose proof Hds as [Hall Hz]. split.
  - destruct ds as [|b ds]; [done|]. split; [|by apply digits_plain].
    left. by apply Forall_cons in Hall as [Hb _].
  - intros rest Hrest. transitivity (unsignedNumber (ds ++ rest)); [|by apply unsignedNumber_digits].
    destruct ds as [|b ds]; [done|]. apply Forall_cons in Hall as [Hb _]. by destruct b.
Qed.

Lemma number_ok_negative (ds : bytes) : canonicalDigits ds -> number_ok (x2d :: ds).
Proof.
  intros Hds. split.
  { split; [by right|]. constructor; [by vm_compute|apply digits_plain, Hds]. }
  intros rest Hrest. cbn [app parseNumber].
  by rewrite unsignedNumber_digits.
Qed.

(** ** Values *)

(** Induction with the elements and members at hand. *)
Lemma json_rect_list (P : json -> Prop) :
  P JNull -> (forall b, P (JBool b)) -> (forall t, P (JNumber t)) -> (forall s, P (JString s)) ->
  (forall vs, Forall P vs -> P (JArray vs)) ->
  (forall ms, Forall (fun m => P (snd m)) ms -> P (JObject ms)) ->
  forall v, P v.
Proof.
  intros Hn Hb Hnum Hs Ha Ho. fix IH 1. intros [| b | t | s | vs | ms];
    [exact Hn|apply Hb|apply Hnum|apply Hs|apply Ha|apply Ho].
  - induction vs as [|v vs IHvs]; constructor; [apply IH|exact IHvs].
  - induction ms as [|[k v] ms IHms]; constructor; [apply IH|exact IHms].
Qed.

(** Values the encoder writes faithfully: UTF-8 strings and number texts. *)
Fixpoint writable (v : json) : Prop :=
  match v with
  | JNumber text => number_ok text
  | JString s => Utf8.Valid s = true
  | JArray vs => fold_right (fun v p => writable v /\ p) True vs
  | JObject ms => fold_right (fun m p => (Utf8.Valid (fst m) = true /\ writable (snd m)) /\ p) True ms
  | _ => True
  end.

(** Number of arrays and objects around the deepest value. *)
Fixpoint height (v : json) : Z :=
  match v with
  | JArray vs => 1 + fold_right (fun v h => Z.max (height v) h) 0 vs
  | JObject ms => 1 + fold_right (fun m h => Z.max (height (snd m)) h) 0 ms
  | _ => 0
  end.

Definition starts (v : json) : Prop :=
  exists b t, encode v = b :: t /\ isSpace b = false /\ b <> x5d /\ b <> x7d.

Lemma encode_starts (v : json) : writable v -> starts v.
Proof.
  unfold starts. destruct v as [|[]|text|s|vs|ms]; cbn [encode writable]; intros Hv.
  all: try (eexists _, _; split; [reflexivity|done]).
  destruct text as [|b t]; [by destruct Hv|]. exists b, t. split; [done|].
  destruct Hv as [[[Hb| ->] _] _]; [|done]. by destruct b.
Qed.

Lemma skip_starts (v : json) (rest : bytes) : writable v -> skip (encode v ++ rest) = encode v ++ rest.
Proof.
  intros (b & t & -> & Hb & _)%encode_starts. cbn [app skip]. by rewrite Hb.
Qed.

Definition parses (v : json) : Prop := forall fuel depth rest,
  delimited rest -> depth + height v <= maxNestingDepth -> (2 * length (encode v) <= fuel)%nat ->
  parseValue fuel depth (encode v ++ rest) = Some (v, rest).

Lemma height_nonneg (v : json) : 0 <= height v.
Proof.
  destruct v as [| | | |vs|ms]; cbn [height]; try lia.
  - induction vs as [|v vs IH]; cbn [fold_right]; lia.
  - induction ms as [|m ms IH]; cbn [fold_right]; lia.
Qed.

Lemma commas_cons (part : bytes) (parts : list bytes) :
  parts <> [] -> commas (part :: parts) = part ++ comma :: commas parts.
Proof. by destruct parts. Qed.

Lemma parses_elements (vs : list json) (fuel : nat) (depth : Z) (rest : bytes) :
  vs <> [] -> Forall (fun v => writable v /\ parses v) vs -> 
  depth + fold_right (fun v h => Z.max (height v) h) 0 vs <= maxNestingDepth ->
  (2 * length (commas (map encode vs)) + 1 <= fuel)%nat ->
  parseElements fuel depth (commas (map encode vs) ++ x5d :: rest) = Some (vs, rest).
Proof.
  intros Hne Hvs. revert fuel. induction Hvs as [|v vs [Hw Hp] Hvs IH]; intros fuel Hd Hf; [done|].
  cbn [fold_right map] in *. destruct fuel as [|fuel]; [lia|]. cbn [parseElements].
  destruct vs as [|v' vs].
  - cbn [map commas] in *. rewrite Hp; [done|right; by left|lia|lia].
  - rewrite commas_cons in Hf |- * by done. rewrite length_app in Hf. cbn [length] in Hf.
    rewrite <- app_assoc. cbn [app]. rewrite Hp; [|by left|lia|lia]. cbn [skip isSpace comma].
    rewrite IH; [done|done|lia|lia].
Qed.

Definition encodeMember (m : bytes * json) : bytes := appendString (fst m) ++ x3a :: encode (snd m).

Lemma appendString_starts (s : bytes) : exists t, appendString s = x22 :: t.
Proof. by eexists. Qed.

(** Reading one member up to what follows its value. *)
Lemma parseMembers_step (fuel : nat) (depth : Z) (key : bytes) (v : json) (rest : bytes) :
  Utf8.Valid key = true -> parses v -> delimited rest -> depth + height v <= maxNestingDepth ->
  (2 * length (encode v) <= fuel)%nat ->
  parseMembers (S fuel) depth (encodeMember (key, v) ++ rest) =
    match skip rest with
    | x2c :: t =>
        match parseMembers fuel depth t with
        | Some (ms, rest) => Some ((key, v) :: ms, rest)
        | None => None
        end
    | x7d :: rest => Some ([(key, v)], rest)
    | _ => None
    end.
Proof.
  intros Hk Hp Hrest Hd Hf. unfold encodeMember. cbn [fst snd]. rewrite <- app_assoc. cbn [app].
  destruct (appendString_starts key) as [t Ht].
  pose proof (parseString_appendString key (x3a :: encode v ++ rest) (t ++ x3a :: encode v ++ rest) Hk
    ltac:(by rewrite Ht)) as Hs.
  rewrite Ht. cbn [app parseMembers skip isSpace]. rewrite Hs. cbn [skip isSpace].
  by rewrite Hp.
Qed.

Lemma parses_members (ms : list (bytes * json)) (fuel : nat) (depth : Z) (rest : bytes) :
  ms <> [] ->
  Forall (fun m => Utf8.Valid (fst m) = true /\ parses (snd m)) ms ->
  depth + fold_right (fun m h => Z.max (height (snd m)) h) 0 ms <= maxNestingDepth ->
  (2 * length (commas (map encodeMember ms)) + 1 <= fuel)%nat ->
  parseMembers fuel depth (commas (map encodeMember ms) ++ x7d :: rest) = Some (ms, rest).
Proof.
  intros Hne Hms. revert fuel. induction Hms as [|[key v] ms [Hk Hp] Hms IH]; intros fuel Hd Hf; [done|].
  cbn [fst snd] in *. cbn [fold_right map] in *. destruct fuel as [|fuel]; [lia|].
  assert (length (encode v) <= length (encodeMember (key, v)))%nat as Hl.
  { unfold encodeMember. cbn [fst snd]. rewrite length_app. cbn [length]. lia. }
  cbn [snd] in Hd. destruct ms as [|m ms].
  - cbn [map commas] in *. rewrite parseMembers_step; [done|done|done|right; by right|lia|lia].
  - rewrite commas_cons in Hf |- * by done. rewrite length_app in Hf. cbn [length] in Hf.
    rewrite <- app_assoc. cbn [app]. rewrite parseMembers_step; [|done|done|by left|lia|lia].
    cbn [skip isSpace comma]. rewrite IH; [done|done|lia|lia].
Qed.

Lemma parseValue_number (fuel : nat) (depth : Z) (text rest : bytes) :
  number_ok text -> delimited rest ->
  parseValue (S fuel) depth (text ++ rest) = Some (JNumber text, rest).
Proof.
  intros [Hb Hp] Hrest. specialize (Hp rest Hrest). destruct text as [|b t]; [done|]. destruct Hb as [Hb _].
  cbn [app] in *. cbn [parseValue].
  assert (skip (b :: t ++ rest) = b :: t ++ rest) as -> by (destruct Hb as [Hb| ->]; [by destruct b|done]).
  rewrite Hp. clear Hp. destruct Hb as [Hb| ->]; [|done]. by destruct b.
Qed.

Lemma parseValue_string (fuel : nat) (depth : Z) (s rest : bytes) :
  Utf8.Valid s = true -> parseValue (S fuel) depth (appendString s ++ rest) = Some (JString s, rest).
Proof.
  intros Hs. destruct (appendString_starts s) as [t Ht].
  pose proof (parseString_appendString s rest (t ++ rest) Hs ltac:(by rewrite Ht)) as Hp.
  rewrite Ht. cbn [app parseValue skip isSpace]. by rewrite Hp.
Qed.

Lemma writable_array (vs : list json) : writable (JArray vs) <-> Forall writable vs.
Proof.
  cbn [writable]. induction vs as [|v vs IH]; cbn [fold_right]; [by split|].
  rewrite Forall_cons. tauto.
Qed.

Lemma writable_object (ms : list (bytes * json)) :
  writable (JObject ms) <-> Forall (fun m => Utf8.Valid (fst m) = true /\ writable (snd m)) ms.
Proof.
  cbn [writable]. induction ms as [|m ms IH]; cbn [fold_right]; [by split|].
  rewrite Forall_cons. tauto.
Qed.

(** The first byte of a non-empty comma list is that of its first part. *)
Lemma commas_first (part : bytes) (parts : list bytes) (b : byte) (t rest : bytes) :
  part = b :: t -> exists t', commas (part :: parts) ++ rest = b :: t'.
Proof. intros ->. destruct parts; cbn [commas app]; by eexists. Qed.

Lemma parseValue_array (fuel : nat) (depth : Z) (vs : list json) (rest : bytes) :
  Forall (fun v => writable v /\ parses v) vs ->
  depth + height (JArray vs) <= maxNestingDepth -> (2 * length (encode (JArray vs)) <= fuel)%nat ->
  parseValue fuel depth (encode (JArray vs) ++ rest) = Some (JArray vs, rest).
Proof.
  intros Hvs Hd Hf. cbn [encode height app length] in *. rewrite length_app in Hf. cbn [length] in Hf.
  destruct fuel as [|fuel]; [lia|]. rewrite <- app_assoc. cbn [app parseValue skip isSpace].
  pose proof (height_nonneg (JArray vs)) as Hh. cbn [height] in Hh.
  destruct vs as [|v vs].
  - cbn [fold_right] in Hd. rewrite (proj2 (Z.ltb_ge maxNestingDepth (depth + 1))) by lia. done.
  - set (h := fold_right (fun v h => Z.max (height v) h) 0 (v :: vs)) in *.
    assert (0 <= h) by (unfold h; cbn [fold_right]; pose proof (height_nonneg v); lia).
    rewrite (proj2 (Z.ltb_ge maxNestingDepth (depth + 1))) by lia.
    pose proof (parses_elements (v :: vs) fuel (depth + 1) rest ltac:(done) Hvs ltac:(fold h; lia) ltac:(lia)) as Hp.
    apply Forall_cons in Hvs as [[Hw _] _].
    destruct (encode_starts v Hw) as (b & t & Hb & Hsp & Hne & _).
    destruct (commas_first (encode v) (map encode vs) b t (x5d :: rest) Hb) as [t' Ht].
    cbn [map] in Hp |- *. rewrite Ht in Hp |- *. cbn [skip]. rewrite Hsp, Hp. by destruct b.
Qed.

Lemma parseValue_object (fuel : nat) (depth : Z) (ms : list (bytes * json)) (rest : bytes) :
  Forall (fun m => Utf8.Valid (fst m) = true /\ parses (snd m)) ms ->
  depth + height (JObject ms) <= maxNestingDepth -> (2 * length (encode (JObject ms)) <= fuel)%nat ->
  parseValue fuel depth (encode (JObject ms) ++ rest) = Some (JObject ms, rest).
Proof.
  intros Hms Hd Hf. cbn [encode height app length] in *. rewrite length_app in Hf. cbn [length] in Hf.
  destruct fuel as [|fuel]; [lia|]. rewrite <- app_assoc. cbn [app parseValue skip isSpace].
  change (map (fun m => appendString (fst m) ++ x3a :: encode (snd m)) ms) with (map encodeMember ms) in *.
  destruct ms as [|m ms].
  - cbn [fold_right] in Hd. rewrite (proj2 (Z.ltb_ge maxNestingDepth (depth + 1))) by lia. done.
  - set (h := fold_right (fun m h => Z.max (height (snd m)) h) 0 (m :: ms)) in *.
    assert (0 <= h) by (unfold h; cbn [fold_right]; pose proof (height_nonneg (snd m)); lia).
    rewrite (proj2 (Z.ltb_ge maxNestingDepth (depth + 1))) by lia.
    pose proof (parses_members (m :: ms) fuel (depth + 1) rest ltac:(done) Hms ltac:(fold h; lia) ltac:(lia)) as Hp.
    destruct (commas_first (encodeMember m) (map encodeMember ms) x22
      (appendRunes (length (fst m)) (fst m) ++ [x22] ++ x3a :: encode (snd m)) (x7d :: rest)) as [t' Ht].
    { unfold encodeMember, appendString. cbn [app]. by rewrite <- app_assoc. }
    cbn [map] in Hp |- *. rewrite Ht in Hp |- *. cbn [skip isSpace]. by rewrite Hp.
Qed.

Lemma writable_parses (v : json) : writable v -> parses v.
Proof.
  induction v as [|b|text|s|vs IH|ms IH] using json_rect_list; intros Hw fuel depth rest Hrest Hd Hf.
  - destruct fuel; [cbn in Hf; lia|done].
  - destruct b, fuel; try (cbn in Hf; lia); done.
  - destruct fuel; [|by apply parseValue_number]. destruct Hw as [Hb _].
    destruct text; [done|]. cbn in Hf. lia.
  - destruct fuel; [cbn in Hf; lia|by apply parseValue_string].
  - apply writable_array in Hw. apply parseValue_array; [|done|done].
    rewrite Forall_forall in *. auto.
  - apply writable_object in Hw. apply parseValue_object; [|done|done].
    rewrite Forall_forall in *. intros m Hm. destruct (Hw m Hm). auto.
Qed.

(** ** The round trip *)

Lemma json_roundtrip (v : json) :
  writable v -> height v <= maxNestingDepth -> decode (encode v) = Some v.
Proof.
  intros Hw Hh. unfold decode.
  pose proof (writable_parses v Hw (2 * length (encode v) + 2)%nat 0 [] I ltac:(lia) ltac:(lia)) as Hp.
  rewrite app_nil_r in Hp. by rewrite Hp.
Qed.

(** ** The encoder writes one line of UTF-8 *)

Definition clean (s : bytes) : Prop := Utf8.Valid s = true /\ x0a ∉ s.

Lemma clean_app (s t : bytes) : clean s -> clean t -> clean (s ++ t).
Proof.
  intros [(rs & Hrs & ->)%Utf8.Valid_iff Hs] [(ts & Hts & ->)%Utf8.Valid_iff Ht]. split.
  - apply Utf8.Valid_iff. exists (rs ++ ts). split; [by apply Forall_app|by rewrite concat_app].
  - rewrite elem_of_app. tauto.
Qed.

Lemma clean_nil : clean [].
Proof. split; [done|]. intros H. by apply elem_of_nil in H. Qed.

Lemma plain_byte (b : byte) : plain b -> Utf8.Valid [b] = true /\ b <> x0a.
Proof.
  intros [H1 H2]. destruct b; first [by split | discriminate H2 | exfalso; by apply H1].
Qed.

Lemma clean_plain (s : bytes) : Forall plain s -> clean s.
Proof.
  induction 1 as [|b s Hb Hs IH]; [apply clean_nil|]. change (b :: s) with ([b] ++ s).
  apply clean_app; [|done]. destruct (plain_byte b Hb) as [Hv Hn]. split; [done|].
  intros Hin%list_elem_of_singleton. congruence.
Qed.

Lemma firstInfo_second (b : byte) (w : nat) (lo hi : Z) :
  Utf8.firstInfo b = Some (w, lo, hi) -> w <> 1%nat -> 128 <= Z_of_byte b /\ 128 <= lo.
Proof. destruct b; vm_compute; try done; intros [= <- <- <-]; done || by split. Qed.

(** All bytes of a longer rune are above ASCII. *)
Lemma multibyte_high (b c : byte) (r : bytes) :
  Utf8.rune (b :: c :: r) -> Forall (fun x => 128 <= Z_of_byte x) (b :: c :: r).
Proof.
  unfold Utf8.rune. cbn [Utf8.runeWidth length].
  destruct (Utf8.firstInfo b) as [[[w lo] hi]|] eqn:Hf; [|done].
  destruct (Nat.eqb_spec w 1) as [|Hw]; [done|]. destruct (_ && _) eqn:Hc; [|done]. intros [= ->].
  destruct (firstInfo_second b _ lo hi Hf Hw) as [Hb Hlo].
  apply andb_prop in Hc as [[Hr _]%andb_prop Hcont]. 
  replace (S (S (length r)) - 2)%nat with (length r) in Hcont by lia. rewrite firstn_all in Hcont.
  unfold Utf8.between in Hr. gobool. constructor; [done|constructor; [lia|]].
  rewrite Forall_forall. intros x Hx.
  rewrite List.forallb_forall in Hcont. specialize (Hcont x ltac:(by apply list_elem_of_In)).
  unfold Utf8.continuation, Utf8.between in Hcont. gobool. lia.
Qed.

Lemma multibyte_no_newline (b c : byte) (r : bytes) : Utf8.rune (b :: c :: r) -> x0a ∉ b :: c :: r.
Proof.
  intros Hr Hin. apply multibyte_high in Hr. rewrite Forall_forall in Hr.
  specialize (Hr _ Hin). vm_compute in Hr. by apply Hr.
Qed.

Lemma clean_appendRune (r : bytes) : Utf8.rune r -> clean (appendRune r).
Proof.
  intros Hr. destruct r as [|b [|c r]]; [done| |].
  - destruct b; first [discriminate Hr | by apply clean_plain, plain_all].
  - unfold appendRune. case_bool_decide; [by apply clean_plain, plain_all|].
    case_bool_decide; [by apply clean_plain, plain_all|]. split.
    + apply Utf8.Valid_iff. exists [b :: c :: r]. split; [by constructor|]. cbn. by rewrite app_nil_r.
    + by apply multibyte_no_newline.
Qed.

Lemma clean_appendString (s : bytes) : Utf8.Valid s = true -> clean (appendString s).
Proof.
  intros (rs & Hrs & ->)%Utf8.Valid_iff. unfold appendString. rewrite appendRunes_runes by done.
  change (x22 :: ?l ++ [x22]) with ([x22] ++ l ++ [x22]).
  apply clean_app; [by apply clean_plain, plain_all|].
  apply clean_app; [|by apply clean_plain, plain_all].
  induction Hrs as [|r rs Hr Hrs IH]; [apply clean_nil|].
  cbn [map concat]. apply clean_app; [by apply clean_appendRune|done].
Qed.

Lemma clean_byte (b : byte) (s : bytes) : plain b -> clean s -> clean (b :: s).
Proof. intros Hb Hs. apply (clean_app [b]); [|done]. apply clean_plain. by constructor. Qed.

Lemma clean_commas (parts : list bytes) : Forall clean parts -> clean (commas parts).
Proof.
  induction 1 as [|p parts Hp Hparts IH]; [apply clean_nil|]. destruct parts as [|q parts]; [done|].
  rewrite commas_cons by done. apply clean_app; [done|]. apply clean_byte; [by vm_compute|done].
Qed.

Lemma encode_clean (v : json) : writable v -> clean (encode v).
Proof.
  induction v as [|[]|text|s|vs IH|ms IH] using json_rect_list; intros Hw.
  1-3: by apply clean_plain, plain_all.
  - destruct Hw as [Hb _]. destruct text; [done|]. by apply clean_plain, Hb.
  - by apply clean_appendString.
  - apply writable_array in Hw. cbn [encode]. apply clean_byte; [by vm_compute|].
    apply clean_app; [|by apply clean_plain, plain_all].
    apply clean_commas, Forall_map. rewrite Forall_forall in *. intros v Hv. cbn. auto.
  - apply writable_object in Hw. cbn [encode]. apply clean_byte; [by vm_compute|].
    apply clean_app; [|by apply clean_plain, plain_all].
    apply clean_commas, Forall_map. rewrite Forall_forall in *. intros m Hm. destruct (Hw m Hm) as [Hk Hv].
    apply (clean_app (appendString (fst m))); [by apply clean_appendString|]. apply clean_byte; [by vm_compute|]. by apply IH.
Qed.

End JsonProofs.
