(* ===== verification/Journal.v ===== *)
(** * Journal events as JSON lines: [event] of [src/store/jsonl/store.go]

    The structs with JSON tags that the repository marshals: journal events
    and, inside them, the records of [Wire].  Encoding writes the fields in
    their order and leaves out the empty ones marked [omitempty].  Decoding
    visits the members of an object in order: a field is found by its name
    without regard to case, a member that names no field is ignored, and
    [null] clears a pointer and leaves anything else as it was.  A member that
    appears twice is decoded into the value the first one left. *)

From Stdlib.Strings Require Import Ascii.
From S2P Require Import Prelude Text Json Cll Engine Wire.
Import Text Json Cll Wire.

Module Journal.

Local Open Scope Z_scope.

(** ** Events *)

Record event := MkEvent {
  ev_Version : Z;
  ev_Type : string;
  ev_Entry : option WireEntry;
  ev_ExpectedSize : string;
  ev_ExpectedCheckpoint : option string;
  ev_State : option WireState;
  ev_ExpectedAttempts : option Z;
  ev_Witness : option WireWitness
}.

(** The fields [replay] looks at first. *)
Record header := MkHeader {
  hd_Version : Z;
  hd_V : Z;
  hd_Type : string
}.

Definition zeroEvent : event := MkEvent 0 "" None "" None None None None.
Definition zeroHeader : header := MkHeader 0 0 "".
Definition zeroEntry : WireEntry := MkWireEntry "" "" "".
Definition zeroWitness : WireWitness := MkWireWitness "" "" "" 0 "" None "" "" None None false "".
Definition zeroState : WireState := MkWireState "" "" [] None None None None None [].

(** ** Encoding *)

Definition member (name : string) (v : json) : list (bytes * json) := [(bytesOf name, v)].

(** [omitempty] on a pointer and on a string. *)
Definition memberIf {A} (name : string) (f : A -> json) (o : option A) : list (bytes * json) :=
  match o with Some a => member name (f a) | None => [] end.

Definition memberText (name s : string) : list (bytes * json) :=
  if bool_decide (s = EmptyString) then [] else member name (JString (bytesOf s)).

Definition text (s : string) : json := JString (bytesOf s).
Definition texts (l : list string) : json := JArray (map text l).

Definition FormatInt (n : Z) : string :=
  if n <? 0 then String "-"%char (FormatUint (- n)) else FormatUint n.

Definition number (n : Z) : json := JNumber (bytesOf (FormatInt n)).

Definition entryJson (w : WireEntry) : json :=
  JObject (member "seq" (text (we_Seq w)) ++ member "value" (text (we_Value w)) ++
    member "appendedAt" (text (we_AppendedAt w))).

Definition witnessJson (w : WireWitness) : json :=
  JObject (member "witnessId" (text (ww_WitnessID w)) ++
    member "checkpointSize" (text (ww_CheckpointSize w)) ++
    member "checkpoint" (text (ww_Checkpoint w)) ++ member "attempts" (number (ww_Attempts w)) ++
    member "nextAttemptAt" (text (ww_NextAttemptAt w)) ++ memberIf "receipt" text (ww_Receipt w) ++
    memberText "entryHash" (ww_EntryHash w) ++ memberText "entryHashScheme" (ww_EntryHashScheme w) ++
    memberIf "leafIndex" number (ww_LeafIndex w) ++ memberIf "treeSize" number (ww_TreeSize w) ++
    member "permanent" (JBool (ww_Permanent w)) ++ memberText "lastError" (ww_LastError w)).

Definition stateJson (w : WireState) : json :=
  JObject (member "size" (text (ws_Size w)) ++ member "indexedSeq" (text (ws_IndexedSeq w)) ++
    member "nodes" (texts (ws_Nodes w)) ++ memberIf "firstPendingAt" text (ws_FirstPendingAt w) ++
    memberIf "checkpoint" text (ws_Checkpoint w) ++
    memberIf "checkpointSize" text (ws_CheckpointSize w) ++
    memberIf "checkpointIndexedSeq" text (ws_CheckpointIndexedSeq w) ++
    memberIf "checkpointPeaks" texts (ws_CheckpointPeaks w) ++
    member "witnesses" (JArray (map witnessJson (ws_Witnesses w)))).

Definition eventJson (ev : event) : json :=
  JObject (member "version" (number (ev_Version ev)) ++ member "type" (text (ev_Type ev)) ++
    memberIf "entry" entryJson (ev_Entry ev) ++ memberText "expected_size" (ev_ExpectedSize ev) ++
    memberIf "expected_checkpoint" text (ev_ExpectedCheckpoint ev) ++
    memberIf "state" stateJson (ev_State ev) ++
    memberIf "expected_attempts" number (ev_ExpectedAttempts ev) ++
    memberIf "witness" witnessJson (ev_Witness ev)).

(** [json.Marshal] of an event. *)
Definition Marshal (ev : event) : bytes := Json.encode (eventJson ev).

(** ** Decoding *)

Definition upper (b : byte) : byte :=
  if (97 <=? Z_of_byte b) && (Z_of_byte b <=? 122) then byte_of_Z (Z_of_byte b - 32) else b.

(** Letters without case; U+017F folds to S and U+212A to K, and no other rune
    above ASCII folds to a letter of a field name. *)
Fixpoint foldName (s : bytes) : bytes :=
  match s with
  | xc5 :: xbf :: t => x53 :: foldName t
  | xe2 :: x84 :: xaa :: t => x4b :: foldName t
  | b :: t => upper b :: foldName t
  | [] => []
  end.

Definition fieldIs (name : string) (key : bytes) : bool :=
  bool_decide (foldName key = foldName (bytesOf name)).

(** A decoder takes the value before and the JSON value. *)
Definition decoder (A : Type) : Type := A -> json -> option A.

Definition decString : decoder string := fun old v =>
  match v with
  | JString s => Some (stringOf s)
  | JNull => Some old
  | _ => None
  end.

Definition decBool : decoder bool := fun old v =>
  match v with
  | JBool b => Some b
  | JNull => Some old
  | _ => None
  end.

(** [strconv.ParseInt] and [strconv.ParseUint] on the text of a number. *)
Definition ParseInt (s : string) : option Z :=
  match s with
  | String c t =>
      if bool_decide (c = "-"%char) then
        n ← ParseUint t; if n <=? two63 then Some (- n) else None
      else
        n ← ParseUint s; if n <? two63 then Some n else None
  | EmptyString => None
  end.

Definition decInt64 : decoder Z := fun old v =>
  match v with
  | JNumber t => ParseInt (stringOf t)
  | JNull => Some old
  | _ => None
  end.

Definition decUint32 : decoder Z := fun old v =>
  match v with
  | JNumber t => n ← ParseUint (stringOf t); if n <? 4294967296 then Some n else None
  | JNull => Some old
  | _ => None
  end.

Definition decPointer {A} (zero : A) (dec : decoder A) : decoder (option A) := fun old v =>
  match v with
  | JNull => Some None
  | _ => a ← dec (default zero old) v; Some (Some a)
  end.

(** Elements are decoded into those the slice had. *)
Fixpoint decElements {A} (zero : A) (dec : decoder A) (old : list A) (vs : list json) : option (list A) :=
  match vs with
  | [] => Some []
  | v :: vs =>
      a ← dec (default zero (head old)) v;
      l ← decElements zero dec (tail old) vs;
      Some (a :: l)
  end.

Definition decSlice {A} (zero : A) (dec : decoder A) : decoder (list A) := fun old v =>
  match v with
  | JArray vs => decElements zero dec old vs
  | JNull => Some []
  | _ => None
  end.

Fixpoint decMembers {A} (field : bytes -> decoder A) (old : A) (ms : list (bytes * json)) : option A :=
  match ms with
  | [] => Some old
  | (key, v) :: ms => a ← field key old v; decMembers field a ms
  end.

Definition decStruct {A} (field : bytes -> decoder A) : decoder A := fun old v =>
  match v with
  | JObject ms => decMembers field old ms
  | JNull => Some old
  | _ => None
  end.

(** ** The structs *)

Definition entryField (key : bytes) : decoder WireEntry := fun w v =>
    if fieldIs "seq" key then
      x ← decString (we_Seq w) v;
      Some (MkWireEntry x (we_Value w) (we_AppendedAt w))
    else if fieldIs "value" key then
      x ← decString (we_Value w) v;
      Some (MkWireEntry (we_Seq w) x (we_AppendedAt w))
    else if fieldIs "appendedAt" key then
      x ← decString (we_AppendedAt w) v;
      Some (MkWireEntry (we_Seq w) (we_Value w) x)
    else Some w.

Definition witnessField (key : bytes) : decoder WireWitness := fun w v =>
    if fieldIs "witnessId" key then
      x ← decString (ww_WitnessID w) v;
      Some (MkWireWitness x (ww_CheckpointSize w) (ww_Checkpoint w) (ww_Attempts w)
        (ww_NextAttemptAt w) (ww_Receipt w) (ww_EntryHash w) (ww_EntryHashScheme w) (ww_LeafIndex w)
        (ww_TreeSize w) (ww_Permanent w) (ww_LastError w))
    else if fieldIs "checkpointSize" key then
      x ← decString (ww_CheckpointSize w) v;
      Some (MkWireWitness (ww_WitnessID w) x (ww_Checkpoint w) (ww_Attempts w) (ww_NextAttemptAt w)
        (ww_Receipt w) (ww_EntryHash w) (ww_EntryHashScheme w) (ww_LeafIndex w) (ww_TreeSize w)
        (ww_Permanent w) (ww_LastError w))
    else if fieldIs "checkpoint" key then
      x ← decString (ww_Checkpoint w) v;
      Some (MkWireWitness (ww_WitnessID w) (ww_CheckpointSize w) x (ww_Attempts w)
        (ww_NextAttemptAt w) (ww_Receipt w) (ww_EntryHash w) (ww_EntryHashScheme w) (ww_LeafIndex w)
        (ww_TreeSize w) (ww_Permanent w) (ww_LastError w))
    else if fieldIs "attempts" key then
      x ← decUint32 (ww_Attempts w) v;
      Some (MkWireWitness (ww_WitnessID w) (ww_CheckpointSize w) (ww_Checkpoint w) x
        (ww_NextAttemptAt w) (ww_Receipt w) (ww_EntryHash w) (ww_EntryHashScheme w) (ww_LeafIndex w)
        (ww_TreeSize w) (ww_Permanent w) (ww_LastError w))
    else if fieldIs "nextAttemptAt" key then
      x ← decString (ww_NextAttemptAt w) v;
      Some (MkWireWitness (ww_WitnessID w) (ww_CheckpointSize w) (ww_Checkpoint w) (ww_Attempts w) x
        (ww_Receipt w) (ww_EntryHash w) (ww_EntryHashScheme w) (ww_LeafIndex w) (ww_TreeSize w)
        (ww_Permanent w) (ww_LastError w))
    else if fieldIs "receipt" key then
      x ← decPointer EmptyString decString (ww_Receipt w) v;
      Some (MkWireWitness (ww_WitnessID w) (ww_CheckpointSize w) (ww_Checkpoint w) (ww_Attempts w)
        (ww_NextAttemptAt w) x (ww_EntryHash w) (ww_EntryHashScheme w) (ww_LeafIndex w)
        (ww_TreeSize w) (ww_Permanent w) (ww_LastError w))
    else if fieldIs "entryHash" key then
      x ← decString (ww_EntryHash w) v;
      Some (MkWireWitness (ww_WitnessID w) (ww_CheckpointSize w) (ww_Checkpoint w) (ww_Attempts w)
        (ww_NextAttemptAt w) (ww_Receipt w) x (ww_EntryHashScheme w) (ww_LeafIndex w)
        (ww_TreeSize w) (ww_Permanent w) (ww_LastError w))
    else if fieldIs "entryHashScheme" key then
      x ← decString (ww_EntryHashScheme w) v;
      Some (MkWireWitness (ww_WitnessID w) (ww_CheckpointSize w) (ww_Checkpoint w) (ww_Attempts w)
        (ww_NextAttemptAt w) (ww_Receipt w) (ww_EntryHash w) x (ww_LeafIndex w) (ww_TreeSize w)
        (ww_Permanent w) (ww_LastError w))
    else if fieldIs "leafIndex" key then
      x ← decPointer 0 decInt64 (ww_LeafIndex w) v;
      Some (MkWireWitness (ww_WitnessID w) (ww_CheckpointSize w) (ww_Checkpoint w) (ww_Attempts w)
        (ww_NextAttemptAt w) (ww_Receipt w) (ww_EntryHash w) (ww_EntryHashScheme w) x
        (ww_TreeSize w) (ww_Permanent w) (ww_LastError w))
    else if fieldIs "treeSize" key then
      x ← decPointer 0 decInt64 (ww_TreeSize w) v;
      Some (MkWireWitness (ww_WitnessID w) (ww_CheckpointSize w) (ww_Checkpoint w) (ww_Attempts w)
        (ww_NextAttemptAt w) (ww_Receipt w) (ww_EntryHash w) (ww_EntryHashScheme w) (ww_LeafIndex w)
        x (ww_Permanent w) (ww_LastError w))
    else if fieldIs "permanent" key then
      x ← decBool (ww_Permanent w) v;
      Some (MkWireWitness (ww_WitnessID w) (ww_CheckpointSize w) (ww_Checkpoint w) (ww_Attempts w)
        (ww_NextAttemptAt w) (ww_Receipt w) (ww_EntryHash w) (ww_EntryHashScheme w) (ww_LeafIndex w)
        (ww_TreeSize w) x (ww_LastError w))
    else if fieldIs "lastError" key then
      x ← decString (ww_LastError w) v;
      Some (MkWireWitness (ww_WitnessID w) (ww_CheckpointSize w) (ww_Checkpoint w) (ww_Attempts w)
        (ww_NextAttemptAt w) (ww_Receipt w) (ww_EntryHash w) (ww_EntryHashScheme w) (ww_LeafIndex w)
        (ww_TreeSize w) (ww_Permanent w) x)
    else Some w.

Definition stateField (key : bytes) : decoder WireState := fun w v =>
    if fieldIs "size" key then
      x ← decString (ws_Size w) v;
      Some (MkWireState x (ws_IndexedSeq w) (ws_Nodes w) (ws_FirstPendingAt w) (ws_Checkpoint w)
        (ws_CheckpointSize w) (ws_CheckpointIndexedSeq w) (ws_CheckpointPeaks w) (ws_Witnesses w))
    else if fieldIs "indexedSeq" key then
      x ← decString (ws_IndexedSeq w) v;
      Some (MkWireState (ws_Size w) x (ws_Nodes w) (ws_FirstPendingAt w) (ws_Checkpoint w)
        (ws_CheckpointSize w) (ws_CheckpointIndexedSeq w) (ws_CheckpointPeaks w) (ws_Witnesses w))
    else if fieldIs "nodes" key then
      x ← decSlice EmptyString decString (ws_Nodes w) v;
      Some (MkWireState (ws_Size w) (ws_IndexedSeq w) x (ws_FirstPendingAt w) (ws_Checkpoint w)
        (ws_CheckpointSize w) (ws_CheckpointIndexedSeq w) (ws_CheckpointPeaks w) (ws_Witnesses w))
    else if fieldIs "firstPendingAt" key then
      x ← decPointer EmptyString decString (ws_FirstPendingAt w) v;
      Some (MkWireState (ws_Size w) (ws_IndexedSeq w) (ws_Nodes w) x (ws_Checkpoint w)
        (ws_CheckpointSize w) (ws_CheckpointIndexedSeq w) (ws_CheckpointPeaks w) (ws_Witnesses w))
    else if fieldIs "checkpoint" key then
      x ← decPointer EmptyString decString (ws_Checkpoint w) v;
      Some (MkWireState (ws_Size w) (ws_IndexedSeq w) (ws_Nodes w) (ws_FirstPendingAt w) x
        (ws_CheckpointSize w) (ws_CheckpointIndexedSeq w) (ws_CheckpointPeaks w) (ws_Witnesses w))
    else if fieldIs "checkpointSize" key then
      x ← decPointer EmptyString decString (ws_CheckpointSize w) v;
      Some (MkWireState (ws_Size w) (ws_IndexedSeq w) (ws_Nodes w) (ws_FirstPendingAt w)
        (ws_Checkpoint w) x (ws_CheckpointIndexedSeq w) (ws_CheckpointPeaks w) (ws_Witnesses w))
    else if fieldIs "checkpointIndexedSeq" key then
      x ← decPointer EmptyString decString (ws_CheckpointIndexedSeq w) v;
      Some (MkWireState (ws_Size w) (ws_IndexedSeq w) (ws_Nodes w) (ws_FirstPendingAt w)
        (ws_Checkpoint w) (ws_CheckpointSize w) x (ws_CheckpointPeaks w) (ws_Witnesses w))
    else if fieldIs "checkpointPeaks" key then
      x ← decPointer [] (decSlice EmptyString decString) (ws_CheckpointPeaks w) v;
      Some (MkWireState (ws_Size w) (ws_IndexedSeq w) (ws_Nodes w) (ws_FirstPendingAt w)
        (ws_Checkpoint w) (ws_CheckpointSize w) (ws_CheckpointIndexedSeq w) x (ws_Witnesses w))
    else if fieldIs "witnesses" key then
      x ← decSlice zeroWitness (decStruct witnessField) (ws_Witnesses w) v;
      Some (MkWireState (ws_Size w) (ws_IndexedSeq w) (ws_Nodes w) (ws_FirstPendingAt w)
        (ws_Checkpoint w) (ws_CheckpointSize w) (ws_CheckpointIndexedSeq w) (ws_CheckpointPeaks w) x)
    else Some w.

Definition eventField (key : bytes) : decoder event := fun w v =>
    if fieldIs "version" key then
      x ← decInt64 (ev_Version w) v;
      Some (MkEvent x (ev_Type w) (ev_Entry w) (ev_ExpectedSize w) (ev_ExpectedCheckpoint w)
        (ev_State w) (ev_ExpectedAttempts w) (ev_Witness w))
    else if fieldIs "type" key then
      x ← decString (ev_Type w) v;
      Some (MkEvent (ev_Version w) x (ev_Entry w) (ev_ExpectedSize w) (ev_ExpectedCheckpoint w)
        (ev_State w) (ev_ExpectedAttempts w) (ev_Witness w))
    else if fieldIs "entry" key then
      x ← decPointer zeroEntry (decStruct entryField) (ev_Entry w) v;
      Some (MkEvent (ev_Version w) (ev_Type w) x (ev_ExpectedSize w) (ev_ExpectedCheckpoint w)
        (ev_State w) (ev_ExpectedAttempts w) (ev_Witness w))
    else if fieldIs "expected_size" key then
      x ← decString (ev_ExpectedSize w) v;
      Some (MkEvent (ev_Version w) (ev_Type w) (ev_Entry w) x (ev_ExpectedCheckpoint w) (ev_State w)
        (ev_ExpectedAttempts w) (ev_Witness w))
    else if fieldIs "expected_checkpoint" key then
      x ← decPointer EmptyString decString (ev_ExpectedCheckpoint w) v;
      Some (MkEvent (ev_Version w) (ev_Type w) (ev_Entry w) (ev_ExpectedSize w) x (ev_State w)
        (ev_ExpectedAttempts w) (ev_Witness w))
    else if fieldIs "state" key then
      x ← decPointer zeroState (decStruct stateField) (ev_State w) v;
      Some (MkEvent (ev_Version w) (ev_Type w) (ev_Entry w) (ev_ExpectedSize w)
        (ev_ExpectedCheckpoint w) x (ev_ExpectedAttempts w) (ev_Witness w))
    else if fieldIs "expected_attempts" key then
      x ← decPointer 0 decUint32 (ev_ExpectedAttempts w) v;
      Some (MkEvent (ev_Version w) (ev_Type w) (ev_Entry w) (ev_ExpectedSize w)
        (ev_ExpectedCheckpoint w) (ev_State w) x (ev_Witness w))
    else if fieldIs "witness" key then
      x ← decPointer zeroWitness (decStruct witnessField) (ev_Witness w) v;
      Some (MkEvent (ev_Version w) (ev_Type w) (ev_Entry w) (ev_ExpectedSize w)
        (ev_ExpectedCheckpoint w) (ev_State w) (ev_ExpectedAttempts w) x)
    else Some w.

Definition headerField (key : bytes) : decoder header := fun w v =>
    if fieldIs "version" key then
      x ← decInt64 (hd_Version w) v;
      Some (MkHeader x (hd_V w) (hd_Type w))
    else if fieldIs "v" key then
      x ← decInt64 (hd_V w) v;
      Some (MkHeader (hd_Version w) x (hd_Type w))
    else if fieldIs "type" key then
      x ← decString (hd_Type w) v;
      Some (MkHeader (hd_Version w) (hd_V w) x)
    else Some w.

(** [json.Unmarshal] of a line into an event and into the header. *)
Definition Unmarshal (line : bytes) : option event :=
  v ← Json.decode line; decStruct eventField zeroEvent v.

Definition UnmarshalHeader (line : bytes) : option header :=
  v ← Json.decode line; decStruct headerField zeroHeader v.

(** ** The JSON columns of [src/internal/backend/wire.go] *)

(** The metadata column leaves out the nodes and the rows. *)
Definition MarshalMetadata (value : State) : result bytes :=
  wire ← StateToWire (MkState (st_Size value) [] (st_IndexedSeq value) (st_FirstPendingAt value)
                        (st_Checkpoint value) []);
  Ok (Json.encode (stateJson wire)).

Definition MarshalWitness (value : WitnessState) : result bytes :=
  wire ← WitnessToWire value;
  Ok (Json.encode (witnessJson wire)).

Definition UnmarshalWitness (data : bytes) : result WitnessState :=
  match (v ← Json.decode data; decStruct witnessField zeroWitness v) with
  | Some wire => WitnessFromWire wire
  | None => Err ErrCorrupt
  end.

End Journal.
