(* ===== verification/JournalProofs.v ===== *)
(** * Journal events survive encoding and decoding *)

From Stdlib.Strings Require Import Ascii.
From S2P Require Import Prelude Text Utf8 Json JsonProofs Cll Wire Journal.
Import Text Json JsonProofs Cll Wire Journal.

Module JournalProofs.

Local Open Scope Z_scope.

(** Evaluate the field tests, whose arguments are constants. *)
Ltac fields :=
  repeat match goal with
  | |- context [fieldIs ?a ?b] =>
      let r := eval vm_compute in (fieldIs a b) in change (fieldIs a b) with r
  end;
  cbn [mbind option_bind we_Seq we_Value we_AppendedAt
    ww_WitnessID ww_CheckpointSize ww_Checkpoint ww_Attempts ww_NextAttemptAt ww_Receipt ww_EntryHash
    ww_EntryHashScheme ww_LeafIndex ww_TreeSize ww_Permanent ww_LastError
    ws_Size ws_IndexedSeq ws_Nodes ws_FirstPendingAt ws_Checkpoint ws_CheckpointSize
    ws_CheckpointIndexedSeq ws_CheckpointPeaks ws_Witnesses
    ev_Version ev_Type ev_Entry ev_ExpectedSize ev_ExpectedCheckpoint ev_State ev_ExpectedAttempts
    ev_Witness hd_Version hd_V hd_Type].

(** ** Values *)

Lemma decString_text (old s : string) : decString old (text s) = Some s.
Proof. unfold decString, text. by rewrite stringOf_bytesOf. Qed.

Definition int64 (n : Z) : Prop := - two63 <= n < two63.
Definition uint32 (n : Z) : Prop := 0 <= n < 4294967296.

Lemma ParseInt_FormatInt (n : Z) : int64 n -> ParseInt (FormatInt n) = Some n.
Proof.
  unfold int64. intros Hn. assert (two63 < two64) as H by done. unfold FormatInt, ParseInt.
  destruct (Z.ltb_spec n 0) as [Hneg|Hpos].
  - rewrite bool_decide_true by done. rewrite ParseUint_FormatUint by lia.
    cbn [mbind option_bind]. rewrite (proj2 (Z.leb_le _ _)) by lia. f_equal. lia.
  - pose proof (ParseUint_FormatUint n ltac:(lia)) as Hp.
    destruct (FormatUint n) as [|c s] eqn:Hs; [done|].
    assert (c <> "-"%char) as Hc.
    { intros ->. by apply (FormatUint_first n "-"%char s Hpos Hs). }
    rewrite bool_decide_false, Hp by done. cbn [mbind option_bind].
    by rewrite (proj2 (Z.ltb_lt _ _)) by lia.
Qed.

Lemma decInt64_number (old n : Z) : int64 n -> decInt64 old (number n) = Some n.
Proof. intros Hn. unfold decInt64, number. rewrite stringOf_bytesOf. by apply ParseInt_FormatInt. Qed.

Lemma decUint32_number (old n : Z) : uint32 n -> decUint32 old (number n) = Some n.
Proof.
  unfold uint32. intros Hn. assert (4294967296 < two64) as H by done. unfold decUint32, number, FormatInt.
  rewrite stringOf_bytesOf, (proj2 (Z.ltb_ge n 0)), ParseUint_FormatUint by lia.
  cbn [mbind option_bind]. by rewrite (proj2 (Z.ltb_lt _ _)) by lia.
Qed.

Lemma decPointer_text (old : option string) (s : string) :
  decPointer EmptyString decString old (text s) = Some (Some s).
Proof. unfold decPointer. cbn [text]. by rewrite decString_text. Qed.

Lemma decElements_map {A} (zero : A) (dec : decoder A) (f : A -> json) (l : list A) :
  (forall a, a ∈ l -> dec zero (f a) = Some a) -> decElements zero dec [] (map f l) = Some l.
Proof.
  induction l as [|a l IH]; intros Hf; [done|]. cbn [map decElements head tail default].
  rewrite (Hf a) by left. cbn [mbind option_bind]. rewrite IH; [done|]. intros b Hb. apply Hf. by right.
Qed.

Lemma decSlice_texts (l : list string) : decSlice EmptyString decString [] (texts l) = Some l.
Proof. unfold decSlice, texts. apply decElements_map. intros s _. apply decString_text. Qed.

(** ** Members *)

Section Members.
Context {A : Type} (field : bytes -> decoder A).

Lemma decMembers_member (name : string) (v : json) (ms : list (bytes * json)) (a a' : A) :
  field (bytesOf name) a v = Some a' ->
  decMembers field a (member name v ++ ms) = decMembers field a' ms.
Proof. intros Hf. cbn [member app decMembers]. by rewrite Hf. Qed.

Lemma decMembers_if {B} (name : string) (f : B -> json) (o : option B) (ms : list (bytes * json))
    (upd : option B -> A) :
  (forall b, o = Some b -> field (bytesOf name) (upd None) (f b) = Some (upd (Some b))) ->
  decMembers field (upd None) (memberIf name f o ++ ms) = decMembers field (upd o) ms.
Proof. destruct o as [b|]; intros Hf; [|done]. by apply decMembers_member, Hf. Qed.

Lemma decMembers_text (name s : string) (ms : list (bytes * json)) (upd : string -> A) :
  field (bytesOf name) (upd EmptyString) (text s) = Some (upd s) ->
  decMembers field (upd EmptyString) (memberText name s ++ ms) = decMembers field (upd s) ms.
Proof.
  intros Hf. unfold memberText. case_bool_decide as Hs; [by rewrite Hs|]. by apply decMembers_member.
Qed.

End Members.

(** ** Structs *)

Lemma entry_decodes (w : WireEntry) : decStruct entryField zeroEntry (entryJson w) = Some w.
Proof.
  unfold entryJson, decStruct. rewrite <- (app_nil_r (member "appendedAt" _)).
  do 3 (erewrite decMembers_member; [|unfold entryField; fields; by rewrite decString_text]).
  by destruct w.
Qed.

Definition witness_ranges (w : WireWitness) : Prop :=
  uint32 (ww_Attempts w) /\ (forall n, ww_LeafIndex w = Some n -> int64 n) /\
  (forall n, ww_TreeSize w = Some n -> int64 n).

Lemma witness_decodes (w : WireWitness) :
  witness_ranges w -> decStruct witnessField zeroWitness (witnessJson w) = Some w.
Proof.
  intros (Ha & Hl & Ht). unfold witnessJson, decStruct. rewrite <- (app_nil_r (memberText "lastError" _)).
  destruct w as [id size cp att next receipt hash scheme leaf tree perm err].
  cbn [ww_WitnessID ww_CheckpointSize ww_Checkpoint ww_Attempts ww_NextAttemptAt ww_Receipt ww_EntryHash
    ww_EntryHashScheme ww_LeafIndex ww_TreeSize ww_Permanent ww_LastError] in *.
  do 3 (erewrite decMembers_member; [|unfold witnessField; fields; by rewrite decString_text]).
  erewrite decMembers_member; [|unfold witnessField; fields; by rewrite decUint32_number].
  erewrite decMembers_member; [|unfold witnessField; fields; by rewrite decString_text].
  rewrite (decMembers_if _ _ _ _ _ (fun o => MkWireWitness id size cp att next o "" "" None None false ""))
    by (intros s _; unfold witnessField; fields; by rewrite decPointer_text).
  rewrite (decMembers_text _ _ _ _ (fun s => MkWireWitness id size cp att next receipt s "" None None false ""))
    by (unfold witnessField; fields; by rewrite decString_text).
  rewrite (decMembers_text _ _ _ _ (fun s => MkWireWitness id size cp att next receipt hash s None None false ""))
    by (unfold witnessField; fields; by rewrite decString_text).
  rewrite (decMembers_if _ _ _ _ _ (fun o => MkWireWitness id size cp att next receipt hash scheme o None false ""))
    by (intros n Hn; unfold witnessField; fields; unfold decPointer; cbn [number];
        rewrite decInt64_number by auto; done).
  rewrite (decMembers_if _ _ _ _ _ (fun o => MkWireWitness id size cp att next receipt hash scheme leaf o false ""))
    by (intros n Hn; unfold witnessField; fields; unfold decPointer; cbn [number];
        rewrite decInt64_number by auto; done).
  erewrite decMembers_member; [|unfold witnessField; fields; reflexivity].
  rewrite (decMembers_text _ _ _ _ (fun s => MkWireWitness id size cp att next receipt hash scheme leaf tree perm s))
    by (unfold witnessField; fields; by rewrite decString_text).
  done.
Qed.

Definition state_ranges (w : WireState) : Prop := Forall witness_ranges (ws_Witnesses w).

Lemma decPointer_texts (old : option (list string)) (l : list string) :
  old = None -> decPointer [] (decSlice EmptyString decString) old (texts l) = Some (Some l).
Proof. intros ->. unfold decPointer. cbn [texts default]. fold (texts l). by rewrite decSlice_texts. Qed.

Lemma rows_decode (l : list WireWitness) :
  Forall witness_ranges l ->
  decSlice zeroWitness (decStruct witnessField) [] (JArray (map witnessJson l)) = Some l.
Proof.
  intros Hl. rewrite Forall_forall in Hl. unfold decSlice. apply decElements_map.
  intros w Hw. apply witness_decodes. auto.
Qed.

Lemma state_decodes (w : WireState) :
  state_ranges w -> decStruct stateField zeroState (stateJson w) = Some w.
Proof.
  intros Hr. unfold stateJson, decStruct. rewrite <- (app_nil_r (member "witnesses" _)).
  destruct w as [size idx nodes pend cp cps cpi cpp wits]. unfold state_ranges in Hr.
  cbn [ws_Size ws_IndexedSeq ws_Nodes ws_FirstPendingAt ws_Checkpoint ws_CheckpointSize
    ws_CheckpointIndexedSeq ws_CheckpointPeaks ws_Witnesses] in *.
  do 2 (erewrite decMembers_member; [|unfold stateField; fields; by rewrite decString_text]).
  erewrite decMembers_member; [|unfold stateField; fields; unfold zeroState; cbn [ws_Nodes]; by rewrite decSlice_texts].
  rewrite (decMembers_if _ _ _ _ _ (fun o => MkWireState size idx nodes o None None None None []))
    by (intros s _; unfold stateField; fields; by rewrite decPointer_text).
  rewrite (decMembers_if _ _ _ _ _ (fun o => MkWireState size idx nodes pend o None None None []))
    by (intros s _; unfold stateField; fields; by rewrite decPointer_text).
  rewrite (decMembers_if _ _ _ _ _ (fun o => MkWireState size idx nodes pend cp o None None []))
    by (intros s _; unfold stateField; fields; by rewrite decPointer_text).
  rewrite (decMembers_if _ _ _ _ _ (fun o => MkWireState size idx nodes pend cp cps o None []))
    by (intros s _; unfold stateField; fields; by rewrite decPointer_text).
  rewrite (decMembers_if _ _ _ _ _ (fun o => MkWireState size idx nodes pend cp cps cpi o []))
    by (intros s _; unfold stateField; fields; by rewrite decPointer_texts).
  erewrite decMembers_member; [|unfold stateField; fields; by rewrite rows_decode]. done.
Qed.

Record event_ranges (ev : event) : Prop := {
  version_range : int64 (ev_Version ev);
  attempts_range : forall n, ev_ExpectedAttempts ev = Some n -> uint32 n;
  rows_range : forall w, ev_State ev = Some w -> state_ranges w;
  row_range : forall w, ev_Witness ev = Some w -> witness_ranges w
}.

Lemma decPointer_struct {A} (zero : A) (dec : decoder A) (v : json) (a : A) :
  v <> JNull -> dec zero v = Some a -> decPointer zero dec None v = Some (Some a).
Proof. intros Hv Hd. destruct v; try done; unfold decPointer; cbn [default]; by rewrite Hd. Qed.

Lemma decPointer_entry (w : WireEntry) :
  decPointer zeroEntry (decStruct entryField) None (entryJson w) = Some (Some w).
Proof. apply decPointer_struct; [done|apply entry_decodes]. Qed.

Lemma decPointer_state (w : WireState) :
  state_ranges w -> decPointer zeroState (decStruct stateField) None (stateJson w) = Some (Some w).
Proof. intros Hw. apply decPointer_struct; [done|by apply state_decodes]. Qed.

Lemma decPointer_witness (w : WireWitness) :
  witness_ranges w -> decPointer zeroWitness (decStruct witnessField) None (witnessJson w) = Some (Some w).
Proof. intros Hw. apply decPointer_struct; [done|by apply witness_decodes]. Qed.

Lemma event_decodes (ev : event) :
  event_ranges ev -> decStruct eventField zeroEvent (eventJson ev) = Some ev.
Proof.
  intros [Hv Ha Hs Hw]. unfold eventJson, decStruct. rewrite <- (app_nil_r (memberIf "witness" _ _)).
  destruct ev as [ver ty entry esize ecp st att wit].
  cbn [ev_Version ev_Type ev_Entry ev_ExpectedSize ev_ExpectedCheckpoint ev_State ev_ExpectedAttempts
    ev_Witness] in *.
  erewrite decMembers_member; [|unfold eventField; fields; by rewrite decInt64_number].
  erewrite decMembers_member; [|unfold eventField; fields; by rewrite decString_text].
  rewrite (decMembers_if _ _ _ _ _ (fun o => MkEvent ver ty o "" None None None None))
    by (intros w _; unfold eventField; fields; by rewrite decPointer_entry).
  rewrite (decMembers_text _ _ _ _ (fun s => MkEvent ver ty entry s None None None None))
    by (unfold eventField; fields; by rewrite decString_text).
  rewrite (decMembers_if _ _ _ _ _ (fun o => MkEvent ver ty entry esize o None None None))
    by (intros s _; unfold eventField; fields; by rewrite decPointer_text).
  rewrite (decMembers_if _ _ _ _ _ (fun o => MkEvent ver ty entry esize ecp o None None))
    by (intros w Hst; unfold eventField; fields;
        by rewrite (decPointer_state w (Hs w Hst))).
  rewrite (decMembers_if _ _ _ _ _ (fun o => MkEvent ver ty entry esize ecp st o None))
    by (intros n Hn; unfold eventField; fields; unfold decPointer; cbn [number];
        rewrite decUint32_number by auto; done).
  rewrite (decMembers_if _ _ _ _ _ (fun o => MkEvent ver ty entry esize ecp st att o))
    by (intros w Hwit; unfold eventField; fields;
        by rewrite (decPointer_witness w (Hw w Hwit))).
  done.
Qed.

(** The header of an event: every other member is ignored. *)
Lemma decMembers_ignore {A B} (field : bytes -> decoder A) (name : string) (f : B -> json) (o : option B)
    (ms : list (bytes * json)) (a : A) :
  (forall v, field (bytesOf name) a v = Some a) ->
  decMembers field a (memberIf name f o ++ ms) = decMembers field a ms.
Proof. destruct o as [b|]; intros Hf; [|done]. by apply decMembers_member. Qed.

Lemma decMembers_ignore_text {A} (field : bytes -> decoder A) (name s : string)
    (ms : list (bytes * json)) (a : A) :
  (forall v, field (bytesOf name) a v = Some a) ->
  decMembers field a (memberText name s ++ ms) = decMembers field a ms.
Proof. intros Hf. unfold memberText. case_bool_decide; [done|]. by apply decMembers_member. Qed.

Lemma header_decodes (ev : event) :
  int64 (ev_Version ev) ->
  decStruct headerField zeroHeader (eventJson ev) = Some (MkHeader (ev_Version ev) 0 (ev_Type ev)).
Proof.
  intros Hv. unfold eventJson, decStruct. rewrite <- (app_nil_r (memberIf "witness" _ _)).
  erewrite decMembers_member; [|unfold headerField; fields; by rewrite decInt64_number].
  erewrite decMembers_member; [|unfold headerField; fields; by rewrite decString_text].
  repeat first [rewrite decMembers_ignore_text by (intros v; unfold headerField; fields; reflexivity)
               |rewrite decMembers_ignore by (intros v; unfold headerField; fields; reflexivity)].
  done.
Qed.

(** ** Text *)

Definition utf8 (s : string) : Prop := Utf8.Valid (bytesOf s) = true.

(** A value the encoder writes faithfully, at most [h] levels deep. *)
Definition good (h : Z) (v : json) : Prop := writable v /\ height v <= h.

Definition goodMembers (h : Z) (ms : list (bytes * json)) : Prop :=
  Forall (fun m => Utf8.Valid (fst m) = true /\ good h (snd m)) ms.

Lemma good_object (h : Z) (ms : list (bytes * json)) :
  0 <= h -> goodMembers h ms -> good (h + 1) (JObject ms).
Proof.
  intros Hh Hms. split.
  - apply writable_object. eapply Forall_impl; [exact Hms|]. intros m (Hk & Hw & _). done.
  - cbn [height]. induction Hms as [|m ms (_ & _ & Hm) Hms IH]; cbn [fold_right]; lia.
Qed.

Lemma good_array (h : Z) (vs : list json) : 0 <= h -> Forall (good h) vs -> good (h + 1) (JArray vs).
Proof.
  intros Hh Hvs. split.
  - apply writable_array. eapply Forall_impl; [exact Hvs|]. by intros v [].
  - cbn [height]. induction Hvs as [|v vs [_ Hv] Hvs IH]; cbn [fold_right]; lia.
Qed.

Lemma goodMembers_app (h : Z) (ms ms' : list (bytes * json)) :
  goodMembers h ms -> goodMembers h ms' -> goodMembers h (ms ++ ms').
Proof. intros. by apply Forall_app. Qed.

Lemma good_member (h : Z) (name : string) (v : json) :
  utf8 name -> good h v -> goodMembers h (member name v).
Proof. intros Hn Hv. by repeat constructor; try apply Hv. Qed.

Lemma good_memberIf {B} (h : Z) (name : string) (f : B -> json) (o : option B) :
  utf8 name -> (forall b, o = Some b -> good h (f b)) -> goodMembers h (memberIf name f o).
Proof. intros Hn Hf. destruct o as [b|]; [|constructor]. apply good_member; auto. Qed.

Lemma good_text (h : Z) (s : string) : 0 <= h -> utf8 s -> good h (text s).
Proof. by split. Qed.

Lemma good_memberText (h : Z) (name s : string) :
  0 <= h -> utf8 name -> utf8 s -> goodMembers h (memberText name s).
Proof.
  intros Hh Hn Hs. unfold memberText. case_bool_decide; [constructor|].
  apply good_member; [done|by apply good_text].
Qed.

Lemma good_texts (h : Z) (l : list string) : 0 <= h -> Forall utf8 l -> good (h + 1) (texts l).
Proof.
  intros Hh Hl. apply good_array; [done|]. apply Forall_map. eapply Forall_impl; [exact Hl|].
  intros s Hs. by apply good_text.
Qed.

Lemma byte_of_ascii_value (c : ascii) : Z_of_byte (byte_of_ascii c) = Z.of_N (N_of_ascii c).
Proof. by destruct c as [[] [] [] [] [] [] [] []]. Qed.

Lemma digitsFrom_digits (s : string) (acc n : Z) :
  digitsFrom acc s = Some n -> Forall (fun b => isDigit b = true) (bytesOf s).
Proof.
  revert acc. induction s as [|c s IH]; intros acc; cbn [digitsFrom]; [constructor|].
  unfold digitValue. destruct (_ && _) eqn:Hc; [|done]. cbn [mbind option_bind]. intros Hs.
  constructor; [|by eapply IH]. unfold isDigit. by rewrite byte_of_ascii_value.
Qed.

Lemma FormatUint_digits (n : Z) : 0 <= n -> canonicalDigits (bytesOf (FormatUint n)).
Proof.
  intros Hn. split; [by eapply digitsFrom_digits, digits_FormatUint|].
  destruct (FormatUint_canonical n Hn) as [->|(c & s & -> & Hc)]; [done|]. cbn. intros Hb.
  destruct Hc. by destruct c as [[] [] [] [] [] [] [] []].
Qed.

Lemma good_number (h n : Z) : 0 <= h -> good h (number n).
Proof.
  intros Hh. split; [|done]. cbn [writable number]. unfold FormatInt. destruct (Z.ltb_spec n 0).
  - apply (number_ok_negative (bytesOf (FormatUint (- n)))), FormatUint_digits. lia.
  - apply number_ok_digits, FormatUint_digits. lia.
Qed.

(** ** Records whose strings are UTF-8 *)

Definition optional_utf8 (o : option string) : Prop := forall s, o = Some s -> utf8 s.

Definition entry_utf8 (w : WireEntry) : Prop :=
  utf8 (we_Seq w) /\ utf8 (we_Value w) /\ utf8 (we_AppendedAt w).

Record witness_utf8 (w : WireWitness) : Prop := {
  w8_id : utf8 (ww_WitnessID w);
  w8_size : utf8 (ww_CheckpointSize w);
  w8_checkpoint : utf8 (ww_Checkpoint w);
  w8_next : utf8 (ww_NextAttemptAt w);
  w8_receipt : optional_utf8 (ww_Receipt w);
  w8_hash : utf8 (ww_EntryHash w);
  w8_scheme : utf8 (ww_EntryHashScheme w);
  w8_error : utf8 (ww_LastError w)
}.

Record state_utf8 (w : WireState) : Prop := {
  s8_size : utf8 (ws_Size w);
  s8_indexed : utf8 (ws_IndexedSeq w);
  s8_nodes : Forall utf8 (ws_Nodes w);
  s8_pending : optional_utf8 (ws_FirstPendingAt w);
  s8_checkpoint : optional_utf8 (ws_Checkpoint w);
  s8_checkpointSize : optional_utf8 (ws_CheckpointSize w);
  s8_checkpointIndexed : optional_utf8 (ws_CheckpointIndexedSeq w);
  s8_peaks : forall l, ws_CheckpointPeaks w = Some l -> Forall utf8 l;
  s8_rows : Forall witness_utf8 (ws_Witnesses w)
}.

Record event_utf8 (ev : event) : Prop := {
  e8_type : utf8 (ev_Type ev);
  e8_entry : forall w, ev_Entry ev = Some w -> entry_utf8 w;
  e8_size : utf8 (ev_ExpectedSize ev);
  e8_checkpoint : optional_utf8 (ev_ExpectedCheckpoint ev);
  e8_state : forall w, ev_State ev = Some w -> state_utf8 w;
  e8_witness : forall w, ev_Witness ev = Some w -> witness_utf8 w
}.

(** Split an object into its members; the field names are constants. *)
Ltac members :=
  repeat apply goodMembers_app;
  match goal with
  | |- goodMembers _ (member _ _) => apply good_member; [reflexivity|]
  | |- goodMembers _ (memberIf _ _ _) => apply good_memberIf; [reflexivity|]
  | |- goodMembers _ (memberText _ _) => apply good_memberText; [lia|reflexivity|]
  end.

Lemma good_entry (w : WireEntry) : entry_utf8 w -> good 1 (entryJson w).
Proof.
  intros (? & ? & ?). apply (good_object 0); [lia|]. members; by apply good_text.
Qed.

Lemma good_witness (w : WireWitness) : witness_utf8 w -> good 1 (witnessJson w).
Proof.
  intros []. apply (good_object 0); [lia|]. members; try by apply good_text.
  all: try by apply good_number.
  all: try done.
  - intros s Hs. apply good_text; [lia|by apply w8_receipt0].
  - intros n _. by apply good_number.
  - intros n _. by apply good_number.
Qed.

Lemma good_mono (h k : Z) (v : json) : good h v -> h <= k -> good k v.
Proof. intros [? ?] ?. split; [done|lia]. Qed.

Lemma good_state (w : WireState) : state_utf8 w -> good 3 (stateJson w).
Proof.
  intros []. apply (good_object 2); [lia|]. members; try by apply good_text.
  - by apply (good_mono 1); [apply (good_texts 0)|].
  - intros s Hs. apply good_text; [lia|by apply s8_pending0].
  - intros s Hs. apply good_text; [lia|by apply s8_checkpoint0].
  - intros s Hs. apply good_text; [lia|by apply s8_checkpointSize0].
  - intros s Hs. apply good_text; [lia|by apply s8_checkpointIndexed0].
  - intros l Hl. apply (good_mono 1); [apply (good_texts 0); [lia|by apply s8_peaks0]|lia].
  - apply (good_array 1); [lia|]. apply Forall_map. eapply Forall_impl; [exact s8_rows0|].
    intros r Hr. by apply good_witness.
Qed.

Lemma good_event (ev : event) : event_utf8 ev -> good 4 (eventJson ev).
Proof.
  intros []. apply (good_object 3); [lia|]. members; try by apply good_text.
  - by apply good_number.
  - intros w Hw. by apply (good_mono 1); [apply good_entry, e8_entry0|].
  - done.
  - intros s Hs. apply good_text; [lia|by apply e8_checkpoint0].
  - intros w Hw. by apply good_state, e8_state0.
  - intros n _. by apply good_number.
  - intros w Hw. by apply (good_mono 1); [apply good_witness, e8_witness0|].
Qed.

(** ** Lines *)

Lemma Unmarshal_Marshal (ev : event) :
  event_ranges ev -> event_utf8 ev ->
  Unmarshal (Marshal ev) = Some ev /\
  UnmarshalHeader (Marshal ev) = Some (MkHeader (ev_Version ev) 0 (ev_Type ev)) /\ clean (Marshal ev).
Proof.
  intros Hr [Hw Hh]%good_event. unfold Unmarshal, UnmarshalHeader, Marshal.
  rewrite json_roundtrip by (done || unfold maxNestingDepth; lia). cbn [mbind option_bind].
  split_and!; [by apply event_decodes|apply header_decodes, Hr|by apply encode_clean].
Qed.

End JournalProofs.
