(* ===== verification/Jsonl.v ===== *)
(** * The JSONL journal: [src/store/jsonl/store.go]

    A store is the bytes of its file, an engine and the closed flag; the mutex
    makes every method one step.  Every call of the operating system takes its
    outcome as an argument: a call that only succeeds or fails is a [check],
    and a write also says how many bytes reached the file. *)

From S2P Require Import Prelude Text Utf8 Base64 Json DtMmr Mmr Cll Portable Engine Wire Journal.
Import Text Cll Engine Wire Journal.

Module Jsonl.

Local Open Scope Z_scope.

Definition schemaVersion : Z := 4.

Record Store := MkStore {
  file : bytes;
  engine : Engine;
  closed : bool
}.

Definition newline : byte := Byte.x0a.

Definition init_event : event := MkEvent schemaVersion "cll.init" None "" None None None None.

Definition entry_event (wire : WireEntry) : event :=
  MkEvent schemaVersion "entry.append" (Some wire) "" None None None None.

Definition commit_event (expectedSize : string) (checkpoint : option string) (wire : WireState) : event :=
  MkEvent schemaVersion "cll.commit" None expectedSize checkpoint (Some wire) None None.

Definition witness_event (expected : Z) (wire : WireWitness) : event :=
  MkEvent schemaVersion "witness.commit" None "" None None (Some expected) (Some wire).

Section Store.
Context `{DT : DtMmr}.

(** ** Replay *)

Definition isSome {A} (o : option A) : bool := match o with Some _ => true | None => false end.

Definition applyEvent (e : Engine) (item : event) : result Engine :=
  if bool_decide (ev_Type item = "cll.init"%string) then
    if negb (zlen (Engine.Entries e) =? 0) || negb (st_Size (LoadState e) =? 0)
    then Err (ErrText "duplicate CLL initialization after state")
    else if isSome (ev_Entry item) || isSome (ev_State item) || isSome (ev_Witness item)
    then Err (ErrText "invalid CLL initialization")
    else Ok e
  else if bool_decide (ev_Type item = "entry.append"%string) then
    match ev_Entry item with
    | None => Err (ErrText "missing entry")
    | Some wire =>
        entry ← EntryFromWire wire;
        match Engine.Append e (MkAppendInput (entry_Value entry) (entry_AppendedAt entry)) with
        | (e', Ok r) =>
            match ar_Outcome r with
            | AppendInserted =>
                if entry_Seq (ar_Entry r) =? entry_Seq entry then Ok e'
                else Err (ErrText "invalid entry append event")
            | _ => Err (ErrText "invalid entry append event")
            end
        | (_, Err _) => Err (ErrText "invalid entry append event")
        end
    end
  else if bool_decide (ev_Type item = "cll.commit"%string) then
    match ev_State item with
    | None => Err (ErrText "missing CLL state")
    | Some wire =>
        match ParseDecimal (ev_ExpectedSize item) with
        | None => Err (ErrText "invalid expected size")
        | Some expected =>
            checkpoint ← match ev_ExpectedCheckpoint item with
                         | Some text =>
                             match Base64.StrictDecodeString text with
                             | Some bs => Ok (Some bs)
                             | None => Err (ErrText "invalid expected checkpoint")
                             end
                         | None => Ok None
                         end;
            next ← StateDeltaFromWire wire;
            match Engine.CommitCLLDelta e expected checkpoint next with
            | (e', Ok _) => Ok e'
            | (_, Err err) => Err err
            end
        end
    end
  else if bool_decide (ev_Type item = "witness.commit"%string) then
    match ev_ExpectedAttempts item, ev_Witness item with
    | Some attempts, Some wire =>
        witness ← WitnessFromWire wire;
        match Engine.CommitWitness e attempts witness with
        | (e', Ok _) => Ok e'
        | (_, Err err) => Err err
        end
    | _, _ => Err (ErrText "missing witness commit fields")
    end
  else Err (ErrText "unknown event type").

(** [bytes.IndexByte(s, '\n')] *)
Fixpoint indexNewline (s : bytes) : option nat :=
  match s with
  | [] => None
  | b :: t => if bool_decide (b = newline) then Some 0%nat else S <$> indexNewline t
  end.

(** One complete line; every failure is corruption. *)
Definition replayLine (e : Engine) (initialized : bool) (line : bytes) : result Engine :=
  if MaxJournalEventBytes <? zlen line then Err ErrCorrupt
  else if negb (Utf8.Valid line) then Err ErrCorrupt
  else
    match UnmarshalHeader line with
    | None => Err ErrCorrupt
    | Some header =>
        if negb (hd_Version header =? schemaVersion) then Err ErrCorrupt
        else if negb initialized && negb (bool_decide (hd_Type header = "cll.init"%string))
        then Err ErrCorrupt
        else
          match Unmarshal line with
          | None => Err ErrCorrupt
          | Some item =>
              match applyEvent e item with
              | Ok e' => Ok e'
              | Err _ => Err ErrCorrupt
              end
          end
    end.

(** The loop over lines: the engine, and where the last complete line ends. *)
Fixpoint replayLines (fuel : nat) (e : Engine) (rest : bytes) (validEnd : nat) (initialized : bool) :
    result (Engine * nat) :=
  match fuel with
  | O => Ok (e, validEnd)
  | S fuel' =>
      match indexNewline rest with
      | None => Ok (e, validEnd)
      | Some relative =>
          e' ← replayLine e initialized (take relative rest);
          replayLines fuel' e' (drop (relative + 1) rest) (validEnd + relative + 1) true
      end
  end.

(** The outcomes of the calls of [replay]. *)
Record ReplayIO := MkReplayIO {
  io_read : check;
  io_truncate : check;
  io_sync : check;
  io_seek : check
}.

(** The file [replay] leaves and the engine it restores. *)
Definition replay (io : ReplayIO) (repair : bool) (data : bytes) : bytes * result Engine :=
  match io_read io with
  | Err err => (data, Err err)
  | Ok _ =>
      match replayLines (length data) Engine.New data 0 false with
      | Err err => (data, Err err)
      | Ok (e, validEnd) =>
          if negb (Nat.eqb validEnd (length data)) then
            if negb repair then (data, Err ErrCorrupt)
            else
              match io_truncate io with
              | Err err => (data, Err err)
              | Ok _ =>
                  (take validEnd data, _ ← io_sync io; _ ← io_seek io; Ok e)
              end
          else (data, _ ← io_seek io; Ok e)
      end
  end.

(** ** Appending an event *)

Inductive WriteOutcome :=
| Wrote (count : nat)
| WriteFailed (count : nat) (cause : error).

(** The outcomes of the calls of [appendEvent] and [rollback]; after the listed
    writes the file takes everything that is left. *)
Record AppendIO := MkAppendIO {
  io_seekEnd : check;
  io_writes : list WriteOutcome;
  io_synced : check;
  io_truncated : check;
  io_seekBack : check;
  io_resynced : check
}.

(** [for written := 0; written < len(encoded); { ... }] *)
Fixpoint writeLoop (contents remaining : bytes) (outcomes : list WriteOutcome) : bytes * check :=
  match remaining with
  | [] => (contents, Ok tt)
  | _ =>
      match outcomes with
      | [] => (contents ++ remaining, Ok tt)
      | WriteFailed count cause :: _ => (contents ++ take count remaining, Err cause)
      | Wrote O :: _ => (contents, Err (ErrText "short write"))
      | Wrote count :: outcomes =>
          writeLoop (contents ++ take count remaining) (drop count remaining) outcomes
      end
  end.

Definition syncFileAt (io : AppendIO) : check := _ ← io_seekBack io; io_resynced io.

(** Cut the file back to [offset]; when that fails the store is closed. *)
Definition rollback (s : Store) (offset : nat) (cause : error) (io : AppendIO) : Store * check :=
  let contents := if is_ok (io_truncated io) then take offset (file s) else file s in
  if is_ok (io_truncated io) && is_ok (syncFileAt io)
  then (MkStore contents (engine s) (closed s), Err cause)
  else (MkStore contents (engine s) true, Err ErrCorrupt).

Definition appendEvent (s : Store) (item : event) (io : AppendIO) : Store * check :=
  let encoded := Marshal item ++ [newline] in
  if MaxJournalEventBytes <? zlen encoded then (s, Err ErrInvalid)
  else
    match io_seekEnd io with
    | Err err => (s, Err err)
    | Ok _ =>
        let start := length (file s) in
        let '(contents, r) := writeLoop (file s) encoded (io_writes io) in
        let s := MkStore contents (engine s) (closed s) in
        match r with
        | Err err => rollback s start err io
        | Ok _ =>
            match io_synced io with
            | Err err => rollback s start err io
            | Ok _ => (s, Ok tt)
            end
        end
    end.

(** Back to the engine of the snapshot; when that fails the store is closed. *)
Definition restore (s : Store) (snapshot : Snapshot) (cause : error) : Store * error :=
  match Engine.Restore (engine s) snapshot with
  | (e, Ok _) => (MkStore (file s) e (closed s), cause)
  | (e, Err _) => (MkStore (file s) e true, ErrCorrupt)
  end.

(** The tail of the mutating methods: the event of an accepted mutation is
    appended, and when it cannot be, the engine goes back to the snapshot. *)
Definition persist (s : Store) (snapshot : Snapshot) (item : result event) (io : AppendIO) :
    Store * check :=
  let '(s, r) :=
    match item with
    | Ok item => appendEvent s item io
    | Err err => (s, Err err)
    end in
  match r with
  | Ok _ => (s, Ok tt)
  | Err err => let '(s, err) := restore s snapshot err in (s, Err err)
  end.

(** ** Methods *)

Definition Append (s : Store) (ctx : check) (io : AppendIO) (input : AppendInput) :
    Store * result AppendResult :=
  match ctx with
  | Err err => (s, Err err)
  | Ok _ =>
      if closed s then (s, Err ErrClosed)
      else
        let snapshot := takeSnapshot (engine s) in
        let '(e, r) := Engine.Append (engine s) input in
        let s := MkStore (file s) e (closed s) in
        match r with
        | Err err => (s, Err err)
        | Ok result =>
            match ar_Outcome result with
            | AppendIdempotent => (s, Ok result)
            | _ =>
                let '(s, r) := persist s snapshot (entry_event <$> EntryToWire (ar_Entry result)) io in
                (s, _ ← r; Ok result)
            end
        end
  end.

(** The event of an accepted commit: its delta since the snapshot. *)
Definition commit_item (e : Engine) (snapshot : Snapshot) (expectedSize : Z)
    (expectedCheckpoint : option bytes) : result event :=
  delta ← DeltaSince e snapshot;
  let checkpoint := Wire.encode <$> expectedCheckpoint in
  commit_event (FormatUint expectedSize) checkpoint <$> StateToWire delta.

Definition CommitCLL (s : Store) (ctx : check) (io : AppendIO) (expectedSize : Z)
    (expectedCheckpoint : option bytes) (next : State) : Store * check :=
  match ctx with
  | Err err => (s, Err err)
  | Ok _ =>
      if closed s then (s, Err ErrClosed)
      else
        let snapshot := takeSnapshot (engine s) in
        let '(e, r) := Engine.CommitCLL (engine s) expectedSize expectedCheckpoint next in
        let s := MkStore (file s) e (closed s) in
        match r with
        | Err err => (s, Err err)
        | Ok _ =>
            persist s snapshot (commit_item e snapshot expectedSize expectedCheckpoint) io
        end
  end.

Definition CommitWitness (s : Store) (ctx : check) (io : AppendIO) (expectedAttempts : Z)
    (next : WitnessState) : Store * check :=
  match ctx with
  | Err err => (s, Err err)
  | Ok _ =>
      if closed s then (s, Err ErrClosed)
      else
        let snapshot := takeSnapshot (engine s) in
        let '(e, r) := Engine.CommitWitness (engine s) expectedAttempts next in
        let s := MkStore (file s) e (closed s) in
        match r with
        | Err err => (s, Err err)
        | Ok _ => persist s snapshot (witness_event expectedAttempts <$> WitnessToWire next) io
        end
  end.

Definition GetEntry (s : Store) (ctx : check) (value : bytes) : result Entry :=
  _ ← ctx; if closed s then Err ErrClosed else Engine.GetEntry (engine s) value.

Definition ScanEntries (s : Store) (ctx : check) (afterSeq limit : Z) : result (list Entry) :=
  _ ← ctx; if closed s then Err ErrClosed else Engine.ScanEntries (engine s) afterSeq limit.

Definition LoadCLL (s : Store) (ctx : check) : result State :=
  _ ← ctx; if closed s then Err ErrClosed else Ok (LoadState (engine s)).

Definition PendingWitnesses (s : Store) (ctx : check) (now limit : Z) : result (list WitnessState) :=
  _ ← ctx; if closed s then Err ErrClosed else Engine.PendingWitnesses (engine s) now limit.

Definition GetWitness (s : Store) (ctx : check) (witnessID : string) (checkpointSize : Z) :
    result WitnessState :=
  _ ← ctx; if closed s then Err ErrClosed else Engine.GetWitness (engine s) witnessID checkpointSize.

(** [released] is the outcome of unlocking and closing the file. *)
Definition Close (s : Store) (released : check) : Store * check :=
  if closed s then (s, Ok tt) else (MkStore (file s) (engine s) true, released).

(** ** Opening *)

Record OpenIO := MkOpenIO {
  io_opened : check;
  io_locked : check;
  io_replay : ReplayIO;
  io_stat : check;
  io_init : AppendIO
}.

(** [contents] is the file at the path, if there is one; the result is the file
    left there and the store. *)
Definition open (path : string) (initialize : bool) (contents : option bytes) (io : OpenIO) :
    option bytes * result Store :=
  if bool_decide (path = EmptyString) then (contents, Err ErrInvalid)
  else
  match io_opened io, contents, initialize with
  | Err err, _, _ => (contents, Err err)
  | Ok _, None, false => (None, Err (ErrText "no such file"))
  | Ok _, _, _ =>
      let data := default [] contents in
      match io_locked io with
      | Err _ => (Some data, Err ErrContention)
      | Ok _ =>
          match replay (io_replay io) initialize data with
          | (data, Err err) => (Some data, Err err)
          | (data, Ok e) =>
              let s := MkStore data e false in
              match io_stat io with
              | Err err => (Some data, Err err)
              | Ok _ =>
                  if zlen data =? 0 then
                    if negb initialize then (Some data, Err ErrCorrupt)
                    else
                      let '(s, r) := appendEvent s init_event (io_init io) in
                      (Some (file s), _ ← r; Ok s)
                  else (Some data, Ok s)
              end
          end
      end
  end.

Definition Open (path : string) (contents : option bytes) (io : OpenIO) : option bytes * result Store :=
  open path false contents io.

Definition Init (path : string) (contents : option bytes) (io : OpenIO) (released : check) :
    option bytes * check :=
  let '(contents, r) := open path true contents io in
  (contents, s ← r; snd (Close s released)).

End Store.

End Jsonl.
