(* ===== verification/JournalText.v ===== *)
(** * What the repository writes to a journal is UTF-8

    Decimal, base64, time and hexadecimal text and identifiers are ASCII; only
    the text of a delivery error can be anything else. *)

From Stdlib.Strings Require Import Ascii.
From stdpp Require Import pretty.
From S2P Require Import Prelude DtMmr Hex Text Base64 Mmr Cll Portable Engine EngineLog EngineState Wire.
From S2P Require Import WireProofs Utf8 Json JsonProofs Journal JournalProofs.
Import Json JsonProofs Cll Wire Journal Text Portable Engine EngineLog EngineState WireProofs JournalProofs.

Module JournalText.

Local Open Scope Z_scope.

(** ** Bounds on what a journal line decodes to

    An array of a decoded value has at most as many elements as the parser has
    steps, so the state of a decoded event is small enough for the machine
    arithmetic of the engine. *)

(** Every array inside has at most [n] elements. *)
Fixpoint sized (n : nat) (v : json) : Prop :=
  match v with
  | JArray vs => (length vs <= n)%nat /\ fold_right (fun v p => sized n v /\ p) True vs
  | JObject ms => fold_right (fun m p => sized n (snd m) /\ p) True ms
  | _ => True
  end.

Lemma sized_array (n : nat) (vs : list json) :
  sized n (JArray vs) <-> (length vs <= n)%nat /\ Forall (sized n) vs.
Proof.
  cbn [sized]. assert (fold_right (fun v p => sized n v /\ p) True vs <-> Forall (sized n) vs) as ->; [|done].
  induction vs as [|v vs IH]; cbn [fold_right]; [by split|]. rewrite Forall_cons. tauto.
Qed.

Lemma sized_object (n : nat) (ms : list (bytes * json)) :
  sized n (JObject ms) <-> Forall (fun m => sized n (snd m)) ms.
Proof.
  cbn [sized]. induction ms as [|m ms IH]; cbn [fold_right]; [by split|]. rewrite Forall_cons. tauto.
Qed.

Section Parser.
Variable n : nat.

Definition values_sized (fuel : nat) : Prop := forall depth s v rest,
  parseValue fuel depth s = Some (v, rest) -> sized n v.
Definition elements_sized (fuel : nat) : Prop := forall depth s vs rest,
  parseElements fuel depth s = Some (vs, rest) -> (length vs <= fuel)%nat /\ Forall (sized n) vs.
Definition members_sized (fuel : nat) : Prop := forall depth s ms rest,
  parseMembers fuel depth s = Some (ms, rest) -> Forall (fun m => sized n (snd m)) ms.

Lemma elements_step (fuel : nat) : values_sized fuel -> elements_sized fuel -> elements_sized (S fuel).
Proof.
  intros Hv He depth s vs rest. cbn [parseElements].
  destruct (parseValue fuel depth s) as [[v t]|] eqn:Hp; [|done]. apply Hv in Hp.
  destruct (skip t) as [|b u]; [done|].
  destruct b; try done; [destruct (parseElements fuel depth u) as [[vs' rest']|] eqn:Hq; [|done]|].
  - intros [= <- <-]. apply He in Hq as [? ?]. split; [cbn [length]; lia|by constructor].
  - intros [= <- <-]. split; [cbn [length]; lia|by repeat constructor].
Qed.

Lemma members_step (fuel : nat) : values_sized fuel -> members_sized fuel -> members_sized (S fuel).
Proof.
  intros Hv Hm depth s ms rest. cbn [parseMembers].
  destruct (skip s) as [|b t]; [done|]. destruct b; try done.
  destruct (parseString (length t) t) as [[key t1]|]; [|done]. destruct (skip t1) as [|b t2]; [done|].
  destruct b; try done. destruct (parseValue fuel depth t2) as [[v t3]|] eqn:Hp; [|done]. apply Hv in Hp.
  destruct (skip t3) as [|b t4]; [done|].
  destruct b; try done; [destruct (parseMembers fuel depth t4) as [[ms' rest']|] eqn:Hq; [|done]|].
  - intros [= <- <-]. apply Hm in Hq. by constructor.
  - intros [= <- <-]. by repeat constructor.
Qed.

Lemma literal_sized (text s rest : bytes) (v w : json) :
  sized n v -> literal text s v = Some (w, rest) -> sized n w.
Proof. unfold literal. destruct (cutPrefix text s); [|done]. by intros Hv [= <- _]. Qed.

Lemma values_step (fuel : nat) :
  (fuel <= n)%nat -> elements_sized fuel -> members_sized fuel -> values_sized (S fuel).
Proof.
  intros Hf He Hm depth s v rest. cbn [parseValue].
  assert (forall u, match parseNumber u with Some (text, rest) => Some (JNumber text, rest) | None => None end =
    Some (v, rest) -> sized n v) as Hnum.
  { intros u. destruct (parseNumber u) as [[t r]|]; [|done]. by intros [= <- _]. }
  destruct (skip s) as [|b t]; [apply Hnum|]. destruct b; try apply Hnum; clear Hnum.
  - destruct (parseString _ _) as [[t' r]|]; [|done]. by intros [= <- _].
  - destruct (maxNestingDepth <? depth + 1)%Z; [done|].
    assert (match parseElements fuel (depth + 1) t with
            | Some (elements, rest) => Some (JArray elements, rest) | None => None end = Some (v, rest) ->
            sized n v) as Helse.
    { destruct (parseElements fuel (depth + 1) t) as [[vs r]|] eqn:Hq; [|done]. intros [= <- _].
      apply He in Hq as [? ?]. apply sized_array. split; [lia|done]. }
    destruct (skip t) as [|b u]; [done|]. destruct b; try exact Helse.
    intros [= <- _]. split; [cbn; lia|done].
  - by apply literal_sized.
  - by apply literal_sized.
  - by apply literal_sized.
  - destruct (maxNestingDepth <? depth + 1)%Z; [done|].
    assert (match parseMembers fuel (depth + 1) t with
            | Some (members, rest) => Some (JObject members, rest) | None => None end = Some (v, rest) ->
            sized n v) as Helse.
    { destruct (parseMembers fuel (depth + 1) t) as [[ms r]|] eqn:Hq; [|done]. intros [= <- _].
      by apply sized_object, (Hm _ _ _ _ Hq). }
    destruct (skip t) as [|b u]; [done|]. destruct b; try exact Helse. by intros [= <- _].
Qed.

Lemma parser_sized (fuel : nat) :
  (fuel <= n)%nat -> values_sized fuel /\ elements_sized fuel /\ members_sized fuel.
Proof.
  induction fuel as [|fuel IH]; intros Hf; [by split_and!|].
  destruct IH as (Hv & He & Hm); [lia|]. split_and!.
  - apply values_step; [lia|done|done].
  - by apply elements_step.
  - by apply members_step.
Qed.

End Parser.

Lemma decode_sized (s : bytes) (v : json) : Json.decode s = Some v -> sized (2 * length s + 2) v.
Proof.
  unfold Json.decode. destruct (parseValue _ 0 s) as [[w rest]|] eqn:Hp; [|done].
  destruct (skip rest); [|done]. intros [= <-].
  by apply (parser_sized (2 * length s + 2) (2 * length s + 2) ltac:(lia)) in Hp.
Qed.

(** ** Decoders *)

Lemma decElements_length {A} (zero : A) (dec : decoder A) (old l : list A) (vs : list json) :
  decElements zero dec old vs = Some l -> length l = length vs.
Proof.
  revert old l. induction vs as [|v vs IH]; cbn [decElements]; intros old l; [by intros [= <-]|].
  destruct (dec _ v) as [a|]; [|done]. cbn [mbind option_bind].
  destruct (decElements zero dec (tail old) vs) as [l'|] eqn:Hd; [|done]. cbn [mbind option_bind].
  intros [= <-]. cbn [length]. by rewrite (IH _ _ Hd).
Qed.

Lemma decSlice_length {A} (zero : A) (dec : decoder A) (old l : list A) (v : json) (n : nat) :
  sized n v -> decSlice zero dec old v = Some l -> (length l <= n)%nat.
Proof.
  intros Hs. destruct v; cbn [decSlice]; try done; [intros [= <-]; cbn; lia|].
  intros Hd. rewrite (decElements_length _ _ _ _ _ Hd). apply Hs.
Qed.

(** A property of the value before that every field keeps holds after. *)
Lemma decMembers_keeps {A} (field : bytes -> decoder A) (P : A -> Prop) (Q : json -> Prop)
    (old new : A) (ms : list (bytes * json)) :
  (forall key v a b, P a -> Q v -> field key a v = Some b -> P b) ->
  P old -> Forall (fun m => Q (snd m)) ms -> decMembers field old ms = Some new -> P new.
Proof.
  intros Hf Hold Hms. revert old Hold. induction Hms as [|[key v] ms Hq Hms IH]; intros old Hold; cbn [decMembers].
  - by intros [= <-].
  - destruct (field key old v) as [a|] eqn:Ha; [|done]. cbn [mbind option_bind]. apply IH. by eapply Hf.
Qed.

Definition nodes_le (n : nat) (w : WireState) : Prop := (length (ws_Nodes w) <= n)%nat.

Lemma stateField_keeps (n : nat) (key : bytes) (v : json) (a b : WireState) :
  nodes_le n a -> sized n v -> stateField key a v = Some b -> nodes_le n b.
Proof.
  intros Ha Hv. unfold stateField. unfold nodes_le in *.
  repeat case_match; intros (x & Hx & [= <-])%bind_Some || intros [= <-]; try done.
  by apply (decSlice_length _ _ _ _ _ _ Hv Hx).
Qed.

Lemma decState_keeps (n : nat) (v : json) (old new : option WireState) :
  sized n v -> (forall w, old = Some w -> nodes_le n w) ->
  decPointer zeroState (decStruct stateField) old v = Some new -> forall w, new = Some w -> nodes_le n w.
Proof.
  intros Hv Hold. assert (nodes_le n (default zeroState old)) as Hd.
  { destruct old as [w|]; [by apply Hold|]. unfold nodes_le. cbn. lia. }
  destruct v; unfold decPointer; try (intros (x & Hx & [= <-])%bind_Some || intros [= <-]); try done.
  intros w [= ->]. cbn [decStruct] in Hx. apply sized_object in Hv.
  by apply (decMembers_keeps _ _ _ _ _ _ (stateField_keeps n) Hd Hv).
Qed.

Definition event_sized (n : nat) (ev : event) : Prop := forall w, ev_State ev = Some w -> nodes_le n w.

Lemma eventField_keeps (n : nat) (key : bytes) (v : json) (a b : event) :
  event_sized n a -> sized n v -> eventField key a v = Some b -> event_sized n b.
Proof.
  intros Ha Hv. unfold eventField.
  repeat case_match; intros (x & Hx & [= <-])%bind_Some || intros [= <-]; try done.
  unfold event_sized. cbn [ev_State]. by apply (decState_keeps n v _ _ Hv Ha).
Qed.

(** The nodes of a decoded event. *)
Lemma Unmarshal_sized (line : bytes) (ev : event) :
  Unmarshal line = Some ev -> event_sized (2 * length line + 2) ev.
Proof.
  unfold Unmarshal. intros (v & Hv%decode_sized & Hd)%bind_Some.
  destruct v as [| | | | |ms]; try done; cbn [decStruct] in Hd; [injection Hd as <-; by intros w [=]|].
  apply sized_object in Hv.
  refine (decMembers_keeps _ (event_sized _) _ _ _ _ (eventField_keeps _) _ Hv Hd). by intros w [=].
Qed.

(** ** ASCII text *)

Definition asciiText (s : string) : Prop := Forall plain (bytesOf s).

Lemma asciiText_utf8 (s : string) : asciiText s -> utf8 s.
Proof. intros Hs. apply clean_plain, Hs. Qed.

Lemma asciiText_append (s t : string) : asciiText s -> asciiText t -> asciiText (String.append s t).
Proof.
  intros Hs Ht. induction s as [|c s IH]; [done|]. rewrite append_cons.
  apply Forall_cons in Hs as [Hc Hs]. constructor; [done|]. by apply IH.
Qed.

Lemma asciiText_cons (c : ascii) (s : string) :
  32 <= Z.of_N (N_of_ascii c) < 128 -> asciiText s -> asciiText (String c s).
Proof. intros Hc Hs. constructor; [|done]. unfold plain. by rewrite byte_of_ascii_value. Qed.

Lemma asciiText_FormatUint (n : Z) : asciiText (FormatUint n).
Proof.
  assert (exists m, 0 <= m /\ FormatUint n = FormatUint m) as (m & Hm & ->).
  { exists (Z.of_N (Z.to_N n)). split; [lia|]. unfold FormatUint. by rewrite N2Z.id. }
  apply digits_plain. by eapply digitsFrom_digits, digits_FormatUint.
Qed.

Lemma asciiText_zeros (n : nat) : asciiText (zeros n).
Proof. induction n as [|n IH]; [constructor|]. by apply asciiText_cons. Qed.

Lemma asciiText_fmt0 (w : nat) (n : Z) : asciiText (fmt0 w n).
Proof. apply asciiText_append; [apply asciiText_zeros|apply asciiText_FormatUint]. Qed.

Lemma asciiText_FormatTime (t : Z) (s : string) : FormatTime t = Ok s -> asciiText s.
Proof.
  unfold FormatTime. destruct (ValidateTime _); [|done]. cbn [mbind result_bind].
  destruct (civil _) as [[y m] d]. intros [= <-].
  apply asciiText_append.
  { unfold yearText. destruct (_ && _); [apply asciiText_fmt0|].
    destruct (y <? 0); apply asciiText_cons; done || apply asciiText_fmt0. }
  repeat first [apply asciiText_append; [apply asciiText_fmt0|] | apply asciiText_cons; [done|]].
  constructor.
Qed.

Lemma alphabet_ascii (v : Z) : 32 <= Z.of_N (N_of_ascii (Base64.digit v)) < 128.
Proof.
  unfold Base64.digit. destruct (String.get (Z.to_nat v) Base64.alphabet) as [c|] eqn:Hc; [|done].
  cbn [default]. revert Hc. generalize (Z.to_nat v) as i. intros i Hc.
  assert (asciiText Base64.alphabet) as Ha by (by apply plain_all).
  revert i Hc. induction Base64.alphabet as [|a s IH]; intros [|i] Hc; try done.
  - injection Hc as ->. apply Forall_cons in Ha as [Ha _]. unfold plain in Ha.
    by rewrite byte_of_ascii_value in Ha.
  - apply Forall_cons in Ha as [_ Ha]. by apply (IH Ha i).
Qed.

Lemma asciiText_base64 (bs : bytes) : asciiText (Base64.EncodeToString bs).
Proof.
  induction bs as [|a|a b|a b c bs IH] using Base64.bytes_ind3; cbn [Base64.EncodeToString];
    repeat (apply asciiText_cons; [by apply alphabet_ascii || done|]); done || constructor.
Qed.

Lemma hex_digit_ascii (d : Z) : 0 <= d < 16 -> 32 <= Z.of_N (N_of_ascii (Hex.hex_digit d)) < 128.
Proof.
  intros Hd. unfold Hex.hex_digit. rewrite N_ascii_embedding; destruct (Z.ltb_spec d 10); lia.
Qed.

Lemma asciiText_hex (bs : bytes) : asciiText (Hex.EncodeToString bs).
Proof.
  induction bs as [|b bs IH]; [constructor|]. pose proof (Z_of_byte_range b). cbn [Hex.EncodeToString].
  apply asciiText_cons; [apply hex_digit_ascii; Z.div_mod_to_equations; lia|].
  apply asciiText_cons; [apply hex_digit_ascii; Z.div_mod_to_equations; lia|done].
Qed.

Lemma asciiText_identifier (s : string) : ValidateIdentifier s = Ok tt -> asciiText s.
Proof.
  unfold ValidateIdentifier. destruct (_ || negb (identifierPattern s)) eqn:Hp; [done|]. intros _.
  apply orb_false_iff in Hp as [_ Hp%negb_false_iff].
  assert (allChars identifierChar s = true) as Ha by by destruct s. clear Hp.
  induction s as [|c s IH]; [constructor|]. apply andb_prop in Ha as [Hc Ha].
  apply asciiText_cons; [|by apply IH]. unfold identifierChar in Hc.
  rewrite !orb_true_iff, !andb_true_iff, !Z.leb_le, !Z.eqb_eq in Hc. lia.
Qed.

(** ** Wire records of valid values *)

Lemma EntryToWire_utf8 (entry : Entry) (wire : WireEntry) :
  EntryToWire entry = Ok wire -> entry_utf8 wire.
Proof.
  unfold EntryToWire. destruct (FormatTime _) as [t|] eqn:Ht; [|done]. cbn [mbind result_bind].
  intros [= <-]. split_and!; apply asciiText_utf8;
    [apply asciiText_FormatUint|apply asciiText_base64|by eapply asciiText_FormatTime].
Qed.

(** The part of a row that is not fixed by validation: Go's [uint32] counter and
    the text of the last error. *)
Record row_storable (w : WitnessState) : Prop := {
  storable_attempts : uint32 (wit_Attempts w);
  storable_error : utf8 (wit_LastError w);
  storable_size : u64 (wit_CheckpointSize w)
}.

Lemma badPosition_range (o : option Z) (n : Z) : badPosition o = false -> o = Some n -> int64 n.
Proof.
  intros Hb ->. unfold badPosition in Hb. gobool. unfold int64, MaxPortableInteger, two63 in *. lia.
Qed.

Lemma hash_utf8 (s : string) :
  negb (bool_decide (s = EmptyString)) && negb (validEntryHash s) = false -> utf8 s.
Proof.
  rewrite andb_false_iff, !negb_false_iff, bool_decide_eq_true. intros [->|Hv]; [done|].
  unfold validEntryHash in Hv. destruct (Hex.DecodeString s) as [d|]; [|done]. gobool.
  apply asciiText_utf8. replace s with (Hex.EncodeToString d) by done. apply asciiText_hex.
Qed.

Lemma WitnessToWire_good (w : WitnessState) (wire : WireWitness) :
  witness_ok w -> row_storable w -> WitnessToWire w = Ok wire -> witness_utf8 wire /\ witness_ranges wire.
Proof.
  intros Hok [Ha He _] Hw. unfold WitnessToWire in Hw.
  destruct (FormatTime _) as [t|] eqn:Ht; [|done]. cbn [mbind result_bind] in Hw. injection Hw as <-.
  unfold witness_ok, validateWitness in Hok.
  destruct (ValidateIdentifier (wit_WitnessID w)) as [[]|] eqn:Hid; [|done].
  pose proof (asciiText_utf8 _ (asciiText_identifier _ Hid)) as Hid8.
  pose proof (asciiText_utf8 _ (asciiText_FormatTime _ _ Ht)) as Ht8.
  assert (forall bs, utf8 (Wire.encode bs)) as H64 by (intros bs; apply asciiText_utf8, asciiText_base64).
  assert (forall n, utf8 (FormatUint n)) as Hn8 by (intros n; apply asciiText_utf8, asciiText_FormatUint).
  destruct (_ || _) in Hok; [done|]. destruct (wit_Receipt w) as [r|]; cbn.
  - destruct (_ || _) in Hok; [done|]. destruct (_ && _) eqn:Hhash in Hok; [done|].
    destruct (_ && _) eqn:Hscheme in Hok; [done|]. destruct (_ || _) eqn:Hpos in Hok; [done|].
    apply orb_false_iff in Hpos as [Hleaf Htree]. split; [split|]; cbn; try done.
    + by intros s [= <-].
    + by apply hash_utf8.
    + apply andb_false_iff in Hscheme as [Hs|Hs]; apply negb_false_iff, bool_decide_eq_true in Hs; by rewrite Hs.
    + split_and!; [done|intros n; by apply badPosition_range|intros n; by apply badPosition_range].
  - split; [split|]; cbn; try done.
Qed.

Lemma rows_good (ws : list WitnessState) (wires : list WireWitness) :
  Forall witness_ok ws -> Forall row_storable ws -> traverse WitnessToWire ws = Ok wires ->
  Forall witness_utf8 wires /\ Forall witness_ranges wires.
Proof.
  intros Hok Hst Ht%traverse_Ok. induction Ht as [|w wire ws wires Hw Hall IH]; [by split|].
  apply Forall_cons in Hok as [Hok1 Hok]. apply Forall_cons in Hst as [Hst1 Hst].
  destruct (WitnessToWire_good w wire Hok1 Hst1 Hw). destruct (IH Hok Hst). by split; constructor.
Qed.

Lemma StateToWire_good (s : State) (wire : WireState) :
  Forall witness_ok (st_Witnesses s) -> Forall row_storable (st_Witnesses s) ->
  StateToWire s = Ok wire -> state_utf8 wire /\ state_ranges wire.
Proof.
  intros Hok Hst Hw. unfold StateToWire in Hw.
  assert (forall bs, utf8 (Wire.encode bs)) as H64 by (intros bs; apply asciiText_utf8, asciiText_base64).
  assert (forall n, utf8 (FormatUint n)) as Hn8 by (intros n; apply asciiText_utf8, asciiText_FormatUint).
  assert (forall l, Forall utf8 (map Wire.encode l)) as Hl8.
  { intros l. apply Forall_map, Forall_forall. intros bs _. apply H64. }
  apply bind_Ok in Hw as (pending & Hp & Hw). apply bind_Ok in Hw as (rows & Hr & Hw).
  destruct (rows_good _ _ Hok Hst Hr) as [H8 Hrg].
  assert (optional_utf8 pending) as Hpend.
  { destruct (st_FirstPendingAt s) as [t|]; [|injection Hp as <-; done].
    apply bind_Ok in Hp as (text & Ht & Hp). injection Hp as <-. intros x [= <-].
    apply asciiText_utf8. by eapply asciiText_FormatTime. }
  injection Hw as <-. destruct (st_Checkpoint s) as [c|]; (split; [split|]; cbn; try done).
  all: intros x [= <-]; done.
Qed.

End JournalText.
