(* ===== verification/JsonlReplay.v ===== *)
(** * Replaying one event of the journal

    A reopened log holds the entries of the live one and its state with every
    time rounded down to the millisecond.  Each event a store writes takes the
    reopened log before the mutation to the reopened log after it. *)

From S2P Require Import Prelude Text Utf8 Base64 Json JsonProofs DtMmr Mmr Cll Portable Engine EngineLog EngineState.
From S2P Require Import EngineHistory EngineWitness Wire WireProofs Journal JournalProofs JournalText Jsonl.
Import Jsonl Text JsonProofs Cll Portable Engine EngineLog EngineState EngineHistory EngineWitness.
Import Wire WireProofs Journal JournalProofs JournalText.

Module JsonlReplay.

Local Open Scope Z_scope.

(** ** The reopened log *)

Definition reopened (e : Engine) : Engine :=
  MkEngine (entries e) (byValue e) (normalState (state e)).

Lemma normalWitness_key (w : WitnessState) : keyOf (normalWitness w) = keyOf w.
Proof. done. Qed.

Lemma normalRows_keys (ws : list WitnessState) : map keyOf (map normalWitness ws) = map keyOf ws.
Proof. by rewrite map_map. Qed.

Lemma newRows_normal (ws next : list WitnessState) :
  newRows (map normalWitness ws) (map normalWitness next) = map normalWitness (newRows ws next).
Proof.
  unfold newRows. rewrite normalRows_keys. induction next as [|w next IH]; [done|].
  cbn [map List.filter]. rewrite normalWitness_key. destruct (negb _); cbn [map]; by rewrite IH.
Qed.

Lemma committed_normal (s next : State) :
  normalState (committed s next) = committed (normalState s) (normalState next).
Proof.
  unfold committed, normalState, with_rows.
  cbn [st_Size st_Nodes st_IndexedSeq st_FirstPendingAt st_Checkpoint st_Witnesses].
  by rewrite map_app, newRows_normal.
Qed.

Lemma commitDelta_normal (s next : State) :
  normalState (commitDelta s next) = commitDelta (normalState s) (normalState next).
Proof.
  unfold commitDelta, normalState, with_rows.
  cbn [st_Size st_Nodes st_IndexedSeq st_FirstPendingAt st_Checkpoint st_Witnesses].
  by rewrite newRows_normal.
Qed.

Section Laws.
Context `{DT : DtMmr} `{!DtMmrLaws DT}.

Lemma reopened_ok (e : Engine) : engine_ok e -> engine_ok (reopened e).
Proof. intros [Hl Hs]. split; [done|]. by apply normalState_wf. Qed.

(** ** Commits *)

Lemma commit_reopened (e e' : Engine) (expectedSize : Z) (expectedCheckpoint : option bytes) (next : State) :
  engine_ok e -> CommitCLL e expectedSize expectedCheckpoint next = (e', Ok tt) ->
  DeltaSince e' (takeSnapshot e) = Ok (commitDelta (state e) next) /\
  CommitCLLDelta (reopened e) expectedSize expectedCheckpoint (normalState (commitDelta (state e) next)) =
    (reopened e', Ok tt).
Proof.
  intros He (Hcas & Hwf & Ha & Hc & _ & ->)%CommitCLL_Ok; [|apply He].
  split; [by apply DeltaSince_committed|]. rewrite commitDelta_normal.
  rewrite (commitDelta_commits (reopened e)); cbn [reopened state entries byValue]; try done.
  - unfold reopened. cbn [state entries byValue]. by rewrite committed_normal.
  - apply normalState_wf, He.
  - by apply normalState_wf.
Qed.

Lemma witness_commit_reopened (e e' : Engine) (attempts : Z) (next : WitnessState) :
  engine_ok e -> CommitWitness e attempts next = (e', Ok tt) ->
  witness_ok next /\ CommitWitness (reopened e) attempts (normalWitness next) = (reopened e', Ok tt).
Proof.
  intros He Hc. unfold CommitWitness in *. destruct (ApplyWitness (state e) attempts next) as [s'|] eqn:Ha; [|done].
  injection Hc as <-. apply ApplyWitness_Ok in Ha as (Hok & pre & w & post & Hws & Hni & Hk & Hatt & Hcp & ->).
  split; [done|]. unfold ApplyWitness.
  destruct (validateWitness_cases (normalWitness next) ErrInvalid) as [[_ ->]|[Hbad _]];
    [|by destruct Hbad; apply normalWitness_ok].
  cbn [mbind result_bind]. cbn [reopened state normalState st_Witnesses].
  pose proof (wf_keys _ (ok_state _ He)) as Hkeys.
  assert (forall pre, keyOf next ∉ map keyOf pre ->
    replaceWitness attempts (normalWitness next) (map normalWitness (pre ++ w :: post)) =
    Ok (map normalWitness (pre ++ next :: post))) as Hrep.
  { clear -Hk Hatt Hcp. induction pre as [|x pre IH]; cbn [map app replaceWitness]; intros Hni.
    - rewrite !normalWitness_key, bool_decide_true by done. cbn [negb].
      cbn [normalWitness wit_Attempts wit_Checkpoint]. rewrite Hatt, Z.eqb_refl. cbn [negb].
      unfold bytesEqual. rewrite bool_decide_true by done. cbn [negb]. by rewrite CloneWitness_id.
    - apply not_elem_of_cons in Hni as [Hx Hni]. rewrite !normalWitness_key, bool_decide_false by auto.
      cbn [negb]. by rewrite (IH Hni). }
  rewrite Hws, Hrep by done. done.
Qed.

(** ** What a store may be given: Go's integer types, and UTF-8 error text *)

Record state_storable (s : State) : Prop := {
  storable_u64 : state_u64 s;
  storable_rows : Forall row_storable (st_Witnesses s)
}.

Lemma newRows_incl (ws next : list WitnessState) (w : WitnessState) : w ∈ newRows ws next -> w ∈ next.
Proof.
  unfold newRows. intros Hw%list_elem_of_In. apply List.filter_In in Hw as [Hw _]. by apply list_elem_of_In.
Qed.

Lemma Forall_newRows' (P : WitnessState -> Prop) (ws next : list WitnessState) :
  Forall P next -> Forall P (newRows ws next).
Proof. rewrite !Forall_forall. intros Hn w Hw. by apply Hn, (newRows_incl ws). Qed.

Lemma delta_storable (s next : State) : state_storable next -> state_storable (commitDelta s next).
Proof.
  intros [[Us Ui Uc Ur] Hr]. split; [split|]; cbn [commitDelta with_rows st_Size st_IndexedSeq st_Checkpoint
    st_Witnesses]; try done; by apply Forall_newRows'.
Qed.

(** The wire form of the delta of an accepted commit. *)
Lemma delta_wire (s next : State) :
  state_wf next -> state_storable next ->
  exists wire, StateToWire (commitDelta s next) = Ok wire /\
    StateDeltaFromWire wire = Ok (normalState (commitDelta s next)) /\ state_utf8 wire /\ state_ranges wire.
Proof.
  intros Hwf Hst. pose proof (delta_storable s next Hst) as [Hu Hr].
  assert (Forall witness_ok (st_Witnesses (commitDelta s next))) as Hok
    by (apply Forall_newRows', Hwf).
  destruct (state_roundtrip (commitDelta s next) (wf_pending _ Hwf) Hok Hu) as (wire & Ht & Hf).
  exists wire. split; [done|]. split; [done|]. by apply (StateToWire_good _ _ Hok Hr).
Qed.

(** ** Events *)

Lemma apply_entry (e e' : Engine) (input : AppendInput) (r : AppendResult) :
  engine_ok e -> Append e input = (e', Ok r) -> ar_Outcome r = AppendInserted ->
  exists wire, EntryToWire (ar_Entry r) = Ok wire /\ entry_utf8 wire /\
    applyEvent (reopened e) (entry_event wire) = Ok (reopened e').
Proof.
  intros He Ha Hr. unfold Append in Ha.
  destruct (negb (zlen (input_Value input) =? EntryBytes) || badTime (input_AppendedAt input)) eqn:Hg; [done|].
  destruct (byValue e !! input_Value input) as [i|] eqn:Hi.
  { injection Ha as _ Ha. destruct (index (entries e) i); [|done]. cbn [mbind result_bind] in Ha.
    injection Ha as <-. done. }
  destruct (Z.ltb_spec MaxPortableInteger (zlen (entries e) + 1)) as [|Hmax]; [done|].
  injection Ha as <- <-. clear Hr. cbn [ar_Entry]. rewrite CloneEntry_id.
  apply orb_false_iff in Hg as [Hw%negb_false_iff%Z.eqb_eq Ht].
  set (entry := MkEntry (zlen (entries e) + 1) (input_Value input) (NormalizeTime (input_AppendedAt input))).
  assert (normalEntry entry = entry) as Hnorm by (unfold normalEntry, entry; cbn; by rewrite NormalizeTime_idem).
  destruct (entry_roundtrip (zlen (entries e)) entry (zlen_nonneg _)) as (wire & Hto & Hfrom).
  { split; unfold entry; cbn; try done. by rewrite badTime_normalize. }
  exists wire. split; [done|]. split; [by apply (EntryToWire_utf8 entry)|].
  unfold applyEvent, entry_event. cbn [ev_Type ev_Entry]. rewrite bool_decide_false, bool_decide_true by done.
  rewrite Hfrom, Hnorm. cbn [mbind result_bind]. unfold Append.
  cbn [input_Value input_AppendedAt entry entry_Value entry_AppendedAt].
  rewrite badTime_normalize, Ht, Hw, Z.eqb_refl. cbn [negb orb reopened byValue entries state].
  rewrite Hi, (proj2 (Z.ltb_ge _ _)) by done. cbn [ar_Outcome ar_Entry]. rewrite CloneEntry_id.
  cbn [entry_Seq]. rewrite Z.eqb_refl, NormalizeTime_idem. done.
Qed.

Lemma apply_commit (e e' : Engine) (expectedSize : Z) (expectedCheckpoint : option bytes) (next : State) :
  engine_ok e -> u64 expectedSize -> state_storable next ->
  CommitCLL e expectedSize expectedCheckpoint next = (e', Ok tt) ->
  exists delta wire, DeltaSince e' (takeSnapshot e) = Ok delta /\ StateToWire delta = Ok wire /\
    state_utf8 wire /\ state_ranges wire /\
    applyEvent (reopened e)
      (commit_event (FormatUint expectedSize) (Wire.encode <$> expectedCheckpoint) wire) = Ok (reopened e').
Proof.
  intros He Hu Hst Hc. destruct (commit_reopened e e' _ _ _ He Hc) as [Hd Hr].
  apply CommitCLL_Ok in Hc as (_ & Hwf & _); [|apply He].
  destruct (delta_wire (state e) next Hwf Hst) as (wire & Ht & Hf & H8 & Hg).
  exists (commitDelta (state e) next), wire. split_and!; [done..|].
  unfold applyEvent, commit_event. cbn [ev_Type ev_State ev_ExpectedSize ev_ExpectedCheckpoint].
  rewrite !bool_decide_false, bool_decide_true by done.
  unfold ParseDecimal. rewrite parseDecimal_FormatUint by done.
  destruct expectedCheckpoint as [cp|]; cbn [fmap option_fmap option_map].
  - unfold Wire.encode. rewrite Base64.StrictDecodeString_EncodeToString. cbn [mbind result_bind].
    rewrite Hf. cbn [mbind result_bind]. by rewrite Hr.
  - cbn [mbind result_bind]. rewrite Hf. cbn [mbind result_bind]. by rewrite Hr.
Qed.

Lemma apply_witness (e e' : Engine) (attempts : Z) (next : WitnessState) :
  engine_ok e -> row_storable next -> CommitWitness e attempts next = (e', Ok tt) ->
  exists wire, WitnessToWire next = Ok wire /\ witness_utf8 wire /\ witness_ranges wire /\
    applyEvent (reopened e) (witness_event attempts wire) = Ok (reopened e').
Proof.
  intros He Hst Hc. destruct (witness_commit_reopened e e' attempts next He Hc) as [Hok Hr].
  destruct (witness_roundtrip next Hok (storable_size _ Hst)) as (wire & Ht & Hf).
  destruct (WitnessToWire_good next wire Hok Hst Ht) as [H8 Hg]. exists wire. split_and!; [done..|].
  unfold applyEvent, witness_event. cbn [ev_Type ev_ExpectedAttempts ev_Witness].
  rewrite !bool_decide_false, bool_decide_true by done. rewrite Hf. cbn [mbind result_bind]. by rewrite Hr.
Qed.

(** ** Lines *)

Lemma replayLine_event (e e' : Engine) (initialized : bool) (ev : event) :
  event_ranges ev -> event_utf8 ev -> ev_Version ev = schemaVersion ->
  zlen (Marshal ev) <= MaxJournalEventBytes ->
  (initialized = false -> ev_Type ev = "cll.init"%string) -> applyEvent e ev = Ok e' ->
  replayLine e initialized (Marshal ev) = Ok e'.
Proof.
  intros Hr H8 Hv Hlen Hinit Happ. destruct (Unmarshal_Marshal ev Hr H8) as (Hu & Hh & [Hvalid _]).
  unfold replayLine. rewrite (proj2 (Z.ltb_ge _ _)), Hvalid, Hh by done. cbn [negb hd_Version hd_Type].
  rewrite Hv, Z.eqb_refl. cbn [negb].
  destruct initialized; cbn [negb andb]; [by rewrite Hu, Happ|].
  rewrite bool_decide_true by auto. cbn [negb]. by rewrite Hu, Happ.
Qed.

End Laws.

End JsonlReplay.
