(* ===== verification/Backend.v ===== *)
(** * The persistence contract: [cll.Backend]

    The interface every storage backend implements ([src/cll/types.go]) as a
    class of operations, and its contract as laws: an open backend represents
    an engine, and every call acts as the engine does, up to the precision of
    times and the order of rows, or fails, with or without having been made, or
    shuts the backend.  A context is the error its
    [Err] method returns.  What holds of every backend is proved once, from the laws. *)

From S2P Require Import Prelude Hex DtMmr Mmr Cll Portable Engine EngineLog EngineState EngineHistory EngineWitness.
From S2P Require Import WireProofs JournalProofs JournalText JsonlReplay.
Import Cll Portable Engine EngineLog EngineState EngineHistory EngineWitness WireProofs JournalProofs JournalText JsonlReplay.

Module Backend.

Local Open Scope Z_scope.

(** ** Operations *)

(** [Env] is what surrounds a call: the error of its context, and the outcomes
    of the system calls a backend makes. *)
Class Backend (S Env : Type) := {
  b_Append : S -> Env -> AppendInput -> S * result AppendResult;
  b_GetEntry : S -> Env -> bytes -> result Entry;
  b_ScanEntries : S -> Env -> Z -> Z -> result (list Entry);
  b_LoadCLL : S -> Env -> result State;
  b_CommitCLL : S -> Env -> Z -> option bytes -> State -> S * check;
  b_PendingWitnesses : S -> Env -> Z -> Z -> result (list WitnessState);
  b_GetWitness : S -> Env -> string -> Z -> result WitnessState;
  b_CommitWitness : S -> Env -> Z -> WitnessState -> S * check;
  b_Close : S -> Env -> S * check
}.

(** ** What a backend keeps of a state *)

(** A time as precise as the backend stores it. *)
Definition time_kept (t t' : option Z) : Prop := t' = t \/ t' = NormalizeTime <$> t.

Definition row_kept (w w' : WitnessState) : Prop := w' = w \/ w' = normalWitness w.

(** The same state, up to the precision of its times and the order of its rows. *)
Record state_kept (s s' : State) : Prop := {
  kept_size : st_Size s' = st_Size s;
  kept_nodes : st_Nodes s' = st_Nodes s;
  kept_indexed : st_IndexedSeq s' = st_IndexedSeq s;
  kept_checkpoint : st_Checkpoint s' = st_Checkpoint s;
  kept_pending : time_kept (st_FirstPendingAt s) (st_FirstPendingAt s');
  kept_rows : exists rows, st_Witnesses s' ≡ₚ rows /\ Forall2 row_kept (st_Witnesses s) rows
}.

Record engine_kept (e e' : Engine) : Prop := {
  kept_entries : entries e' = entries e;
  kept_state : state_kept (state e) (state e')
}.

#[global] Instance row_kept_reflexive : Reflexive row_kept.
Proof. by left. Qed.

#[global] Instance state_kept_reflexive : Reflexive state_kept.
Proof. intros s. split; try done; [by left|]. by exists (st_Witnesses s). Qed.

#[global] Instance engine_kept_reflexive : Reflexive engine_kept.
Proof. by split. Qed.

Lemma row_kept_le (w w' : WitnessState) : row_kept w w' -> row_le w w'.
Proof. by intros [->| ->]. Qed.

Lemma state_kept_le (s s' : State) : state_kept s s' -> state_le s s'.
Proof.
  intros [Hsize Hnodes Hindexed Hcp _ (rows & Hp & Hrows)]. split.
  - unfold append_only. by rewrite Hsize, Hnodes, Hindexed.
  - by rewrite Hcp.
  - exists rows, []. rewrite app_nil_r. split; [done|]. eapply Forall2_impl; [exact Hrows|apply row_kept_le].
Qed.

Lemma engine_kept_le (e e' : Engine) : engine_kept e e' -> engine_le e e'.
Proof. intros [Hes Hs]. split; [by rewrite Hes|by apply state_kept_le]. Qed.

Lemma engine_kept_moved (e e' : Engine) : engine_kept e e' -> rows_moved e e'.
Proof.
  intros [Hes [Hs Hn Hi Hc _ (rows & Hp & Hrows)]]. split; try done. exists rows. split; [done|].
  eapply Forall2_impl; [exact Hrows|apply row_kept_le].
Qed.

(** What holds of rows whatever the precision of their times. *)
Lemma kept_forall (P : WitnessState -> Prop) (s s' : State) :
  (forall w, P w -> P (normalWitness w)) -> state_kept s s' -> Forall P (st_Witnesses s) -> Forall P (st_Witnesses s').
Proof.
  intros HP Hk Hs. destruct (kept_rows _ _ Hk) as (rows & -> & Hrows). clear Hk.
  induction Hrows as [|w w' ws ws' Hw Hrows IH]; [done|]. apply Forall_cons in Hs as [Hw1 Hs].
  constructor; [|by apply IH]. destruct Hw as [->| ->]; [done|by apply HP].
Qed.

(** ** Contract *)

(** A mutation acts as the engine, or fails and changes nothing, or fails after
    it was made, or fails and shuts the backend. *)
Definition agrees {S A} (rep : S -> Engine -> Prop) (shut : S -> Prop) (e : Engine)
    (spec : Engine * result A) (out : S * result A) : Prop :=
  let made := exists e', rep (fst out) e' /\ engine_kept (fst spec) e' in
  (made /\ snd out = snd spec) \/
  ((rep (fst out) e \/ made \/ shut (fst out)) /\ exists err, snd out = Err err).

Lemma agrees_exact {S A} (rep : S -> Engine -> Prop) (shut : S -> Prop) (e : Engine) (spec : Engine * result A)
    (out : S * result A) :
  rep (fst out) (fst spec) -> snd out = snd spec -> agrees rep shut e spec out.
Proof. intros Hr Ho. left. split; [|done]. by exists (fst spec). Qed.

Lemma agrees_refused {S A} (rep : S -> Engine -> Prop) (shut : S -> Prop) (e : Engine) (spec : Engine * result A)
    (s : S) (err : error) :
  rep s e \/ shut s -> agrees rep shut e spec (s, Err err).
Proof. intros Hs. right. split; [tauto|by exists err]. Qed.

(** A query answers as the engine, or fails. *)
Definition answers {A} (spec out : result A) : Prop := out = spec \/ exists err, out = Err err.

Class BackendLaws (S Env : Type) `{Backend S Env} `{DT : DtMmr} := {
  (** an open backend and the engine it stores *)
  represents : S -> Engine -> Prop;
  shut : S -> Prop;
  (** the states and rows a backend can be given *)
  storable : Z -> State -> Prop;
  storableRow : Z -> WitnessState -> Prop;
  law_ok s e : represents s e -> engine_ok e;
  law_Append s e env input :
    represents s e -> agrees represents shut e (Append e input) (b_Append s env input);
  law_CommitCLL s e env size checkpoint next :
    represents s e -> storable size next ->
    agrees represents shut e (CommitCLL e size checkpoint next) (b_CommitCLL s env size checkpoint next);
  law_CommitWitness s e env attempts next :
    represents s e -> storableRow attempts next ->
    agrees represents shut e (CommitWitness e attempts next) (b_CommitWitness s env attempts next);
  law_GetEntry s e env v : represents s e -> answers (GetEntry e v) (b_GetEntry s env v);
  law_ScanEntries s e env afterSeq limit :
    represents s e -> 0 <= afterSeq -> answers (ScanEntries e afterSeq limit) (b_ScanEntries s env afterSeq limit);
  law_LoadCLL s e env : represents s e -> answers (Ok (LoadState e)) (b_LoadCLL s env);
  law_PendingWitnesses s e env now limit :
    represents s e -> answers (PendingWitnesses e now limit) (b_PendingWitnesses s env now limit);
  law_GetWitness s e env id size :
    represents s e -> answers (GetWitness e id size) (b_GetWitness s env id size);
  (** a state or a row of Go's integer types with UTF-8 text can be given *)
  law_storable size next : u64 size -> state_storable next -> storable size next;
  law_storableRow attempts row : uint32 attempts -> row_storable row -> storableRow attempts row;
  law_Close s e env : represents s e -> shut (fst (b_Close s env));
  law_shut s env input v size checkpoint next attempts row :
    shut s ->
    shut (fst (b_Append s env input)) /\ is_ok (snd (b_Append s env input)) = false /\
    shut (fst (b_CommitCLL s env size checkpoint next)) /\
    is_ok (snd (b_CommitCLL s env size checkpoint next)) = false /\
    shut (fst (b_CommitWitness s env attempts row)) /\
    is_ok (snd (b_CommitWitness s env attempts row)) = false /\
    is_ok (b_GetEntry s env v) = false /\ is_ok (b_LoadCLL s env) = false
}.

(** ** Clients of any backend *)

(** A mutating call and what surrounds it. *)
Inductive Call (Env : Type) :=
| CallAppend (env : Env) (input : AppendInput)
| CallCommitCLL (env : Env) (expectedSize : Z) (expectedCheckpoint : option bytes) (next : State)
| CallCommitWitness (env : Env) (expectedAttempts : Z) (next : WitnessState).
Arguments CallAppend {Env} env input.
Arguments CallCommitCLL {Env} env expectedSize expectedCheckpoint next.
Arguments CallCommitWitness {Env} env expectedAttempts next.

Section Clients.
Context {S Env : Type} `{BackendLaws S Env} `{!DtMmrLaws DT}.

Definition call (s : S) (c : Call Env) : S :=
  match c with
  | CallAppend env input => fst (b_Append s env input)
  | CallCommitCLL env size checkpoint next => fst (b_CommitCLL s env size checkpoint next)
  | CallCommitWitness env attempts next => fst (b_CommitWitness s env attempts next)
  end.

Definition callOp (c : Call Env) : Op :=
  match c with
  | CallAppend _ input => OpAppend input
  | CallCommitCLL _ size checkpoint next => OpCommitCLL size checkpoint next
  | CallCommitWitness _ attempts next => OpCommitWitness attempts next
  end.

Definition callStorable (c : Call Env) : Prop :=
  match c with
  | CallAppend _ _ => True
  | CallCommitCLL _ size _ next => storable size next
  | CallCommitWitness _ attempts next => storableRow attempts next
  end.

Lemma agrees_fst {A} (e : Engine) (spec : Engine * result A) (out : S * result A) :
  agrees represents shut e spec out ->
  represents (fst out) e \/ (exists e', represents (fst out) e' /\ engine_kept (fst spec) e') \/ shut (fst out).
Proof. intros [[? _]|[? _]]; auto. Qed.

(** A call performs the operation of the engine or does nothing or shuts. *)
Lemma call_step (s : S) (e : Engine) (c : Call Env) :
  represents s e -> callStorable c ->
  represents (call s c) e \/
  (exists e', represents (call s c) e' /\ engine_kept (perform e (callOp c)) e') \/ shut (call s c).
Proof.
  intros Hs Hc. destruct c; cbn [call callOp perform]; eapply agrees_fst;
    [by apply law_Append|by apply law_CommitCLL|by apply law_CommitWitness].
Qed.

Lemma shut_calls (s : S) (calls : list (Call Env)) : shut s -> shut (fold_left call calls s).
Proof.
  revert s. induction calls as [|c calls IH]; intros s Hs; [done|]. cbn [fold_left]. apply IH.
  destruct c as [env input|env size cp next|env attempts row]; cbn [call].
  - apply (law_shut s env input [] 0 None emptyState 0 (MkWitness "" 0 [] 0 0 None false "") Hs).
  - apply (law_shut s env (MkAppendInput [] 0) [] size cp next 0 (MkWitness "" 0 [] 0 0 None false "") Hs).
  - apply (law_shut s env (MkAppendInput [] 0) [] 0 None emptyState attempts row Hs).
Qed.

(** Over any backend that keeps the contract, whatever calls are made and
    whichever of them fail, the store is shut or still represents a valid
    engine, and that engine has only moved forward from the one it represented:
    entries, nodes, checkpoint and witness rows are never lost or rewritten. *)
Lemma backend_calls_move_forward (s : S) (e : Engine) (calls : list (Call Env)) :
  represents s e -> Forall callStorable calls ->
  shut (fold_left call calls s) \/
  exists e', represents (fold_left call calls s) e' /\ engine_ok e' /\ engine_le e e'.
Proof.
  intros Hs Hcalls. revert s e Hs. induction Hcalls as [|c calls Hc Hcalls IH]; intros s e Hs.
  { right. exists e. split_and!; [done|by eapply law_ok|done]. }
  destruct (perform_step e (callOp c) (law_ok _ _ Hs) ltac:(by destruct c)) as [_ Hle]. cbn [fold_left].
  destruct (call_step s e c Hs Hc) as [Hs'|[(e1 & Hs' & Hk)|Hs']]; [by apply IH| |left; by apply shut_calls].
  destruct (IH _ _ Hs') as [?|(e' & ? & ? & Hle')]; [by left|right]. exists e'.
  split_and!; [done|done|]. etrans; [exact Hle|]. etrans; [by apply engine_kept_le|done].
Qed.

End Clients.

End Backend.
