(* ===== verification/Memory.v ===== *)
(** * The in-memory backend: [src/store/memory/store.go]

    The store is an engine and a closed flag; its mutex makes every method one
    atomic step, so a method is a function of the state it locks. *)

From S2P Require Import Prelude Hex DtMmr DtMmrRef Mmr Cll.
From S2P Require Import Portable Engine EngineLog EngineState EngineHistory Backend.
Import Cll Portable Engine EngineLog EngineState EngineHistory Backend.

Module Memory.

Local Open Scope Z_scope.

Record Store := MkStore {
  engine : Engine;
  closed : bool
}.

Definition New : Store := MkStore Engine.New false.

(** A method that locks for writing: the context first, then the closed flag. *)
Definition Append (s : Store) (ctx : check) (input : AppendInput) : Store * result AppendResult :=
  match ctx with
  | Err err => (s, Err err)
  | Ok _ =>
      if closed s then (s, Err ErrClosed)
      else let '(e, r) := Engine.Append (engine s) input in (MkStore e (closed s), r)
  end.

Definition GetEntry (s : Store) (ctx : check) (value : bytes) : result Entry :=
  _ ← ctx; if closed s then Err ErrClosed else Engine.GetEntry (engine s) value.

Definition ScanEntries (s : Store) (ctx : check) (afterSeq limit : Z) : result (list Entry) :=
  _ ← ctx; if closed s then Err ErrClosed else Engine.ScanEntries (engine s) afterSeq limit.

Definition LoadCLL (s : Store) (ctx : check) : result State :=
  _ ← ctx; if closed s then Err ErrClosed else Ok (LoadState (engine s)).

Definition PendingWitnesses (s : Store) (ctx : check) (now limit : Z) : result (list WitnessState) :=
  _ ← ctx; if closed s then Err ErrClosed else Engine.PendingWitnesses (engine s) now limit.

Definition GetWitness (s : Store) (ctx : check) (witnessID : string) (checkpointSize : Z) :
    result WitnessState :=
  _ ← ctx; if closed s then Err ErrClosed else Engine.GetWitness (engine s) witnessID checkpointSize.

Definition Close (s : Store) : Store * check := (MkStore (engine s) true, Ok tt).

Section Commits.
Context `{DT : DtMmr}.

Definition CommitCLL (s : Store) (ctx : check) (expectedSize : Z) (expectedCheckpoint : option bytes)
    (next : State) : Store * check :=
  match ctx with
  | Err err => (s, Err err)
  | Ok _ =>
      if closed s then (s, Err ErrClosed)
      else
        let '(e, r) := Engine.CommitCLL (engine s) expectedSize expectedCheckpoint next in
        (MkStore e (closed s), r)
  end.

End Commits.

Definition CommitWitness (s : Store) (ctx : check) (expectedAttempts : Z) (next : WitnessState) :
    Store * check :=
  match ctx with
  | Err err => (s, Err err)
  | Ok _ =>
      if closed s then (s, Err ErrClosed)
      else
        let '(e, r) := Engine.CommitWitness (engine s) expectedAttempts next in
        (MkStore e (closed s), r)
  end.

(** ** The contract *)

#[export] Instance memory_backend `{DT : DtMmr} : Backend Store check := {
  b_Append := Append;
  b_GetEntry := GetEntry;
  b_ScanEntries := ScanEntries;
  b_LoadCLL := LoadCLL;
  b_CommitCLL := CommitCLL;
  b_PendingWitnesses := PendingWitnesses;
  b_GetWitness := GetWitness;
  b_CommitWitness := CommitWitness;
  b_Close s _ := Close s
}.

Definition holds `{DT : DtMmr} (s : Store) (e : Engine) : Prop := s = MkStore e false /\ engine_ok e.

Lemma answers_query {A} (ctx : check) (r : result A) :
  answers r (_ ← ctx; if false then Err ErrClosed else r).
Proof. destruct ctx as [[]|err]; [by left|right]. by exists err. Qed.

Lemma query_shut {A} (ctx : check) (r : result A) :
  is_ok (_ ← ctx; if true then Err ErrClosed else r) = false.
Proof. by destruct ctx. Qed.

Lemma agrees_memory `{DT : DtMmr} {A} (e : Engine) (spec : Engine * result A) (ctx : check) :
  engine_ok e -> engine_ok (fst spec) ->
  agrees holds (fun s => closed s = true) e spec
    (match ctx with
     | Err err => (MkStore e false, Err err)
     | Ok _ => let '(e', r) := spec in (MkStore e' false, r)
     end).
Proof.
  intros He Hspec. destruct ctx as [[]|err].
  - destruct spec as [e' r]. by apply agrees_exact.
  - apply agrees_refused. by left.
Qed.

#[export] Program Instance memory_laws `{DT : DtMmr} `{!DtMmrLaws DT} : BackendLaws Store check := {
  represents := holds;
  shut s := closed s = true;
  storable _ _ := True;
  storableRow _ _ := True
}.
Next Obligation. intros DT Hlaws s e [_ He]. done. Qed.
Next Obligation.
  intros DT Hlaws s e ctx input [-> He]. apply agrees_memory; [done|].
  by apply (perform_step e (OpAppend input)).
Qed.
Next Obligation.
  intros DT Hlaws s e ctx size checkpoint next [-> He] _. apply agrees_memory; [done|].
  by apply (perform_step e (OpCommitCLL size checkpoint next)).
Qed.
Next Obligation.
  intros DT Hlaws s e ctx attempts next [-> He] _. apply agrees_memory; [done|].
  by apply (perform_step e (OpCommitWitness attempts next)).
Qed.
Next Obligation. intros DT Hlaws s e ctx v [-> _]. apply answers_query. Qed.
Next Obligation. intros DT Hlaws s e ctx afterSeq limit [-> _] _. apply answers_query. Qed.
Next Obligation. intros DT Hlaws s e ctx [-> _]. apply answers_query. Qed.
Next Obligation. intros DT Hlaws s e ctx now limit [-> _]. apply answers_query. Qed.
Next Obligation. intros DT Hlaws s e ctx id size [-> _]. apply answers_query. Qed.
Next Obligation. done. Qed.
Next Obligation. done. Qed.
Next Obligation. done. Qed.
Next Obligation.
  intros DT Hlaws [e c] ctx input v size checkpoint next attempts row Hc. cbn [closed] in Hc. subst c.
  cbn [b_Append b_CommitCLL b_CommitWitness b_GetEntry b_LoadCLL memory_backend].
  unfold Append, CommitCLL, CommitWitness, GetEntry, LoadCLL.
  destruct ctx as [[]|err]; cbn [closed fst snd is_ok mbind result_bind]; by split_and!.
Qed.

(** ** Claims *)

(** With a live context an open in-memory store answers every call exactly
    as its engine; a cancelled context is reported before anything else and a
    closed store answers [ErrClosed], and neither changes the store. *)
Lemma memory_store_is_the_engine `{DT : DtMmr} (e : Engine) (err : error) (input : AppendInput)
    (size attempts now limit afterSeq : Z) (checkpoint : option bytes) (next : State)
    (row : WitnessState) (v : bytes) (id : string) :
  let live := Ok tt in
  let s := MkStore e false in
  let shutStore := MkStore e true in
  (Append s live input = (MkStore (fst (Engine.Append e input)) false, snd (Engine.Append e input)) /\
   CommitCLL s live size checkpoint next =
     (MkStore (fst (Engine.CommitCLL e size checkpoint next)) false,
      snd (Engine.CommitCLL e size checkpoint next)) /\
   CommitWitness s live attempts row =
     (MkStore (fst (Engine.CommitWitness e attempts row)) false,
      snd (Engine.CommitWitness e attempts row)) /\
   GetEntry s live v = Engine.GetEntry e v /\
   ScanEntries s live afterSeq limit = Engine.ScanEntries e afterSeq limit /\
   LoadCLL s live = Ok (state e) /\
   PendingWitnesses s live now limit = Engine.PendingWitnesses e now limit /\
   GetWitness s live id size = Engine.GetWitness e id size) /\
  (Append s (Err err) input = (s, Err err) /\ CommitCLL s (Err err) size checkpoint next = (s, Err err) /\
   CommitWitness s (Err err) attempts row = (s, Err err)) /\
  (fst (Close s) = shutStore /\ Close shutStore = (shutStore, Ok tt) /\
   Append shutStore live input = (shutStore, Err ErrClosed) /\
   CommitCLL shutStore live size checkpoint next = (shutStore, Err ErrClosed) /\
   CommitWitness shutStore live attempts row = (shutStore, Err ErrClosed) /\
   GetEntry shutStore live v = Err ErrClosed /\ LoadCLL shutStore live = Err ErrClosed).
Proof.
  cbv zeta. unfold Append, CommitCLL, CommitWitness, LoadCLL, LoadState. cbn [closed engine mbind result_bind].
  rewrite CloneState_id.
  split_and!; try done;
    [by destruct (Engine.Append e input)|by destruct (Engine.CommitCLL e size checkpoint next)|
     by destruct (Engine.CommitWitness e attempts row)].
Qed.

(** ** Witnesses *)

Import Ref.

Definition sampleCalls : list (Call check) :=
  [CallAppend (Ok tt) (sampleInput Byte.x03); CallCommitCLL (Ok tt) 0 None sampleNext;
   CallAppend (Err ErrClosed) (sampleInput Byte.x04)].

End Memory.
