(* ===== verification/Alias.v ===== *)
(** * Who can reach the memory of an engine: [src/internal/backend/clone.go], [engine.go]

    Slices, pointers and the arrays behind them, as cells of one heap which the
    engine and its caller share.  The operations are those of [Engine], with
    every copy where the code makes it and every share where it makes none; what
    an operation only reads, it decides as [Engine] does.  Copies that an operation abandons
    when it fails are left out.  A slice covers its whole array: the one part of
    an array handed out, by [PendingWitnesses], is of an array nobody else has. *)

From S2P Require Import Prelude Hex DtMmr Mmr Cll Portable Engine.
Import Cll Portable Engine.

Module Alias.

Local Open Scope Z_scope.
Local Open Scope u64_scope.

(** ** Memory *)

Abbreviation loc := nat.

(** A slice or a pointer: [None] is [nil]. *)
Abbreviation ref := (option loc).

Record EntryM := MkEntryM {
  em_Seq : Z;
  em_Value : ref;
  em_AppendedAt : Z
}.

Record ReceiptM := MkReceiptM {
  rm_Bytes : ref;
  rm_EntryHash : string;
  rm_EntryHashScheme : string;
  rm_LeafIndex : ref;
  rm_TreeSize : ref
}.

Record WitnessM := MkWitnessM {
  wm_WitnessID : string;
  wm_CheckpointSize : Z;
  wm_Checkpoint : ref;
  wm_Attempts : Z;
  wm_NextAttemptAt : Z;
  wm_Receipt : ref;
  wm_Permanent : bool;
  wm_LastError : string
}.

Record CheckpointM := MkCheckpointM {
  cm_Bytes : ref;
  cm_Size : Z;
  cm_IndexedSeq : Z;
  cm_Peaks : ref
}.

Record StateM := MkStateM {
  sm_Size : Z;
  sm_Nodes : ref;
  sm_IndexedSeq : Z;
  sm_FirstPendingAt : ref;
  sm_Checkpoint : ref;
  sm_Witnesses : ref
}.

(** What a location holds: an array, or what a pointer points to. *)
Inductive cell :=
| Bytes (bs : bytes)
| Number (n : Z)
| Slices (values : list ref)
| Receipt (receipt : ReceiptM)
| Checkpoint (checkpoint : CheckpointM)
| Witnesses (rows : list WitnessM)
| Entries (entries : list EntryM).

Abbreviation Heap := (list cell).

(** ** What memory holds *)

Definition loadBytes (h : Heap) (r : ref) : option bytes :=
  match r with
  | None => Some []
  | Some l => match h !! l with Some (Bytes bs) => Some bs | _ => None end
  end.

Definition loadNumber (h : Heap) (r : ref) : option (option Z) :=
  match r with
  | None => Some None
  | Some l => match h !! l with Some (Number n) => Some (Some n) | _ => None end
  end.

Definition loadSlices (h : Heap) (r : ref) : option (list bytes) :=
  match r with
  | None => Some []
  | Some l => match h !! l with Some (Slices values) => mapM (loadBytes h) values | _ => None end
  end.

Definition loadEntry (h : Heap) (entry : EntryM) : option Entry :=
  value ← loadBytes h (em_Value entry);
  Some (MkEntry (em_Seq entry) value (em_AppendedAt entry)).

Definition loadEntries (h : Heap) (r : ref) : option (list Entry) :=
  match r with
  | None => Some []
  | Some l => match h !! l with Some (Entries entries) => mapM (loadEntry h) entries | _ => None end
  end.

Definition loadReceipt (h : Heap) (r : ref) : option (option WitnessReceiptState) :=
  match r with
  | None => Some None
  | Some l =>
      match h !! l with
      | Some (Receipt receipt) =>
          bs ← loadBytes h (rm_Bytes receipt);
          leafIndex ← loadNumber h (rm_LeafIndex receipt);
          treeSize ← loadNumber h (rm_TreeSize receipt);
          Some (Some (MkReceipt bs (rm_EntryHash receipt) (rm_EntryHashScheme receipt) leafIndex treeSize))
      | _ => None
      end
  end.

Definition loadWitness (h : Heap) (w : WitnessM) : option WitnessState :=
  checkpoint ← loadBytes h (wm_Checkpoint w);
  receipt ← loadReceipt h (wm_Receipt w);
  Some (MkWitness (wm_WitnessID w) (wm_CheckpointSize w) checkpoint (wm_Attempts w) (wm_NextAttemptAt w) receipt
          (wm_Permanent w) (wm_LastError w)).

Definition loadWitnesses (h : Heap) (r : ref) : option (list WitnessState) :=
  match r with
  | None => Some []
  | Some l => match h !! l with Some (Witnesses rows) => mapM (loadWitness h) rows | _ => None end
  end.

Definition loadCheckpoint (h : Heap) (r : ref) : option (option CheckpointState) :=
  match r with
  | None => Some None
  | Some l =>
      match h !! l with
      | Some (Checkpoint c) =>
          bs ← loadBytes h (cm_Bytes c);
          peaks ← loadSlices h (cm_Peaks c);
          Some (Some (MkCheckpoint bs (cm_Size c) (cm_IndexedSeq c) peaks))
      | _ => None
      end
  end.

Definition loadState (h : Heap) (s : StateM) : option State :=
  nodes ← loadSlices h (sm_Nodes s);
  firstPendingAt ← loadNumber h (sm_FirstPendingAt s);
  checkpoint ← loadCheckpoint h (sm_Checkpoint s);
  witnesses ← loadWitnesses h (sm_Witnesses s);
  Some (MkState (sm_Size s) nodes (sm_IndexedSeq s) firstPendingAt checkpoint witnesses).

(** A [[]byte] argument that may be [nil]. *)
Definition loadOptional (h : Heap) (r : ref) : option (option bytes) :=
  match r with None => Some None | Some _ => Some <$> loadBytes h r end.

(** ** Operations on memory *)

(** An operation fails where Go would read memory as what it is not. *)
Definition M (A : Type) : Type := Heap -> option (Heap * A).

#[export] Instance memory_ret : MRet M := fun A a h => Some (h, a).

#[export] Instance memory_bind : MBind M := fun A B k m h =>
  match m h with
  | None => None
  | Some (h, a) => k a h
  end.

Definition read {A} (load : Heap -> option A) : M A := fun h => a ← load h; Some (h, a).

Definition alloc (c : cell) : M loc := fun h => Some (h ++ [c], length h).

Fixpoint each {A B} (f : A -> M B) (l : list A) : M (list B) :=
  match l with
  | [] => mret []
  | a :: l => b ← f a; bs ← each f l; mret (b :: bs)
  end.

(** ** [clone.go] *)

(** [append([]byte(nil), value...)], which is [nil] when nothing is appended. *)
Definition copyBytes (r : ref) : M ref :=
  bs ← read (fun h => loadBytes h r);
  match bs with
  | [] => mret None
  | _ => l ← alloc (Bytes bs); mret (Some l)
  end.

Definition copyNumber (r : ref) : M ref :=
  n ← read (fun h => loadNumber h r);
  match n with
  | None => mret None
  | Some n => l ← alloc (Number n); mret (Some l)
  end.

Definition CloneEntry (entry : EntryM) : M EntryM :=
  value ← copyBytes (em_Value entry); mret (MkEntryM (em_Seq entry) value (em_AppendedAt entry)).

(** The elements of an array, none for [nil]. *)
Definition elements {A} (select : cell -> option (list A)) (r : ref) : M (list A) :=
  match r with
  | None => mret []
  | Some l => read (fun h => c ← h !! l; select c)
  end.

Definition slicesIn (c : cell) : option (list ref) := match c with Slices values => Some values | _ => None end.
Definition witnessesIn (c : cell) : option (list WitnessM) := match c with Witnesses rows => Some rows | _ => None end.
Definition receiptIn (c : cell) : option ReceiptM := match c with Receipt receipt => Some receipt | _ => None end.
Definition checkpointIn (c : cell) : option CheckpointM := match c with Checkpoint c => Some c | _ => None end.

Definition cloneBytesList (r : ref) : M ref :=
  values ← elements slicesIn r;
  result ← each copyBytes values;
  l ← alloc (Slices result); mret (Some l).

Definition cloneEntries (entries : list EntryM) : M ref :=
  result ← each CloneEntry entries;
  l ← alloc (Entries result); mret (Some l).

Definition CloneReceipt (r : ref) : M ref :=
  match r with
  | None => mret None
  | Some l =>
      receipt ← read (fun h => c ← h !! l; receiptIn c);
      bs ← copyBytes (rm_Bytes receipt);
      leafIndex ← copyNumber (rm_LeafIndex receipt);
      treeSize ← copyNumber (rm_TreeSize receipt);
      l ← alloc (Receipt (MkReceiptM bs (rm_EntryHash receipt) (rm_EntryHashScheme receipt) leafIndex treeSize));
      mret (Some l)
  end.

Definition CloneWitness (w : WitnessM) : M WitnessM :=
  checkpoint ← copyBytes (wm_Checkpoint w);
  receipt ← CloneReceipt (wm_Receipt w);
  mret (MkWitnessM (wm_WitnessID w) (wm_CheckpointSize w) checkpoint (wm_Attempts w) (wm_NextAttemptAt w) receipt
          (wm_Permanent w) (wm_LastError w)).

Definition cloneWitnesses (rows : list WitnessM) : M ref :=
  result ← each CloneWitness rows;
  l ← alloc (Witnesses result); mret (Some l).

Definition cloneCheckpoint (r : ref) : M ref :=
  match r with
  | None => mret None
  | Some l =>
      c ← read (fun h => c ← h !! l; checkpointIn c);
      bs ← copyBytes (cm_Bytes c);
      peaks ← cloneBytesList (cm_Peaks c);
      l ← alloc (Checkpoint (MkCheckpointM bs (cm_Size c) (cm_IndexedSeq c) peaks));
      mret (Some l)
  end.

Definition cloneStateHeader (s : StateM) : M StateM :=
  firstPendingAt ← copyNumber (sm_FirstPendingAt s);
  checkpoint ← cloneCheckpoint (sm_Checkpoint s);
  mret (MkStateM (sm_Size s) None (sm_IndexedSeq s) firstPendingAt checkpoint None).

(** [value.Nodes = nodes; value.Witnesses = witnesses] *)
Definition with_rows (s : StateM) (nodes witnesses : ref) : StateM :=
  MkStateM (sm_Size s) nodes (sm_IndexedSeq s) (sm_FirstPendingAt s) (sm_Checkpoint s) witnesses.

Definition CloneState (s : StateM) : M StateM :=
  nodes ← cloneBytesList (sm_Nodes s);
  rows ← elements witnessesIn (sm_Witnesses s);
  witnesses ← cloneWitnesses rows;
  header ← cloneStateHeader s;
  mret (with_rows header nodes witnesses).

(** ** [engine.go] *)

(** The array of entries is the engine's own: no operation passes it out. *)
Record EngineM := MkEngineM {
  entriesM : list EntryM;
  byValueM : gmap bytes Z;
  stateM : StateM
}.

Definition NewM : EngineM := MkEngineM [] ∅ (MkStateM 0 None 0 None None None).

Definition loadEngine (h : Heap) (e : EngineM) : option Engine :=
  entries ← mapM (loadEntry h) (entriesM e);
  state ← loadState h (stateM e);
  Some (MkEngine entries (byValueM e) state).

(** [e.entries[index]] *)
Definition entryAt (e : EngineM) (i : Z) : M EntryM := read (fun _ => zget (entriesM e) i).

Definition AppendM (e : EngineM) (input : ref) (appendedAt : Z) : M (EngineM * result (EntryM * AppendOutcome)) :=
  value ← read (fun h => loadBytes h input);
  if negb (zlen value =? EntryBytes) || badTime appendedAt then mret (e, Err ErrInvalid)
  else
    match byValueM e !! value with
    | Some i => entry ← entryAt e i; entry ← CloneEntry entry; mret (e, Ok (entry, AppendIdempotent))
    | None =>
        let seq := zlen (entriesM e) + 1 in
        if MaxPortableInteger <? seq then mret (e, Err ErrInvalid)
        else
          owned ← copyBytes input;
          let entry := MkEntryM seq owned (NormalizeTime appendedAt) in
          let entries := entriesM e ++ [entry] in
          let e := MkEngineM entries (<[value := zlen entries - 1]> (byValueM e)) (stateM e) in
          entry ← CloneEntry entry;
          mret (e, Ok (entry, AppendInserted))
    end.

Definition GetEntryM (e : EngineM) (identity : ref) : M (result EntryM) :=
  value ← read (fun h => loadBytes h identity);
  if negb (zlen value =? EntryBytes) then mret (Err ErrInvalid)
  else
    match byValueM e !! value with
    | None => mret (Err ErrNotFound)
    | Some i => entry ← entryAt e i; entry ← CloneEntry entry; mret (Ok entry)
    end.

Definition ScanEntriesM (e : EngineM) (afterSeq limit : Z) : M (result ref) :=
  if (MaxPortableInteger <? afterSeq) || (limit <? 1) || (MaxScanLimit <? limit) then mret (Err ErrInvalid)
  else
    let count := zlen (entriesM e) in
    let start := if count <? afterSeq then count else afterSeq in
    let stop := start +u limit in
    let stop := if count <? stop then count else stop in
    result ← cloneEntries (subslice (entriesM e) start stop);
    mret (Ok result).

Definition StateOfM (e : EngineM) : M StateM := CloneState (stateM e).

Definition keyOfM (w : WitnessM) : string := WitnessKey (wm_WitnessID w) (wm_CheckpointSize w).

(** The rows of [next] that [validateCLLTransition] adds. *)
Definition addedM (current next : list WitnessM) : list WitnessM :=
  List.filter (fun w => negb (bool_decide (keyOfM w ∈ map keyOfM current))) next.

Definition CommitCLLM `{DT : DtMmr} (e : EngineM) (expectedSize : Z) (expectedCheckpoint : ref) (next : StateM) :
    M (EngineM * check) :=
  current ← read (fun h => loadState h (stateM e));
  checkpoint ← read (fun h => loadOptional h expectedCheckpoint);
  value ← read (fun h => loadState h next);
  match ApplyCLL current expectedSize checkpoint value with
  | Err err => mret (e, Err err)
  | Ok _ =>
      rows ← elements witnessesIn (sm_Witnesses (stateM e));
      nextRows ← elements witnessesIn (sm_Witnesses next);
      added ← each CloneWitness (addedM rows nextRows);
      header ← cloneStateHeader next;
      nodes ← cloneBytesList (sm_Nodes next);
      witnesses ← cloneWitnesses (rows ++ added);
      mret (MkEngineM (entriesM e) (byValueM e) (with_rows header nodes witnesses), Ok tt)
  end.

(** The comparison given to [sort.SliceStable]. *)
Definition pendingLessM (a b : WitnessM) : bool :=
  if wm_CheckpointSize a =? wm_CheckpointSize b
  then String.ltb (wm_WitnessID a) (wm_WitnessID b)
  else wm_CheckpointSize a <? wm_CheckpointSize b.

Definition duePendingM (now : Z) (w : WitnessM) : bool :=
  match wm_Receipt w with None => true | Some _ => false end &&
  negb (wm_Permanent w) && negb (now <? wm_NextAttemptAt w).

Definition PendingWitnessesM (e : EngineM) (now limit : Z) : M (result ref) :=
  if badTime now || (limit <? 1) || (MaxWitnesses <? limit) then mret (Err ErrInvalid)
  else
    rows ← elements witnessesIn (sm_Witnesses (stateM e));
    result ← each CloneWitness (List.filter (duePendingM now) rows);
    let result := SliceStable pendingLessM result in
    l ← alloc (Witnesses (if limit <? zlen result then take (Z.to_nat limit) result else result));
    mret (Ok (Some l)).

Definition GetWitnessM (e : EngineM) (id : string) (size : Z) : M (result WitnessM) :=
  if negb (is_ok (ValidateIdentifier id)) || (size =? 0) then mret (Err ErrInvalid)
  else
    rows ← elements witnessesIn (sm_Witnesses (stateM e));
    match List.find (fun w => bool_decide (keyOfM w = WitnessKey id size)) rows with
    | None => mret (Err ErrNotFound)
    | Some w => w ← CloneWitness w; mret (Ok w)
    end.

(** [result.Witnesses[index] = row] for the first row of its key. *)
Fixpoint replaceM (row : WitnessM) (rows : list WitnessM) : list WitnessM :=
  match rows with
  | [] => []
  | w :: rows => if bool_decide (keyOfM w = keyOfM row) then row :: rows else w :: replaceM row rows
  end.

(** The nodes, the checkpoint and the other rows stay shared with the state
    that is replaced. *)
Definition CommitWitnessM (e : EngineM) (expectedAttempts : Z) (next : WitnessM) : M (EngineM * check) :=
  current ← read (fun h => loadState h (stateM e));
  value ← read (fun h => loadWitness h next);
  match ApplyWitness current expectedAttempts value with
  | Err err => mret (e, Err err)
  | Ok _ =>
      rows ← elements witnessesIn (sm_Witnesses (stateM e));
      row ← CloneWitness next;
      l ← alloc (Witnesses (replaceM row rows));
      mret (MkEngineM (entriesM e) (byValueM e) (with_rows (stateM e) (sm_Nodes (stateM e)) (Some l)), Ok tt)
  end.

(** ** A caller and its engine *)

(** The calls of a store and their answers, on values and on memory. *)
Inductive Call (B O S W : Type) :=
| CAppend (value : B) (appendedAt : Z)
| CGetEntry (identity : B)
| CScanEntries (afterSeq limit : Z)
| CLoadCLL
| CCommitCLL (expectedSize : Z) (expectedCheckpoint : O) (next : S)
| CPendingWitnesses (now limit : Z)
| CGetWitness (id : string) (checkpointSize : Z)
| CCommitWitness (expectedAttempts : Z) (next : W).
Arguments CAppend {B O S W}.
Arguments CGetEntry {B O S W}.
Arguments CScanEntries {B O S W}.
Arguments CLoadCLL {B O S W}.
Arguments CCommitCLL {B O S W}.
Arguments CPendingWitnesses {B O S W}.
Arguments CGetWitness {B O S W}.
Arguments CCommitWitness {B O S W}.

Inductive Answer (E L S W R : Type) :=
| AAppend (r : result (E * AppendOutcome))
| AEntry (r : result E)
| AEntries (r : result L)
| AState (s : S)
| ADone (r : check)
| AWitnesses (r : result R)
| AWitness (r : result W).
Arguments AAppend {E L S W R}.
Arguments AEntry {E L S W R}.
Arguments AEntries {E L S W R}.
Arguments AState {E L S W R}.
Arguments ADone {E L S W R}.
Arguments AWitnesses {E L S W R}.
Arguments AWitness {E L S W R}.

Abbreviation CallV := (Call bytes (option bytes) State WitnessState).
Abbreviation CallM := (Call ref ref StateM WitnessM).
Abbreviation AnswerV := (Answer Entry (list Entry) State WitnessState (list WitnessState)).
Abbreviation AnswerM := (Answer EntryM ref StateM WitnessM ref).

Definition serve `{DT : DtMmr} (e : Engine) (c : CallV) : Engine * AnswerV :=
  match c with
  | CAppend value appendedAt =>
      let '(e, r) := Append e (MkAppendInput value appendedAt) in
      (e, AAppend (a ← r; Ok (ar_Entry a, ar_Outcome a)))
  | CGetEntry identity => (e, AEntry (GetEntry e identity))
  | CScanEntries afterSeq limit => (e, AEntries (ScanEntries e afterSeq limit))
  | CLoadCLL => (e, AState (LoadState e))
  | CCommitCLL size checkpoint next => let '(e, r) := CommitCLL e size checkpoint next in (e, ADone r)
  | CPendingWitnesses now limit => (e, AWitnesses (PendingWitnesses e now limit))
  | CGetWitness id size => (e, AWitness (GetWitness e id size))
  | CCommitWitness attempts next => let '(e, r) := CommitWitness e attempts next in (e, ADone r)
  end.

Definition serveM `{DT : DtMmr} (e : EngineM) (c : CallM) : M (EngineM * AnswerM) :=
  match c with
  | CAppend value appendedAt => '(e, r) ← AppendM e value appendedAt; mret (e, AAppend r)
  | CGetEntry identity => r ← GetEntryM e identity; mret (e, AEntry r)
  | CScanEntries afterSeq limit => r ← ScanEntriesM e afterSeq limit; mret (e, AEntries r)
  | CLoadCLL => s ← StateOfM e; mret (e, AState s)
  | CCommitCLL size checkpoint next => '(e, r) ← CommitCLLM e size checkpoint next; mret (e, ADone r)
  | CPendingWitnesses now limit => r ← PendingWitnessesM e now limit; mret (e, AWitnesses r)
  | CGetWitness id size => r ← GetWitnessM e id size; mret (e, AWitness r)
  | CCommitWitness attempts next => '(e, r) ← CommitWitnessM e attempts next; mret (e, ADone r)
  end.

End Alias.
