(* ===== verification/AliasProofs.v ===== *)
(** * Structures in memory and their copies: [src/internal/backend/clone.go]

    What a structure holds depends only on the memory it reaches ([StoredLaws]),
    and a copy succeeds on memory that holds a value, holds the same value and
    reaches only new memory ([copies]). *)

From S2P Require Import Prelude Hex DtMmr DtMmrRef Mmr Cll Portable Engine EngineLog EngineState EngineHistory.
From S2P Require Import EngineWitness Alias.
Import Cll Portable Engine EngineLog EngineState EngineHistory EngineWitness Alias.

Module AliasProofs.

Local Open Scope Z_scope.

(** ** Structures in memory *)

(** A structure [X] that stands for a value [Y], and the locations it names. *)
Class Stored (X Y : Type) := {
  load : Heap -> X -> option Y;
  locs : X -> list loc
}.

Definition refLocs (r : ref) : list loc := match r with None => [] | Some l => [l] end.

Definition entryLocs (entry : EntryM) : list loc := refLocs (em_Value entry).
Definition receiptLocs (r : ReceiptM) : list loc :=
  refLocs (rm_Bytes r) ++ refLocs (rm_LeafIndex r) ++ refLocs (rm_TreeSize r).
Definition witnessLocs (w : WitnessM) : list loc := refLocs (wm_Checkpoint w) ++ refLocs (wm_Receipt w).
Definition checkpointLocs (c : CheckpointM) : list loc := refLocs (cm_Bytes c) ++ refLocs (cm_Peaks c).
Definition stateLocs (s : StateM) : list loc :=
  refLocs (sm_Nodes s) ++ refLocs (sm_FirstPendingAt s) ++ refLocs (sm_Checkpoint s) ++ refLocs (sm_Witnesses s).

Definition cellLocs (c : cell) : list loc :=
  match c with
  | Bytes _ | Number _ => []
  | Slices values => flat_map refLocs values
  | Receipt receipt => receiptLocs receipt
  | Checkpoint checkpoint => checkpointLocs checkpoint
  | Witnesses rows => flat_map witnessLocs rows
  | Entries entries => flat_map entryLocs entries
  end.

#[export] Instance stored_bytes : Stored ref bytes := { load := loadBytes; locs := refLocs }.
#[export] Instance stored_optional : Stored ref (option bytes) := { load := loadOptional; locs := refLocs }.
#[export] Instance stored_number : Stored ref (option Z) := { load := loadNumber; locs := refLocs }.
#[export] Instance stored_slices : Stored ref (list bytes) := { load := loadSlices; locs := refLocs }.
#[export] Instance stored_entry : Stored EntryM Entry := { load := loadEntry; locs := entryLocs }.
#[export] Instance stored_entries : Stored ref (list Entry) := { load := loadEntries; locs := refLocs }.
#[export] Instance stored_receipt : Stored ref (option WitnessReceiptState) := { load := loadReceipt; locs := refLocs }.
#[export] Instance stored_witness : Stored WitnessM WitnessState := { load := loadWitness; locs := witnessLocs }.
#[export] Instance stored_witnesses : Stored ref (list WitnessState) := { load := loadWitnesses; locs := refLocs }.
#[export] Instance stored_checkpoint : Stored ref (option CheckpointState) := { load := loadCheckpoint; locs := refLocs }.
#[export] Instance stored_state : Stored StateM State := { load := loadState; locs := stateLocs }.
#[export] Instance stored_list {X Y} `{Stored X Y} : Stored (list X) (list Y) :=
  { load h := mapM (load h); locs := flat_map locs }.

(** ** What a structure reaches *)

(** Memory that names only itself, and memory that is still there. *)
Definition closed (S : loc -> Prop) (h : Heap) : Prop := forall l c, S l -> h !! l = Some c -> Forall S (cellLocs c).
Definition kept (S : loc -> Prop) (h h' : Heap) : Prop := forall l c, S l -> h !! l = Some c -> h' !! l = Some c.

Class StoredLaws (X Y : Type) `{Stored X Y} : Prop :=
  load_frame (S : loc -> Prop) (h h' : Heap) (x : X) (y : Y) :
    closed S h -> kept S h h' -> Forall S (locs x) -> load h x = Some y -> load h' x = Some y.

#[export] Instance list_laws {X Y} `{StoredLaws X Y} : StoredLaws (list X) (list Y).
Proof.
  intros S h h' xs ys Hc Hk Hl Hy. apply mapM_Some in Hy. apply mapM_Some. cbn [locs stored_list] in Hl.
  induction Hy as [|x y xs ys Hx Hxs IH]; [constructor|]. cbn [flat_map] in Hl. apply Forall_app in Hl as [H1 H2].
  constructor; [by eapply load_frame|by apply IH].
Qed.

(** The cell of a location, in memory that has kept it. *)
Lemma kept_cell (S : loc -> Prop) (h h' : Heap) (l : loc) (c : cell) :
  closed S h -> kept S h h' -> Forall S [l] -> h !! l = Some c -> h' !! l = Some c /\ Forall S (cellLocs c).
Proof. intros Hc Hk [Hl _]%Forall_cons Hh. by split; [apply Hk|eapply Hc]. Qed.

#[export] Instance bytes_laws : StoredLaws ref bytes.
Proof.
  intros S h h' [l|] y Hc Hk Hl Hy; cbn in *; [|done]. destruct (h !! l) as [[]|] eqn:Hh; try done.
  by destruct (kept_cell S h h' l _ Hc Hk Hl Hh) as [-> _].
Qed.

#[export] Instance optional_laws : StoredLaws ref (option bytes).
Proof.
  intros S h h' [l|] y Hc Hk Hl Hy; cbn in *; [|done]. destruct (h !! l) as [[]|] eqn:Hh; try done.
  by destruct (kept_cell S h h' l _ Hc Hk Hl Hh) as [-> _].
Qed.

#[export] Instance number_laws : StoredLaws ref (option Z).
Proof.
  intros S h h' [l|] y Hc Hk Hl Hy; cbn in *; [|done]. destruct (h !! l) as [[]|] eqn:Hh; try done.
  by destruct (kept_cell S h h' l _ Hc Hk Hl Hh) as [-> _].
Qed.

#[export] Instance slices_laws : StoredLaws ref (list bytes).
Proof.
  intros S h h' [l|] y Hc Hk Hl Hy; cbn in *; [|done]. destruct (h !! l) as [[]|] eqn:Hh; try done.
  destruct (kept_cell S h h' l _ Hc Hk Hl Hh) as [-> Hv]. exact (load_frame (X := list ref) (Y := list bytes) S h h' _ y Hc Hk Hv Hy).
Qed.

#[export] Instance entry_laws : StoredLaws EntryM Entry.
Proof.
  intros S h h' x y Hc Hk Hl Hy. cbn [load locs stored_entry] in *. unfold loadEntry in *.
  destruct (loadBytes h (em_Value x)) as [v|] eqn:Hv; [|done]. by rewrite (bytes_laws S h h' _ v Hc Hk Hl Hv : loadBytes h' _ = Some v).
Qed.

#[export] Instance entries_laws : StoredLaws ref (list Entry).
Proof.
  intros S h h' [l|] y Hc Hk Hl Hy; cbn in *; [|done]. destruct (h !! l) as [[]|] eqn:Hh; try done.
  destruct (kept_cell S h h' l _ Hc Hk Hl Hh) as [-> Hv]. exact (load_frame (X := list EntryM) (Y := list Entry) S h h' _ y Hc Hk Hv Hy).
Qed.

#[export] Instance receipt_laws : StoredLaws ref (option WitnessReceiptState).
Proof.
  intros S h h' [l|] y Hc Hk Hl Hy; cbn [load locs stored_receipt loadReceipt refLocs] in *; [|done].
  destruct (h !! l) as [[]|] eqn:Hh; try done. destruct (kept_cell S h h' l _ Hc Hk Hl Hh) as [-> Hv].
  cbn [cellLocs receiptLocs] in Hv. unfold receiptLocs in Hv. apply Forall_app in Hv as [H1 [H2 H3]%Forall_app].
  destruct (loadBytes h _) as [b|] eqn:Hb; [|done]. destruct (loadNumber h (rm_LeafIndex receipt)) as [i|] eqn:Hi; [|done].
  destruct (loadNumber h (rm_TreeSize receipt)) as [n|] eqn:Hn; [|done].
  rewrite (bytes_laws S h h' _ b Hc Hk H1 Hb : loadBytes h' _ = Some b), (number_laws S h h' _ i Hc Hk H2 Hi : loadNumber h' _ = Some i), (number_laws S h h' _ n Hc Hk H3 Hn : loadNumber h' _ = Some n).
  exact Hy.
Qed.

#[export] Instance witness_laws : StoredLaws WitnessM WitnessState.
Proof.
  intros S h h' x y Hc Hk Hl Hy. cbn [load locs stored_witness] in *. unfold loadWitness, witnessLocs in *.
  apply Forall_app in Hl as [H1 H2].
  destruct (loadBytes h _) as [b|] eqn:Hb; [|done]. destruct (loadReceipt h _) as [r|] eqn:Hr; [|done].
  by rewrite (bytes_laws S h h' _ b Hc Hk H1 Hb : loadBytes h' _ = Some b), (receipt_laws S h h' _ r Hc Hk H2 Hr : loadReceipt h' _ = Some r).
Qed.

#[export] Instance witnesses_laws : StoredLaws ref (list WitnessState).
Proof.
  intros S h h' [l|] y Hc Hk Hl Hy; cbn in *; [|done]. destruct (h !! l) as [[]|] eqn:Hh; try done.
  destruct (kept_cell S h h' l _ Hc Hk Hl Hh) as [-> Hv].
  exact (load_frame (X := list WitnessM) (Y := list WitnessState) S h h' _ y Hc Hk Hv Hy).
Qed.

#[export] Instance checkpoint_laws : StoredLaws ref (option CheckpointState).
Proof.
  intros S h h' [l|] y Hc Hk Hl Hy; cbn [load locs stored_checkpoint loadCheckpoint refLocs] in *; [|done].
  destruct (h !! l) as [[]|] eqn:Hh; try done. destruct (kept_cell S h h' l _ Hc Hk Hl Hh) as [-> Hv].
  cbn [cellLocs] in Hv. unfold checkpointLocs in Hv. apply Forall_app in Hv as [H1 H2].
  destruct (loadBytes h _) as [b|] eqn:Hb; [|done]. destruct (loadSlices h _) as [p|] eqn:Hp; [|done].
  rewrite (bytes_laws S h h' _ b Hc Hk H1 Hb : loadBytes h' _ = Some b), (slices_laws S h h' _ p Hc Hk H2 Hp : loadSlices h' _ = Some p). exact Hy.
Qed.

#[export] Instance state_laws : StoredLaws StateM State.
Proof.
  intros S h h' x y Hc Hk Hl Hy. cbn [load locs stored_state] in *. unfold loadState, stateLocs in *.
  rewrite !Forall_app in Hl. destruct Hl as (H1 & H2 & H3 & H4).
  destruct (loadSlices h _) as [ns|] eqn:Hn; [|done]. destruct (loadNumber h _) as [p|] eqn:Hp; [|done].
  destruct (loadCheckpoint h _) as [c|] eqn:Hcp; [|done]. destruct (loadWitnesses h _) as [ws|] eqn:Hw; [|done].
  by rewrite (slices_laws S h h' _ ns Hc Hk H1 Hn : loadSlices h' _ = Some ns), (number_laws S h h' _ p Hc Hk H2 Hp : loadNumber h' _ = Some p), (checkpoint_laws S h h' _ c Hc Hk H3 Hcp : loadCheckpoint h' _ = Some c),
    (witnesses_laws S h h' _ ws Hc Hk H4 Hw : loadWitnesses h' _ = Some ws).
Qed.

Lemma load_app {X Y} `{StoredLaws X Y} (h new : Heap) (x : X) (y : Y) : load h x = Some y -> load (h ++ new) x = Some y.
Proof.
  apply (load_frame (fun _ => True)).
  - intros l c _ _. by apply Forall_true.
  - intros l c _ Hl. by apply lookup_app_l_Some.
  - by apply Forall_true.
Qed.

Lemma new_cell (h : Heap) (c : cell) : (h ++ [c]) !! length h = Some c.
Proof. rewrite lookup_app_r, Nat.sub_diag by done. done. Qed.

(** ** Programs that only allocate *)

(** The locations of [P], and those allocated since the heap had length [b]. *)
Definition inside (P : loc -> Prop) (b : nat) (h : Heap) (l : loc) : Prop := P l \/ (b <= l < length h)%nat.

Section Does.
Context (P : loc -> Prop) (b : nat).

(** [m] succeeds, extends the heap by cells that name only locations inside, and
    establishes [Q]. *)
Definition does {A} (h : Heap) (m : M A) (Q : Heap -> A -> Prop) : Prop :=
  exists new a, m h = Some (h ++ new, a) /\ Forall (fun c => Forall (inside P b (h ++ new)) (cellLocs c)) new /\ Q (h ++ new) a.

(** [x] holds [y] and names only locations inside. *)
Definition copied {X Y} `{Stored X Y} (h : Heap) (x : X) (y : Y) : Prop :=
  load h x = Some y /\ Forall (inside P b h) (locs x).

Lemma inside_app (h new : Heap) (ls : list loc) : Forall (inside P b h) ls -> Forall (inside P b (h ++ new)) ls.
Proof.
  intros Hl. eapply Forall_impl; [exact Hl|]. intros l [Hp|Hp]; [by left|right]. rewrite length_app. lia.
Qed.

Lemma copied_app {X Y} `{StoredLaws X Y} (h new : Heap) (x : X) (y : Y) : copied h x y -> copied (h ++ new) x y.
Proof. intros [Hl Hi]. split; [by apply load_app|by apply inside_app]. Qed.

Lemma does_ret {A} (h : Heap) (a : A) (Q : Heap -> A -> Prop) : Q h a -> does h (mret a) Q.
Proof. intros Hq. exists [], a. rewrite app_nil_r. by split_and!. Qed.

Lemma does_bind {A B} (h : Heap) (m : M A) (k : A -> M B) (Q : Heap -> A -> Prop) (R : Heap -> B -> Prop) :
  does h m Q -> (forall new a, Q (h ++ new) a -> does (h ++ new) (k a) R) -> does h (m ≫= k) R.
Proof.
  intros (new & a & Hm & Hnew & Hq) Hk. destruct (Hk new a Hq) as (new' & c & Hr & Hnew' & HR).
  exists (new ++ new'), c. rewrite app_assoc in *. split_and!; [|apply Forall_app; split; [|done]|done].
  - unfold mbind, memory_bind. by rewrite Hm.
  - eapply Forall_impl; [exact Hnew|]. intros x Hx. by apply inside_app.
Qed.

Lemma does_read {A} (h : Heap) (f : Heap -> option A) (a : A) (Q : Heap -> A -> Prop) :
  f h = Some a -> Q h a -> does h (read f) Q.
Proof.
  intros Hf Hq. exists [], a. rewrite app_nil_r. split_and!; [|constructor|done]. unfold read. by rewrite Hf.
Qed.

Lemma does_alloc (h : Heap) (c : cell) (Q : Heap -> loc -> Prop) :
  Forall (inside P b h) (cellLocs c) -> Q (h ++ [c]) (length h) -> does h (alloc c) Q.
Proof. intros Hc Hq. exists [c], (length h). split_and!; [done| |done]. constructor; [by apply inside_app|constructor]. Qed.

(** The last steps of a copy: a new cell, and the pointer to it. *)
Lemma does_new {Y} `{Stored ref Y} (h : Heap) (c : cell) (y : Y) :
  (b <= length h)%nat -> Forall (inside P b h) (cellLocs c) ->
  (load (h ++ [c]) (Some (length h)) = Some y /\ locs (Some (length h)) = [length h]) ->
  does h (l ← alloc c; mret (Some l)) (fun h' r => copied h' r y).
Proof.
  intros Hb Hc [Hl Hlocs]. eapply (does_bind h (alloc c) _ (fun h' l => h' = h ++ [c] /\ l = length h)); [by apply does_alloc|].
  intros new l [-> ->]. apply does_ret. split; [done|]. rewrite Hlocs. constructor; [right|constructor].
  rewrite length_app. cbn. lia.
Qed.

(** [f] copies a structure. *)
Definition copies {X Y} `{Stored X Y} (f : X -> M X) : Prop :=
  forall h x y, (b <= length h)%nat -> load h x = Some y -> does h (f x) (fun h' x' => copied h' x' y).

Lemma copies_each {X Y} `{StoredLaws X Y} (f : X -> M X) : copies f -> copies (X := list X) (Y := list Y) (each f).
Proof.
  intros Hf h xs. revert h. induction xs as [|x xs IH]; intros h ys Hb Hl; cbn [each].
  - injection Hl as <-. apply does_ret. by split.
  - apply mapM_Some in Hl. inversion Hl as [|? y ? ys' Hy Hys]; subst. apply mapM_Some in Hys.
    eapply does_bind; [by apply Hf|]. intros new x' Hx. eapply does_bind.
    { apply (IH (h ++ new) ys'); [rewrite length_app; lia|]. by apply (load_app (X := list X) (Y := list Y)). }
    intros new' xs' [Hxs Hin]. apply does_ret. destruct (copied_app _ new' _ _ Hx) as [Hx' Hxin]. split.
    + apply mapM_Some. constructor; [exact Hx'|]. by apply mapM_Some in Hxs.
    + cbn [locs stored_list flat_map]. apply Forall_app. by split.
Qed.

(** ** Copies *)

Lemma copies_bytes : copies (X := ref) (Y := bytes) copyBytes.
Proof.
  intros h r bs Hb Hl. eapply does_bind; [by apply (does_read h _ bs (fun h' a => h' = h /\ a = bs))|].
  intros new a [Hn ->]. rewrite Hn. destruct bs as [|x bs]; [by apply does_ret|].
  apply (does_new (Y := bytes)); [done|constructor|]. split; [|done]. cbn [load stored_bytes stored_number loadBytes loadNumber]. by rewrite new_cell.
Qed.

Lemma copies_number : copies (X := ref) (Y := option Z) copyNumber.
Proof.
  intros h r n Hb Hl. eapply does_bind; [by apply (does_read h _ n (fun h' a => h' = h /\ a = n))|].
  intros new a [Hn ->]. rewrite Hn. destruct n as [n|]; [|by apply does_ret].
  apply (does_new (Y := option Z)); [done|constructor|]. split; [|done]. cbn [load stored_bytes stored_number loadBytes loadNumber]. by rewrite new_cell.
Qed.

Lemma copies_entry : copies CloneEntry.
Proof.
  intros h x y Hb Hl. cbn [load stored_entry] in Hl. unfold loadEntry in Hl.
  destruct (loadBytes h _) as [v|] eqn:Hv; [|done]. injection Hl as <-.
  eapply does_bind; [by apply copies_bytes|]. intros new r [Hr Hin]. apply does_ret. split; [|exact Hin].
  cbn [load stored_entry]. unfold loadEntry. cbn [em_Value]. cbn [load stored_bytes] in Hr. by rewrite Hr.
Qed.

(** A pointer to a new array of copies. *)
Lemma copies_slices_of (h : Heap) (values : list ref) (ys : list bytes) :
  (b <= length h)%nat -> load h values = Some ys ->
  does h (result ← each copyBytes values; l ← alloc (Slices result); mret (Some l)) (fun h' r => copied (Y := list bytes) h' r ys).
Proof.
  intros Hb Hl. eapply does_bind; [by apply (copies_each copyBytes copies_bytes)|]. intros new result [Hr Hin].
  apply (does_new (Y := list bytes)); [rewrite length_app; lia|exact Hin|]. split; [|done].
  cbn [load stored_slices loadSlices]. rewrite new_cell. exact (load_app (X := list ref) (Y := list bytes) _ _ _ _ Hr).
Qed.

Lemma does_elements_slices (h : Heap) (r : ref) (ys : list bytes) :
  loadSlices h r = Some ys -> does h (elements slicesIn r) (fun h' values => h' = h /\ load h values = Some ys).
Proof.
  destruct r as [l|]; cbn; [|intros [= <-]; by apply does_ret]. destruct (h !! l) as [c|] eqn:Hl; [|done].
  destruct c; try done. intros Hy. eapply does_read; [by rewrite Hl|done].
Qed.

Lemma copies_slices : copies (X := ref) (Y := list bytes) cloneBytesList.
Proof.
  intros h r ys Hb Hl. eapply does_bind; [by apply does_elements_slices|]. intros new values [-> Hv].
  by apply copies_slices_of.
Qed.

Lemma copies_entries (h : Heap) (entries : list EntryM) (ys : list Entry) :
  (b <= length h)%nat -> load h entries = Some ys ->
  does h (cloneEntries entries) (fun h' r => copied (Y := list Entry) h' r ys).
Proof.
  intros Hb Hl. eapply does_bind; [by apply (copies_each CloneEntry copies_entry)|]. intros new result [Hr Hin].
  apply (does_new (Y := list Entry)); [rewrite length_app; lia|exact Hin|]. split; [|done].
  cbn [load stored_entries loadEntries]. rewrite new_cell. exact (load_app (X := list EntryM) (Y := list Entry) _ _ _ _ Hr).
Qed.

Lemma copies_receipt : copies (X := ref) (Y := option WitnessReceiptState) CloneReceipt.
Proof.
  intros h [l|] y Hb Hl; cbn [load stored_receipt loadReceipt CloneReceipt] in *; [|injection Hl as <-; by apply does_ret].
  destruct (h !! l) as [c|] eqn:Hc; [|done]. destruct c as [| | |x| | |]; try done.
  destruct (loadBytes h (rm_Bytes x)) as [bs|] eqn:Hbs; [|done].
  destruct (loadNumber h (rm_LeafIndex x)) as [i|] eqn:Hi; [|done].
  destruct (loadNumber h (rm_TreeSize x)) as [n|] eqn:Hn; [|done]. injection Hl as <-.
  eapply does_bind; [by apply (does_read h _ x (fun h' a => h' = h /\ a = x)); [rewrite Hc|]|].
  intros new a [Hnew ->]. rewrite Hnew. clear new Hnew.
  eapply does_bind; [by apply copies_bytes|]. intros new1 r1 H1.
  eapply does_bind; [apply copies_number; [rewrite length_app; lia|by apply (load_app (Y := option Z))]|]. intros new2 r2 H2.
  eapply does_bind; [apply copies_number; [rewrite !length_app; lia|by do 2 apply (load_app (Y := option Z))]|]. intros new3 r3 H3.
  destruct (copied_app _ new3 _ _ (copied_app _ new2 _ _ H1)) as [L1 I1]. destruct (copied_app _ new3 _ _ H2) as [L2 I2].
  destruct H3 as [L3 I3]. apply (does_new (Y := option WitnessReceiptState)); [rewrite !length_app; lia| |].
  - cbn [cellLocs]. unfold receiptLocs. rewrite !Forall_app. by split_and!.
  - split; [|done]. cbn [load stored_receipt loadReceipt]. rewrite new_cell.
    cbn [rm_Bytes rm_LeafIndex rm_TreeSize rm_EntryHash rm_EntryHashScheme].
    by rewrite (load_app _ _ _ _ L1 : loadBytes _ _ = _), (load_app _ _ _ _ L2 : loadNumber _ _ = _),
      (load_app _ _ _ _ L3 : loadNumber _ _ = _).
Qed.

Lemma copies_witness : copies CloneWitness.
Proof.
  intros h x y Hb Hl. cbn [load stored_witness] in Hl. unfold loadWitness in Hl.
  destruct (loadBytes h _) as [bs|] eqn:Hbs; [|done]. destruct (loadReceipt h _) as [rc|] eqn:Hrc; [|done]. injection Hl as <-.
  eapply does_bind; [by apply copies_bytes|]. intros new1 r1 H1.
  eapply does_bind; [apply copies_receipt; [rewrite length_app; lia|by apply (load_app (Y := option WitnessReceiptState))]|].
  intros new2 r2 [L2 I2]. destruct (copied_app _ new2 _ _ H1) as [L1 I1]. apply does_ret. split.
  - cbn [load stored_witness]. unfold loadWitness. cbn [wm_Checkpoint wm_Receipt].
    by rewrite (L1 : loadBytes _ _ = _), (L2 : loadReceipt _ _ = _).
  - cbn [locs stored_witness]. unfold witnessLocs. rewrite Forall_app. by split.
Qed.

Lemma copies_witnesses (h : Heap) (rows : list WitnessM) (ys : list WitnessState) :
  (b <= length h)%nat -> load h rows = Some ys ->
  does h (cloneWitnesses rows) (fun h' r => copied (Y := list WitnessState) h' r ys).
Proof.
  intros Hb Hl. eapply does_bind; [by apply (copies_each CloneWitness copies_witness)|]. intros new result [Hr Hin].
  apply (does_new (Y := list WitnessState)); [rewrite length_app; lia|exact Hin|]. split; [|done].
  cbn [load stored_witnesses loadWitnesses]. rewrite new_cell.
  exact (load_app (X := list WitnessM) (Y := list WitnessState) _ _ _ _ Hr).
Qed.

Lemma copies_checkpoint : copies (X := ref) (Y := option CheckpointState) cloneCheckpoint.
Proof.
  intros h [l|] y Hb Hl; cbn [load stored_checkpoint loadCheckpoint cloneCheckpoint] in *; [|injection Hl as <-; by apply does_ret].
  destruct (h !! l) as [c|] eqn:Hc; [|done]. destruct c as [| | | |x| |]; try done.
  destruct (loadBytes h _) as [bs|] eqn:Hbs; [|done]. destruct (loadSlices h _) as [ps|] eqn:Hps; [|done]. injection Hl as <-.
  eapply does_bind; [by apply (does_read h _ x (fun h' a => h' = h /\ a = x)); [rewrite Hc|]|].
  intros new a [Hnew ->]. rewrite Hnew. clear new Hnew.
  eapply does_bind; [by apply copies_bytes|]. intros new1 r1 H1.
  eapply does_bind; [apply copies_slices; [rewrite length_app; lia|by apply (load_app (Y := list bytes))]|]. intros new2 r2 [L2 I2].
  destruct (copied_app _ new2 _ _ H1) as [L1 I1]. apply (does_new (Y := option CheckpointState)); [rewrite !length_app; lia| |].
  - cbn [cellLocs]. unfold checkpointLocs. rewrite Forall_app. by split.
  - split; [|done]. cbn [load stored_checkpoint loadCheckpoint]. rewrite new_cell. cbn [cm_Bytes cm_Peaks cm_Size cm_IndexedSeq].
    by rewrite (load_app _ _ _ _ L1 : loadBytes _ _ = _), (load_app _ _ _ _ L2 : loadSlices _ _ = _).
Qed.

Lemma loadState_parts (h : Heap) (s : StateM) (v : State) :
  loadState h s = Some v <->
  loadSlices h (sm_Nodes s) = Some (st_Nodes v) /\ loadNumber h (sm_FirstPendingAt s) = Some (st_FirstPendingAt v) /\
  loadCheckpoint h (sm_Checkpoint s) = Some (st_Checkpoint v) /\ loadWitnesses h (sm_Witnesses s) = Some (st_Witnesses v) /\
  sm_Size s = st_Size v /\ sm_IndexedSeq s = st_IndexedSeq v.
Proof.
  unfold loadState. split.
  - intros (ns & -> & (p & -> & (c & -> & (ws & -> & [= <-])%bind_Some)%bind_Some)%bind_Some)%bind_Some. done.
  - intros (-> & -> & -> & -> & -> & ->). by destruct v.
Qed.

Lemma copied_with_rows (h : Heap) (s : StateM) (header : State) (n w : ref) (ns : list bytes) (ws : list WitnessState) :
  copied h s header -> copied h n ns -> copied h w ws -> copied h (with_rows s n w) (Engine.with_rows header ns ws).
Proof.
  intros [Ls Is] [Ln In_] [Lw Iw]. apply loadState_parts in Ls as (_ & Hp & Hc & _ & Hs & Hi). split.
  - apply loadState_parts. by split_and!.
  - cbn [locs stored_state] in *. unfold stateLocs in *. cbn [with_rows sm_Nodes sm_FirstPendingAt sm_Checkpoint sm_Witnesses].
    rewrite !Forall_app in *. tauto.
Qed.

Lemma copies_header (h : Heap) (s : StateM) (v : State) :
  (b <= length h)%nat -> loadState h s = Some v ->
  does h (cloneStateHeader s) (fun h' s' => copied h' s' (Engine.cloneStateHeader v)).
Proof.
  intros Hb (_ & Hp & Hc & _ & Hs & Hi)%loadState_parts. eapply does_bind; [by apply copies_number|]. intros new1 r1 H1.
  eapply does_bind; [apply copies_checkpoint; [rewrite length_app; lia|by apply (load_app (Y := option CheckpointState))]|].
  intros new2 r2 [L2 I2]. destruct (copied_app _ new2 _ _ H1) as [L1 I1]. apply does_ret.
  rewrite cloneStateHeader_id. split.
  - apply loadState_parts. by split_and!.
  - cbn [locs stored_state]. unfold stateLocs. cbn [sm_Nodes sm_FirstPendingAt sm_Checkpoint sm_Witnesses refLocs app].
    rewrite app_nil_r. apply Forall_app. by split.
Qed.

Lemma does_elements_witnesses (h : Heap) (r : ref) (ys : list WitnessState) (Q : Heap -> list WitnessM -> Prop) :
  loadWitnesses h r = Some ys ->
  (forall rows, load h rows = Some ys -> (forall S, closed S h -> Forall S (refLocs r) -> Forall S (locs rows)) -> Q h rows) ->
  does h (elements witnessesIn r) Q.
Proof.
  destruct r as [l|]; cbn; [|intros [= <-] HQ; apply does_ret, HQ; [done|constructor]].
  destruct (h !! l) as [c|] eqn:Hl; [|done]. destruct c; try done. intros Hy HQ.
  eapply does_read; [by rewrite Hl|]. apply HQ; [done|]. intros S Hc [Hs _]%Forall_cons. by apply (Hc l (Witnesses rows)).
Qed.

Lemma copies_state : copies CloneState.
Proof.
  intros h s v Hb Hl. pose proof Hl as (Hn & _)%loadState_parts.
  eapply does_bind; [by apply copies_slices|]. intros new1 r1 H1.
  apply (load_app (X := StateM) (Y := State) h new1) in Hl. pose proof Hl as (_ & _ & _ & Hw & _)%loadState_parts.
  eapply does_bind.
  { eapply (does_elements_witnesses _ _ _ (fun h' rows => h' = h ++ new1 /\ load h' rows = Some (st_Witnesses v))); [exact Hw|].
    by intros rows Hrows _. }
  intros new rows [-> Hrows]. eapply does_bind; [apply copies_witnesses; [rewrite length_app; lia|exact Hrows]|]. intros new2 r2 H2.
  eapply does_bind; [apply copies_header; [rewrite !length_app; lia|exact (load_app (X := StateM) (Y := State) _ _ _ _ Hl)]|]. intros new3 r3 H3.
  apply does_ret. rewrite <- (CloneState_id v) at 1. unfold Engine.CloneState.
  rewrite cloneBytesList_id, CloneWitness_map. apply copied_with_rows; [exact H3| |].
  - exact (copied_app _ new3 _ _ (copied_app _ new2 _ _ H1)).
  - exact (copied_app _ new3 _ _ H2).
Qed.

End Does.

End AliasProofs.
