(* ===== verification/AliasClaims.v ===== *)
(** * What an engine answers to a caller that shares its heap

    Every call does on memory what it does on values; of the cells it allocates,
    those the engine keeps are its own and the others are the caller's
    ([serves]).  So no caller, writing whatever it can reach ([plays]), changes
    what the engine holds. *)

From S2P Require Import Prelude Hex DtMmr DtMmrRef Mmr Cll Portable Engine EngineLog EngineState EngineHistory.
From S2P Require Import EngineWitness Alias AliasProofs.
Import Cll Portable Engine EngineLog EngineState EngineHistory EngineWitness Alias AliasProofs.

Module AliasClaims.

Local Open Scope Z_scope.

(** ** Engines, calls and answers in memory *)

#[export] Instance stored_engine : Stored EngineM Engine := {
  load := loadEngine;
  locs e := locs (entriesM e) ++ locs (stateM e)
}.

Lemma loadEngine_parts (h : Heap) (e : EngineM) (v : Engine) :
  loadEngine h e = Some v <->
  load h (entriesM e) = Some (entries v) /\ load h (stateM e) = Some (state v) /\ byValueM e = byValue v.
Proof.
  unfold loadEngine. cbn [load stored_list stored_entry stored_state]. split.
  - intros (es & -> & (s & -> & [= <-])%bind_Some)%bind_Some. done.
  - intros (-> & -> & ->). by destruct v.
Qed.

#[export] Instance engine_laws : StoredLaws EngineM Engine.
Proof.
  intros S h h' e v Hc Hk Hl Hv. cbn [locs stored_engine] in Hl. apply Forall_app in Hl as [H1 H2].
  apply loadEngine_parts in Hv as (Hes & Hs & Hb). apply loadEngine_parts. split_and!; [|by eapply load_frame|done].
  by eapply (load_frame S h h' (entriesM e)).
Qed.

#[export] Instance stored_result {X Y} `{Stored X Y} : Stored (result X) (result Y) := {
  load h r := match r with Ok x => Ok <$> load h x | Err err => Some (Err err) end;
  locs r := match r with Ok x => locs x | Err _ => [] end
}.

#[export] Instance stored_outcome : Stored (EntryM * AppendOutcome) (Entry * AppendOutcome) := {
  load h r := entry ← load h (fst r); Some (entry, snd r);
  locs r := locs (fst r)
}.

#[export] Instance stored_call : Stored CallM CallV := {
  load h c :=
    match c with
    | CAppend value appendedAt => value ← load h value; Some (CAppend value appendedAt)
    | CGetEntry identity => identity ← load h identity; Some (CGetEntry identity)
    | CScanEntries afterSeq limit => Some (CScanEntries afterSeq limit)
    | CLoadCLL => Some CLoadCLL
    | CCommitCLL size checkpoint next =>
        checkpoint ← load h checkpoint; next ← load h next; Some (CCommitCLL size checkpoint next)
    | CPendingWitnesses now limit => Some (CPendingWitnesses now limit)
    | CGetWitness id size => Some (CGetWitness id size)
    | CCommitWitness attempts next => next ← load h next; Some (CCommitWitness attempts next)
    end;
  locs c :=
    match c with
    | CAppend r _ | CGetEntry r => refLocs r
    | CCommitCLL _ checkpoint next => refLocs checkpoint ++ stateLocs next
    | CCommitWitness _ next => witnessLocs next
    | _ => []
    end
}.

#[export] Instance stored_answer : Stored AnswerM AnswerV := {
  load h a :=
    match a with
    | AAppend r => AAppend <$> load h r
    | AEntry r => AEntry <$> load h r
    | AEntries r => AEntries <$> load h r
    | AState s => AState <$> load h s
    | ADone r => Some (ADone r)
    | AWitnesses r => AWitnesses <$> load h r
    | AWitness r => AWitness <$> load h r
    end;
  locs a :=
    match a with
    | AAppend r => locs r
    | AEntry r => locs r
    | AEntries r => match r with Ok l => refLocs l | Err _ => [] end
    | AState s => stateLocs s
    | ADone _ => []
    | AWitnesses r => match r with Ok l => refLocs l | Err _ => [] end
    | AWitness r => locs r
    end
}.

(** ** What a call keeps and what it gives *)

Definition nowhere : loc -> Prop := fun _ => False.

(** [m] answers [y] and leaves an engine of value [v]: of the cells it
    allocates, the first are the engine's, beside those of [mine], and the
    others the caller's. *)
Definition serves {X Y} `{Stored X Y} (mine : loc -> Prop) (h : Heap) (m : M (EngineM * X)) (v : Engine) (y : Y) : Prop :=
  exists own given e x,
    m h = Some ((h ++ own) ++ given, (e, x)) /\
    Forall (fun c => Forall (inside mine (length h) (h ++ own)) (cellLocs c)) own /\
    Forall (fun c => Forall (inside nowhere (length (h ++ own)) ((h ++ own) ++ given)) (cellLocs c)) given /\
    copied mine (length h) (h ++ own) e v /\ copied nowhere (length (h ++ own)) ((h ++ own) ++ given) x y.

Section Serves.
Context {X Y} `{StoredLaws X Y} (mine : loc -> Prop) (h : Heap) (v : Engine) (y : Y).

Lemma serves_read {A} (f : Heap -> option A) (a : A) (k : A -> M (EngineM * X)) :
  f h = Some a -> serves mine h (k a) v y -> serves mine h (read f ≫= k) v y.
Proof. intros Hf Hs. unfold serves, mbind, memory_bind, read in *. by rewrite Hf. Qed.

(** What the engine keeps is allocated first. *)
Lemma serves_bind {A} (m : M A) (k : A -> M (EngineM * X)) (Q : Heap -> A -> Prop) :
  does mine (length h) h m Q ->
  (forall own a, Q (h ++ own) a -> exists e, copied mine (length h) (h ++ own) e v /\
     does nowhere (length (h ++ own)) (h ++ own) (k a)
       (fun h' r => fst r = e /\ copied nowhere (length (h ++ own)) h' (snd r) y)) ->
  serves mine h (m ≫= k) v y.
Proof.
  intros (own & a & Hm & Hown & Hq) Hk. destruct (Hk own a Hq) as (e & He & given & [e' x] & Hr & Hgiven & He' & Hx).
  cbn [fst snd] in *. subst e'. exists own, given, e, x. split_and!; try done. unfold mbind, memory_bind. by rewrite Hm.
Qed.

(** A call that only answers. *)
Lemma serves_query (m : M (EngineM * X)) (e : EngineM) :
  Forall mine (locs e) -> loadEngine h e = Some v ->
  does nowhere (length h) h m (fun h' r => fst r = e /\ copied nowhere (length h) h' (snd r) y) -> serves mine h m v y.
Proof.
  intros Hmine Hv (given & [e' x] & Hm & Hgiven & He & Hx). cbn [fst snd] in *. subst e'.
  exists [], given, e, x. rewrite app_nil_r. split_and!; try done. split; [done|].
  eapply Forall_impl; [exact Hmine|]. intros l Hl. by left.
Qed.

(** A call that gives nothing. *)
Lemma serves_commit (m : M (EngineM * X)) :
  does mine (length h) h m (fun h' r => copied mine (length h) h' (fst r) v /\ load h' (snd r) = Some y /\ locs (snd r) = []) ->
  serves mine h m v y.
Proof.
  intros (own & [e x] & Hm & Hown & He & Hx & Hl). cbn [fst snd] in *. exists own, [], e, x. rewrite app_nil_r.
  split_and!; try done. split; [done|]. by rewrite Hl.
Qed.

(** The answer of a call, from the result of its operation. *)
Lemma serves_wrap {X' Y'} `{Stored X' Y'} (m : M (EngineM * X)) (f : X -> X') (y' : Y') :
  (forall h x, load h x = Some y -> load h (f x) = Some y') -> (forall x, locs (f x) = locs x) ->
  serves mine h m v y -> serves mine h ('(e, x) ← m; mret (e, f x)) v y'.
Proof.
  intros Hf Hl (own & given & e & x & Hm & Hown & Hgiven & He & Hx & Hin). exists own, given, e, (f x). split_and!; try done.
  - unfold mbind, memory_bind. by rewrite Hm.
  - split; [by apply Hf|]. by rewrite Hl.
Qed.

End Serves.

#[export] Instance stored_check : Stored check check := { load h r := Some r; locs r := [] }.

(** ** Rows in memory *)

Lemma loadWitness_parts (h : Heap) (w : WitnessM) (v : WitnessState) :
  loadWitness h w = Some v ->
  keyOfM w = keyOf v /\ (forall now, duePendingM now w = duePending now v) /\ wm_CheckpointSize w = wit_CheckpointSize v /\ wm_WitnessID w = wit_WitnessID v.
Proof.
  unfold loadWitness. intros (bs & _ & (r & Hr & [= <-])%bind_Some)%bind_Some. split_and!; [done| |done..].
  intros now. unfold duePendingM, duePending. cbn [wit_Receipt wit_Permanent wit_NextAttemptAt].
  destruct (wm_Receipt w) as [l|]; cbn in Hr; [|by injection Hr as <-].
  destruct (h !! l) as [[]|]; try done. by apply bind_Some in Hr as (? & _ & (? & _ & (? & _ & [= <-])%bind_Some)%bind_Some).
Qed.

Lemma Forall2_filter_rows {A B} (R : A -> B -> Prop) (p : A -> bool) (q : B -> bool) (xs : list A) (ys : list B) :
  (forall x y, R x y -> p x = q y) -> Forall2 R xs ys -> Forall2 R (List.filter p xs) (List.filter q ys).
Proof.
  intros Hpq. induction 1 as [|x y xs ys Hx Hxs IH]; cbn [List.filter]; [done|]. rewrite (Hpq _ _ Hx).
  destruct (q y); [by constructor|done].
Qed.

Section Sorted.
Context {A B} (R : A -> B -> Prop) (less : A -> A -> bool) (less' : B -> B -> bool).
Hypothesis Hless : forall x y x' y', R x y -> R x' y' -> less x x' = less' y y'.

Lemma Forall2_inserted (x : A) (y : B) (xs : list A) (ys : list B) :
  R x y -> Forall2 R xs ys -> Forall2 R (insertStable less x xs) (insertStable less' y ys).
Proof.
  intros Hx. induction 1 as [|a b l k Ha Hl IH]; cbn [insertStable]; [by repeat constructor|].
  rewrite (Hless _ _ _ _ Ha Hx). destruct (less' b y); [by constructor|]. by constructor; [|constructor].
Qed.

Lemma Forall2_sorted (xs : list A) (ys : list B) :
  Forall2 R xs ys -> Forall2 R (SliceStable less xs) (SliceStable less' ys).
Proof. induction 1 as [|x y xs ys Hx _ IH]; [done|]. by apply Forall2_inserted. Qed.

End Sorted.

Lemma copied_list {X Y} `{Stored X Y} (P : loc -> Prop) (b : nat) (h : Heap) (xs : list X) (ys : list Y) :
  copied P b h xs ys <-> Forall2 (copied P b h) xs ys.
Proof.
  unfold copied at 1. cbn [load locs stored_list]. rewrite mapM_Some. split.
  - intros [Hxs Hin]. induction Hxs as [|x y xs ys Hx Hxs IH]; [done|]. cbn [flat_map] in Hin.
    apply Forall_app in Hin as [H1 H2]. constructor; [done|by apply IH].
  - induction 1 as [|x y xs ys [Hx Hin] _ [IH1 IH2]]; [by split|]. split; [by constructor|]. cbn [flat_map]. by apply Forall_app.
Qed.

(** Sorted rows, cut to the limit. *)
Lemma pending_page (P : loc -> Prop) (b : nat) (h : Heap) (limit : Z) (rows : list WitnessM) (ws : list WitnessState) :
  Forall2 (copied P b h) rows ws ->
  let cut {A} (l : list A) := if limit <? zlen l then take (Z.to_nat limit) l else l in
  Forall2 (copied P b h) (cut (SliceStable pendingLessM rows)) (cut (SliceStable pendingLess ws)).
Proof.
  intros Hrows cut. assert (Forall2 (copied P b h) (SliceStable pendingLessM rows) (SliceStable pendingLess ws)) as Hs.
  { apply Forall2_sorted; [|done]. intros x y x' y' [Hx _] [Hx' _]. unfold pendingLessM, pendingLess.
    destruct (loadWitness_parts _ _ _ Hx) as (_ & _ & -> & ->), (loadWitness_parts _ _ _ Hx') as (_ & _ & -> & ->). done. }
  unfold cut, zlen. rewrite (Forall2_length _ _ _ Hs). destruct (limit <? _); [by apply Forall2_take|done].
Qed.

(** An array of rows, and the slice of it as an answer. *)
Lemma does_rows_answer (P : loc -> Prop) (b : nat) (h : Heap) (rows : list WitnessM) (ws : list WitnessState) :
  (b <= length h)%nat -> load h rows = Some ws -> Forall (inside P b h) (locs rows) ->
  does P b h (l ← alloc (Witnesses rows); mret (Ok (Some l))) (fun h' x => copied (X := result ref) P b h' x (Ok ws)).
Proof.
  intros Hb Hl Hin.
  eapply does_bind; [by apply (does_alloc _ _ _ _ (fun h' l => h' = h ++ [Witnesses rows] /\ l = length h))|].
  intros new l [-> ->]. apply does_ret. split.
  - cbn [load stored_result stored_witnesses loadWitnesses]. rewrite new_cell.
    by rewrite (load_app (X := list WitnessM) (Y := list WitnessState) _ _ _ _ Hl : mapM (loadWitness _) _ = _).
  - constructor; [right; rewrite length_app; cbn; lia|constructor].
Qed.

Lemma newRows_added (h : Heap) (current next : list WitnessM) (ws ns : list WitnessState) :
  load h current = Some ws -> load h next = Some ns -> load h (addedM current next) = Some (newRows ws ns).
Proof.
  cbn [load stored_list stored_witness]. rewrite !mapM_Some. intros Hc Hn.
  unfold addedM, newRows. eapply Forall2_filter_rows; [|exact Hn]. intros w n (-> & _)%loadWitness_parts.
  do 2 f_equal. apply bool_decide_ext. enough (map keyOfM current = map keyOf ws) as -> by done.
  clear -Hc. induction Hc as [|x y xs ys (Hk & _)%loadWitness_parts _ IH]; cbn [map]; [done|by rewrite Hk, IH].
Qed.

Lemma loaded_rows (h : Heap) (rows more : list WitnessM) (ws ms : list WitnessState) :
  load h rows = Some ws -> load h more = Some ms -> load h (rows ++ more) = Some (ws ++ ms).
Proof. cbn [load stored_list]. rewrite !mapM_Some. apply Forall2_app. Qed.

Lemma found_row (h : Heap) (rows : list WitnessM) (ws : list WitnessState) (key : string) :
  load h rows = Some ws ->
  match List.find (fun w => bool_decide (keyOfM w = key)) rows with
  | Some w => exists y, loadWitness h w = Some y /\ findWitness key ws = Ok y
  | None => findWitness key ws = Err ErrNotFound
  end.
Proof.
  cbn [load stored_list stored_witness]. rewrite mapM_Some.
  induction 1 as [|w y rows ws Hw _ IH]; cbn [List.find findWitness]; [done|].
  destruct (loadWitness_parts _ _ _ Hw) as (-> & _). case_bool_decide; [|done]. exists y. by rewrite CloneWitness_id.
Qed.

(** The loop of [ApplyWitness] that succeeds replaces the first row of its key. *)
Lemma replace_row (P : loc -> Prop) (b : nat) (h : Heap) (expectedAttempts : Z) (row : WitnessM) (next : WitnessState)
    (rows : list WitnessM) (ws ws' : list WitnessState) :
  copied P b h row next -> copied P b h rows ws -> replaceWitness expectedAttempts next ws = Ok ws' ->
  copied P b h (replaceM row rows) ws'.
Proof.
  intros Hrow. rewrite !copied_list. intros Hrows. revert ws'.
  induction Hrows as [|w y rows ws Hw Hrows IH]; intros ws'; cbn [replaceM replaceWitness]; [done|].
  destruct (loadWitness_parts _ _ _ (proj1 Hw)) as (-> & _), (loadWitness_parts _ _ _ (proj1 Hrow)) as (-> & _).
  case_bool_decide; cbn [negb].
  - destruct (negb _); [done|]. destruct (negb _); [done|]. intros [= <-]. rewrite CloneWitness_id. by constructor.
  - destruct (replaceWitness expectedAttempts next ws) as [rest|]; cbn [mbind result_bind]; [|done]. intros [= <-].
    constructor; [done|by apply IH].
Qed.

(** ** Each call *)

Section Calls.
Context `{DT : DtMmr} `{!DtMmrLaws DT} (mine : loc -> Prop) (h : Heap) (e : EngineM) (v : Engine).
Hypothesis Hmine : Forall mine (locs e).
Hypothesis Hclosed : closed mine h.
Hypothesis Hv : loadEngine h e = Some v.
Hypothesis Hok : engine_ok v.

Lemma engine_entry (i : Z) (entry : Entry) :
  zget (entries v) i = Some entry -> exists em, zget (entriesM e) i = Some em /\ loadEntry h em = Some entry.
Proof.
  apply loadEngine_parts in Hv as (Hes & _). cbn [load stored_list stored_entry] in Hes. apply mapM_Some in Hes.
  unfold zget, zlen. rewrite (Forall2_length _ _ _ Hes). destruct (_ && _); [|done]. intros Hi.
  destruct (Forall2_lookup_r _ _ _ _ _ Hes Hi) as (em & ? & ?). by exists em.
Qed.

Lemma does_entry (P : loc -> Prop) (i : Z) (entry : Entry) {A} (f : EntryM -> A) (Q : Heap -> A -> Prop) :
  zget (entries v) i = Some entry ->
  (forall h' x, copied P (length h) h' x entry -> Q h' (f x)) ->
  does P (length h) h (x ← entryAt e i; x ← CloneEntry x; mret (f x)) Q.
Proof.
  intros Hi HQ. destruct (engine_entry i entry Hi) as (em & Hem & Hload).
  eapply does_bind; [apply (does_read _ _ h _ em (fun h' a => h' = h /\ a = em)); [exact Hem|done]|].
  intros new a [-> ->]. eapply does_bind; [by apply copies_entry|]. intros new' x Hx. by apply does_ret, HQ.
Qed.

Lemma does_answer {X Y} `{Stored X Y} (P : loc -> Prop) (b : nat) (x : X) (y : Y) :
  load h x = Some y -> locs x = [] -> does P b h (mret x) (fun h' x => copied P b h' x y).
Proof. intros Hx Hl. apply does_ret. split; [done|]. by rewrite Hl. Qed.

Lemma GetEntryM_does (r : ref) (value : bytes) :
  loadBytes h r = Some value ->
  does nowhere (length h) h (GetEntryM e r) (fun h' x => copied nowhere (length h) h' x (GetEntry v value)).
Proof.
  intros Hr. unfold GetEntryM, GetEntry.
  eapply does_bind; [apply (does_read _ _ h _ value (fun h' a => h' = h /\ a = value)); [exact Hr|done]|].
  intros new a [-> ->]. destruct (negb _); [by apply does_answer|]. pose proof Hv as (_ & _ & Hb)%loadEngine_parts. rewrite Hb.
  destruct (byValue v !! value) as [i|] eqn:Hi; [|by apply does_answer].
  destruct (lookup_entry v value i (ok_log _ Hok) Hi) as (entry & Hentry & -> & _). eapply does_entry; [exact Hentry|].
  intros h' x [Hx Hin]. cbn [mbind result_bind]. rewrite EngineLog.CloneEntry_id. split; [|exact Hin].
  cbn [load stored_result]. by rewrite Hx.
Qed.

(** *** Answers only *)

Lemma serves_err {X Y} `{Stored X Y} (err : error) :
  serves (X := result X) (Y := result Y) mine h (mret (e, Err err)) v (Err err).
Proof.
  eapply (serves_query (X := result X) (Y := result Y) mine h v (Err err) _ e); [done..|]. apply does_ret. split; [done|]. by split.
Qed.

Lemma serves_answer {X Y X' Y'} `{Stored X Y} `{Stored X' Y'} (m : M X) (y : Y) (f : X -> X') (y' : Y') :
  does nowhere (length h) h m (fun h' x => copied nowhere (length h) h' x y) ->
  (forall h x, load h x = Some y -> load h (f x) = Some y') -> (forall x, locs (f x) = locs x) ->
  serves mine h (r ← m; mret (e, f r)) v y'.
Proof.
  intros Hm Hf Hlocs. eapply (serves_query mine h v y' _ e); [done..|]. eapply does_bind; [exact Hm|].
  intros new r [Hr Hin]. apply does_ret. split; [done|]. split; [by apply Hf|]. cbn [snd]. by rewrite Hlocs.
Qed.

Lemma ScanEntriesM_does (afterSeq limit : Z) :
  does nowhere (length h) h (ScanEntriesM e afterSeq limit)
    (fun h' x => copied nowhere (length h) h' x (ScanEntries v afterSeq limit)).
Proof.
  unfold ScanEntriesM, ScanEntries. destruct (_ || _); [by apply does_answer|].
  pose proof Hv as (Hes & _)%loadEngine_parts. cbn [load stored_list stored_entry] in Hes. apply mapM_Some in Hes.
  pose proof (Forall2_length _ _ _ Hes) as Hlen. unfold zlen. rewrite Hlen. cbv zeta.
  eapply does_bind.
  { apply copies_entries; [done|]. cbn [load stored_list stored_entry]. apply mapM_Some.
    unfold subslice. by apply Forall2_take, Forall2_drop. }
  intros new r [Hr Hin]. apply does_ret. rewrite EngineLog.cloneEntries_id. split; [|exact Hin].
  cbn [load stored_result]. by rewrite Hr.
Qed.

Lemma StateOfM_does :
  does nowhere (length h) h (StateOfM e) (fun h' x => copied nowhere (length h) h' x (LoadState v)).
Proof.
  pose proof Hv as (_ & Hs & _)%loadEngine_parts. unfold LoadState. rewrite CloneState_id. by apply copies_state.
Qed.

(** The rows of the engine's state. *)
Lemma does_rows (P : loc -> Prop) (b : nat) :
  does P b h (elements witnessesIn (sm_Witnesses (stateM e)))
    (fun h' rows => h' = h /\ load h rows = Some (st_Witnesses (state v)) /\ Forall mine (locs rows)).
Proof.
  pose proof Hv as (_ & (_ & _ & _ & Hw & _)%loadState_parts & _)%loadEngine_parts.
  eapply does_elements_witnesses; [exact Hw|]. intros rows Hrows Hin. split_and!; [done..|]. apply Hin; [done|].
  cbn [locs stored_engine stored_state] in Hmine. unfold stateLocs in Hmine. rewrite !Forall_app in Hmine. tauto.
Qed.

Lemma PendingWitnessesM_does (now limit : Z) :
  does nowhere (length h) h (PendingWitnessesM e now limit)
    (fun h' x => copied nowhere (length h) h' x (PendingWitnesses v now limit)).
Proof.
  unfold PendingWitnessesM, PendingWitnesses. destruct (_ || _); [by apply does_answer|].
  eapply does_bind; [apply does_rows|]. intros new0 rows (-> & Hrows & _). cbn [load stored_list stored_witness] in Hrows.
  apply mapM_Some in Hrows. eapply does_bind.
  { apply (copies_each _ _ CloneWitness (copies_witness _ _)); [done|]. apply mapM_Some. eapply Forall2_filter_rows; [|exact Hrows].
    intros x y (_ & Hp & _)%loadWitness_parts. apply (Hp now). }
  intros new result Hresult%copied_list. rewrite CloneWitness_map.
  pose proof (pending_page _ _ _ limit _ _ Hresult) as [Hl Hin]%copied_list. cbv zeta.
  apply does_rows_answer; [rewrite length_app; lia|done..].
Qed.

Lemma GetWitnessM_does (id : string) (size : Z) :
  does nowhere (length h) h (GetWitnessM e id size) (fun h' x => copied nowhere (length h) h' x (GetWitness v id size)).
Proof.
  unfold GetWitnessM, GetWitness. destruct (_ || _); [by apply does_answer|].
  eapply does_bind; [apply does_rows|]. intros new0 rows (-> & Hrows & _). pose proof (found_row _ _ _ (WitnessKey id size) Hrows) as Hfind.
  destruct (List.find _ rows) as [w|]; [destruct Hfind as (y & Hy & ->)|rewrite Hfind; by apply does_answer].
  eapply does_bind; [by apply copies_witness|]. intros new w' [Hw Hin]. apply does_ret. split; [|exact Hin].
  cbn [load stored_result]. by rewrite Hw.
Qed.

(** *** Calls that change the engine *)

Lemma engine_kept (new : Heap) : copied mine (length h) (h ++ new) e v.
Proof.
  split; [by apply (load_app (X := EngineM) (Y := Engine))|]. eapply Forall_impl; [exact Hmine|]. intros l Hl. by left.
Qed.

(** An engine in memory, from its entries and its state. *)
Lemma copied_engine (P : loc -> Prop) (b : nat) (h' : Heap) (es : list EntryM) (m : gmap bytes Z) (s : StateM)
    (ves : list Entry) (vs : State) :
  copied P b h' es ves -> copied P b h' s vs -> copied P b h' (MkEngineM es m s) (MkEngine ves m vs).
Proof.
  intros [Le Ie] [Ls Is]. split; [by apply loadEngine_parts|]. cbn [locs stored_engine]. apply Forall_app. by split.
Qed.

Lemma engine_parts (new : Heap) :
  copied mine (length h) (h ++ new) (entriesM e) (entries v) /\ copied mine (length h) (h ++ new) (stateM e) (state v) /\
  byValueM e = byValue v.
Proof.
  destruct (engine_kept new) as [(Le & Ls & Hb)%loadEngine_parts Hin]. cbn [locs stored_engine] in Hin.
  apply Forall_app in Hin as [Ie Is]. by split_and!.
Qed.

Lemma copied_new_entry (P : loc -> Prop) (b : nat) (h' : Heap) (seq : Z) (r : ref) (value : bytes) (appendedAt : Z) :
  copied P b h' r value -> copied P b h' (MkEntryM seq r appendedAt) (MkEntry seq value appendedAt).
Proof. intros [Hr Hin]. split; [|exact Hin]. cbn [load stored_entry]. unfold loadEntry. cbn [em_Value]. by rewrite (Hr : loadBytes _ _ = _). Qed.

(** What [AppendM] answers. *)
Definition appended (r : result AppendResult) : result (Entry * AppendOutcome) := a ← r; Ok (ar_Entry a, ar_Outcome a).

Lemma AppendM_serves (r : ref) (value : bytes) (appendedAt : Z) :
  loadBytes h r = Some value ->
  let '(v', y) := Append v (MkAppendInput value appendedAt) in serves mine h (AppendM e r appendedAt) v' (appended y).
Proof.
  intros Hr. unfold AppendM, Append. cbn [input_Value input_AppendedAt].
  destruct (negb _ || _) eqn:Hbad; [eapply serves_read; [exact Hr|]; rewrite Hbad; by apply serves_err|].
  pose proof Hv as (Hes & _ & Hb)%loadEngine_parts. cbn [load stored_list stored_entry] in Hes. apply mapM_Some in Hes.
  destruct (byValue v !! value) as [i|] eqn:Hi.
  - eapply serves_read; [exact Hr|]. rewrite Hbad, Hb, Hi.
    destruct (lookup_entry v value i (ok_log _ Hok) Hi) as (entry & Hentry & -> & _). cbn [mbind result_bind appended].
    eapply (serves_query _ _ _ _ _ e); [done..|]. eapply (does_entry _ _ _ (fun x => (e, Ok (x, AppendIdempotent)))); [exact Hentry|].
    intros h' x [Hx Hin]. cbn [fst snd]. split; [done|]. rewrite EngineLog.CloneEntry_id. split; [|exact Hin].
    cbn [load stored_result stored_outcome fst snd]. by rewrite Hx.
  - destruct (Z.ltb_spec MaxPortableInteger (zlen (entries v) + 1)) as [Hseq|Hseq].
    { eapply serves_read; [exact Hr|]. rewrite Hbad, Hb, Hi. unfold zlen in *. rewrite (Forall2_length _ _ _ Hes).
      rewrite (proj2 (Z.ltb_lt _ _)) by done. by apply serves_err. }
    eapply serves_read; [exact Hr|]. rewrite Hbad, Hb, Hi. unfold zlen in *. rewrite (Forall2_length _ _ _ Hes).
    rewrite (proj2 (Z.ltb_ge _ _)) by done.
    eapply (serves_bind _ _ _ _ (copyBytes r)); [by apply copies_bytes|]. intros own owned Howned. cbv zeta.
    set (x := MkEntryM _ owned _). set (y := MkEntry _ value _).
    assert (copied mine (length h) (h ++ own) x y) as Hx by (by apply copied_new_entry).
    destruct (engine_parts own) as (Hes' & Hs' & _). eexists. split.
    { apply (copied_engine _ _ _ (entriesM e ++ [x]) _ (stateM e) (entries v ++ [y])); [|exact Hs'].
      apply copied_list, Forall2_app; [by apply copied_list|]. by constructor; [|constructor]. }
    eapply does_bind; [apply (copies_entry _ _ _ x y); [done|exact (proj1 Hx)]|].
    intros new x' [Hx' Hin]. apply does_ret. cbn [fst snd]. split; [by rewrite !length_app, (Forall2_length _ _ _ Hes)|]. split; [|exact Hin].
    cbn [load stored_result stored_outcome fst snd mbind result_bind appended ar_Entry ar_Outcome]. by rewrite Hx'.
Qed.

Lemma serves_refused (err : error) : serves (X := check) (Y := check) mine h (mret (e, Err err)) v (Err err).
Proof.
  apply serves_commit, does_ret. cbn [fst snd]. split; [|done]. pose proof (engine_kept []) as Hk. by rewrite app_nil_r in Hk.
Qed.

Lemma CommitCLLM_serves (size : Z) (r : ref) (checkpoint : option bytes) (next : StateM) (vnext : State) :
  loadOptional h r = Some checkpoint -> loadState h next = Some vnext ->
  let '(v', y) := CommitCLL v size checkpoint vnext in
  serves (X := check) (Y := check) mine h (CommitCLLM e size r next) v' y.
Proof.
  intros Hr Hnext. unfold CommitCLLM, CommitCLL. pose proof Hv as (_ & Hs & _)%loadEngine_parts.
  destruct (ApplyCLL (state v) size checkpoint vnext) as [s'|err] eqn:Happly;
    do 3 (eapply serves_read; [eassumption|]); rewrite Happly; [|apply serves_refused].
  pose proof (ApplyCLL_outcome (state v) size checkpoint vnext (ok_state _ Hok)) as Ho. rewrite Happly in Ho.
  inversion Ho; subst; clear Ho Happly. apply serves_commit.
  eapply does_bind; [apply does_rows|]. intros new0 rows (-> & Hrows & Hin).
  pose proof Hnext as (Hn & _ & _ & Hw & _)%loadState_parts.
  eapply does_bind.
  { apply (does_elements_witnesses _ _ _ _ _ (fun h' nextRows => h' = h /\ load h nextRows = Some (st_Witnesses vnext)) Hw). by intros nextRows Hl _. }
  intros new0' nextRows [-> Hnextrows]. pose proof (newRows_added _ _ _ _ _ Hrows Hnextrows) as Hadded.
  eapply does_bind; [by apply (copies_each _ _ CloneWitness (copies_witness _ _))|]. intros n1 added [La _].
  pose proof (load_app (X := StateM) (Y := State) _ n1 _ _ Hnext : loadState _ next = _) as Hnext1.
  eapply does_bind; [apply copies_header; [rewrite length_app; lia|exact Hnext1]|]. intros n2 header Hh.
  pose proof (load_app (X := ref) (Y := list bytes) _ (n1 ++ n2) _ _ Hn : loadSlices _ _ = _) as Hn2. rewrite app_assoc in Hn2.
  eapply does_bind; [apply copies_slices; [rewrite !length_app; lia|exact Hn2]|]. intros n3 nodes Hns.
  eapply does_bind.
  { apply (copies_witnesses _ _ _ _ (st_Witnesses (state v) ++ newRows (st_Witnesses (state v)) (st_Witnesses vnext)));
      [rewrite !length_app; lia|]. apply loaded_rows; [|by do 2 apply load_app].
    rewrite <- !app_assoc. by apply load_app. }
  intros n4 witnesses Hws. apply does_ret. cbn [fst snd]. split; [|done].
  destruct (engine_parts (n1 ++ n2 ++ n3 ++ n4)) as (Hes & _ & ->). rewrite !app_assoc in Hes.
  apply copied_engine; [exact Hes|]. assert (committed (state v) vnext = Engine.with_rows (Engine.cloneStateHeader vnext) (st_Nodes vnext)
    (st_Witnesses (state v) ++ newRows (st_Witnesses (state v)) (st_Witnesses vnext))) as -> by (by rewrite cloneStateHeader_id).
  apply copied_with_rows; [|exact (copied_app _ _ _ n4 _ _ Hns)|exact Hws].
  exact (copied_app _ _ _ n4 _ _ (copied_app _ _ _ n3 _ _ Hh)).
Qed.

(** The rows that stay are shared. *)
Lemma rows_shared (new : Heap) (rows : list WitnessM) (ws : list WitnessState) :
  load h rows = Some ws -> Forall mine (locs rows) -> copied mine (length h) (h ++ new) rows ws.
Proof.
  intros Hrows Hin. split; [by apply (load_app (X := list WitnessM) (Y := list WitnessState))|].
  eapply Forall_impl; [exact Hin|]. intros l Hl. by left.
Qed.

Lemma CommitWitnessM_serves (attempts : Z) (next : WitnessM) (vnext : WitnessState) :
  loadWitness h next = Some vnext ->
  let '(v', y) := CommitWitness v attempts vnext in
  serves (X := check) (Y := check) mine h (CommitWitnessM e attempts next) v' y.
Proof.
  intros Hnext. unfold CommitWitnessM, CommitWitness. pose proof Hv as (_ & Hs & _)%loadEngine_parts.
  destruct (ApplyWitness (state v) attempts vnext) as [s'|err] eqn:Happly;
    do 2 (eapply serves_read; [eassumption|]); rewrite Happly; [|apply serves_refused].
  unfold ApplyWitness in Happly. destruct (validateWitness vnext ErrInvalid); [|done]. cbn [mbind result_bind] in Happly.
  destruct (replaceWitness attempts vnext (st_Witnesses (state v))) as [ws'|] eqn:Hreplace; [|done].
  cbn [mbind result_bind] in Happly. injection Happly as <-. apply serves_commit.
  eapply does_bind; [apply does_rows|]. intros new0 rows (-> & Hrows & Hin).
  eapply does_bind; [by apply copies_witness|]. intros n1 row Hrow.
  pose proof (replace_row _ _ _ _ _ _ _ _ _ Hrow (rows_shared n1 _ _ Hrows Hin) Hreplace) as [Lr Ir].
  eapply does_bind; [by apply (does_alloc _ _ _ _ (fun h' l => h' = (h ++ n1) ++ [Witnesses (replaceM row rows)] /\ l = length (h ++ n1)))|].
  intros n2 l [-> ->]. apply does_ret. cbn [fst snd]. split; [|done]. rewrite <- app_assoc.
  destruct (engine_parts (n1 ++ [Witnesses (replaceM row rows)])) as (Hes & Hst & ->). apply copied_engine; [exact Hes|].
  apply copied_with_rows; [exact Hst| |].
  - destruct Hst as [(Ln & _)%loadState_parts Il]. cbn [locs stored_state] in Il. unfold stateLocs in Il.
    rewrite !Forall_app in Il. split; [exact Ln|exact (proj1 Il)].
  - rewrite app_assoc. split.
    + cbn [load stored_witnesses loadWitnesses]. rewrite new_cell. exact (load_app (X := list WitnessM) (Y := list WitnessState) _ _ _ _ Lr).
    + constructor; [right; rewrite !length_app; cbn; lia|constructor].
Qed.

(** *** Every call *)

Lemma serveM_serves (c : CallM) (cv : CallV) :
  load h c = Some cv -> serves mine h (serveM e c) (fst (serve v cv)) (snd (serve v cv)).
Proof.
  destruct c; cbn [load stored_call]; intros Hc.
  - apply bind_Some in Hc as (value' & Hvalue & [= <-]). pose proof (AppendM_serves _ _ appendedAt Hvalue) as Hs.
    cbn [serve]. destruct (Append v _) as [v' y]. cbn [fst snd serveM].
    eapply (serves_wrap _ _ _ _ _ AAppend); [|done|exact Hs]. intros h' x Hx. cbn [load stored_answer]. by rewrite Hx.
  - apply bind_Some in Hc as (value' & Hvalue & [= <-]). eapply (serves_answer _ _ AEntry); [by apply GetEntryM_does| |done].
    intros h' x Hx. cbn [load stored_answer]. by rewrite Hx.
  - injection Hc as <-. eapply (serves_answer (Y := result (list Entry)) _ _ AEntries); [apply ScanEntriesM_does| |by intros []].
    intros h' x Hx. cbn [load stored_answer]. by rewrite Hx.
  - injection Hc as <-. eapply (serves_answer _ _ AState); [apply StateOfM_does| |done].
    intros h' x Hx. cbn [load stored_answer]. by rewrite Hx.
  - apply bind_Some in Hc as (checkpoint & Hcheckpoint & (next' & Hnext & [= <-])%bind_Some).
    pose proof (CommitCLLM_serves expectedSize _ _ _ _ Hcheckpoint Hnext) as Hs. cbn [serve].
    destruct (CommitCLL v _ _ _) as [v' y]. cbn [fst snd serveM].
    eapply (serves_wrap _ _ _ _ _ ADone); [|done|exact Hs]. intros h' x Hx. cbn [load stored_answer]. by injection Hx as ->.
  - injection Hc as <-. eapply (serves_answer (Y := result (list WitnessState)) _ _ AWitnesses); [apply PendingWitnessesM_does| |by intros []].
    intros h' x Hx. cbn [load stored_answer]. by rewrite Hx.
  - injection Hc as <-. eapply (serves_answer _ _ AWitness); [apply GetWitnessM_does| |done].
    intros h' x Hx. cbn [load stored_answer]. by rewrite Hx.
  - apply bind_Some in Hc as (next' & Hnext & [= <-]). pose proof (CommitWitnessM_serves expectedAttempts _ _ Hnext) as Hs.
    cbn [serve]. destruct (CommitWitness v _ _) as [v' y]. cbn [fst snd serveM].
    eapply (serves_wrap _ _ _ _ _ ADone); [|done|exact Hs]. intros h' x Hx. cbn [load stored_answer]. by injection Hx as ->.
Qed.

End Calls.

(** ** A caller and its engine *)

(** What a caller has: the heap, its engine, and the locations it holds. *)
Record World := MkWorld {
  heap : Heap;
  engine : EngineM;
  held : list loc
}.

(** The locations a caller can follow its pointers to. *)
Inductive reach (h : Heap) (K : list loc) : loc -> Prop :=
| reach_held l : l ∈ K -> reach h K l
| reach_cell l c l' : reach h K l -> h !! l = Some c -> l' ∈ cellLocs c -> reach h K l'.

Section Worlds.
Context `{DT : DtMmr}.

Definition start : World := MkWorld [] NewM [].

(** The worlds of a caller after its [calls]: between them it allocates, and
    writes anything over any location it reaches, with the pointers it has. *)
Inductive plays : list CallV -> World -> Prop :=
| plays_start : plays [] start
| plays_alloc calls h e K c :
    plays calls (MkWorld h e K) -> Forall (reach h K) (cellLocs c) -> plays calls (MkWorld (h ++ [c]) e (length h :: K))
| plays_write calls h e K l c :
    plays calls (MkWorld h e K) -> reach h K l -> Forall (reach h K) (cellLocs c) -> plays calls (MkWorld (<[l := c]> h) e K)
| plays_call calls h e K c cv h' e' a :
    plays calls (MkWorld h e K) -> Forall (reach h K) (locs c) -> load h c = Some cv ->
    serveM e c h = Some (h', (e', a)) -> plays (calls ++ [cv]) (MkWorld h' e' (locs a ++ K)).

Definition served (calls : list CallV) : Engine := fold_left (fun v cv => fst (serve v cv)) calls New.

Context `{!DtMmrLaws DT}.

Lemma serve_ok (v : Engine) (cv : CallV) : engine_ok v -> engine_ok (fst (serve v cv)).
Proof.
  intros Hok. destruct cv; cbn [serve]; try done.
  - pose proof (perform_step v (OpAppend (MkAppendInput value appendedAt)) Hok I) as [H _]. cbn [perform] in H.
    by destruct (Append v _).
  - pose proof (perform_step v (OpCommitCLL expectedSize expectedCheckpoint next) Hok I) as [H _]. cbn [perform] in H.
    by destruct (CommitCLL v _ _ _).
  - pose proof (perform_step v (OpCommitWitness expectedAttempts next) Hok I) as [H _]. cbn [perform] in H.
    by destruct (CommitWitness v _ _).
Qed.

(** The engine's memory is [mine]; the caller's names none of it. *)
Definition theirs (mine : loc -> Prop) (h : Heap) (l : loc) : Prop := (l < length h)%nat /\ ~ mine l.

Record isolated (mine : loc -> Prop) (w : World) (v : Engine) : Prop := {
  iso_mine l : mine l -> (l < length (heap w))%nat;
  iso_closed : closed mine (heap w);
  iso_theirs l c : ~ mine l -> heap w !! l = Some c -> Forall (theirs mine (heap w)) (cellLocs c);
  iso_engine : Forall mine (locs (engine w));
  iso_load : loadEngine (heap w) (engine w) = Some v;
  iso_held : Forall (theirs mine (heap w)) (held w);
  iso_ok : engine_ok v
}.

Lemma isolated_reach (mine : loc -> Prop) (w : World) (v : Engine) (l : loc) :
  isolated mine w v -> reach (heap w) (held w) l -> theirs mine (heap w) l.
Proof.
  intros Hw. induction 1 as [l Hl|l c l' _ [_ IH] Hc Hl'].
  - exact (proj1 (Forall_forall _ _) (iso_held _ _ _ Hw) l Hl).
  - exact (proj1 (Forall_forall _ _) (iso_theirs _ _ _ Hw l c IH Hc) l' Hl').
Qed.

Lemma isolated_reached (mine : loc -> Prop) (w : World) (v : Engine) (ls : list loc) :
  isolated mine w v -> Forall (reach (heap w) (held w)) ls -> Forall (theirs mine (heap w)) ls.
Proof. intros Hw Hls. eapply Forall_impl; [exact Hls|]. intros l. by apply (isolated_reach _ _ _ _ Hw). Qed.

Lemma isolated_start : isolated nowhere start New.
Proof. split; [done..| | |constructor|done|constructor|apply New_ok]; done. Qed.

Lemma isolated_alloc (mine : loc -> Prop) (h : Heap) (e : EngineM) (K : list loc) (v : Engine) (c : cell) :
  isolated mine (MkWorld h e K) v -> Forall (reach h K) (cellLocs c) ->
  isolated mine (MkWorld (h ++ [c]) e (length h :: K)) v.
Proof.
  intros Hw Hc. apply (isolated_reached _ _ _ _ Hw) in Hc. destruct Hw as [Hlt Hcl Hth He Hl HK Hok]. cbn [heap engine held] in *.
  assert (forall ls, Forall (theirs mine h) ls -> Forall (theirs mine (h ++ [c])) ls) as Hmore.
  { intros ls Hls. eapply Forall_impl; [exact Hls|]. intros l [? ?]. split; [rewrite length_app; lia|done]. }
  split; cbn [heap engine held]; try done.
  - intros l Hm%Hlt. rewrite length_app. lia.
  - intros l c' Hm [Hc'|[Hge _]]%lookup_app_Some; [by eapply Hcl|]. apply Hlt in Hm. lia.
  - intros l c' Hm [Hc'|[_ Hc']]%lookup_app_Some; [by eapply Hmore, Hth|].
    destruct (l - length h)%nat; [|done]. injection Hc' as <-. by apply Hmore.
  - exact (load_app (X := EngineM) (Y := Engine) _ _ _ _ Hl).
  - constructor; [|by apply Hmore]. split; [rewrite length_app; cbn; lia|]. intros Hm%Hlt. lia.
Qed.

Lemma isolated_write (mine : loc -> Prop) (h : Heap) (e : EngineM) (K : list loc) (v : Engine) (l : loc) (c : cell) :
  isolated mine (MkWorld h e K) v -> reach h K l -> Forall (reach h K) (cellLocs c) ->
  isolated mine (MkWorld (<[l := c]> h) e K) v.
Proof.
  intros Hw Hl Hc. apply (isolated_reached _ _ _ _ Hw) in Hc. apply (isolated_reach _ _ _ _ Hw) in Hl as [_ Hl].
  destruct Hw as [Hlt Hcl Hth He Hload HK Hok]. cbn [heap engine held] in *.
  assert (forall ls, Forall (theirs mine h) ls -> Forall (theirs mine (<[l := c]> h)) ls) as Hmore.
  { intros ls Hls. eapply Forall_impl; [exact Hls|]. intros l' [? ?]. by split; [rewrite length_insert|]. }
  split; cbn [heap engine held]; try done.
  - intros l' Hm%Hlt. by rewrite length_insert.
  - intros l' c' Hm Hc'. rewrite list_lookup_insert_ne in Hc' by (intros ->; done). by eapply Hcl.
  - intros l' c' Hm [(-> & -> & _)|[_ Hc']]%list_lookup_insert_Some; apply Hmore; [done|by eapply Hth].
  - refine (load_frame (X := EngineM) (Y := Engine) mine h _ _ _ Hcl _ He Hload).
    intros l' c' Hm Hc'. rewrite list_lookup_insert_ne by (intros ->; done). done.
  - by apply Hmore.
Qed.

(** A call leaves the cells it kept with the engine, those it gave with its caller. *)
Lemma isolated_call {X Y} `{Stored X Y} (mine : loc -> Prop) (h : Heap) (e : EngineM) (K : list loc) (v v' : Engine)
    (m : M (EngineM * X)) (y : Y) (h' : Heap) (e' : EngineM) (x : X) :
  isolated mine (MkWorld h e K) v -> serves mine h m v' y -> engine_ok v' -> m h = Some (h', (e', x)) ->
  exists mine', isolated mine' (MkWorld h' e' (locs x ++ K)) v'.
Proof.
  intros [Hlt Hcl Hth _ _ HK _] (own & given & e0 & x0 & Hm & Hown & Hgiven & [Hload He] & [_ Hx]) Hok Heq.
  cbn [heap engine held] in *. rewrite Hm in Heq. injection Heq as <- <- <-. exists (inside mine (length h) (h ++ own)).
  assert (forall ls, Forall (theirs mine h) ls -> Forall (theirs (inside mine (length h) (h ++ own)) ((h ++ own) ++ given)) ls) as Hmore.
  { intros ls Hls. eapply Forall_impl; [exact Hls|]. intros l [Hl Hn]. split; [rewrite !length_app; lia|]. intros [?|?]; [done|lia]. }
  assert (forall ls, Forall (inside nowhere (length (h ++ own)) ((h ++ own) ++ given)) ls ->
    Forall (theirs (inside mine (length h) (h ++ own)) ((h ++ own) ++ given)) ls) as Hgave.
  { intros ls Hls. eapply Forall_impl; [exact Hls|]. intros l [[]|Hl]. split; [lia|]. rewrite length_app in Hl.
    intros [Hm'%Hlt|?]; [lia|rewrite length_app in *; lia]. }
  split; cbn [heap engine held]; try done.
  - intros l [Hl%Hlt|Hl]; rewrite !length_app in *; lia.
  - intros l c Hl [[Hc|[Hge Hc]]%lookup_app_Some|[Hge Hc]]%lookup_app_Some.
    + destruct Hl as [Hl|Hl]; [|apply lookup_lt_Some in Hc; lia]. eapply Forall_impl; [exact (Hcl l c Hl Hc)|]. intros l' Hl'. by left.
    + eapply (proj1 (Forall_forall _ _) Hown c). by eapply list_elem_of_lookup_2.
    + destruct Hl as [Hl%Hlt|Hl]; rewrite !length_app in *; lia.
  - intros l c Hl [[Hc|[Hge Hc]]%lookup_app_Some|[Hge Hc]]%lookup_app_Some.
    + eapply Hmore, Hth; [|exact Hc]. intros Hm'. apply Hl. by left.
    + destruct Hl. right. apply lookup_lt_Some in Hc. rewrite length_app. lia.
    + eapply Hgave, (proj1 (Forall_forall _ _) Hgiven c). by eapply list_elem_of_lookup_2.
  - exact (load_app (X := EngineM) (Y := Engine) _ _ _ _ Hload).
  - apply Forall_app. split; [by apply Hgave|by apply Hmore].
Qed.

Lemma plays_isolated (calls : list CallV) (w : World) : plays calls w -> exists mine, isolated mine w (served calls).
Proof.
  induction 1 as [|calls h e K c _ [mine IH] Hc|calls h e K l c _ [mine IH] Hl Hc|calls h e K c cv h' e' a _ [mine IH] Hc Hcv Hm].
  - exists nowhere. apply isolated_start.
  - exists mine. by apply isolated_alloc.
  - exists mine. by apply isolated_write.
  - unfold served. rewrite fold_left_app. cbn [fold_left].
    eapply (isolated_call mine h e K _ _ _ (snd (serve (served calls) cv))); [exact IH| |apply serve_ok, IH|exact Hm].
    destruct IH as [_ Hcl _ He Hload _ Hok]. by apply serveM_serves.
Qed.

End Worlds.

(** ** The claim *)

(** C14: the memory of an engine is its own.  A caller may write anything
    wherever its pointers lead, over what it passed and what it was given
    included: the engine still holds what its calls alone make of it, and every
    further call does on memory what it does on values, without writing over
    any of the caller's. *)
Theorem engine_memory_is_its_own `{DT : DtMmr} `{!DtMmrLaws DT} (calls : list CallV) (w : World) :
  plays calls w ->
  loadEngine (heap w) (engine w) = Some (served calls) /\
  forall c cv, load (heap w) c = Some cv ->
    exists h' e' a, serveM (engine w) c (heap w) = Some (h', (e', a)) /\ heap w `prefix_of` h' /\
      load h' a = Some (snd (serve (served calls) cv)) /\ loadEngine h' e' = Some (fst (serve (served calls) cv)).
Proof.
  intros Hw. destruct (plays_isolated calls w Hw) as [mine [_ Hcl _ He Hload _ Hok]]. split; [exact Hload|]. intros c cv Hc.
  destruct (serveM_serves mine (heap w) (engine w) _ He Hcl Hload Hok c cv Hc) as (own & given & e' & a & Hm & _ & _ & [Hl _] & [Ha _]).
  exists ((heap w ++ own) ++ given), e', a. split_and!; [exact Hm| |exact Ha|].
  - rewrite <- app_assoc. by apply prefix_app_r.
  - exact (load_app (X := EngineM) (Y := Engine) _ _ _ _ Hl).
Qed.

(** ** A witness *)

Import Ref.

Definition sampleTime : Z := 1700000000000000000.
Definition sampleValue : bytes := replicate 32 Byte.x03.
Definition otherValue : bytes := replicate 32 Byte.x09.

(** A value is appended, then written over where it was. *)
Definition sampleWorld : World :=
  match serveM (DT := dt_reference) NewM (CAppend (Some 0%nat) sampleTime) [Bytes sampleValue] with
  | Some (h, (e, a)) => MkWorld (<[0%nat := Bytes otherValue]> h) e (locs a ++ [0%nat])
  | None => start
  end.

Lemma sampleWorld_plays : plays (DT := dt_reference) [CAppend sampleValue sampleTime] sampleWorld.
Proof.
  pose proof (plays_alloc (DT := dt_reference) [] [] NewM [] (Bytes sampleValue) plays_start ltac:(constructor)) as H0.
  pose proof (plays_call (DT := dt_reference) [] [Bytes sampleValue] NewM [0%nat] (CAppend (Some 0%nat) sampleTime) (CAppend sampleValue sampleTime)) as Hc.
  unfold sampleWorld. cbn [app length] in *. destruct (serveM _ _ _) as [[h [e a]]|] eqn:Hm; [|by vm_compute in Hm].
  assert (0%nat ∈ locs a ++ [0%nat]) as Hin by (apply elem_of_app; right; by constructor).
  apply plays_write; [|by constructor|constructor].
  apply (Hc h e a H0); [by repeat constructor|done|done].
Qed.

Lemma engine_memory_is_its_own_witness :
  loadBytes (heap sampleWorld) (Some 0%nat) = Some otherValue /\
  loadEngine (heap sampleWorld) (engine sampleWorld) = Some (served (DT := dt_reference) [CAppend sampleValue sampleTime]).
Proof.
  split; [vm_compute; reflexivity|].
  exact (proj1 (engine_memory_is_its_own (DT := dt_reference) _ _ sampleWorld_plays)).
Defined.

End AliasClaims.
