(* ===== verification/Sharing.v ===== *)
(** * Arrays that states share: [Snapshot], [Restore] and delta commits of [src/internal/backend/engine.go]

    A snapshot keeps the slices of a state and not their elements, and a delta
    commit appends to the slices of the state it replaces: in place, when their
    arrays have room.  Here a slice is an array and a length, and the states of
    an engine share the arrays.  Values are as in [Engine]; that the bytes of
    an element are nobody else's is for [Alias]. *)

From Stdlib Require Import Sorted.
From S2P Require Import Prelude Hex DtMmr DtMmrRef Mmr Cll Portable Engine EngineLog EngineState EngineHistory.
Import Cll Portable Engine EngineLog EngineState EngineHistory.

Module Sharing.

Local Open Scope Z_scope.

(** ** Slices *)

(** The first [len] elements of an array; [nil] has no array. *)
Record Slice := MkSlice {
  array : option nat;
  len : nat
}.

Definition nil : Slice := MkSlice None 0.

Section Slices.
Context {A : Type}.

(** What is allocated: each array with all the elements it has room for. *)
Notation Arrays := (list (list A)).

(** What [append] leaves behind the elements of an array it allocates. *)
Variable spare : nat -> list A.

Definition room (arrays : Arrays) (s : Slice) : list A :=
  match array s with None => [] | Some a => default [] (arrays !! a) end.

Definition elements (arrays : Arrays) (s : Slice) : list A := take (len s) (room arrays s).

(** [make([]T, len(l))], filled with [l]. *)
Definition make (arrays : Arrays) (l : list A) : Arrays * Slice :=
  (arrays ++ [l], MkSlice (Some (length arrays)) (length l)).

(** [append(s, l...)] *)
Definition append (arrays : Arrays) (s : Slice) (l : list A) : Arrays * Slice :=
  match l with
  | [] => (arrays, s)
  | _ =>
      let n := (len s + length l)%nat in
      match array s with
      | Some a =>
          if (n <=? length (room arrays s))%nat
          then (<[a := elements arrays s ++ l ++ drop n (room arrays s)]> arrays, MkSlice (Some a) n)
          else (arrays ++ [elements arrays s ++ l ++ spare n], MkSlice (Some (length arrays)) n)
      | None => (arrays ++ [l ++ spare n], MkSlice (Some (length arrays)) n)
      end
  end.

(** ** States that share arrays *)

Definition valid (arrays : Arrays) (s : Slice) : Prop :=
  match array s with
  | None => len s = 0%nat
  | Some a => (a < length arrays)%nat /\ (len s <= length (room arrays s))%nat
  end.

(** A later slice of an array is at least as long. *)
Definition extends (s t : Slice) : Prop := array s = array t -> array s <> None -> (len t <= len s)%nat.

(** Slices from the newest to the oldest. *)
Definition stacked (arrays : Arrays) (slices : list Slice) : Prop :=
  Forall (valid arrays) slices /\ StronglySorted extends slices.

Definition same (arrays arrays' : Arrays) (slices : list Slice) : Prop :=
  Forall (fun s => elements arrays' s = elements arrays s) slices.

Lemma valid_app (arrays new : Arrays) (s : Slice) :
  valid arrays s -> valid (arrays ++ new) s /\ elements (arrays ++ new) s = elements arrays s.
Proof.
  unfold valid, elements, room. destruct (array s) as [a|]; [|done]. intros [Ha Hl].
  rewrite lookup_app_l by done. rewrite length_app. split; [split; [lia|done]|done].
Qed.

Lemma stacked_app (arrays new : Arrays) (slices : list Slice) :
  stacked arrays slices -> stacked (arrays ++ new) slices /\ same arrays (arrays ++ new) slices.
Proof.
  intros [Hv Hs]. unfold stacked, same. rewrite !Forall_forall in *. split_and!; [|done|].
  - intros s Hin. by apply valid_app, Hv.
  - intros s Hin. by apply valid_app, Hv.
Qed.

Lemma stacked_cons (arrays : Arrays) (s : Slice) (slices : list Slice) :
  stacked arrays (s :: slices) <-> valid arrays s /\ Forall (extends s) slices /\ stacked arrays slices.
Proof.
  unfold stacked. rewrite Forall_cons. split.
  - intros [[Hs Hv] Hss]. inversion Hss; subst. tauto.
  - intros (Hs & He & Hv & Hss). split; [done|by constructor].
Qed.

Section InPlace.
Context (arrays : Arrays) (s : Slice) (a : nat) (l : list A).
Hypothesis Hs : valid arrays s.
Hypothesis Ha : array s = Some a.
Hypothesis Hroom : (len s + length l <= length (room arrays s))%nat.

Definition written : Arrays :=
  <[a := elements arrays s ++ l ++ drop (len s + length l) (room arrays s)]> arrays.

Lemma written_room (t : Slice) : array t = Some a ->
  room written t = elements arrays s ++ l ++ drop (len s + length l) (room arrays s).
Proof.
  intros Ht. unfold room at 1. rewrite Ht. unfold written. unfold valid in Hs. rewrite Ha in Hs.
  by rewrite list_lookup_insert_eq by apply Hs.
Qed.

Lemma elements_length : length (elements arrays s) = len s.
Proof. unfold elements. rewrite length_take. lia. Qed.

Lemma written_length (t : Slice) : array t = Some a -> length (room written t) = length (room arrays s).
Proof. intros Ht. rewrite written_room by done. rewrite !length_app, elements_length, length_drop. lia. Qed.

(** Older slices of the array, and slices of other arrays. *)
Lemma written_old (t : Slice) : valid arrays t -> extends s t -> valid written t /\ elements written t = elements arrays t.
Proof.
  intros Ht He. destruct (array t) as [b|] eqn:Hb; [|by unfold valid, elements, room in *; rewrite Hb in *].
  destruct (decide (b = a)) as [->|Hne].
  - specialize (He ltac:(by rewrite Ha, Hb) ltac:(by rewrite Ha)). unfold valid. rewrite Hb. split.
    + rewrite written_length by done. unfold written. rewrite length_insert. unfold valid in Hs. rewrite Ha in Hs. split; [apply Hs|lia].
    + unfold elements at 1. rewrite written_room by done. rewrite take_app_le by (rewrite elements_length; lia).
      unfold elements, room. rewrite Ha, Hb, take_take. f_equal. lia.
  - unfold valid, elements, room in *. rewrite Hb in *. unfold written. by rewrite length_insert, list_lookup_insert_ne.
Qed.

Lemma written_new : let t := MkSlice (Some a) (len s + length l) in
  valid written t /\ elements written t = elements arrays s ++ l.
Proof.
  cbv zeta. split.
  - unfold valid. cbn [array len]. rewrite written_length by done. unfold written. rewrite length_insert.
    unfold valid in Hs. rewrite Ha in Hs. split; [apply Hs|done].
  - unfold elements at 1. rewrite written_room by done. cbn [len]. rewrite app_assoc. rewrite take_app_le by (rewrite length_app, elements_length; lia).
    apply take_ge. rewrite length_app, elements_length. lia.
Qed.

End InPlace.

(** A new array, whatever its slice shows of it. *)
Lemma make_stacked (arrays : Arrays) (l extra : list A) (olds : list Slice) :
  stacked arrays olds -> let arrays' := arrays ++ [l ++ extra] in let t := MkSlice (Some (length arrays)) (length l) in
  stacked arrays' (t :: olds) /\ elements arrays' t = l /\ same arrays arrays' olds.
Proof.
  intros Ho. cbv zeta. destruct (stacked_app _ [l ++ extra] _ Ho) as [Ho' Hsame].
  assert (room (arrays ++ [l ++ extra]) (MkSlice (Some (length arrays)) (length l)) = l ++ extra) as Hr.
  { unfold room. cbn [array]. by rewrite lookup_app_r, Nat.sub_diag by done. }
  split_and!; [|unfold elements; rewrite Hr; cbn [len]; by rewrite take_app_length|done]. apply stacked_cons. split_and!; [| |done].
  - unfold valid. cbn [array len]. rewrite Hr, !length_app. cbn. lia.
  - apply Forall_forall. intros o Hin He _. cbn [array] in He. pose proof (proj1 (Forall_forall _ _) (proj1 Ho) o Hin) as Hvo.
    unfold valid in Hvo. rewrite <- He in Hvo. lia.
Qed.

Lemma append_stacked (arrays : Arrays) (s : Slice) (l : list A) (olds : list Slice) :
  stacked arrays (s :: olds) ->
  let '(arrays', t) := append arrays s l in
  stacked arrays' (t :: olds) /\ elements arrays' t = elements arrays s ++ l /\ same arrays arrays' olds.
Proof.
  intros Hst. pose proof Hst as (Hs & He & Ho)%stacked_cons. unfold append. destruct l as [|x l].
  { rewrite app_nil_r. split_and!; [done|done|]. by apply Forall_true. }
  cbv zeta. set (y := x :: l). destruct (array s) as [a|] eqn:Ha.
  2: { unfold valid in Hs. rewrite Ha in Hs. unfold elements, room. rewrite Hs, Ha. cbn [app].
       by apply make_stacked. }
  destruct (Nat.leb_spec (len s + length y) (length (room arrays s))) as [Hroom|Hroom].
  - pose proof (written_new arrays s a y Hs Ha Hroom) as [Hv Hn]. change (<[a := _]> arrays) with (written arrays s a y).
    assert (Forall (fun o => valid (written arrays s a y) o /\ elements (written arrays s a y) o = elements arrays o) olds) as Hold.
    { apply Forall_forall. intros o Hin. apply written_old; [done..| |].
      - exact (proj1 (Forall_forall _ _) (proj1 Ho) o Hin).
      - exact (proj1 (Forall_forall _ _) He o Hin). }
    split_and!; [|exact Hn|by eapply Forall_impl; [exact Hold|intros o []]]. apply stacked_cons. split_and!; [done| |].
    + eapply Forall_impl; [exact He|]. intros o Heo Hao Hn0. cbn [array len] in *. rewrite <- Ha in Hao, Hn0.
      specialize (Heo Hao Hn0). lia.
    + split; [by eapply Forall_impl; [exact Hold|intros o []]|apply Ho].
  - assert (length (elements arrays s) = len s) as Hlen.
    { unfold valid in Hs. rewrite Ha in Hs. unfold elements. rewrite length_take. lia. }
    pose proof (make_stacked arrays (elements arrays s ++ y) (spare (len s + length y)) olds Ho) as Hm. cbv zeta in Hm.
    by rewrite length_app, Hlen, <- app_assoc in Hm.
Qed.

End Slices.

(** ** The engine over shared arrays *)

(** A [State] whose [Nodes] and [Witnesses] are slices. *)
Record StateS := MkStateS {
  ss_Size : Z;
  ss_Nodes : Slice;
  ss_IndexedSeq : Z;
  ss_FirstPendingAt : option Z;
  ss_Checkpoint : option CheckpointState;
  ss_Witnesses : Slice
}.

(** The arrays behind the nodes and the rows of every state an engine has had,
    and its entries, whose array no state or snapshot names. *)
Record EngineS := MkEngineS {
  entriesS : list Entry;
  byValueS : gmap bytes Z;
  stateS : StateS;
  nodeArrays : list (list bytes);
  rowArrays : list (list WitnessState)
}.

Record SnapshotS := MkSnapshotS {
  entryCountS : Z;
  snapStateS : StateS
}.

(** The values they stand for. *)
Definition stateIn (e : EngineS) (s : StateS) : State :=
  MkState (ss_Size s) (elements (nodeArrays e) (ss_Nodes s)) (ss_IndexedSeq s) (ss_FirstPendingAt s) (ss_Checkpoint s)
    (elements (rowArrays e) (ss_Witnesses s)).

Definition engineIn (e : EngineS) : Engine := MkEngine (entriesS e) (byValueS e) (stateIn e (stateS e)).

Definition snapshotIn (e : EngineS) (snapshot : SnapshotS) : Snapshot :=
  MkSnapshot (entryCountS snapshot) (stateIn e (snapStateS snapshot)).

(** [value.Nodes = nodes; value.Witnesses = witnesses] *)
Definition with_slices (value : State) (nodes witnesses : Slice) : StateS :=
  MkStateS (st_Size value) nodes (st_IndexedSeq value) (st_FirstPendingAt value) (st_Checkpoint value) witnesses.

Definition NewS : EngineS := MkEngineS [] ∅ (MkStateS 0 nil 0 None None nil) [] [].

Definition takeSnapshotS (e : EngineS) : SnapshotS := MkSnapshotS (zlen (entriesS e)) (stateS e).

Definition RestoreS (e : EngineS) (snapshot : SnapshotS) : EngineS * check :=
  if zlen (entriesS e) <? entryCountS snapshot then (e, Err ErrCorrupt)
  else
    let n := Z.to_nat (entryCountS snapshot) in
    (MkEngineS (take n (entriesS e))
       (fold_left (fun m entry => delete (entry_Value entry) m) (drop n (entriesS e)) (byValueS e))
       (snapStateS snapshot) (nodeArrays e) (rowArrays e), Ok tt).

Definition AppendS (e : EngineS) (input : AppendInput) : EngineS * result AppendResult :=
  let '(v, r) := Append (engineIn e) input in
  (MkEngineS (entries v) (byValue v) (stateS e) (nodeArrays e) (rowArrays e), r).

Section Engines.
Context `{DT : DtMmr}.

(** What the runtime leaves behind the elements of the arrays it grows. *)
Variable spareNodes : nat -> list bytes.
Variable spareRows : nat -> list WitnessState.

(** Full commits copy: [cloneBytesList] makes an array, and the rows are
    appended to [nil]. *)
Definition CommitCLLS (e : EngineS) (expectedSize : Z) (expectedCheckpoint : option bytes) (next : State) :
    EngineS * check :=
  let current := stateIn e (stateS e) in
  match ApplyCLL current expectedSize expectedCheckpoint next with
  | Err err => (e, Err err)
  | Ok updated =>
      let kept := length (st_Witnesses current) in
      let '(nodes, n) := make (nodeArrays e) (st_Nodes updated) in
      let '(rows, w) := append spareRows (rowArrays e) nil (take kept (st_Witnesses updated)) in
      let '(rows, w) := append spareRows rows w (drop kept (st_Witnesses updated)) in
      (MkEngineS (entriesS e) (byValueS e) (with_slices updated n w) nodes rows, Ok tt)
  end.

(** Delta commits append to the slices of the current state. *)
Definition CommitCLLDeltaS (e : EngineS) (expectedSize : Z) (expectedCheckpoint : option bytes) (delta : State) :
    EngineS * check :=
  match checkDelta (stateIn e (stateS e)) expectedSize expectedCheckpoint delta with
  | Err err => (e, Err err)
  | Ok added =>
      let '(nodes, n) := append spareNodes (nodeArrays e) (ss_Nodes (stateS e)) (cloneBytesList (st_Nodes delta)) in
      let '(rows, w) := append spareRows (rowArrays e) (ss_Witnesses (stateS e)) added in
      (MkEngineS (entriesS e) (byValueS e) (with_slices (cloneStateHeader delta) n w) nodes rows, Ok tt)
  end.

(** The rows are copied before one is written; the nodes are shared. *)
Definition CommitWitnessS (e : EngineS) (expectedAttempts : Z) (next : WitnessState) : EngineS * check :=
  match ApplyWitness (stateIn e (stateS e)) expectedAttempts next with
  | Err err => (e, Err err)
  | Ok updated =>
      let '(rows, w) := append spareRows (rowArrays e) nil (st_Witnesses updated) in
      (MkEngineS (entriesS e) (byValueS e) (with_slices updated (ss_Nodes (stateS e)) w) (nodeArrays e) rows, Ok tt)
  end.

Definition performS (e : EngineS) (op : Op) : EngineS :=
  match op with
  | OpAppend input => fst (AppendS e input)
  | OpCommitCLL size checkpoint next => fst (CommitCLLS e size checkpoint next)
  | OpCommitDelta size checkpoint delta => fst (CommitCLLDeltaS e size checkpoint delta)
  | OpCommitWitness attempts next => fst (CommitWitnessS e attempts next)
  end.

(** ** Snapshots as a stack *)

(** A mutation, a snapshot, or going back to the [k]-th newest snapshot, which
    ends the use of the ones taken after it. *)
Inductive Move :=
| MOp (op : Op)
| MSnapshot
| MRestore (k : nat).

Definition play (w : Engine * list Snapshot) (move : Move) : Engine * list Snapshot :=
  let '(e, kept) := w in
  match move with
  | MOp op => (perform e op, kept)
  | MSnapshot => (e, takeSnapshot e :: kept)
  | MRestore k => match kept !! k with Some s => (fst (Restore e s), drop k kept) | None => (e, kept) end
  end.

Definition playS (w : EngineS * list SnapshotS) (move : Move) : EngineS * list SnapshotS :=
  let '(e, kept) := w in
  match move with
  | MOp op => (performS e op, kept)
  | MSnapshot => (e, takeSnapshotS e :: kept)
  | MRestore k => match kept !! k with Some s => (fst (RestoreS e s), drop k kept) | None => (e, kept) end
  end.

End Engines.

(** ** States keep their values *)

Definition keptNodes (kept : list SnapshotS) : list Slice := map (fun s => ss_Nodes (snapStateS s)) kept.
Definition keptRows (kept : list SnapshotS) : list Slice := map (fun s => ss_Witnesses (snapStateS s)) kept.

(** The slices of the state and of the snapshots, from the newest. *)
Definition sharing (e : EngineS) (kept : list SnapshotS) : Prop :=
  stacked (nodeArrays e) (ss_Nodes (stateS e) :: keptNodes kept) /\
  stacked (rowArrays e) (ss_Witnesses (stateS e) :: keptRows kept).

(** [e'] stands for [v], and the snapshots stand for what they did. *)
Definition moved (e e' : EngineS) (kept : list SnapshotS) (v : Engine) : Prop :=
  sharing e' kept /\ engineIn e' = v /\ map (snapshotIn e') kept = map (snapshotIn e) kept.

Lemma snapshots_same (e e' : EngineS) (kept : list SnapshotS) :
  same (nodeArrays e) (nodeArrays e') (keptNodes kept) -> same (rowArrays e) (rowArrays e') (keptRows kept) ->
  map (snapshotIn e') kept = map (snapshotIn e) kept.
Proof.
  induction kept as [|s kept IH]; [done|]. intros [Hn Hns]%Forall_cons [Hr Hrs]%Forall_cons. cbn [map]. rewrite IH by done.
  f_equal. unfold snapshotIn, stateIn. by rewrite Hn, Hr.
Qed.

Lemma moved_refl (e : EngineS) (kept : list SnapshotS) : sharing e kept -> moved e e kept (engineIn e).
Proof. by split. Qed.

(** A new state, over arrays that were extended or written behind every slice. *)
Lemma moved_to (e : EngineS) (kept : list SnapshotS) (updated : State) (n w : Slice) (nodes : list (list bytes))
    (rows : list (list WitnessState)) (ns : list bytes) (ws : list WitnessState) :
  stacked nodes (n :: keptNodes kept) /\ elements nodes n = ns /\ same (nodeArrays e) nodes (keptNodes kept) ->
  stacked rows (w :: keptRows kept) /\ elements rows w = ws /\ same (rowArrays e) rows (keptRows kept) ->
  moved e (MkEngineS (entriesS e) (byValueS e) (with_slices updated n w) nodes rows) kept
    (MkEngine (entriesS e) (byValueS e) (with_rows updated ns ws)).
Proof.
  intros (Hn & <- & Hns) (Hw & <- & Hws). split; [by split|]. split; [done|]. by apply snapshots_same.
Qed.

Lemma stacked_nil {A} (arrays : list (list A)) (slices : list Slice) : stacked arrays slices -> stacked arrays (nil :: slices).
Proof.
  intros Hs. apply stacked_cons. split_and!; [done| |done]. apply Forall_forall. intros o _ _ Hn.
  by destruct Hn.
Qed.

Lemma stacked_sublist {A} (arrays : list (list A)) (slices slices' : list Slice) :
  slices `sublist_of` slices' -> stacked arrays slices' -> stacked arrays slices.
Proof.
  induction 1 as [|s l k Hl IH|s l k Hl IH]; intros Hst; [done| |]; apply stacked_cons in Hst as (Hs & He & Hk); [|by apply IH].
  apply stacked_cons. split_and!; [done| |by apply IH]. apply Forall_forall. intros t Ht.
  exact (proj1 (Forall_forall _ _) He t (elem_of_sublist _ _ _ Ht Hl)).
Qed.

Lemma stacked_again {A} (arrays : list (list A)) (s : Slice) (slices : list Slice) :
  stacked arrays (s :: slices) -> stacked arrays (s :: s :: slices).
Proof.
  intros Hst. pose proof Hst as (Hs & He & _)%stacked_cons. apply stacked_cons. split_and!; [done| |done].
  constructor; [|done]. by intros _ _.
Qed.

Lemma map_sublist {A B} (f : A -> B) (l k : list A) : l `sublist_of` k -> map f l `sublist_of` map f k.
Proof. induction 1; by constructor. Qed.

Lemma same_trans {A} (a b c : list (list A)) (slices : list Slice) : same a b slices -> same b c slices -> same a c slices.
Proof.
  unfold same. rewrite !Forall_forall. intros Hab Hbc s Hs. by rewrite Hbc, Hab.
Qed.

Lemma moved_state (e : EngineS) (kept : list SnapshotS) (updated : State) (n w : Slice) (nodes : list (list bytes))
    (rows : list (list WitnessState)) :
  stacked nodes (n :: keptNodes kept) /\ elements nodes n = st_Nodes updated /\ same (nodeArrays e) nodes (keptNodes kept) ->
  stacked rows (w :: keptRows kept) /\ elements rows w = st_Witnesses updated /\ same (rowArrays e) rows (keptRows kept) ->
  moved e (MkEngineS (entriesS e) (byValueS e) (with_slices updated n w) nodes rows) kept
    (MkEngine (entriesS e) (byValueS e) updated).
Proof.
  intros Hn Hw. destruct (moved_to e kept updated n w nodes rows _ _ Hn Hw) as (? & Hv & ?).
  split; [done|]. split; [rewrite Hv; by destruct updated|done].
Qed.

Section Moves.
Context `{DT : DtMmr} (spareNodes : nat -> list bytes) (spareRows : nat -> list WitnessState).
Context (e : EngineS) (kept : list SnapshotS).
Hypothesis He : sharing e kept.

Lemma AppendS_moves (input : AppendInput) : moved e (fst (AppendS e input)) kept (fst (Append (engineIn e) input)).
Proof.
  assert (state (fst (Append (engineIn e) input)) = state (engineIn e)) as Hstate.
  { unfold Append. destruct (_ || _); [done|]. destruct (_ !! _); [done|]. by destruct (_ <? _). }
  unfold AppendS. destruct (Append (engineIn e) input) as [v r]. cbn [fst] in *. split; [exact He|]. split; [|done].
  destruct v as [es m st]. cbn [state] in Hstate. by rewrite Hstate.
Qed.

Lemma CommitCLLS_moves (size : Z) (checkpoint : option bytes) (next : State) :
  moved e (fst (CommitCLLS spareRows e size checkpoint next)) kept (fst (CommitCLL (engineIn e) size checkpoint next)).
Proof.
  unfold CommitCLLS, CommitCLL. cbn [engineIn state entries byValue]. destruct (ApplyCLL _ _ _ _) as [updated|err]; [|by apply moved_refl].
  destruct He as [(_ & _ & Hn)%stacked_cons (_ & _ & Hw)%stacked_cons].
  pose proof (make_stacked _ (st_Nodes updated) [] _ Hn) as Hmake. rewrite app_nil_r in Hmake. unfold make. cbv zeta in *.
  set (k := length (st_Witnesses _)).
  pose proof (append_stacked spareRows _ _ (take k (st_Witnesses updated)) _ (stacked_nil _ _ Hw)) as H1.
  destruct (append spareRows (rowArrays e) nil _) as [rows1 w1]. destruct H1 as (Hs1 & He1 & Hsame1).
  pose proof (append_stacked spareRows _ _ (drop k (st_Witnesses updated)) _ Hs1) as H2.
  destruct (append spareRows rows1 w1 _) as [rows2 w2]. destruct H2 as (Hs2 & He2 & Hsame2).
  cbn [fst]. apply moved_state; [exact Hmake|]. split_and!; [done| |by eapply same_trans].
  rewrite He2, He1. unfold elements, room. cbn [nil array len take app]. apply take_drop.
Qed.

Lemma CommitCLLDeltaS_moves (size : Z) (checkpoint : option bytes) (delta : State) :
  moved e (fst (CommitCLLDeltaS spareNodes spareRows e size checkpoint delta)) kept
    (fst (CommitCLLDelta (engineIn e) size checkpoint delta)).
Proof.
  unfold CommitCLLDeltaS, CommitCLLDelta. cbn [engineIn state entries byValue]. destruct (checkDelta _ _ _ _) as [added|err]; [|by apply moved_refl].
  destruct He as [Hn Hw].
  pose proof (append_stacked spareNodes _ _ (cloneBytesList (st_Nodes delta)) _ Hn) as H1.
  destruct (append spareNodes _ _ _) as [nodes n]. pose proof (append_stacked spareRows _ _ added _ Hw) as H2.
  destruct (append spareRows _ _ _) as [rows w]. cbn [fst]. by apply moved_to.
Qed.

Lemma CommitWitnessS_moves (attempts : Z) (next : WitnessState) :
  moved e (fst (CommitWitnessS spareRows e attempts next)) kept (fst (CommitWitness (engineIn e) attempts next)).
Proof.
  unfold CommitWitnessS, CommitWitness. cbn [engineIn state entries byValue].
  destruct (ApplyWitness _ _ _) as [updated|err] eqn:Happly; [|by apply moved_refl].
  destruct He as [Hn (_ & _ & Hw)%stacked_cons].
  pose proof (append_stacked spareRows _ _ (st_Witnesses updated) _ (stacked_nil _ _ Hw)) as H1.
  destruct (append spareRows _ _ _) as [rows w]. cbn [fst].
  apply moved_state; [|exact H1]. split_and!; [exact Hn| |by apply Forall_true].
  unfold ApplyWitness in Happly. destruct (validateWitness _ _); [|done]. cbn [mbind result_bind] in Happly.
  destruct (replaceWitness _ _ _); [|done]. cbn [mbind result_bind] in Happly. by injection Happly as <-.
Qed.

Lemma performS_moves (op : Op) : moved e (performS spareNodes spareRows e op) kept (perform (engineIn e) op).
Proof.
  destruct op; [apply AppendS_moves|apply CommitCLLS_moves|apply CommitCLLDeltaS_moves|apply CommitWitnessS_moves].
Qed.

(** Going back to a snapshot of the stack. *)
Lemma RestoreS_moves (k : nat) (s : SnapshotS) :
  kept !! k = Some s -> moved e (fst (RestoreS e s)) (drop k kept) (fst (Restore (engineIn e) (snapshotIn e s))).
Proof.
  intros Hs. unfold RestoreS, Restore. cbn [snapshotIn snap_entryCount snap_state engineIn entries byValue].
  destruct He as [Hn Hw]. destruct (_ <? _); cbn [fst]; (split; [|done]); unfold sharing, keptNodes, keptRows.
  - rewrite <- !skipn_map. split; (eapply stacked_sublist; [apply sublist_skip, sublist_drop|done]).
  - pose proof (sublist_drop kept k) as Hk. rewrite (drop_S kept s k Hs) in Hk |- *. cbn [stateS nodeArrays rowArrays map].
    split; apply stacked_again; (eapply stacked_sublist; [|eassumption]); apply sublist_cons.
    + exact (map_sublist (fun s => ss_Nodes (snapStateS s)) _ _ Hk).
    + exact (map_sublist (fun s => ss_Witnesses (snapStateS s)) _ _ Hk).
Qed.

End Moves.

(** ** Histories *)

Section Histories.
Context `{DT : DtMmr} (spareNodes : nat -> list bytes) (spareRows : nat -> list WitnessState).

Definition worldIn (w : EngineS * list SnapshotS) : Engine * list Snapshot :=
  (engineIn (fst w), map (snapshotIn (fst w)) (snd w)).

Lemma playS_play (w : EngineS * list SnapshotS) (move : Move) :
  sharing (fst w) (snd w) ->
  sharing (fst (playS spareNodes spareRows w move)) (snd (playS spareNodes spareRows w move)) /\
  worldIn (playS spareNodes spareRows w move) = play (worldIn w) move.
Proof.
  destruct w as [e kept]. cbn [fst snd]. intros He. destruct move as [op| |k]; cbn [playS play worldIn fst snd].
  - destruct (performS_moves spareNodes spareRows e kept He op) as (Hs & Hv & Hk). split; [done|]. unfold worldIn. cbn [fst snd].
    by rewrite Hv, Hk.
  - split; [|done]. destruct He as [Hn Hw]. split; by apply stacked_again.
  - change (map (snapshotIn e) kept) with (snapshotIn e <$> kept). rewrite list_lookup_fmap. destruct (kept !! k) as [s|] eqn:Hs; cbn [fmap option_fmap option_map]; [|done].
    destruct (RestoreS_moves e kept He k s Hs) as (Hsh & Hv & Hk). split; [done|]. unfold worldIn. cbn [fst snd].
    by rewrite Hv, Hk, skipn_map.
Qed.

(** C15: however often delta commits write into arrays that snapshots share,
    an engine and every snapshot on the stack hold what they would if states
    were copied: going back to a snapshot gives the state it was taken of, and
    the snapshots before it stay good. *)
Theorem snapshots_keep_their_values (moves : list Move) :
  worldIn (fold_left (playS spareNodes spareRows) moves (NewS, [])) = fold_left play moves (New, []).
Proof.
  enough (forall w, sharing (fst w) (snd w) ->
    worldIn (fold_left (playS spareNodes spareRows) moves w) = fold_left play moves (worldIn w)) as H.
  { rewrite H; [done|]. split; apply stacked_nil; split; by constructor. }
  induction moves as [|move moves IH]; intros w Hw; cbn [fold_left]; [done|].
  destruct (playS_play w move Hw) as [Hs Hplay]. by rewrite IH, Hplay.
Qed.

End Histories.

(** ** Out of order *)

Import Ref.

Definition sampleNode (b : byte) : bytes := replicate 32 b.

(** Deltas to one leaf, and from there to two leaves. *)
Definition firstDelta : State := MkState 1 [sampleNode Byte.x01] 1 None None [].
Definition otherDelta (b : byte) : State := MkState 3 [sampleNode b; sampleNode b] 2 None None [].

(** Arrays that [append] makes have room for two more. *)
Definition roomForTwo (_ : nat) : list bytes := [[]; []].

Definition commitDelta (e : EngineS) (size : Z) (delta : State) : EngineS :=
  fst (CommitCLLDeltaS (DT := dt_reference) roomForTwo (fun _ => []) e size None delta).

(** Two deltas from the same snapshot: the second is written where the first is. *)
Definition oneLeaf : EngineS := commitDelta NewS 0 firstDelta.
Definition twoLeaves : EngineS := commitDelta oneLeaf 1 (otherDelta Byte.x02).
Definition otherLeaves : EngineS := commitDelta (fst (RestoreS twoLeaves (takeSnapshotS oneLeaf))) 1 (otherDelta Byte.x03).

(** A snapshot does not survive going back past it: it is restored without an
    error, to the nodes that replaced its own. *)
Lemma late_snapshot_is_overwritten :
  snd (RestoreS otherLeaves (takeSnapshotS twoLeaves)) = Ok tt /\
  st_Nodes (state (engineIn twoLeaves)) = [sampleNode Byte.x01; sampleNode Byte.x02; sampleNode Byte.x02] /\
  st_Nodes (state (engineIn (fst (RestoreS otherLeaves (takeSnapshotS twoLeaves))))) =
    [sampleNode Byte.x01; sampleNode Byte.x03; sampleNode Byte.x03].
Proof. split_and!; vm_compute; reflexivity. Qed.

End Sharing.
