(* ===== verification/JsonlProofs.v ===== *)
(** * Durability of the journal

    The file of a store always replays to the log the store holds: every call
    extends the file by the event of its mutation, or leaves file and log as
    they were, or closes the store with at most a part of a line at the end of
    the file.  Whatever a file contains, opening it yields a valid log or an
    error and never removes a complete line. *)

From S2P Require Import Prelude DtMmr Text Base64 Mmr Cll Portable Engine EngineLog EngineState EngineHistory.
From S2P Require Import EngineWitness Wire WireProofs Utf8 Json JsonProofs Journal JournalProofs Jsonl.
From S2P Require Import JournalText JsonlReplay.
Import Jsonl Text JsonProofs Cll Portable Engine EngineLog EngineState EngineHistory EngineWitness Wire.
Import WireProofs Journal JournalProofs JournalText JsonlReplay.

Module JsonlProofs.

Local Open Scope Z_scope.

(** ** The file of a journal, line by line

    A journal is a sequence of lines, each of which takes the engine one event
    further, and possibly the beginning of another line. *)

(** ** Lines *)

Lemma indexNewline_line (line rest : bytes) :
  newline ∉ line -> indexNewline (line ++ newline :: rest) = Some (length line).
Proof.
  induction line as [|b line IH]; cbn [app indexNewline length]; [done|].
  intros [Hb Hl]%not_elem_of_cons. rewrite bool_decide_false by congruence. by rewrite IH.
Qed.

Lemma indexNewline_None (s : bytes) : indexNewline s = None <-> newline ∉ s.
Proof.
  induction s as [|b s IH]; cbn [indexNewline]; [split; [intros _ H; inversion H|done]|].
  rewrite not_elem_of_cons. case_bool_decide; [naive_solver|].
  destruct (indexNewline s); naive_solver.
Qed.

Lemma indexNewline_Some (s : bytes) (n : nat) :
  indexNewline s = Some n ->
  exists line rest, s = line ++ newline :: rest /\ newline ∉ line /\ length line = n.
Proof.
  revert n. induction s as [|b s IH]; cbn [indexNewline]; intros n; [done|].
  case_bool_decide as Hb.
  - intros [= <-]. exists [], s. subst b. split_and!; [done|intros H; inversion H|done].
  - destruct (indexNewline s) as [m|]; [|done]. intros [= <-].
    destruct (IH m eq_refl) as (line & rest & -> & Hl & <-). exists (b :: line), rest.
    split_and!; [done| |done]. apply not_elem_of_cons. by split; [congruence|].
Qed.

Lemma drop_line (line rest : bytes) : drop (length line + 1) (line ++ newline :: rest) = rest.
Proof. induction line as [|b line IH]; [done|]. apply IH. Qed.

Section Lines.
Context `{DT : DtMmr}.

(** Whole lines take one engine to another. *)
Inductive lines : Engine -> bool -> bytes -> Engine -> Prop :=
| lines_nil e initialized : lines e initialized [] e
| lines_cons e initialized line e1 rest e2 :
    newline ∉ line -> replayLine e initialized line = Ok e1 -> lines e1 true rest e2 ->
    lines e initialized (line ++ newline :: rest) e2.

Lemma lines_snoc (e : Engine) (initialized : bool) (data line : bytes) (e1 e2 : Engine) :
  lines e initialized data e1 -> newline ∉ line ->
  replayLine e1 (initialized || bool_decide (data <> [])) line = Ok e2 ->
  lines e initialized (data ++ line ++ [newline]) e2.
Proof.
  intros Hd Hn. induction Hd as [e b|e b l e1 rest e3 Hl He1 Hrest IH]; intros He2.
  - rewrite bool_decide_false, orb_false_r in He2 by naive_solver.
    apply (lines_cons _ _ line e2); [done|done|constructor].
  - rewrite <- app_assoc. cbn [app]. apply (lines_cons _ _ l e1); [done|done|]. apply IH.
    cbn [orb]. rewrite bool_decide_true, orb_true_r in He2; [done|]. by destruct l.
Qed.

(** The loop over whole lines and a torn tail. *)
Lemma replayLines_lines (fuel : nat) (e e' : Engine) (initialized : bool) (data tail : bytes) (validEnd : nat) :
  lines e initialized data e' -> newline ∉ tail -> (length data <= fuel)%nat ->
  replayLines fuel e (data ++ tail) validEnd initialized = Ok (e', (validEnd + length data)%nat).
Proof.
  intros Hd Ht. revert fuel validEnd. induction Hd as [e b|e b l e1 rest e2 Hl He1 Hrest IH];
    intros fuel validEnd Hf; cbn [app].
  - rewrite Nat.add_0_r. destruct fuel; [done|]. cbn [replayLines].
    by rewrite (proj2 (indexNewline_None tail) Ht).
  - rewrite length_app in Hf. cbn [length] in Hf. destruct fuel as [|fuel]; [lia|]. cbn [replayLines].
    rewrite <- app_assoc. cbn [app]. rewrite indexNewline_line by done. rewrite take_app_length, He1.
    cbn [mbind result_bind]. rewrite drop_line.
    rewrite IH by lia. rewrite length_app. cbn [length]. do 2 f_equal. lia.
Qed.

(** What the loop accepted. *)
Lemma replayLines_Ok (fuel : nat) (e e' : Engine) (initialized : bool) (data : bytes) (validEnd n : nat) :
  (length data <= fuel)%nat -> replayLines fuel e data validEnd initialized = Ok (e', n) ->
  exists good tail, data = good ++ tail /\ newline ∉ tail /\ lines e initialized good e' /\
    n = (validEnd + length good)%nat.
Proof.
  revert e initialized data validEnd. induction fuel as [|fuel IH]; intros e b data v Hf; cbn [replayLines].
  - destruct data; [|cbn in Hf; lia]. intros [= <- <-]. exists [], [].
    split_and!; [done|intros H; inversion H|constructor|cbn; lia].
  - destruct (indexNewline data) as [m|] eqn:Hi.
    + destruct (indexNewline_Some data m Hi) as (line & rest & -> & Hl & <-).
      rewrite take_app_length. destruct (replayLine e b line) as [e1|] eqn:He1; [|done].
      cbn [mbind result_bind]. rewrite drop_line.
      rewrite length_app in Hf. cbn [length] in Hf.
      intros (good & tail & -> & Ht & Hgood & ->)%IH; [|lia].
      exists (line ++ newline :: good), tail. split_and!; [by rewrite <- app_assoc|done| |].
      * by apply (lines_cons _ _ line e1).
      * rewrite length_app. cbn [length]. lia.
    + intros [= <- <-]. exists [], data. apply indexNewline_None in Hi.
      split_and!; [done|done|constructor|cbn; lia].
Qed.

Lemma replayLines_err (fuel : nat) (e : Engine) (initialized : bool) (data : bytes) (validEnd : nat) (err : error) :
  replayLines fuel e data validEnd initialized = Err err -> err = ErrCorrupt.
Proof.
  revert e initialized data validEnd. induction fuel as [|fuel IH]; intros e b data v; cbn [replayLines]; [done|].
  destruct (indexNewline data); [|done].
  destruct (replayLine e b _) as [e1|err1] eqn:He1; cbn [mbind result_bind]; [apply IH|]. intros [= <-].
  unfold replayLine in He1. repeat (case_match; simplify_eq/=; try done).
Qed.

End Lines.

(** ** Writing *)

(** The bytes a write loop leaves. *)
Lemma writeLoop_prefix (contents remaining : bytes) (outcomes : list WriteOutcome) :
  exists written left, remaining = written ++ left /\
    fst (writeLoop contents remaining outcomes) = contents ++ written /\
    (is_ok (snd (writeLoop contents remaining outcomes)) = true -> left = []).
Proof.
  revert contents remaining. induction outcomes as [|o outcomes IH]; intros contents remaining.
  - exists remaining, []. rewrite app_nil_r. destruct remaining; cbn; by rewrite ?app_nil_r.
  - destruct remaining as [|b remaining]; [exists [], []; cbn; by rewrite app_nil_r|].
    destruct o as [[|count]|count cause]; cbn [writeLoop].
    + exists [], (b :: remaining). cbn. by rewrite app_nil_r.
    + destruct (IH (contents ++ take (S count) (b :: remaining)) (drop (S count) (b :: remaining)))
        as (written & left & Hsplit & Hfile & Hok).
      exists (take (S count) (b :: remaining) ++ written), left.
      split_and!; [by rewrite <- app_assoc, <- Hsplit, take_drop|by rewrite Hfile, app_assoc|done].
    + exists (take count (b :: remaining)), (drop count (b :: remaining)). by rewrite take_drop.
Qed.

(** [appendEvent] writes the line, or leaves the store as it was, or closes it
    with at most a part of the line in the file. *)
Inductive append_outcome (s : Store) (line : bytes) : Store -> check -> Prop :=
| append_written :
    zlen line <= MaxJournalEventBytes ->
    append_outcome s line (MkStore (file s ++ line) (engine s) (closed s)) (Ok tt)
| append_undone (err : error) : append_outcome s line s (Err err)
| append_broken (written left : bytes) :
    zlen line <= MaxJournalEventBytes -> line = written ++ left ->
    append_outcome s line (MkStore (file s ++ written) (engine s) true) (Err ErrCorrupt).

Lemma rollback_outcome (s : Store) (line written left : bytes) (err : error) (io : AppendIO) :
  zlen line <= MaxJournalEventBytes -> line = written ++ left ->
  append_outcome s line
    (fst (rollback (MkStore (file s ++ written) (engine s) (closed s)) (length (file s)) err io))
    (snd (rollback (MkStore (file s ++ written) (engine s) (closed s)) (length (file s)) err io)).
Proof.
  intros Hlen Hline. unfold rollback. cbn [file engine closed]. rewrite take_app_length.
  destruct (is_ok (io_truncated io)); [destruct (is_ok (syncFileAt io))|]; cbn [andb fst snd].
  - destruct s. apply append_undone.
  - rewrite <- (app_nil_r (file s)) at 1. by apply (append_broken s line [] line).
  - by apply (append_broken s line written left).
Qed.

Lemma appendEvent_outcome (s : Store) (item : event) (io : AppendIO) :
  append_outcome s (Marshal item ++ [newline]) (fst (appendEvent s item io)) (snd (appendEvent s item io)).
Proof.
  unfold appendEvent. destruct (Z.ltb_spec MaxJournalEventBytes (zlen (Marshal item ++ [newline]))) as [|Hlen];
    [apply append_undone|].
  destruct (io_seekEnd io) as [[]|err]; [|apply append_undone].
  destruct (writeLoop_prefix (file s) (Marshal item ++ [newline]) (io_writes io)) as (written & left & Hl & Hf & Hok).
  destruct (writeLoop (file s) (Marshal item ++ [newline]) (io_writes io)) as [contents [[]|err]];
    cbn [fst snd is_ok] in *; subst contents; [|by eapply rollback_outcome].
  rewrite (Hok eq_refl), app_nil_r in Hl. destruct (io_synced io) as [[]|err]; [rewrite <- Hl; by apply append_written|].
  eapply rollback_outcome; [done|]. rewrite Hl. symmetry. apply app_nil_r.
Qed.

Section Laws.
Context `{DT : DtMmr} `{!DtMmrLaws DT}.

(** ** Any file *)

(** Replayed logs are valid and have their times in milliseconds. *)
Definition settled (e : Engine) : Prop := engine_ok e /\ normalState (state e) = state e.

Lemma settled_reopened (e : Engine) : settled e -> reopened e = e.
Proof. intros [_ Hn]. unfold reopened. rewrite Hn. by destruct e. Qed.

Lemma reopened_settled (e : Engine) : engine_ok e -> settled (reopened e).
Proof.
  intros He. split; [by apply reopened_ok|]. unfold reopened, normalState. cbn [state st_Size st_Nodes
    st_IndexedSeq st_FirstPendingAt st_Checkpoint st_Witnesses]. f_equal.
  - destruct (st_FirstPendingAt (state e)) as [t|]; [|done]. cbn. by rewrite NormalizeTime_idem.
  - rewrite map_map. apply map_ext. intros w. unfold normalWitness. cbn. by rewrite NormalizeTime_idem.
Qed.

Lemma stateFromWire_nodes (wire : WireState) (s : State) :
  stateFromWire wire = Ok s -> zlen (st_Nodes s) = zlen (ws_Nodes wire).
Proof.
  unfold stateFromWire.
  intros (size & _ & (indexed & _ & (nodes & Hn & (p & _ & (c & _ & (ws & _ & Hs)%bind_Ok)%bind_Ok)%bind_Ok)%bind_Ok)%bind_Ok)%bind_Ok.
  revert Hs. intros [= <-]. cbn [st_Nodes]. unfold zlen. by rewrite (traverse_length _ _ _ Hn).
Qed.

Lemma delta_settled (e : Engine) (delta : State) (expectedSize : Z) (expectedCheckpoint : option bytes) :
  settled e -> normalState delta = delta -> zlen (st_Nodes delta) < two63 ->
  settled (fst (CommitCLLDelta e expectedSize expectedCheckpoint delta)).
Proof.
  intros [He Hn] Hd Hlen. split; [by apply (perform_step e (OpCommitDelta expectedSize expectedCheckpoint delta))|].
  rewrite CommitCLLDelta_expand by (apply He || done).
  destruct (CommitCLL e expectedSize expectedCheckpoint (expand (state e) delta)) as [e' [[]|err]] eqn:Hc.
  - apply CommitCLL_Ok in Hc as (_ & _ & _ & _ & _ & ->); [|apply He]. cbn [fst state].
    rewrite committed_normal, Hn. f_equal.
    change (expand (state e) (normalState delta) = expand (state e) delta). by rewrite Hd.
  - unfold CommitCLL in Hc. destruct (ApplyCLL _ _ _ _); simplify_eq. done.
Qed.

Lemma witness_settled (e : Engine) (attempts : Z) (next : WitnessState) :
  settled e -> normalWitness next = next -> settled (fst (CommitWitness e attempts next)).
Proof.
  intros [He Hn] Hw. split; [by apply (perform_step e (OpCommitWitness attempts next))|].
  destruct (CommitWitness_cases e attempts next He) as [[_ ->]|[(_ & _ & ->)|(_ & _ & pre & w & post & Hws & _ & ->)]];
    [done|done|]. cbn [fst state]. revert Hn Hws. unfold normalState, with_rows.
  destruct (state e) as [size nodes iseq p cp rows]. cbn. intros [= Hp Hrows] ->. f_equal; [done|].
  rewrite map_app in *. cbn [map] in *. apply app_inj_1 in Hrows as [Hpre Hrest]; [|by rewrite length_map].
  injection Hrest as _ Hpost. by rewrite Hpre, Hw, Hpost.
Qed.

Lemma applyEvent_settled (e e' : Engine) (ev : event) :
  settled e -> event_sized (Z.to_nat (two63 - 1)) ev -> applyEvent e ev = Ok e' -> settled e' /\ engine_le e e'.
Proof.
  intros He Hs. unfold applyEvent.
  case_bool_decide; [repeat (case_match; try done); by intros [= <-]|].
  case_bool_decide.
  { destruct (ev_Entry ev) as [wire|]; [|done]. intros (entry & _ & Ha)%bind_Ok.
    destruct (perform_step e (OpAppend (MkAppendInput (entry_Value entry) (entry_AppendedAt entry))) (proj1 He) I)
      as [Hok Hle]. cbn [perform] in *.
    destruct (Append_refine e (MkAppendInput (entry_Value entry) (entry_AppendedAt entry)) (ok_log _ (proj1 He)))
      as (_ & Hst & _).
    destruct (Engine.Append e _) as [e1 [r|]]; [|done]. cbn [fst] in *.
    destruct (ar_Outcome r); [|done]. destruct (_ =? _); [|done]. injection Ha as <-.
    split; [|done]. split; [done|]. rewrite Hst. apply He. }
  case_bool_decide.
  { destruct (ev_State ev) as [wire|] eqn:Hst; [|done]. destruct (ParseDecimal _) as [expected|]; [|done].
    intros (cp & _ & (next & Hnext & Hc)%bind_Ok)%bind_Ok.
    pose proof (stateFromWire_nodes _ _ Hnext) as Hlen. specialize (Hs wire Hst). unfold nodes_le in Hs.
    assert (zlen (st_Nodes next) < two63) as Hsz by (rewrite Hlen; unfold zlen; unfold two63 in *; lia).
    pose proof (delta_settled e next expected cp He (stateFromWire_normal _ _ Hnext) Hsz) as Hset.
    destruct (perform_step e (OpCommitDelta expected cp next) (proj1 He) Hsz) as [_ Hle]. cbn [perform] in Hle.
    destruct (CommitCLLDelta e expected cp next) as [e1 [[]|]]; [|done]. by injection Hc as <-. }
  case_bool_decide; [|done].
  destruct (ev_ExpectedAttempts ev) as [attempts|]; [|done]. destruct (ev_Witness ev) as [wire|]; [|done].
  intros (row & Hrow & Hc)%bind_Ok. apply WitnessFromWire_Ok in Hrow as [_ Hn].
  pose proof (witness_settled e attempts row He Hn) as Hset.
  destruct (perform_step e (OpCommitWitness attempts row) (proj1 He) I) as [_ Hle]. cbn [perform] in Hle.
  destruct (Engine.CommitWitness e attempts row) as [e1 [[]|]]; [|done]. by injection Hc as <-.
Qed.

Lemma replayLine_settled (e e' : Engine) (initialized : bool) (line : bytes) :
  settled e -> replayLine e initialized line = Ok e' -> settled e' /\ engine_le e e'.
Proof.
  intros He. unfold replayLine. destruct (Z.ltb_spec MaxJournalEventBytes (zlen line)) as [|Hlen]; [done|].
  destruct (negb _); [done|]. destruct (UnmarshalHeader line); [|done]. destruct (negb _); [done|].
  destruct (_ && _); [done|]. destruct (Unmarshal line) as [ev|] eqn:Hu; [|done].
  destruct (applyEvent e ev) as [e1|] eqn:Ha; [|done]. intros [= <-].
  apply (applyEvent_settled e e1 ev); [done| |done]. intros w Hw.
  pose proof (Unmarshal_sized line ev Hu w Hw) as Hs. unfold nodes_le, zlen, MaxJournalEventBytes, two63 in *. lia.
Qed.

Lemma lines_settled (e e' : Engine) (initialized : bool) (data : bytes) :
  lines e initialized data e' -> settled e -> settled e' /\ engine_le e e'.
Proof.
  induction 1 as [|e b line e1 rest e2 Hl He1 Hrest IH]; intros He; [by split|].
  destruct (replayLine_settled e e1 b line He He1) as [He1' Hle]. destruct (IH He1') as [He2 Hle2].
  split; [done|by etrans].
Qed.

Lemma New_settled : settled New.
Proof. split; [apply New_ok|done]. Qed.

(** ** The file of a store *)

(** The whole lines of a file replay to the reopened log. *)
Definition recorded (data : bytes) (e : Engine) : Prop := data <> [] /\ lines New false data (reopened e).

Record durable (s : Store) (e : Engine) : Prop := {
  durable_open : closed s = false;
  durable_engine : engine s = e;
  durable_ok : engine_ok e;
  durable_file : recorded (file s) e
}.

(** The whole lines, and a part of another. *)
Definition recoverable (data : bytes) (e : Engine) : Prop :=
  exists good tail, data = good ++ tail /\ newline ∉ tail /\ lines New false good (reopened e).

Lemma recorded_recoverable (data : bytes) (e : Engine) : recorded data e -> recoverable data e.
Proof.
  intros [_ Hl]. exists data, []. rewrite app_nil_r. split_and!; [done|intros H; inversion H|done].
Qed.

Definition fits (ev : event) : Prop := zlen (Marshal ev ++ [newline]) <= MaxJournalEventBytes.

(** The event of a mutation from [e] to [e']. *)
Definition records (e e' : Engine) (item : result event) : Prop :=
  exists ev, item = Ok ev /\ newline ∉ Marshal ev /\
    (fits ev -> replayLine (reopened e) true (Marshal ev) = Ok (reopened e')).

Lemma recorded_snoc (data : bytes) (e e' : Engine) (ev : event) :
  recorded data e -> newline ∉ Marshal ev -> replayLine (reopened e) true (Marshal ev) = Ok (reopened e') ->
  recorded (data ++ Marshal ev ++ [newline]) e'.
Proof.
  intros [Hne Hl] Hn Hr. split; [by destruct data|]. apply (lines_snoc _ _ _ _ (reopened e)); [done|done|].
  by rewrite bool_decide_true.
Qed.

(** A part of the line of a mutation leaves the log before it or after it. *)
Lemma torn_recoverable (data written left : bytes) (e e' : Engine) (ev : event) :
  recorded data e -> newline ∉ Marshal ev -> replayLine (reopened e) true (Marshal ev) = Ok (reopened e') ->
  Marshal ev ++ [newline] = written ++ left ->
  recoverable (data ++ written) e \/ recoverable (data ++ written) e'.
Proof.
  intros Hd Hn Hr Hline. destruct left as [|b left].
  - right. rewrite app_nil_r in Hline. rewrite <- Hline. by eapply recorded_recoverable, recorded_snoc.
  - left. exists data, written. split_and!; [done| |apply Hd]. intros Hin. apply Hn.
    assert (Marshal ev = written ++ removelast (b :: left)) as ->; [|by apply elem_of_app; left].
    rewrite <- removelast_app by done. rewrite <- Hline. rewrite removelast_app by done. cbn. by rewrite app_nil_r.
Qed.

(** ** Calls *)

(** A call acts as the engine, or fails without a trace, or closes the store
    over a file that recovers to the log before or after the call. *)
Inductive outcome {A} (e : Engine) (spec : Engine * result A) (s : Store) : Store * result A -> Prop :=
| outcome_done (s' : Store) : durable s' (fst spec) -> outcome e spec s (s', snd spec)
| outcome_failed (err : error) : outcome e spec s (s, Err err)
| outcome_broken (s' : Store) (err : error) :
    closed s' = true -> recoverable (file s') e \/ recoverable (file s') (fst spec) ->
    outcome e spec s (s', Err err).

(** System calls that succeed. *)
Definition calm (io : AppendIO) : Prop :=
  io_seekEnd io = Ok tt /\ io_writes io = [] /\ io_synced io = Ok tt.

Lemma persist_outcome (s : Store) (e e' : Engine) (more : list Entry) (item : result event) (io : AppendIO) :
  durable s e -> engine_ok e' -> entries e' = entries e ++ more -> records e e' item ->
  outcome e (e', Ok tt) s (persist (MkStore (file s) e' (closed s)) (takeSnapshot e) item io).
Proof.
  intros [Ho Hs He Hf] He' Hmore (ev & -> & Hn & Hr). rewrite Ho. unfold persist.
  set (s1 := MkStore (file s) e' false).
  assert (forall data shut cause, restore (MkStore data e' shut) (takeSnapshot e) cause = (MkStore data e shut, cause)) as Hres.
  { intros data shut cause. unfold restore. cbn [engine file closed].
    by rewrite (Restore_exact e e' more (ok_log _ He) (ok_log _ He') Hmore). }
  destruct (appendEvent s1 ev io) as [s2 r] eqn:Ha.
  pose proof (appendEvent_outcome s1 ev io) as Hout. rewrite Ha in Hout. cbn [fst snd] in Hout.
  inversion Hout as [Hfit|err|written left Hfit Hline]; subst s2 r; unfold s1; cbn [file engine closed].
  - apply (outcome_done _ (e', Ok tt)). split; [done|done|done|]. cbn [file].
    by apply (recorded_snoc _ e e' ev), Hr.
  - rewrite Hres. destruct s as [data es shut]. cbn [file engine closed] in *. subst es shut. apply outcome_failed.
  - rewrite Hres. apply outcome_broken; [done|]. by apply (torn_recoverable _ written left e e' ev Hf Hn (Hr Hfit)).
Qed.

(** A call whose system calls succeed and whose event fits is done. *)
Lemma persist_calm (s : Store) (e e' : Engine) (ev : event) (io : AppendIO) :
  durable s e -> engine_ok e' -> records e e' (Ok ev) -> fits ev -> calm io ->
  exists s', persist (MkStore (file s) e' (closed s)) (takeSnapshot e) (Ok ev) io = (s', Ok tt) /\ durable s' e'.
Proof.
  intros [Ho Hs He Hf] He' (ev' & [= <-] & Hn & Hr) Hfit (Hseek & Hw & Hsync). rewrite Ho.
  eexists. split.
  - unfold persist, appendEvent. rewrite (proj2 (Z.ltb_ge _ _) Hfit), Hseek, Hw. cbn [file engine closed].
    assert (writeLoop (file s) (Marshal ev ++ [newline]) [] = (file s ++ Marshal ev ++ [newline], Ok tt)) as ->
      by (by destruct (Marshal ev)).
    rewrite Hsync. done.
  - split; [done|done|done|]. cbn [file]. by apply (recorded_snoc _ e e' ev), Hr.
Qed.

(** ** The three mutations *)

Lemma good_line (e e' : Engine) (ev : event) :
  event_ranges ev -> event_utf8 ev -> ev_Version ev = schemaVersion ->
  applyEvent (reopened e) ev = Ok (reopened e') -> records e e' (Ok ev).
Proof.
  intros Hr H8 Hv Ha. exists ev. destruct (Unmarshal_Marshal ev Hr H8) as (_ & _ & [_ Hn]).
  split_and!; [done|done|]. intros Hfit. apply replayLine_event; try done.
  unfold fits in Hfit. rewrite zlen_app, zlen_cons, zlen_nil in Hfit. lia.
Qed.

Lemma event_ranges_plain (ev : event) :
  ev_Version ev = schemaVersion -> ev_ExpectedAttempts ev = None -> ev_State ev = None ->
  ev_Witness ev = None -> event_ranges ev.
Proof. intros Hv Ha Hs Hw. split; rewrite ?Ha, ?Hs, ?Hw; try done. by rewrite Hv. Qed.

Lemma append_records (e e' : Engine) (input : AppendInput) (r : AppendResult) :
  engine_ok e -> Engine.Append e input = (e', Ok r) -> ar_Outcome r = AppendInserted ->
  records e e' (entry_event <$> EntryToWire (ar_Entry r)).
Proof.
  intros He Ha Hr. destruct (apply_entry e e' input r He Ha Hr) as (wire & -> & H8 & Happ).
  apply good_line; [by apply event_ranges_plain| |done|done]. split; try done. by intros w [= <-].
Qed.

Lemma commit_records (e e' : Engine) (expectedSize : Z) (expectedCheckpoint : option bytes) (next : State) :
  engine_ok e -> u64 expectedSize -> state_storable next ->
  Engine.CommitCLL e expectedSize expectedCheckpoint next = (e', Ok tt) ->
  records e e' (commit_item e' (takeSnapshot e) expectedSize expectedCheckpoint).
Proof.
  intros He Hu Hst Hc.
  destruct (apply_commit e e' _ _ _ He Hu Hst Hc) as (delta & wire & Hd & Ht & H8 & Hg & Happ).
  unfold commit_item. rewrite Hd. cbn [mbind result_bind]. rewrite Ht.
  apply good_line; [|split; cbn; try done|done|done].
  - split; cbn; try done. by intros w [= <-].
  - apply asciiText_utf8, asciiText_FormatUint.
  - destruct expectedCheckpoint as [cp|]; [|done]. intros s [= <-]. apply asciiText_utf8, asciiText_base64.
  - by intros w [= <-].
Qed.

Lemma witness_records (e e' : Engine) (attempts : Z) (next : WitnessState) :
  engine_ok e -> uint32 attempts -> row_storable next ->
  Engine.CommitWitness e attempts next = (e', Ok tt) ->
  records e e' (witness_event attempts <$> WitnessToWire next).
Proof.
  intros He Hu Hst Hc. destruct (apply_witness e e' attempts next He Hst Hc) as (wire & -> & H8 & Hg & Happ).
  apply good_line; [|split; cbn; try done|done|done].
  - split; cbn; try done; [by intros n [= <-]|by intros w [= <-]].
  - by intros w [= <-].
Qed.

(** A mutation either leaves the engine or adds entries at the end. *)
Lemma append_cases (e : Engine) (input : AppendInput) :
  (exists r, snd (Engine.Append e input) = Ok r /\ ar_Outcome r = AppendInserted /\
     exists more, entries (fst (Engine.Append e input)) = entries e ++ more) \/
  (fst (Engine.Append e input) = e /\
     forall r, snd (Engine.Append e input) = Ok r -> ar_Outcome r = AppendIdempotent).
Proof.
  unfold Engine.Append. destruct (_ || _); [by right|].
  destruct (byValue e !! input_Value input) as [i|].
  - right. cbn [fst snd]. split; [done|]. destruct (index (entries e) i); [|done]. by intros r [= <-].
  - destruct (_ <? _); [by right|]. left. eexists. split_and!; [done|done|]. by eexists.
Qed.

Lemma commit_entries (e e' : Engine) (expectedSize : Z) (expectedCheckpoint : option bytes) (next : State) (r : check) :
  Engine.CommitCLL e expectedSize expectedCheckpoint next = (e', r) ->
  entries e' = entries e ++ [] /\ (is_ok r = false -> e' = e).
Proof.
  unfold Engine.CommitCLL. rewrite app_nil_r. destruct (ApplyCLL _ _ _ _); intros [= <- <-]; done.
Qed.

Lemma witness_entries (e e' : Engine) (attempts : Z) (next : WitnessState) (r : check) :
  Engine.CommitWitness e attempts next = (e', r) ->
  entries e' = entries e ++ [] /\ (is_ok r = false -> e' = e).
Proof.
  unfold Engine.CommitWitness. rewrite app_nil_r. destruct (ApplyWitness _ _ _); intros [= <- <-]; done.
Qed.

Lemma store_eta (s : Store) (e : Engine) : durable s e -> MkStore (file s) e (closed s) = s.
Proof. intros [_ <- _ _]. by destruct s. Qed.

(** Passing a result on. *)
Lemma outcome_map {A B} (e : Engine) (e' : Engine) (a : A) (b : B) (s s' : Store) (r : result A) :
  outcome e (e', Ok a) s (s', r) -> outcome e (e', Ok b) s (s', _ ← r; Ok b).
Proof.
  inversion 1 as [? Hd|err|? err Hc Hr]; subst; cbn [mbind result_bind fst snd] in *.
  - by apply (outcome_done e (e', Ok b)).
  - apply outcome_failed.
  - by apply outcome_broken.
Qed.

Lemma Append_outcome (s : Store) (e : Engine) (ctx : check) (io : AppendIO) (input : AppendInput) :
  durable s e -> outcome e (Engine.Append e input) s (Jsonl.Append s ctx io input).
Proof.
  intros Hd. unfold Jsonl.Append. destruct ctx as [[]|err]; [|apply outcome_failed].
  pose proof (store_eta s e Hd) as Heta. destruct (perform_step e (OpAppend input) (durable_ok _ _ Hd) I) as [Hok _].
  cbn [perform] in Hok. rewrite (durable_open _ _ Hd) in Heta |- *. rewrite (durable_engine _ _ Hd) in *.
  destruct (append_cases e input) as [(r & Hr & Hins & more & Hmore)|[Hsame Hidem]];
    destruct (Engine.Append e input) as [e' r'] eqn:Ha; cbn [fst snd] in *; subst r' || subst e'.
  - rewrite Hins. pose proof (append_records e e' input r (durable_ok _ _ Hd) Ha Hins) as Hrec.
    pose proof (persist_outcome s e e' more _ io Hd Hok Hmore Hrec) as Hout. rewrite (durable_open _ _ Hd) in Hout.
    destruct (persist _ _ _ io) as [s1 r1]. by apply (outcome_map e e' tt r).
  - rewrite Heta. destruct r' as [r|err]; [|apply outcome_failed]. rewrite (Hidem r eq_refl).
    by apply (outcome_done e (e, Ok r)).
Qed.

Lemma CommitCLL_outcome (s : Store) (e : Engine) (ctx : check) (io : AppendIO) (expectedSize : Z)
    (expectedCheckpoint : option bytes) (next : State) :
  durable s e -> u64 expectedSize -> state_storable next ->
  outcome e (Engine.CommitCLL e expectedSize expectedCheckpoint next) s
    (Jsonl.CommitCLL s ctx io expectedSize expectedCheckpoint next).
Proof.
  intros Hd Hu Hst. unfold Jsonl.CommitCLL. destruct ctx as [[]|err]; [|apply outcome_failed].
  pose proof (store_eta s e Hd) as Heta.
  destruct (perform_step e (OpCommitCLL expectedSize expectedCheckpoint next) (durable_ok _ _ Hd) I) as [Hok _].
  cbn [perform] in Hok. rewrite (durable_open _ _ Hd) in Heta |- *. rewrite (durable_engine _ _ Hd) in *.
  destruct (Engine.CommitCLL e expectedSize expectedCheckpoint next) as [e' r] eqn:Hc; cbn [fst snd] in *.
  destruct (commit_entries e e' _ _ _ r Hc) as [Hmore Hsame]. destruct r as [[]|err].
  - pose proof (commit_records e e' _ _ _ (durable_ok _ _ Hd) Hu Hst Hc) as Hrec.
    pose proof (persist_outcome s e e' [] _ io Hd Hok Hmore Hrec) as Hout. rewrite (durable_open _ _ Hd) in Hout.
    by destruct (persist _ _ _ io).
  - rewrite (Hsame eq_refl), Heta. apply outcome_failed.
Qed.

Lemma CommitWitness_outcome (s : Store) (e : Engine) (ctx : check) (io : AppendIO) (attempts : Z)
    (next : WitnessState) :
  durable s e -> uint32 attempts -> row_storable next ->
  outcome e (Engine.CommitWitness e attempts next) s (Jsonl.CommitWitness s ctx io attempts next).
Proof.
  intros Hd Hu Hst. unfold Jsonl.CommitWitness. destruct ctx as [[]|err]; [|apply outcome_failed].
  pose proof (store_eta s e Hd) as Heta.
  destruct (perform_step e (OpCommitWitness attempts next) (durable_ok _ _ Hd) I) as [Hok _].
  cbn [perform] in Hok. rewrite (durable_open _ _ Hd) in Heta |- *. rewrite (durable_engine _ _ Hd) in *.
  destruct (Engine.CommitWitness e attempts next) as [e' r] eqn:Hc; cbn [fst snd] in *.
  destruct (witness_entries e e' _ _ r Hc) as [Hmore Hsame]. destruct r as [[]|err].
  - pose proof (witness_records e e' _ _ (durable_ok _ _ Hd) Hu Hst Hc) as Hrec.
    pose proof (persist_outcome s e e' [] _ io Hd Hok Hmore Hrec) as Hout. rewrite (durable_open _ _ Hd) in Hout.
    by destruct (persist _ _ _ io).
  - rewrite (Hsame eq_refl), Heta. apply outcome_failed.
Qed.

(** ** Opening *)

Lemma init_line : newline ∉ Marshal init_event /\ replayLine New false (Marshal init_event) = Ok New.
Proof. split; [|by vm_compute]. apply indexNewline_None. by vm_compute. Qed.

Lemma reopened_New : reopened New = New.
Proof. done. Qed.

(** What [replay] makes of a file: the whole lines and the rest. *)
Lemma replay_cases (io : ReplayIO) (repair : bool) (data : bytes) :
  (exists err, replay io repair data = (data, Err err)) \/
  exists good tail e, data = good ++ tail /\ newline ∉ tail /\ lines New false good e /\
    ((tail = [] /\ replay io repair data = (data, Ok e)) \/
     (repair = true /\ exists r, replay io repair data = (good, r) /\ (is_ok r = true -> r = Ok e))).
Proof.
  unfold replay. destruct (io_read io); [|left; by eexists].
  destruct (replayLines (length data) New data 0 false) as [[e n]|] eqn:Hl; [|left; by eexists].
  destruct (replayLines_Ok _ _ _ _ _ _ _ (le_n _) Hl) as (good & tail & -> & Ht & Hgood & ->).
  cbn [Nat.add]. rewrite length_app. destruct tail as [|b tail].
  - rewrite app_nil_r. cbn [length]. rewrite Nat.add_0_r, Nat.eqb_refl. cbn [negb].
    destruct (io_seek io) as [[]|err]; [|left; by exists err].
    right. exists good, [], e. rewrite app_nil_r. split_and!; [done|done|done|by left].
  - rewrite (proj2 (Nat.eqb_neq _ _)) by (cbn [length]; lia). cbn [negb].
    destruct repair; [|left; by eexists]. cbn [negb]. destruct (io_truncate io); [|left; by eexists].
    rewrite take_app_length. right. exists good, (b :: tail), e. split_and!; [done|done|done|]. right.
    split; [done|]. eexists. split; [done|]. by destruct (io_sync io) as [[]|], (io_seek io) as [[]|].
Qed.

(** Complete lines stay: a file changes by losing a torn tail, and by gaining
    a part of the first line when it had none. *)
Definition keeps_lines (before after : option bytes) : Prop :=
  exists good tail more, default [] before = good ++ tail /\ newline ∉ tail /\
    (after = before \/ after = Some (default [] before) \/ after = Some (good ++ more)) /\ (more = [] \/ good = []).

Lemma keeps_lines_same (before : option bytes) : keeps_lines before before.
Proof. exists (default [] before), [], []. rewrite app_nil_r. split_and!; [done|intros H; inversion H|by left|by left]. Qed.

Lemma keeps_lines_default (before : option bytes) : keeps_lines before (Some (default [] before)).
Proof.
  exists (default [] before), [], []. rewrite !app_nil_r. split_and!; [done|intros H; inversion H|by right; left|by left].
Qed.

Lemma keeps_lines_cut (before : option bytes) (good tail more : bytes) :
  default [] before = good ++ tail -> newline ∉ tail -> more = [] \/ good = [] ->
  keeps_lines before (Some (good ++ more)).
Proof. intros Hb Ht Hm. exists good, tail, more. split_and!; [done|done|by right; right|done]. Qed.

Inductive open_outcome (initialize : bool) (before : option bytes) : option bytes * result Store -> Prop :=
| open_failed (after : option bytes) (err : error) :
    keeps_lines before after -> (initialize = false -> default [] after = default [] before) ->
    open_outcome initialize before (after, Err err)
| open_done (s : Store) :
    durable s (engine s) -> settled (engine s) -> keeps_lines before (Some (file s)) ->
    (initialize = false -> file s = default [] before) ->
    open_outcome initialize before (Some (file s), Ok s).

(** The header of an empty file. *)
Lemma header_outcome (before : option bytes) (tail : bytes) (io : AppendIO) :
  default [] before = tail -> newline ∉ tail ->
  open_outcome true before
    (let '(s, r) := appendEvent (MkStore [] New false) init_event io in (Some (file s), _ ← r; Ok s)).
Proof.
  intros Hb Ht. destruct init_line as [Hn Hr].
  pose proof (fun more => keeps_lines_cut before [] tail more Hb Ht (or_intror eq_refl)) as Hkeep.
  pose proof (appendEvent_outcome (MkStore [] New false) init_event io) as Hout.
  destruct (appendEvent _ _ _) as [s r]. cbn [fst snd] in Hout. cbn [app] in Hkeep.
  inversion Hout; subst; cbn [mbind result_bind file engine closed app] in *; try by apply open_failed.
  apply (open_done _ _ (MkStore (Marshal init_event ++ [newline]) New false));
    [|apply New_settled|apply Hkeep|discriminate].
  split; [reflexivity|reflexivity|apply New_ok|]. split; [by intros [_ [=]]%app_eq_nil|]. cbn [file].
  apply (lines_cons _ _ _ New); [apply Hn|apply Hr|]. cbn [engine]. rewrite reopened_New. constructor.
Qed.

(** After the replay: the file is [good], or was already. *)
Lemma stat_outcome (initialize : bool) (before : option bytes) (good tail : bytes) (e : Engine) (stat : check)
    (io : AppendIO) :
  default [] before = good ++ tail -> newline ∉ tail -> (initialize = false -> tail = []) ->
  lines New false good e ->
  open_outcome initialize before
    (match stat with
     | Err err => (Some good, Err err)
     | Ok _ =>
         if zlen good =? 0 then
           if negb initialize then (Some good, Err ErrCorrupt)
           else let '(s, r) := appendEvent (MkStore good e false) init_event io in (Some (file s), _ ← r; Ok s)
         else (Some good, Ok (MkStore good e false))
     end).
Proof.
  intros Hb Ht Htail Hl. destruct (lines_settled _ _ _ _ Hl New_settled) as [Hset _].
  assert (keeps_lines before (Some good)) as Hkeep.
  { rewrite <- (app_nil_r good). apply (keeps_lines_cut _ _ tail); auto. }
  assert (initialize = false -> good = default [] before) as Hsame.
  { intros Hi. by rewrite Hb, (Htail Hi), app_nil_r. }
  destruct stat as [[]|err]; [|by apply open_failed]. destruct good as [|b good].
  - inversion Hl as [|? ? line ? rest ? ? ? ? Hx]; [subst|by destruct line].
    destruct initialize; cbn [negb zlen length Z.of_nat Z.eqb]; [by apply (header_outcome _ tail)|by apply open_failed].
  - destruct (Z.eqb_spec (zlen (b :: good)) 0) as [Hz|_]; [rewrite zlen_cons in Hz; pose proof (zlen_nonneg good); lia|].
    apply (open_done _ _ (MkStore (b :: good) e false)); try done.
    split; [done|done|apply Hset|]. split; [done|]. cbn [file engine]. by rewrite settled_reopened.
Qed.

Lemma open_outcomes (path : string) (initialize : bool) (contents : option bytes) (io : OpenIO) :
  open_outcome initialize contents (open path initialize contents io).
Proof.
  pose proof (keeps_lines_same contents) as Hsame. unfold open. case_bool_decide; [by apply open_failed|].
  destruct (io_opened io) as [[]|err]; [|by apply open_failed].
  assert (open_outcome initialize contents
    (match io_locked io with
     | Err _ => (Some (default [] contents), Err ErrContention)
     | Ok _ =>
         match replay (io_replay io) initialize (default [] contents) with
         | (data, Err err) => (Some data, Err err)
         | (data, Ok e) =>
             match io_stat io with
             | Err err => (Some data, Err err)
             | Ok _ =>
                 if zlen data =? 0 then
                   if negb initialize then (Some data, Err ErrCorrupt)
                   else let '(s, r) := appendEvent (MkStore data e false) init_event (io_init io) in
                        (Some (file s), _ ← r; Ok s)
                 else (Some data, Ok (MkStore data e false))
             end
         end
     end)) as Hopen.
  { pose proof (keeps_lines_default contents) as Hdef. destruct (io_locked io); [|by apply open_failed].
    destruct (replay_cases (io_replay io) initialize (default [] contents))
      as [[err ->]|(good & tail & e & Hdata & Ht & Hl & [[-> ->]|(-> & r & -> & Hr)])]; [by apply open_failed| |].
    - rewrite app_nil_r in Hdata. rewrite Hdata.
      apply (stat_outcome _ _ good []); [by rewrite app_nil_r|done|done|done].
    - destruct r as [e'|err]; [injection (Hr eq_refl) as ->; by apply (stat_outcome _ _ good tail)|].
      apply open_failed; [|done]. rewrite <- (app_nil_r good). apply (keeps_lines_cut _ _ tail); auto. }
  destruct contents as [data|]; [done|]. destruct initialize; [done|by apply open_failed].
Qed.

(** ** Calls whose system calls succeed *)

Definition item_fits (item : result event) : Prop := forall ev, item = Ok ev -> fits ev.

(** What the events of the three mutations are, so that they can be measured. *)
Definition append_item (e : Engine) (input : AppendInput) : result event :=
  r ← snd (Engine.Append e input); entry_event <$> EntryToWire (ar_Entry r).

Definition commits_item (e : Engine) (expectedSize : Z) (expectedCheckpoint : option bytes) (next : State) :
    result event :=
  commit_item (fst (Engine.CommitCLL e expectedSize expectedCheckpoint next)) (takeSnapshot e) expectedSize
    expectedCheckpoint.

Definition acts_as {A} (spec : Engine * result A) (out : Store * result A) : Prop :=
  durable (fst out) (fst spec) /\ snd out = snd spec.

Lemma persist_acts (s : Store) (e e' : Engine) (item : result event) (io : AppendIO) :
  durable s e -> engine_ok e' -> records e e' item -> item_fits item -> calm io ->
  exists s', persist (MkStore (file s) e' false) (takeSnapshot e) item io = (s', Ok tt) /\ durable s' e'.
Proof.
  intros Hd He' Hrec Hfit Hio. pose proof Hrec as (ev & -> & _).
  pose proof (persist_calm s e e' ev io Hd He' Hrec (Hfit ev eq_refl) Hio) as H.
  by rewrite (durable_open _ _ Hd) in H.
Qed.

Lemma Append_acts (s : Store) (e : Engine) (io : AppendIO) (input : AppendInput) :
  durable s e -> calm io -> item_fits (append_item e input) ->
  acts_as (Engine.Append e input) (Jsonl.Append s (Ok tt) io input).
Proof.
  intros Hd Hio Hfit. unfold Jsonl.Append, append_item in *. pose proof (store_eta s e Hd) as Heta.
  destruct (perform_step e (OpAppend input) (durable_ok _ _ Hd) I) as [Hok _]. cbn [perform] in Hok.
  rewrite (durable_open _ _ Hd) in Heta |- *. rewrite (durable_engine _ _ Hd) in *.
  destruct (append_cases e input) as [(r & Hr & Hins & _)|[Hsame Hidem]];
    destruct (Engine.Append e input) as [e' r'] eqn:Ha; cbn [fst snd] in *; subst r' || subst e'.
  - rewrite Hins. cbn [mbind result_bind] in Hfit.
    pose proof (append_records e e' input r (durable_ok _ _ Hd) Ha Hins) as Hrec.
    destruct (persist_acts s e e' _ io Hd Hok Hrec Hfit Hio) as (s' & -> & Hs'). by split.
  - rewrite Heta. destruct r' as [r|err]; [|by split]. rewrite (Hidem r eq_refl). by split.
Qed.

Lemma CommitCLL_acts (s : Store) (e : Engine) (io : AppendIO) (expectedSize : Z)
    (expectedCheckpoint : option bytes) (next : State) :
  durable s e -> calm io -> u64 expectedSize -> state_storable next ->
  item_fits (commits_item e expectedSize expectedCheckpoint next) ->
  acts_as (Engine.CommitCLL e expectedSize expectedCheckpoint next)
    (Jsonl.CommitCLL s (Ok tt) io expectedSize expectedCheckpoint next).
Proof.
  intros Hd Hio Hu Hst Hfit. unfold Jsonl.CommitCLL, commits_item in *. pose proof (store_eta s e Hd) as Heta.
  destruct (perform_step e (OpCommitCLL expectedSize expectedCheckpoint next) (durable_ok _ _ Hd) I) as [Hok _].
  cbn [perform] in Hok. rewrite (durable_open _ _ Hd) in Heta |- *. rewrite (durable_engine _ _ Hd) in *.
  destruct (Engine.CommitCLL e expectedSize expectedCheckpoint next) as [e' r] eqn:Hc; cbn [fst snd] in *.
  destruct (commit_entries e e' _ _ _ r Hc) as [_ Hsame]. destruct r as [[]|err].
  - pose proof (commit_records e e' _ _ _ (durable_ok _ _ Hd) Hu Hst Hc) as Hrec.
    destruct (persist_acts s e e' _ io Hd Hok Hrec Hfit Hio) as (s' & -> & Hs'). by split.
  - rewrite (Hsame eq_refl), Heta. by split.
Qed.

Lemma CommitWitness_acts (s : Store) (e : Engine) (io : AppendIO) (attempts : Z) (next : WitnessState) :
  durable s e -> calm io -> uint32 attempts -> row_storable next ->
  item_fits (witness_event attempts <$> WitnessToWire next) ->
  acts_as (Engine.CommitWitness e attempts next) (Jsonl.CommitWitness s (Ok tt) io attempts next).
Proof.
  intros Hd Hio Hu Hst Hfit. unfold Jsonl.CommitWitness. pose proof (store_eta s e Hd) as Heta.
  destruct (perform_step e (OpCommitWitness attempts next) (durable_ok _ _ Hd) I) as [Hok _].
  cbn [perform] in Hok. rewrite (durable_open _ _ Hd) in Heta |- *. rewrite (durable_engine _ _ Hd) in *.
  destruct (Engine.CommitWitness e attempts next) as [e' r] eqn:Hc; cbn [fst snd] in *.
  destruct (witness_entries e e' _ _ r Hc) as [_ Hsame]. destruct r as [[]|err].
  - pose proof (witness_records e e' _ _ (durable_ok _ _ Hd) Hu Hst Hc) as Hrec.
    destruct (persist_acts s e e' _ io Hd Hok Hrec Hfit Hio) as (s' & -> & Hs'). by split.
  - rewrite (Hsame eq_refl), Heta. by split.
Qed.

(** ** Recovery *)

Definition quiet (io : OpenIO) : Prop :=
  io_opened io = Ok tt /\ io_locked io = Ok tt /\ io_stat io = Ok tt /\
  io_replay io = MkReplayIO (Ok tt) (Ok tt) (Ok tt) (Ok tt) /\ calm (io_init io).

(** The file [Init] leaves for whole lines. *)
Definition headed (good : bytes) : bytes :=
  match good with [] => Marshal init_event ++ [newline] | _ => good end.

Lemma header_appended (io : AppendIO) :
  calm io ->
  appendEvent (MkStore [] New false) init_event io =
    (MkStore (Marshal init_event ++ [newline]) New false, Ok tt).
Proof.
  intros (Hs & Hw & Hy). unfold appendEvent.
  replace (MaxJournalEventBytes <? zlen (Marshal init_event ++ [newline])) with false by (by vm_compute).
  rewrite Hs, Hw, Hy. cbn [file engine closed].
  assert (forall line, writeLoop [] line [] = (line, Ok tt)) as -> by (by intros []). done.
Qed.

Lemma lines_nil_inv (e e' : Engine) (initialized : bool) : lines e initialized [] e' -> e' = e.
Proof. inversion 1 as [|? ? line ? rest ? ? ? ? Hx]; [done|by destruct line]. Qed.

Lemma open_quiet (path : string) (initialize : bool) (good tail : bytes) (e : Engine) (io : OpenIO) :
  path <> EmptyString -> quiet io -> lines New false good e -> newline ∉ tail ->
  open path initialize (Some (good ++ tail)) io =
    if initialize then (Some (headed good), Ok (MkStore (headed good) e false))
    else if bool_decide (tail = [] /\ good <> []) then (Some good, Ok (MkStore good e false))
    else (Some (good ++ tail), Err ErrCorrupt).
Proof.
  intros Hp (Ho & Hk & Hs & Hr & Hi) Hl Ht. unfold open. rewrite bool_decide_false, Ho, Hk, Hr by done.
  change (default [] (Some (good ++ tail))) with (good ++ tail).
  unfold replay. cbn [io_read io_truncate io_sync io_seek].
  rewrite (replayLines_lines _ _ _ _ _ tail 0 Hl Ht) by (rewrite length_app; lia). cbn [Nat.add].
  rewrite length_app, Hs. destruct tail as [|b tail].
  - cbn [length]. rewrite Nat.add_0_r, Nat.eqb_refl, app_nil_r. cbn [negb mbind result_bind].
    destruct good as [|b good].
    + apply lines_nil_inv in Hl as ->. rewrite bool_decide_false by naive_solver.
      destruct initialize; [|done]. cbn [zlen length Z.of_nat Z.eqb negb].
      rewrite header_appended by done. done.
    + destruct (Z.eqb_spec (zlen (b :: good)) 0) as [Hz|_];
        [rewrite zlen_cons in Hz; pose proof (zlen_nonneg good); lia|].
      rewrite bool_decide_true by done. by destruct initialize.
  - rewrite (proj2 (Nat.eqb_neq _ _)) by (cbn [length]; lia). cbn [negb].
    rewrite bool_decide_false by naive_solver. destruct initialize; [|done].
    cbn [negb mbind result_bind]. rewrite take_app_length. destruct good as [|b' good].
    + apply lines_nil_inv in Hl as ->. cbn [zlen length Z.of_nat Z.eqb negb]. by rewrite header_appended.
    + by destruct (Z.eqb_spec (zlen (b' :: good)) 0) as [Hz|_];
        [rewrite zlen_cons in Hz; pose proof (zlen_nonneg good); lia|].
Qed.

Lemma headed_recorded (good : bytes) (e : Engine) :
  lines New false good (reopened e) -> recorded (headed good) (reopened e).
Proof.
  assert (forall e, engine_ok e -> reopened (reopened e) = reopened e) as Hidem.
  { intros e' He'. apply settled_reopened, reopened_settled, He'. }
  intros Hl. destruct (lines_settled _ _ _ _ Hl New_settled) as [Hset _].
  pose proof (settled_reopened _ Hset) as Hr. destruct good as [|b good].
  - apply lines_nil_inv in Hl. rewrite Hl. destruct init_line as [Hn Hline].
    split; [by intros [_ [=]]%app_eq_nil|]. apply (lines_cons _ _ _ New); [apply Hn|apply Hline|].
    rewrite reopened_New. constructor.
  - split; [done|]. cbn [headed]. by rewrite Hr.
Qed.

End Laws.

End JsonlProofs.
