(* ===== verification/JsonlClaims.v ===== *)
(** * What the journal promises

    The durability of its calls, the recovery of its file, and the refusal of
    anything else, with a store on which they are tried; and the journal as a
    backend. *)

From S2P Require Import Prelude DtMmr DtMmrRef Text Base64 Mmr Cll Portable Engine EngineLog EngineState.
From S2P Require Import EngineHistory EngineWitness Wire WireProofs Utf8 Json JsonProofs Journal JournalProofs.
From S2P Require Import Jsonl JournalText JsonlReplay Backend JsonlProofs.
Import Jsonl Text JsonProofs Cll Portable Engine EngineLog EngineState EngineHistory EngineWitness Wire.
Import WireProofs Journal JournalProofs JournalText JsonlReplay JsonlProofs.

Module JsonlClaims.

Local Open Scope Z_scope.

Section Claims.
Context `{DT : DtMmr} `{!DtMmrLaws DT}.

(** C16: whatever its context and its system calls do, a mutating call of a
    durable store acts as the engine and leaves the store durable, or fails
    without a trace, or closes the store over a file that recovers to the log
    before the call or the log after it; so a crash after any number of bytes
    of the event loses at most that event. *)
Theorem journal_calls_are_durable (s : Store) (e : Engine) (ctx : check) (io : AppendIO)
    (input : AppendInput) (expectedSize : Z) (expectedCheckpoint : option bytes) (next : State)
    (attempts : Z) (row : WitnessState) :
  durable s e -> u64 expectedSize -> state_storable next -> uint32 attempts -> row_storable row ->
  outcome e (Engine.Append e input) s (Jsonl.Append s ctx io input) /\
  outcome e (Engine.CommitCLL e expectedSize expectedCheckpoint next) s
    (Jsonl.CommitCLL s ctx io expectedSize expectedCheckpoint next) /\
  outcome e (Engine.CommitWitness e attempts row) s (Jsonl.CommitWitness s ctx io attempts row).
Proof.
  intros Hd Hu Hst Ha Hr.
  split_and!; [by apply Append_outcome|by apply CommitCLL_outcome|by apply CommitWitness_outcome].
Qed.

(** When the context is live, the system calls succeed and the event fits
    the size limit, a mutating call answers exactly as the engine and the file
    records the result. *)
Lemma calm_calls_act_as_engine (s : Store) (e : Engine) (io : AppendIO) (input : AppendInput)
    (expectedSize : Z) (expectedCheckpoint : option bytes) (next : State) (attempts : Z) (row : WitnessState) :
  durable s e -> calm io -> u64 expectedSize -> state_storable next -> uint32 attempts -> row_storable row ->
  (item_fits (append_item e input) -> acts_as (Engine.Append e input) (Jsonl.Append s (Ok tt) io input)) /\
  (item_fits (commits_item e expectedSize expectedCheckpoint next) ->
   acts_as (Engine.CommitCLL e expectedSize expectedCheckpoint next)
     (Jsonl.CommitCLL s (Ok tt) io expectedSize expectedCheckpoint next)) /\
  (item_fits (witness_event attempts <$> WitnessToWire row) ->
   acts_as (Engine.CommitWitness e attempts row) (Jsonl.CommitWitness s (Ok tt) io attempts row)).
Proof.
  intros Hd Hio Hu Hst Ha Hr.
  split_and!; intros Hfit; [by apply Append_acts|by apply CommitCLL_acts|by apply CommitWitness_acts].
Qed.

(** C17: whatever bytes the file holds and whatever the system calls do, a
    store that opens holds a valid log that its file records, and a complete
    line is never removed: an opened file is as it was, or has lost a torn
    tail, or has gained a header when it had no complete line; [Open] alone
    changes nothing. *)
Theorem opening_never_loses_a_line (path : string) (initialize : bool) (contents : option bytes) (io : OpenIO) :
  let out := open path initialize contents io in
  keeps_lines contents (fst out) /\
  (initialize = false -> default [] (fst out) = default [] contents) /\
  forall s, snd out = Ok s -> fst out = Some (file s) /\ durable s (engine s).
Proof.
  cbv zeta. destruct (open_outcomes path initialize contents io) as [after err Hk Hs|s Hd Hset Hk Hs];
    cbn [fst snd]; split_and!; try done. by intros s' [= <-].
Qed.

(** C18: from a file that recovers to a log, [Init] leaves a file that [Open]
    reads as that log with its times in milliseconds, and a second [Init]
    changes nothing; [Open] alone refuses a torn tail. *)
Theorem init_recovers_the_log (path : string) (data : bytes) (e : Engine) (io : OpenIO) :
  path <> EmptyString -> quiet io -> recoverable data e ->
  exists good,
    Init path (Some data) io (Ok tt) = (Some good, Ok tt) /\
    Open path (Some good) io = (Some good, Ok (MkStore good (reopened e) false)) /\
    durable (MkStore good (reopened e) false) (reopened e) /\
    Init path (Some good) io (Ok tt) = (Some good, Ok tt) /\
    (good <> data -> Open path (Some data) io = (Some data, Err ErrCorrupt)).
Proof.
  intros Hp Hio (good & tail & -> & Ht & Hl). exists (headed good).
  destruct (lines_settled _ _ _ _ Hl New_settled) as [Hset _].
  pose proof (headed_recorded good e Hl) as Hrec. pose proof (settled_reopened _ Hset) as Hidem.
  assert (lines New false (headed good) (reopened e)) as Hh by (destruct Hrec as [_ Hrec]; by rewrite Hidem in Hrec).
  assert (newline ∉ []) as Hnil by (intros H; inversion H).
  pose proof (open_quiet path true (headed good) [] (reopened e) io Hp Hio Hh Hnil) as Hinit.
  pose proof (open_quiet path false (headed good) [] (reopened e) io Hp Hio Hh Hnil) as Hopen.
  rewrite app_nil_r in Hinit, Hopen. rewrite bool_decide_true in Hopen by (split; [done|apply Hrec]).
  assert (headed (headed good) = headed good) as Hhh by (destruct (headed good) eqn:E; [by destruct Hrec|done]).
  rewrite Hhh in Hinit. unfold Init, Open. split_and!; [|done|by split; try apply Hset| |].
  - by rewrite (open_quiet path true good tail _ io Hp Hio Hl Ht).
  - by rewrite Hinit.
  - intros Hne. rewrite (open_quiet path false good tail _ io Hp Hio Hl Ht).
    rewrite bool_decide_false; [done|]. intros [-> Hg]. apply Hne. rewrite app_nil_r. by destruct good.
Qed.

End Claims.

(** ** Witnesses *)

Import Ref.

Definition calmIO : AppendIO := MkAppendIO (Ok tt) [] (Ok tt) (Ok tt) (Ok tt) (Ok tt).

(** A write that stops after 40 bytes and cannot be undone. *)
Definition crashIO : AppendIO :=
  MkAppendIO (Ok tt) [Wrote 33; WriteFailed 7 (ErrText "no space left on device")] (Ok tt)
    (Err (ErrText "input/output error")) (Ok tt) (Ok tt).

Definition quietIO : OpenIO := MkOpenIO (Ok tt) (Ok tt) (MkReplayIO (Ok tt) (Ok tt) (Ok tt) (Ok tt)) (Ok tt) calmIO.

Definition headerStore : Store := MkStore (headed []) New false.

Definition recordedStore : Store :=
  fst (Jsonl.Append headerStore (Ok tt) calmIO (sampleInput Byte.x03)).

Lemma headerStore_durable : durable (DT := dt_reference) headerStore New.
Proof.
  split; [reflexivity|reflexivity|apply (New_ok (DT := dt_reference))|].
  apply (headed_recorded (DT := dt_reference) [] New). constructor.
Qed.

Lemma recordedStore_durable :
  durable (DT := dt_reference) recordedStore (fst (Engine.Append New (sampleInput Byte.x03))).
Proof.
  apply (Append_acts (DT := dt_reference)); [apply headerStore_durable|by split_and!|].
  intros ev Hev. vm_compute in Hev. injection Hev as <-. unfold fits. vm_compute. discriminate.
Qed.

Lemma sampleNext_storable : state_storable sampleNext.
Proof.
  assert (row_storable sampleRow) as Hrow by (split; [split; vm_compute; congruence|by vm_compute|split; vm_compute; congruence]).
  split; [|by constructor]. split; [split; vm_compute; congruence|split; vm_compute; congruence| |].
  - intros c [= <-]. split; split; vm_compute; congruence.
  - constructor; [|constructor]. split; vm_compute; congruence.
Qed.

Lemma retried_storable (n : Z) : 0 <= n < 4294967296 -> row_storable (retried n).
Proof. intros Hn. split; [done|by vm_compute|split; vm_compute; congruence]. Qed.

Lemma journal_calls_are_durable_witness :
  let e := fst (Engine.Append New (sampleInput Byte.x03)) in
  outcome (DT := dt_reference) e (Engine.Append e (sampleInput Byte.x04)) recordedStore
    (Jsonl.Append recordedStore (Ok tt) crashIO (sampleInput Byte.x04)) /\
  outcome (DT := dt_reference) e (Engine.CommitCLL (DT := dt_reference) e 0 None sampleNext) recordedStore
    (Jsonl.CommitCLL (DT := dt_reference) recordedStore (Ok tt) crashIO 0 None sampleNext) /\
  outcome (DT := dt_reference) e (Engine.CommitWitness e 0 (retried 1)) recordedStore
    (Jsonl.CommitWitness recordedStore (Ok tt) crashIO 0 (retried 1)).
Proof.
  cbv zeta. apply (journal_calls_are_durable (DT := dt_reference)).
  - apply recordedStore_durable.
  - split; vm_compute; congruence.
  - apply sampleNext_storable.
  - split; vm_compute; congruence.
  - apply retried_storable. lia.
Defined.

Lemma calm_calls_act_as_engine_witness :
  let e := fst (Engine.Append New (sampleInput Byte.x03)) in
  acts_as (DT := dt_reference) (Engine.CommitCLL (DT := dt_reference) e 0 None sampleNext)
    (Jsonl.CommitCLL (DT := dt_reference) recordedStore (Ok tt) calmIO 0 None sampleNext).
Proof.
  cbv zeta.
  refine (proj1 (proj2 (calm_calls_act_as_engine (DT := dt_reference) recordedStore
    (fst (Engine.Append New (sampleInput Byte.x03))) calmIO (sampleInput Byte.x04) 0 None sampleNext 0 (retried 1)
    recordedStore_durable _ _ sampleNext_storable _ (retried_storable 1 _))) _).
  - by split_and!.
  - split; vm_compute; congruence.
  - split; vm_compute; congruence.
  - lia.
  - intros ev Hev. vm_compute in Hev. injection Hev as <-. unfold fits. vm_compute. discriminate.
Defined.

(** The store of [recordedStore] whose next append stopped after 40 bytes. *)
Definition tornFile : bytes :=
  file (fst (Jsonl.Append recordedStore (Ok tt) crashIO (sampleInput Byte.x04))).

Lemma tornFile_split : tornFile = file recordedStore ++ drop (length (file recordedStore)) tornFile.
Proof. by vm_compute. Qed.

Lemma tornFile_recoverable :
  recoverable (DT := dt_reference) tornFile (fst (Engine.Append New (sampleInput Byte.x03))).
Proof.
  exists (file recordedStore), (drop (length (file recordedStore)) tornFile).
  split; [apply tornFile_split|]. split; [apply indexNewline_None; by vm_compute|].
  exact (proj2 (durable_file _ _ recordedStore_durable)).
Qed.

Lemma opening_never_loses_a_line_witness :
  exists s, snd (open (DT := dt_reference) "journal.jsonl" true (Some tornFile) quietIO) = Ok s /\
    durable (DT := dt_reference) s (engine s).
Proof.
  destruct (snd (open (DT := dt_reference) "journal.jsonl" true (Some tornFile) quietIO)) as [s|err] eqn:Hs;
    [|vm_compute in Hs; discriminate Hs].
  exists s. split; [reflexivity|].
  exact (proj2 (proj2 (proj2 (opening_never_loses_a_line (DT := dt_reference) "journal.jsonl" true (Some tornFile)
    quietIO)) s Hs)).
Defined.

Lemma init_recovers_the_log_witness :
  let e := reopened (fst (Engine.Append New (sampleInput Byte.x03))) in
  exists good,
    Init (DT := dt_reference) "journal.jsonl" (Some tornFile) quietIO (Ok tt) = (Some good, Ok tt) /\
    Open (DT := dt_reference) "journal.jsonl" (Some good) quietIO = (Some good, Ok (MkStore good e false)) /\
    durable (DT := dt_reference) (MkStore good e false) e /\
    Init (DT := dt_reference) "journal.jsonl" (Some good) quietIO (Ok tt) = (Some good, Ok tt) /\
    (good <> tornFile ->
     Open (DT := dt_reference) "journal.jsonl" (Some tornFile) quietIO = (Some tornFile, Err ErrCorrupt)).
Proof.
  apply (init_recovers_the_log (DT := dt_reference)); [discriminate|by split_and!|apply tornFile_recoverable].
Defined.

End JsonlClaims.

(** ** The journal as a backend: [var _ cll.Backend = ( *Store)(nil)]

    The journal store keeps the contract of [Backend]: it represents the engine
    its file records, whatever its system calls do. *)

Import Backend.

Module JsonlBackend.

Local Open Scope Z_scope.

(** What surrounds a call of the store. *)
Record Env := MkEnv {
  env_ctx : check;
  env_io : AppendIO;
  env_released : check
}.

#[export] Instance jsonl_backend `{DT : DtMmr} : Backend Store Env := {
  b_Append s env := Jsonl.Append s (env_ctx env) (env_io env);
  b_GetEntry s env := Jsonl.GetEntry s (env_ctx env);
  b_ScanEntries s env := Jsonl.ScanEntries s (env_ctx env);
  b_LoadCLL s env := Jsonl.LoadCLL s (env_ctx env);
  b_CommitCLL s env := Jsonl.CommitCLL s (env_ctx env) (env_io env);
  b_PendingWitnesses s env := Jsonl.PendingWitnesses s (env_ctx env);
  b_GetWitness s env := Jsonl.GetWitness s (env_ctx env);
  b_CommitWitness s env := Jsonl.CommitWitness s (env_ctx env) (env_io env);
  b_Close s env := Jsonl.Close s (env_released env)
}.

Lemma outcome_agrees `{DT : DtMmr} {A} (s : Store) (e : Engine) (spec : Engine * result A) (out : Store * result A) :
  durable s e -> outcome e spec s out -> agrees durable (fun s => closed s = true) e spec out.
Proof.
  intros Hd [s' Hs'|err|s' err Hc _]; [by apply agrees_exact|by apply agrees_refused; left|by apply agrees_refused; right].
Qed.

Lemma answers_open {A} (ctx : check) (shut : bool) (r : result A) :
  shut = false -> answers r (_ ← ctx; if shut then Err ErrClosed else r).
Proof. intros ->. destruct ctx as [[]|err]; [by left|right]. by exists err. Qed.

Lemma refused_closed {A} (ctx : check) (shut : bool) (r : result A) :
  shut = true -> is_ok (_ ← ctx; if shut then Err ErrClosed else r) = false.
Proof. intros ->. by destruct ctx. Qed.

#[export] Program Instance jsonl_laws `{DT : DtMmr} `{!DtMmrLaws DT} : BackendLaws Store Env := {
  represents := durable;
  shut s := closed s = true;
  storable size next := u64 size /\ state_storable next;
  storableRow attempts next := uint32 attempts /\ row_storable next
}.
Next Obligation. intros DT Hlaws s e Hd. apply Hd. Qed.
Next Obligation. intros DT Hlaws s e env input Hd. by apply (outcome_agrees s), Append_outcome. Qed.
Next Obligation.
  intros DT Hlaws s e env size checkpoint next Hd [Hu Hst]. by apply (outcome_agrees s), CommitCLL_outcome.
Qed.
Next Obligation.
  intros DT Hlaws s e env attempts next Hd [Hu Hst]. by apply (outcome_agrees s), CommitWitness_outcome.
Qed.
Next Obligation. intros DT Hlaws s e env v [Ho <- _ _]. by apply answers_open. Qed.
Next Obligation. intros DT Hlaws s e env afterSeq limit [Ho <- _ _] _. by apply answers_open. Qed.
Next Obligation. intros DT Hlaws s e env [Ho <- _ _]. by apply answers_open. Qed.
Next Obligation. intros DT Hlaws s e env now limit [Ho <- _ _]. by apply answers_open. Qed.
Next Obligation. intros DT Hlaws s e env id size [Ho <- _ _]. by apply answers_open. Qed.
Next Obligation. intros DT Hlaws size next Hu Hst. by split. Qed.
Next Obligation. intros DT Hlaws attempts row Hu Hst. by split. Qed.
Next Obligation.
  intros DT Hlaws s e env [Ho _ _ _]. cbn [b_Close jsonl_backend]. unfold Jsonl.Close. by rewrite Ho.
Qed.
Next Obligation.
  intros DT Hlaws s env input v size checkpoint next attempts row Hc.
  cbn [b_Append b_CommitCLL b_CommitWitness b_GetEntry b_LoadCLL jsonl_backend].
  unfold Jsonl.Append, Jsonl.CommitCLL, Jsonl.CommitWitness, Jsonl.GetEntry, Jsonl.LoadCLL.
  destruct (env_ctx env) as [[]|err]; cbn [mbind result_bind]; rewrite ?Hc; cbn [fst snd is_ok]; by split_and!.
Qed.

End JsonlBackend.
