(* ===== verification/Rfc3339.v ===== *)
(** * Checkpoint timestamps: [formatTimestamp] of [src/checkpoint/checkpoint.go]

    [time.Time.Format] and [time.Parse] of the Go library with the layout
    [time.RFC3339Nano].  A time is its instant in nanoseconds and whether its
    location is UTC: a time parsed with the zone [Z] is in UTC, and one parsed
    with a numeric offset is in a location of its own, also when the offset is
    zero.  [time.Parse] first tries a strict reading of the same layout; what
    the strict reading accepts, the general one below accepts with the same
    result. *)

From Stdlib.Strings Require Import Ascii.
From S2P Require Import Prelude Text Cll Portable PortableFormat.
Import Text Portable PortableFormat.

Module Rfc3339.

Local Open Scope Z_scope.

Record Time := MkTime {
  instant : Z;
  utc : bool
}.

#[global] Instance Time_eq_dec : EqDecision Time.
Proof. solve_decision. Defined.

(** ** Formatting *)

(** Drop the zeros at the end. *)
Fixpoint stripZeros (s : string) : string :=
  match s with
  | EmptyString => EmptyString
  | String c s' =>
      match stripZeros s' with
      | EmptyString => if bool_decide (c = "0"%char) then EmptyString else String c EmptyString
      | r => String c r
      end
  end.

Definition fractionText (nanosecond : Z) : string :=
  match stripZeros (fmt0 9 nanosecond) with
  | EmptyString => EmptyString
  | f => String "." f
  end.

Definition formatTimestamp (value : Time) : result string :=
  let t := instant value in
  let '(year, month, day) := civil (unixDay t) in
  if (year <? 0) || (9999 <? year) then Err (ErrText "invalid checkpoint timestamp")
  else
    Ok (fmt0 4 year ++ "-" ++ fmt0 2 month ++ "-" ++ fmt0 2 day ++ "T" ++ fmt0 2 (Hour t) ++ ":"
          ++ fmt0 2 (Minute t) ++ ":" ++ fmt0 2 (SecondOf t) ++ fractionText (Nanosecond t) ++ "Z")%string.

(** ** Parsing *)

(** [getnum]: one or two digits, or exactly two. *)
Definition getnum (fixed : bool) (s : string) : option (Z * string) :=
  match s with
  | EmptyString => None
  | String a r =>
      x ← digitValue a;
      match r with
      | String b r' =>
          match digitValue b with
          | Some y => Some (x * 10 + y, r')
          | None => if fixed then None else Some (x, r)
          end
      | EmptyString => if fixed then None else Some (x, r)
      end
  end.

Definition ranged (low high : Z) (r : option (Z * string)) : option (Z * string) :=
  '(n, s) ← r; if (low <=? n) && (n <=? high) then Some (n, s) else None.

(** A character of the layout. *)
Definition separator (c : ascii) (s : string) : option string :=
  match s with
  | String a r => if bool_decide (a = c) then Some r else None
  | EmptyString => None
  end.

Definition longYear (s : string) : option (Z * string) :=
  match s with
  | String a (String b (String c (String d r))) =>
      n ← digitsFrom 0 (String a (String b (String c (String d EmptyString)))); Some (n, r)
  | _ => None
  end.

(** The digits at the head. *)
Fixpoint leadingDigits (s : string) : string * string :=
  match s with
  | EmptyString => (EmptyString, EmptyString)
  | String c r =>
      match digitValue c with
      | Some _ => let '(ds, rest) := leadingDigits r in (String c ds, rest)
      | None => (EmptyString, s)
      end
  end.

(** [parseNanoseconds]: the first nine digits count. *)
Definition nanoseconds (ds : string) : option Z :=
  let kept := substr ds 0 9 in
  n ← digitsFrom 0 kept; Some (n * 10 ^ (9 - Z.of_nat (String.length kept))).

(** An optional fraction after a point or a comma. *)
Definition fraction (s : string) : option (Z * string) :=
  match s with
  | String c r =>
      if bool_decide (c = "."%char) || bool_decide (c = ","%char) then
        match leadingDigits r with
        | (EmptyString, _) => Some (0, s)
        | (ds, rest) => n ← nanoseconds ds; Some (n, rest)
        end
      else Some (0, s)
  | EmptyString => Some (0, s)
  end.

(** The zone: [None] for [Z], or the offset in seconds. *)
Definition zone (s : string) : option (option Z * string) :=
  match s with
  | String c r =>
      if bool_decide (c = "Z"%char) then Some (None, r)
      else
        match r with
        | String h1 (String h2 (String colon (String m1 (String m2 r')))) =>
            if negb (bool_decide (colon = ":"%char)) then None
            else
              '(hr, _) ← ranged 0 24 (getnum true (String h1 (String h2 EmptyString)));
              '(mm, _) ← ranged 0 60 (getnum true (String m1 (String m2 EmptyString)));
              if bool_decide (c = "+"%char) then Some (Some ((hr * 60 + mm) * 60), r')
              else if bool_decide (c = "-"%char) then Some (Some (- ((hr * 60 + mm) * 60)), r')
              else None
        | _ => None
        end
  | EmptyString => None
  end.

Definition isLeap (year : Z) : bool :=
  (year mod 4 =? 0) && (negb (year mod 100 =? 0) || (year mod 400 =? 0)).

Definition daysIn (month year : Z) : Z :=
  if month =? 2 then (if isLeap year then 29 else 28)
  else if (month =? 4) || (month =? 6) || (month =? 9) || (month =? 11) then 30
  else 31.

(** [time.Parse(time.RFC3339Nano, value)] *)
Definition Parse (value : string) : option Time :=
  '(year, s) ← longYear value;
  s ← separator "-" s; '(month, s) ← ranged 1 12 (getnum true s);
  s ← separator "-" s; '(day, s) ← getnum true s;
  s ← separator "T" s; '(hour, s) ← ranged 0 23 (getnum false s);
  s ← separator ":" s; '(minute, s) ← ranged 0 59 (getnum true s);
  s ← separator ":" s; '(second, s) ← ranged 0 59 (getnum true s);
  '(nanosecond, s) ← fraction s;
  '(offset, s) ← zone s;
  if negb (bool_decide (s = EmptyString)) || (day <? 1) || (daysIn month year <? day) then None
  else
    let t := Date year month day hour minute second nanosecond in
    match offset with
    | None => Some (MkTime t true)
    | Some o => Some (MkTime (t - o * Second) false)
    end.

(** ** Round trip *)

Lemma append_nil (s : string) : String.append EmptyString s = s.
Proof. done. Qed.

Lemma stripZeros_value (s : string) (a v : Z) :
  digitsFrom a s = Some v ->
  exists w, digitsFrom a (stripZeros s) = Some w /\
    (String.length (stripZeros s) <= String.length s)%nat /\
    v = w * 10 ^ (Z.of_nat (String.length s) - Z.of_nat (String.length (stripZeros s))).
Proof.
  revert a v. induction s as [|c s IH]; intros a v.
  { intros [= ->]. exists v. split_and!; [done|done|cbn; lia]. }
  cbn [digitsFrom stripZeros String.length]. destruct (digitValue c) as [d|] eqn:Hd; [|done].
  cbn [mbind option_bind]. intros (w & Hw & Hl & ->)%IH. destruct (stripZeros s) as [|c' r].
  - cbn [digitsFrom String.length] in Hw. injection Hw as <-.
    case_bool_decide as Hc; cbn [digitsFrom String.length].
    + subst c. injection Hd as <-. exists a. split_and!; [done|lia|].
      rewrite Nat2Z.inj_succ, Z.sub_0_r, Z.sub_0_r, Z.pow_succ_r by lia. lia.
    + rewrite Hd. cbn [mbind option_bind]. eexists. split_and!; [done|lia|]. f_equal. f_equal. lia.
  - cbn [digitsFrom String.length]. rewrite Hd. cbn [mbind option_bind]. exists w. split_and!; [done|cbn in *; lia|].
    f_equal. f_equal. cbn in *. lia.
Qed.

Lemma getnum_fmt0 (fixed : bool) (n : Z) (r : string) :
  0 <= n < 100 -> getnum fixed (fmt0 2 n ++ r) = Some (n, r).
Proof.
  intros Hn. pose proof (fmt0_length 2 n Hn ltac:(lia)) as Hl. pose proof (fmt0_value 2 n ltac:(lia)) as Hv.
  destruct (fmt0 2 n) as [|c1 [|c2 [|c3 s]]]; cbn in Hl; try lia. rewrite !append_cons, append_nil. cbn [getnum].
  cbn [digitsFrom] in Hv. destruct (digitValue c1) as [x|]; [|done]. cbn [mbind option_bind] in *.
  destruct (digitValue c2) as [y|]; [|done]. cbn [mbind option_bind] in Hv. rewrite Z.mul_0_l in Hv. by injection Hv as <-.
Qed.

Lemma ranged_Some (low high n : Z) (s : string) : low <= n <= high -> ranged low high (Some (n, s)) = Some (n, s).
Proof.
  intros Hn. unfold ranged. cbn [mbind option_bind].
  by rewrite (proj2 (Z.leb_le low n)), (proj2 (Z.leb_le n high)) by lia.
Qed.

Lemma longYear_fmt0 (n : Z) (r : string) : 0 <= n < 10000 -> longYear (fmt0 4 n ++ r) = Some (n, r).
Proof.
  intros Hn. pose proof (fmt0_length 4 n Hn ltac:(lia)) as Hl. pose proof (fmt0_value 4 n ltac:(lia)) as Hv.
  destruct (fmt0 4 n) as [|c1 [|c2 [|c3 [|c4 [|c5 s]]]]]; cbn in Hl; try lia. rewrite !append_cons, append_nil. cbn [longYear].
  by rewrite Hv.
Qed.

Lemma separator_append (c : ascii) (r : string) : separator c (String c EmptyString ++ r) = Some r.
Proof. rewrite append_cons, append_nil. cbn. by rewrite bool_decide_true. Qed.

Lemma leadingDigits_all (s : string) (a v : Z) (r : string) :
  digitsFrom a s = Some v -> match r with String c _ => digitValue c = None | EmptyString => True end ->
  leadingDigits (s ++ r) = (s, r).
Proof.
  intros Hs Hr. revert a Hs. induction s as [|c s IH]; intros a Hs.
  - rewrite append_nil. destruct r as [|c r]; [done|]. cbn. by rewrite Hr.
  - rewrite append_cons. cbn [leadingDigits digitsFrom] in *. destruct (digitValue c) as [d|]; [|done].
    cbn [mbind option_bind] in Hs. by rewrite (IH _ Hs).
Qed.

Lemma fraction_text (n : Z) :
  0 <= n < Second -> fraction (fractionText n ++ "Z") = Some (n, "Z"%string).
Proof.
  intros Hn. unfold Second in Hn. pose proof (fmt0_length 9 n ltac:(cbn; lia) ltac:(lia)) as Hl.
  destruct (stripZeros_value _ _ _ (fmt0_value 9 n ltac:(lia))) as (w & Hw & Hle & Hv). rewrite Hl in Hle, Hv.
  unfold fractionText. destruct (stripZeros (fmt0 9 n)) as [|c s] eqn:Hs.
  - cbn [digitsFrom] in Hw. injection Hw as <-. rewrite Z.mul_0_l in Hv. by subst n.
  - rewrite append_cons. cbn [fraction]. rewrite bool_decide_true by done. cbn [orb].
    rewrite (leadingDigits_all _ 0 w) by done. unfold nanoseconds.
    assert (substr (String c s) 0 9 = String c s) as ->.
    { unfold substr. rewrite Nat.sub_0_r. cbn [drop]. rewrite take_ge.
      - apply String.string_of_list_ascii_of_string.
      - assert (forall t, length (chars t) = String.length t) as Hlen
          by (induction t as [|x t IHt]; [done|]; cbn; by rewrite <- IHt).
        change (length (chars (String c s)) <= 9)%nat. by rewrite Hlen. }
    rewrite Hw. cbn [mbind option_bind]. do 2 f_equal. rewrite Hv. reflexivity.
Qed.

(** The day of the month exists. *)
Lemma era_leap (doe : Z) :
  0 <= doe < eraDays -> dayOfYear doe = 365 -> isLeap (yearOfEra doe + 1) = true.
Proof.
  intros Hd Hy. destruct (yearOfEra_range doe Hd) as [Hr _].
  assert (doe = 365 * yearOfEra doe + yearOfEra doe / 4 - yearOfEra doe / 100 + 365) as He
    by (unfold dayOfYear in Hy; lia).
  assert (yearOfEra doe = (doe - doe / 1460 + doe / 36524 - doe / 146096) / 365) as Hdef by done.
  set (y := yearOfEra doe) in *. clearbody y. unfold eraDays in Hd. unfold isLeap.
  destruct (Z.eqb_spec ((y + 1) mod 4) 0); destruct (Z.eqb_spec ((y + 1) mod 100) 0);
    destruct (Z.eqb_spec ((y + 1) mod 400) 0); try done; exfalso; Z.div_mod_to_equations; lia.
Qed.

Lemma civil_day (days y m d : Z) : civil days = (y, m, d) -> 1 <= d <= daysIn m y.
Proof.
  unfold civil. set (z := days + epochShift). pose proof (Z.mod_pos_bound z eraDays ltac:(done)) as Hdoe.
  destruct (yearOfEra_range (z mod eraDays) Hdoe) as [Hyoe Hdoy].
  pose proof (era_leap (z mod eraDays) Hdoe) as Hleap.
  destruct (monthIndex_range (dayOfYear (z mod eraDays)) Hdoy) as [Hmp Hday].
  set (yoe := yearOfEra (z mod eraDays)) in *. set (doy := dayOfYear (z mod eraDays)) in *.
  set (era := z / eraDays) in *. clearbody yoe doy era. intros [= <- <- <-].
  assert (isLeap (yoe + era * 400 + 1) = isLeap (yoe + 1)) as Hper.
  { unfold isLeap. assert (forall k, (k | 400) -> 0 < k -> (yoe + era * 400 + 1) mod k = (yoe + 1) mod k) as Hk.
    { intros k [q ->] Hk. replace (yoe + era * (q * k) + 1) with (yoe + 1 + era * q * k) by ring.
      apply Z.mod_add. lia. }
    by rewrite !Hk by first [lia | by apply Z.mod_divide]. }
  unfold monthIndex in *. set (mp := (5 * doy + 2) / 153) in *.
  assert (mp = (5 * doy + 2) / 153) as Hdef by done. clearbody mp.
  assert (mp = 11 -> doy <> 365 \/ isLeap (yoe + era * 400 + 1) = true) as Hfeb.
  { intros _. destruct (Z.eq_dec doy 365); [right|by left]. rewrite Hper. by apply Hleap. }
  clear Hleap Hper. split; [Z.div_mod_to_equations; lia|]. unfold daysIn.
  destruct (Z.ltb_spec mp 10) as [H10|H10].
  - rewrite (proj2 (Z.leb_gt (mp + 3) 2)) by lia. rewrite (proj2 (Z.eqb_neq (mp + 3) 2)) by lia.
    repeat match goal with |- context [?a =? ?b] => destruct (Z.eqb_spec a b) end; cbn [orb];
      Z.div_mod_to_equations; lia.
  - rewrite (proj2 (Z.leb_le (mp - 9) 2)) by lia. destruct (Z.eqb_spec (mp - 9) 2) as [H2|H2].
    + destruct Hfeb as [Hf | ->]; [lia| |]; [destruct (isLeap _)|]; Z.div_mod_to_equations; lia.
    + rewrite !(proj2 (Z.eqb_neq _ _)) by lia. cbn [orb]. Z.div_mod_to_equations; lia.
Qed.

Lemma Parse_formatTimestamp (t : Time) (s : string) :
  formatTimestamp t = Ok s -> Parse s = Some (MkTime (instant t) true).
Proof.
  unfold formatTimestamp. destruct (civil (unixDay (instant t))) as [[y m] d] eqn:Hc.
  destruct (Z.ltb_spec y 0) as [|Hy0]; [done|]. destruct (Z.ltb_spec 9999 y) as [|Hy9]; [done|]. cbn [orb].
  intros [= <-]. pose proof (civil_day _ _ _ _ Hc) as Hd.
  destruct (civil_inverse _ _ _ _ Hc) as (Hm & Hd31 & Hdays & _).
  destruct (clock_parts (instant t)) as (Hh & Hn & Hs & Hf & Hsum). unfold Parse.
  rewrite longYear_fmt0 by lia. cbn [mbind option_bind].
  rewrite separator_append. cbn [mbind option_bind]. rewrite getnum_fmt0, ranged_Some by lia. cbn [mbind option_bind].
  rewrite separator_append. cbn [mbind option_bind]. rewrite getnum_fmt0 by lia. cbn [mbind option_bind].
  rewrite separator_append. cbn [mbind option_bind]. rewrite getnum_fmt0, ranged_Some by lia. cbn [mbind option_bind].
  rewrite separator_append. cbn [mbind option_bind]. rewrite getnum_fmt0, ranged_Some by lia. cbn [mbind option_bind].
  rewrite separator_append. cbn [mbind option_bind]. rewrite getnum_fmt0, ranged_Some by lia. cbn [mbind option_bind].
  rewrite fraction_text by done. cbn [mbind option_bind].
  replace (zone "Z") with (Some (@None Z, EmptyString)) by done. cbn [mbind option_bind].
  rewrite bool_decide_true, (proj2 (Z.ltb_ge d 1)), (proj2 (Z.ltb_ge (daysIn m y) d)) by (done || lia).
  cbn [negb orb]. do 2 f_equal. unfold Date.
  rewrite Z.div_small, Z.mod_small, Z.add_0_r by lia. replace (m - 1 + 1) with m by lia. by rewrite Hdays.
Qed.

(** Only instants of the years 0 to 9999 have a text, and the text is that of
    the instant alone. *)
Lemma formatTimestamp_utc (t : Time) : formatTimestamp (MkTime (instant t) true) = formatTimestamp t.
Proof. done. Qed.

End Rfc3339.
