(* ===== verification/Codec.v ===== *)
(** * The interfaces to CBOR and COSE

    [src/checkpoint] encodes with [github.com/fxamacker/cbor] and signs with
    [github.com/veraison/go-cose]; neither is part of the repository, so their
    functions are the fields of two classes, and what the repository relies on
    is stated as laws next to them.  A Go slice that may be [nil] is an option
    here, because the encoder writes [nil] and the empty slice differently. *)

From S2P Require Import Prelude.

Local Open Scope Z_scope.

(** ** CBOR *)

Abbreviation slice A := (option (list A)).

(** [type wireConsistencyProof] *)
Record wireConsistencyProof := MkWireConsistencyProof {
  wcp_SizeA : Z;
  wcp_SizeB : Z;
  wcp_OldPeaks : slice (slice byte);
  wcp_Witness : slice (slice (slice byte));
  wcp_NewPeaks : slice (slice byte)
}.

(** [type wireClaims] *)
Record wireClaims := MkWireClaims {
  wc_Kind : string;
  wc_LogSize : Z;
  wc_Commitment : slice byte;
  wc_PrevSize : Z;
  wc_PrevCommitment : slice byte;
  wc_IssuedAt : string;
  wc_Cadence : option Z;
  wc_ConsistencyProof : option wireConsistencyProof
}.

(** The canonical encoder, and the decoder without indefinite lengths and
    duplicate keys, at the two types the repository uses. *)
Class Cbor := {
  cbor_MarshalClaims : wireClaims -> result bytes;
  cbor_UnmarshalClaims : bytes -> option wireClaims;
  cbor_MarshalPeaks : slice (slice byte) -> result bytes;
  cbor_UnmarshalPeaks : bytes -> option (slice (slice byte))
}.

(** What is encoded decodes to nothing but itself; it may also be refused, as
    text that is no UTF-8 and arrays over the decoder's limit are. *)
Class CborLaws (C : Cbor) : Prop := {
  law_claims c data c' : cbor_MarshalClaims c = Ok data -> cbor_UnmarshalClaims data = Some c' -> c' = c;
  law_peaks p data p' : cbor_MarshalPeaks p = Ok data -> cbor_UnmarshalPeaks data = Some p' -> p' = p
}.

(** The decoder at the types of a receipt's inclusion proof: [[]cbor.RawMessage],
    [int64] and [[][]byte]. *)
Class CborProof := {
  cbor_UnmarshalRaws : bytes -> option (list bytes);
  cbor_UnmarshalInt64 : bytes -> option Z;
  cbor_UnmarshalPath : bytes -> option (list bytes)
}.

(** ** COSE *)

(** A label or a value of a header map; the values the repository looks for are
    told apart as Go's type assertions do. *)
Inductive Label :=
| LInt (n : Z)
| LText (s : string).

#[global] Instance Label_eq_dec : EqDecision Label.
Proof. solve_decision. Defined.

Inductive Value :=
| VInt (n : Z)
| VText (s : string)
| VBytes (b : bytes)
| VClaims (claims : list (Label * Value))
| VMap (claims : list (Label * Value))
| VArray (elements : list Value)
| VOther.

Abbreviation headers := (list (Label * Value)).

(** [cose.Sign1Message] *)
Record Sign1Message := MkSign1Message {
  msg_Protected : headers;
  msg_Unprotected : headers;
  msg_Payload : slice byte;
  msg_Signature : slice byte
}.

Class Cose := {
  cose_NewSign1Message : Sign1Message;
  cose_UnmarshalCBOR : bytes -> option Sign1Message;
  cose_MarshalCBOR : Sign1Message -> result bytes;
  (** [ProtectedHeader.SetAlgorithm], [Algorithm] and [SetCWTClaims] *)
  cose_SetAlgorithm : headers -> Z -> headers;
  cose_Algorithm : headers -> result Z;
  cose_SetCWTClaims : headers -> headers -> result headers;
  (** [NewSigner] and [Sign1Message.Sign] with a private key; [NewVerifier] and
      [Sign1Message.Verify] with a public key *)
  cose_Sign : bytes -> Sign1Message -> result Sign1Message;
  cose_Verify : bytes -> Sign1Message -> check
}.

(** Signing keeps the payload, and so do encoding and decoding. *)
Class CoseLaws (C : Cose) : Prop := {
  law_sign key m m' : cose_Sign key m = Ok m' -> msg_Payload m' = msg_Payload m;
  law_message m data m' :
    cose_MarshalCBOR m = Ok data -> cose_UnmarshalCBOR data = Some m' -> msg_Payload m' = msg_Payload m
}.

(** [headers[label]] *)
Fixpoint headerAt (hs : headers) (label : Label) : option Value :=
  match hs with
  | [] => None
  | (l, v) :: hs => if bool_decide (l = label) then Some v else headerAt hs label
  end.

(** [headers[label] = value] *)
Fixpoint setHeader (hs : headers) (label : Label) (value : Value) : headers :=
  match hs with
  | [] => [(label, value)]
  | (l, v) :: hs => if bool_decide (l = label) then (l, value) :: hs else (l, v) :: setHeader hs label value
  end.

(** The numbers of the COSE registry. *)
Definition HeaderLabelContentType : Label := LInt 3.
Definition HeaderLabelKeyID : Label := LInt 4.
Definition HeaderLabelCWTClaims : Label := LInt 15.
Definition CWTClaimIssuer : Label := LInt 1.
Definition CWTClaimSubject : Label := LInt 2.
Definition AlgorithmEdDSA : Z := -8.
