(* ===== verification/CodecRef.v ===== *)
(** * Concrete CBOR and COSE functions, to evaluate the model

    [cbor_reference] writes a value as its number in the enumeration of its
    type; [cose_reference] writes the messages of the checkpoint profile and
    signs with a keyed hash.  Neither is the real format: they only show that
    the laws of [Codec] hold of actual functions. *)

From S2P Require Import Prelude Sha256 Codec.
Import Sha256.

Module CodecRef.

Local Open Scope Z_scope.

(** ** Numbers as bytes *)

(** The bits from the lowest; the last one is set. *)
Fixpoint toBits (p : positive) : list bool :=
  match p with
  | xH => [true]
  | xO p => false :: toBits p
  | xI p => true :: toBits p
  end.

Fixpoint ofBits (l : list bool) : option positive :=
  match l with
  | [] => None
  | b :: l =>
      match ofBits l with
      | Some p => Some (if b then xI p else xO p)
      | None => if b then Some xH else None
      end
  end.

Lemma ofBits_toBits (p : positive) : ofBits (toBits p) = Some p.
Proof. induction p as [p IH|p IH|]; cbn [toBits ofBits]; by rewrite ?IH. Qed.

(** Eight bits in a byte, the last byte filled with zeros. *)
Fixpoint toBytes (l : list bool) : bytes :=
  match l with
  | [] => []
  | b0 :: b1 :: b2 :: b3 :: b4 :: b5 :: b6 :: b7 :: l =>
      Byte.of_bits (b0, (b1, (b2, (b3, (b4, (b5, (b6, b7))))))) :: toBytes l
  | _ =>
      let b i := nth i l false in
      [Byte.of_bits (b 0, (b 1, (b 2, (b 3, (b 4, (b 5, (b 6, b 7)))))))%nat]
  end.

Definition bitsOf (b : byte) : list bool :=
  let '(b0, (b1, (b2, (b3, (b4, (b5, (b6, b7))))))) := Byte.to_bits b in [b0; b1; b2; b3; b4; b5; b6; b7].

Lemma bitsOf_of_bits (b0 b1 b2 b3 b4 b5 b6 b7 : bool) :
  bitsOf (Byte.of_bits (b0, (b1, (b2, (b3, (b4, (b5, (b6, b7)))))))) = [b0; b1; b2; b3; b4; b5; b6; b7].
Proof. unfold bitsOf. by rewrite Byte.to_bits_of_bits. Qed.

(** Zeros above the highest bit do not count. *)
Lemma ofBits_zeros (l : list bool) (n : nat) : ofBits (l ++ replicate n false) = ofBits l.
Proof.
  induction l as [|b l IH]; cbn [app ofBits]; [|by rewrite IH].
  induction n as [|n IH]; [done|]. cbn [replicate ofBits]. by rewrite IH.
Qed.

Lemma bits_toBytes (l : list bool) : exists n, concat (map bitsOf (toBytes l)) = l ++ replicate n false.
Proof.
  induction l as [l IH] using (induction_ltof1 _ (@length bool)). unfold ltof in IH.
  destruct l as [|b0 [|b1 [|b2 [|b3 [|b4 [|b5 [|b6 [|b7 l]]]]]]]]; cbn [toBytes map concat nth];
    rewrite ?bitsOf_of_bits; [by exists 0%nat|by exists 7%nat|by exists 6%nat|by exists 5%nat|by exists 4%nat|
    by exists 3%nat|by exists 2%nat|by exists 1%nat|].
  destruct (IH l ltac:(cbn; lia)) as [n Hn]. exists n. by rewrite Hn.
Qed.

Definition pack (p : positive) : bytes := toBytes (toBits p).
Definition unpack (bs : bytes) : option positive := ofBits (concat (map bitsOf bs)).

Lemma unpack_pack (p : positive) : unpack (pack p) = Some p.
Proof.
  unfold unpack, pack. destruct (bits_toBytes (toBits p)) as [n ->]. by rewrite ofBits_zeros, ofBits_toBits.
Qed.

Section Encoding.
Context {A : Type} `{Countable A}.

Definition write (a : A) : bytes := pack (encode a).
Definition read (bs : bytes) : option A := p ← unpack bs; decode p.

Lemma read_write (a : A) : read (write a) = Some a.
Proof. unfold read, write. rewrite unpack_pack. apply decode_encode. Qed.

End Encoding.

(** Eight bits for every byte of a byte string. *)
Fixpoint chunks (l : list bool) : option bytes :=
  match l with
  | [true] => Some []
  | b0 :: b1 :: b2 :: b3 :: b4 :: b5 :: b6 :: b7 :: l =>
      cons (Byte.of_bits (b0, (b1, (b2, (b3, (b4, (b5, (b6, b7)))))))) <$> chunks l
  | _ => None
  end.

Lemma toBits_ofBits (l : list bool) : exists p, ofBits (l ++ [true]) = Some p /\ toBits p = l ++ [true].
Proof.
  induction l as [|b l (p & Hp & Hl)]; [by exists xH|]. cbn [app ofBits]. rewrite Hp.
  exists (if b then xI p else xO p). split; [done|]. destruct b; cbn [toBits]; by rewrite Hl.
Qed.

Lemma chunks_bits (bs : bytes) : chunks (concat (map bitsOf bs) ++ [true]) = Some bs.
Proof.
  induction bs as [|b bs IH]; [done|]. cbn [map concat].
  rewrite <- (Byte.of_bits_to_bits b) at 2. unfold bitsOf at 1.
  destruct (Byte.to_bits b) as (b0 & b1 & b2 & b3 & b4 & b5 & b6 & b7). cbn [app chunks]. rewrite IH.
  by destruct b0.
Qed.

#[export] Program Instance bytes_countable : Countable bytes :=
  {| encode bs := default xH (ofBits (concat (map bitsOf bs) ++ [true]));
     decode p := chunks (toBits p) |}.
Next Obligation.
  intros bs. destruct (toBits_ofBits (concat (map bitsOf bs))) as (p & Hb & Hp).
  change (id _) with (ofBits (concat (map bitsOf bs) ++ [true])) || idtac. rewrite Hb. cbn [default id]. unfold id. rewrite Hp.
  apply chunks_bits.
Qed.

(** ** CBOR *)

#[export] Instance wireConsistencyProof_eq_dec : EqDecision wireConsistencyProof.
Proof. solve_decision. Defined.

#[export] Instance wireClaims_eq_dec : EqDecision wireClaims.
Proof. solve_decision. Defined.

#[export] Instance wireConsistencyProof_countable : Countable wireConsistencyProof.
Proof.
  refine (inj_countable
    (fun w => [encode (wcp_SizeA w); encode (wcp_SizeB w); encode (wcp_OldPeaks w); encode (wcp_Witness w);
               encode (wcp_NewPeaks w)])
    (fun l =>
       match l with
       | [a; b; o; w; n] =>
           a ← decode a; b ← decode b; o ← decode o; w ← decode w; n ← decode n;
           Some (MkWireConsistencyProof a b o w n)
       | _ => None
       end) _).
  intros [a b o w n]. cbn [wcp_SizeA wcp_SizeB wcp_OldPeaks wcp_Witness wcp_NewPeaks].
  do 5 (rewrite decode_encode; cbn [mbind option_bind]). done.
Defined.

#[export] Instance wireClaims_countable : Countable wireClaims.
Proof.
  refine (inj_countable
    (fun c => [encode (wc_Kind c); encode (wc_LogSize c); encode (wc_Commitment c); encode (wc_PrevSize c);
               encode (wc_PrevCommitment c); encode (wc_IssuedAt c); encode (wc_Cadence c);
               encode (wc_ConsistencyProof c)])
    (fun l =>
       match l with
       | [k; s; c; ps; pc; t; cad; p] =>
           k ← decode k; s ← decode s; c ← decode c; ps ← decode ps; pc ← decode pc; t ← decode t;
           cad ← decode cad; p ← decode p; Some (MkWireClaims k s c ps pc t cad p)
       | _ => None
       end) _).
  intros [k s c ps pc t cad p]. cbn [wc_Kind wc_LogSize wc_Commitment wc_PrevSize wc_PrevCommitment wc_IssuedAt wc_Cadence
  wc_ConsistencyProof].
  do 8 (rewrite decode_encode; cbn [mbind option_bind]). done.
Defined.

#[export] Instance cbor_reference : Cbor := {
  cbor_MarshalClaims c := Ok (write c);
  cbor_UnmarshalClaims := read;
  cbor_MarshalPeaks p := Ok (write p);
  cbor_UnmarshalPeaks := read
}.

#[export] Instance cbor_reference_laws : CborLaws cbor_reference.
Proof. split; intros x data x' [= <-]; unfold cbor_UnmarshalClaims, cbor_UnmarshalPeaks, cbor_reference; rewrite read_write; by intros [= <-]. Qed.

#[export] Instance cbor_proof_reference : CborProof := {
  cbor_UnmarshalRaws := read;
  cbor_UnmarshalInt64 := read;
  cbor_UnmarshalPath := read
}.

(** ** COSE *)

(** The fields of a message of the profile. *)
Record profile := MkProfile {
  pf_algorithm : Z;
  pf_type : string;
  pf_kid : bytes;
  pf_issuer : string;
  pf_subject : string;
  pf_payload : slice byte;
  pf_signature : slice byte
}.

#[export] Instance profile_eq_dec : EqDecision profile.
Proof. solve_decision. Defined.

#[export] Instance profile_countable : Countable profile.
Proof.
  refine (inj_countable
    (fun m => [encode (pf_algorithm m); encode (pf_type m); encode (pf_kid m); encode (pf_issuer m);
               encode (pf_subject m); encode (pf_payload m); encode (pf_signature m)])
    (fun l =>
       match l with
       | [a; t; kid; iss; sub; p; g] =>
           a ← decode a; t ← decode t; kid ← decode kid; iss ← decode iss; sub ← decode sub; p ← decode p;
           g ← decode g; Some (MkProfile a t kid iss sub p g)
       | _ => None
       end) _).
  intros [a t kid iss sub p g]. cbn [pf_algorithm pf_type pf_kid pf_issuer pf_subject pf_payload pf_signature].
  do 7 (rewrite decode_encode; cbn [mbind option_bind]). done.
Defined.

Definition profileOf (m : Sign1Message) : option profile :=
  match msg_Protected m, msg_Unprotected m with
  | [(LInt 1, VInt a); (LInt 3, VText t); (LInt 4, VBytes kid);
     (LInt 15, (VClaims [(LInt 1, VText iss); (LInt 2, VText sub)] |
                VMap [(LInt 1, VText iss); (LInt 2, VText sub)]))], [] =>
      Some (MkProfile a t kid iss sub (msg_Payload m) (msg_Signature m))
  | _, _ => None
  end.

Definition messageOf (p : profile) : Sign1Message :=
  MkSign1Message
    [(LInt 1, VInt (pf_algorithm p)); (LInt 3, VText (pf_type p)); (LInt 4, VBytes (pf_kid p));
     (LInt 15, VMap [(LInt 1, VText (pf_issuer p)); (LInt 2, VText (pf_subject p))])] []
    (pf_payload p) (pf_signature p).

(** A receipt: the number of its data structure, its algorithm, its inclusion
    proofs and its signature; the payload is detached. *)
Definition receiptText : Type := Z * Z * list bytes * bytes.

Definition receiptMessage (r : receiptText) : Sign1Message :=
  let '(vds, algorithm, proofs, signature) := r in
  MkSign1Message [(LInt 1, VInt algorithm); (LInt 395, VInt vds)]
    [(LInt 396, VMap [(LInt (-1), VArray (map VBytes proofs))])] None (Some signature).

Definition receiptBytes (r : receiptText) : bytes := write (inr r : profile + receiptText).

(** The public half of a private key. *)
Definition signatureOf (public : bytes) (payload : slice byte) : bytes :=
  sha256 (public ++ default [] payload).

#[export] Instance cose_reference : Cose := {
  cose_NewSign1Message := MkSign1Message [] [] None None;
  cose_UnmarshalCBOR data :=
    match read data with
    | Some (inl p) => Some (messageOf p)
    | Some (inr r) => Some (receiptMessage r)
    | None => None
    end;
  cose_MarshalCBOR m :=
    match profileOf m with Some p => Ok (write (inl p : profile + receiptText)) | None => Err (ErrText "not a checkpoint message") end;
  cose_SetAlgorithm hs a := setHeader hs (LInt 1) (VInt a);
  cose_Algorithm hs :=
    match headerAt hs (LInt 1) with Some (VInt a) => Ok a | _ => Err (ErrText "no algorithm") end;
  cose_SetCWTClaims hs claims := Ok (setHeader hs HeaderLabelCWTClaims (VClaims claims));
  cose_Sign key m :=
    Ok (MkSign1Message (msg_Protected m) (msg_Unprotected m) (msg_Payload m)
          (Some (signatureOf (drop 32 key) (msg_Payload m))));
  cose_Verify public m :=
    if bool_decide (msg_Signature m = Some (signatureOf public (msg_Payload m))) then Ok tt
    else Err (ErrText "verification error")
}.

Lemma profile_payload (m : Sign1Message) (p : profile) :
  profileOf m = Some p -> msg_Payload (messageOf p) = msg_Payload m.
Proof. destruct m. unfold profileOf. cbn. repeat case_match; by intros [= <-]. Qed.

#[export] Instance cose_reference_laws : CoseLaws cose_reference.
Proof.
  split; [by intros key m m' [= <-]|]. intros m data m'. cbn [cose_MarshalCBOR cose_UnmarshalCBOR cose_reference].
  destruct (profileOf m) as [p|] eqn:Hp; [|done]. intros [= <-]. rewrite read_write. intros [= <-].
  by apply profile_payload.
Qed.

End CodecRef.
