(* ===== verification/Checkpoint.v ===== *)
(** * Checkpoints: [src/checkpoint/checkpoint.go]

    The canonical payload and its JSON text, the signed COSE record and its
    claims, the Ed25519 signer, and the cadence. *)

From Stdlib.Strings Require Import Ascii.
From S2P Require Import Prelude Sha256 Hex Text Json DtMmr Mmr Cll Portable Journal Rfc3339 Codec.
Import Sha256 Text Cll Journal Rfc3339.

Module Checkpoint.

Local Open Scope Z_scope.

Definition MaxEncodedBytes : Z := 65536.

(** ** Payloads *)

Record Payload := MkPayload {
  p_LogID : string;
  p_KeyID : string;
  p_MMRSize : Z;
  p_Root : string;
  p_PrevSize : Z;
  p_PrevRoot : string;
  p_Timestamp : Time
}.

#[global] Instance Payload_eq_dec : EqDecision Payload.
Proof. solve_decision. Defined.

Record recordWire := MkRecordWire {
  rw_Version : Z;
  rw_Kind : string;
  rw_LogID : string;
  rw_MMRSize : Z;
  rw_Root : string;
  rw_PrevSize : Z;
  rw_PrevRoot : string;
  rw_KeyID : string;
  rw_Timestamp : string
}.

Record canonicalProjection := MkProjection {
  cj_KeyID : string;
  cj_Kind : string;
  cj_LogID : string;
  cj_MMRSize : Z;
  cj_PrevRoot : string;
  cj_PrevSize : Z;
  cj_Root : string;
  cj_Timestamp : string;
  cj_Version : Z
}.

(** [ed25519.PublicKeySize] and [ed25519.PrivateKeySize] *)
Definition PublicKeySize : Z := 32.
Definition PrivateKeySize : Z := 64.

(** [string(bytes.ToLower([]byte(s)))], where [s] has only ASCII characters. *)
Definition lowerChar (c : ascii) : ascii :=
  let n := Z.of_N (N_of_ascii c) in
  if (65 <=? n) && (n <=? 90) then ascii_of_N (Z.to_N (n + 32)) else c.

Fixpoint ToLower (s : string) : string :=
  match s with
  | EmptyString => EmptyString
  | String c s' => String (lowerChar c) (ToLower s')
  end.

(** [hex.DecodeString(id)] is a 32-byte key whose text is [id]. *)
Definition validKeyID (id : string) : bool :=
  match Hex.DecodeString id with
  | Some key => (zlen key =? PublicKeySize) && bool_decide (Hex.EncodeToString key = id)
  | None => false
  end.

Definition empty (s : string) : bool := bool_decide (s = EmptyString).

Definition canonicalFields (p : Payload) : result canonicalProjection :=
  if negb (is_ok (ValidateIdentifier (p_LogID p))) || negb (validKeyID (p_KeyID p)) ||
     (p_MMRSize p =? 0) || (MaxPortableInteger <? p_MMRSize p) ||
     (MaxPortableInteger <? p_PrevSize p) || negb (strlen (p_Root p) =? 64)
  then Err (ErrText "invalid checkpoint payload")
  else if (p_MMRSize p <=? p_PrevSize p) || negb (Bool.eqb (p_PrevSize p =? 0) (empty (p_PrevRoot p)))
  then Err (ErrText "invalid checkpoint predecessor")
  else if match Hex.DecodeString (p_Root p) with
          | None => true
          | Some _ => negb (bool_decide (p_Root p = ToLower (p_Root p)))
          end
  then Err (ErrText "invalid checkpoint root")
  else if negb (empty (p_PrevRoot p)) &&
          match Hex.DecodeString (p_PrevRoot p) with
          | None => true
          | Some decoded =>
              negb (zlen decoded =? 32) || negb (bool_decide (p_PrevRoot p = ToLower (p_PrevRoot p)))
          end
  then Err (ErrText "invalid previous checkpoint root")
  else
    timestamp ← formatTimestamp (p_Timestamp p);
    Ok (MkProjection (p_KeyID p) "mmr_checkpoint" (p_LogID p) (p_MMRSize p) (p_PrevRoot p)
          (p_PrevSize p) (p_Root p) timestamp 1).

Definition projectionJson (c : canonicalProjection) : Json.json :=
  Json.JObject (member "key_id" (text (cj_KeyID c)) ++ member "kind" (text (cj_Kind c)) ++
    member "log_id" (text (cj_LogID c)) ++ member "mmr_size" (number (cj_MMRSize c)) ++
    member "prev_root" (text (cj_PrevRoot c)) ++ member "prev_size" (number (cj_PrevSize c)) ++
    member "root" (text (cj_Root c)) ++ member "timestamp" (text (cj_Timestamp c)) ++
    member "v" (number (cj_Version c))).

Definition CanonicalJSON (p : Payload) : result bytes :=
  fields ← canonicalFields p; Ok (Json.encode (projectionJson fields)).

(** [strconv.ParseUint] on the text of a number. *)
Definition decUint64 : decoder Z := fun old v =>
  match v with
  | Json.JNumber t => ParseUint (stringOf t)
  | Json.JNull => Some old
  | _ => None
  end.

(** The fields of [recordWire]; any other member is refused. *)
Definition recordField (key : bytes) : decoder recordWire := fun w v =>
  let 'MkRecordWire version kind log size root prevSize prevRoot keyID timestamp := w in
  if fieldIs "v" key then
    x ← decUint64 version v; Some (MkRecordWire x kind log size root prevSize prevRoot keyID timestamp)
  else if fieldIs "kind" key then
    x ← decString kind v; Some (MkRecordWire version x log size root prevSize prevRoot keyID timestamp)
  else if fieldIs "log_id" key then
    x ← decString log v; Some (MkRecordWire version kind x size root prevSize prevRoot keyID timestamp)
  else if fieldIs "mmr_size" key then
    x ← decUint64 size v; Some (MkRecordWire version kind log x root prevSize prevRoot keyID timestamp)
  else if fieldIs "root" key then
    x ← decString root v; Some (MkRecordWire version kind log size x prevSize prevRoot keyID timestamp)
  else if fieldIs "prev_size" key then
    x ← decUint64 prevSize v; Some (MkRecordWire version kind log size root x prevRoot keyID timestamp)
  else if fieldIs "prev_root" key then
    x ← decString prevRoot v; Some (MkRecordWire version kind log size root prevSize x keyID timestamp)
  else if fieldIs "key_id" key then
    x ← decString keyID v; Some (MkRecordWire version kind log size root prevSize prevRoot x timestamp)
  else if fieldIs "timestamp" key then
    x ← decString timestamp v; Some (MkRecordWire version kind log size root prevSize prevRoot keyID x)
  else None.

Definition zeroRecordWire : recordWire := MkRecordWire 0 "" "" 0 "" 0 "" "" "".

(** [decoder.Decode(&wire)]: the first value of the data, whatever follows it. *)
Definition decodeRecordWire (data : bytes) : option recordWire :=
  '(v, _) ← Json.parseValue (2 * length data + 2) 0 data;
  decStruct recordField zeroRecordWire v.

Definition ParsePayload (data : bytes) : result Payload :=
  if (zlen data =? 0) || (MaxEncodedBytes <? zlen data)
  then Err (ErrText "checkpoint payload size is invalid")
  else
    match decodeRecordWire data with
    | None => Err (ErrText "decode checkpoint payload")
    | Some wire =>
        if negb (bool_decide (rw_Kind wire = "mmr_checkpoint"%string)) || negb (rw_Version wire =? 1)
        then Err (ErrText "checkpoint profile fields are invalid")
        else
          match Parse (rw_Timestamp wire) with
          | None => Err (ErrText "checkpoint timestamp is invalid")
          | Some timestamp =>
              let payload := MkPayload (rw_LogID wire) (rw_KeyID wire) (rw_MMRSize wire) (rw_Root wire)
                               (rw_PrevSize wire) (rw_PrevRoot wire) timestamp in
              match CanonicalJSON payload with
              | Ok canonical =>
                  if bool_decide (canonical = data) then Ok payload
                  else Err (ErrText "checkpoint payload is not canonical")
              | Err _ => Err (ErrText "checkpoint payload is not canonical")
              end
          end
    end.

Definition Digest (p : Payload) : result bytes := body ← CanonicalJSON p; Ok (sha256 body).

Definition DigestHex (p : Payload) : result string := digest ← Digest p; Ok (Hex.EncodeToString digest).

(** ** Cadence *)

Record Config := MkConfig {
  CadenceEntries : Z;
  CadenceAge : Z
}.

Definition DefaultConfig : Config := MkConfig 100 (15 * 60 * 1000000000).

Definition Validate (c : Config) : check :=
  if (CadenceEntries c =? 0) || (CadenceAge c <=? 0) then Err (ErrText "invalid checkpoint cadence") else Ok tt.

(** [now.Sub(first)]: a duration, saturating at the range of [int64]. *)
Definition Sub (now first : Z) : Z := Z.max (- two63) (Z.min (two63 - 1) (now - first)).

(** [time.Time.IsZero]: January 1 of the year 1. *)
Definition zeroTime : Z := -62135596800 * 1000000000.

Definition Due (c : Config) (entries firstUncheckpointed now : Z) : bool :=
  if entries =? 0 then false
  else (CadenceEntries c <=? entries) ||
       negb (firstUncheckpointed =? zeroTime) && (CadenceAge c <=? Sub now firstUncheckpointed).

(** ** Records *)

Definition ContentType : string := "application/cll-checkpoint+cbor".
Definition wireKind : string := "cll-checkpoint".

Record Record_ := MkRecord {
  r_Version : Z;
  r_Kind : string;
  r_LogID : string;
  r_MMRSize : Z;
  r_Root : string;
  r_PrevSize : Z;
  r_PrevRoot : string;
  r_KeyID : string;
  r_Timestamp : Time;
  r_Cadence : option Z;
  r_NewPeaks : list bytes;
  r_PrevPeaks : list bytes;
  r_ConsistencyProof : option Mmr.ConsistencyProof;
  r_statement : bytes
}.

Definition payloadOf (r : Record_) : Payload :=
  MkPayload (r_LogID r) (r_KeyID r) (r_MMRSize r) (r_Root r) (r_PrevSize r) (r_PrevRoot r) (r_Timestamp r).

Definition EntryHash (r : Record_) : result bytes := digest ← Digest (payloadOf r); Ok (sha256 digest).

(** [append([]byte(nil), x...)] and [make], whose results differ in [nil]. *)
Definition copied (x : bytes) : slice byte := match x with [] => None | _ => Some x end.
Definition clonePeaks (peaks : list bytes) : slice (slice byte) := Some (map copied peaks).
Definition cloneWitness (witness : list (list bytes)) : slice (slice (slice byte)) :=
  Some (map clonePeaks witness).

(** The elements of a slice that may be [nil]. *)
Definition elems {A} (s : slice A) : list A := default [] s.
Definition peaksOf (s : slice (slice byte)) : list bytes := map elems (elems s).
Definition witnessOf (s : slice (slice (slice byte))) : list (list bytes) := map peaksOf (elems s).

Definition validCadence (cadence : option Z) : bool :=
  match cadence with Some c => negb (c =? 0) && (c <=? MaxPortableInteger) | None => true end.

Section Checkpoint.
Context `{DT : DtMmr} `{CB : Cbor} `{CS : Cose}.

(** [mmr.CommitmentObject] of [src/mmr/tree.go] *)
Definition CommitmentObject (peaks : slice (slice byte)) : result bytes :=
  let peaks := match peaks with None => Some [] | _ => peaks end in
  if existsb (fun peak => negb (zlen (elems peak) =? Mmr.hashSize)) (elems peaks)
  then Err (ErrText "MMR peaks must be 32 bytes")
  else cbor_MarshalPeaks peaks.

Definition rootFromPeaks (peaks : list bytes) : bytes := Mmr.RootFromPeaks peaks.

Definition decodeCommitment (data : bytes) : result (list bytes) :=
  match cbor_UnmarshalPeaks data with
  | None => Err (ErrText "decode checkpoint commitment")
  | Some peaks =>
      match CommitmentObject peaks with
      | Ok encoded =>
          if bool_decide (encoded = data) then Ok (peaksOf peaks)
          else Err (ErrText "checkpoint commitment is not canonical")
      | Err _ => Err (ErrText "checkpoint commitment is not canonical")
      end
  end.

Definition decodeWireClaims (data : bytes) : result wireClaims :=
  match cbor_UnmarshalClaims data with
  | None => Err (ErrText "decode checkpoint claims")
  | Some claims =>
      if match cbor_MarshalClaims claims with Ok encoded => negb (bool_decide (encoded = data)) | Err _ => true end
      then Err (ErrText "checkpoint claims are not canonical")
      else if negb (bool_decide (wc_Kind claims = wireKind)) || (wc_LogSize claims =? 0) ||
              (zlen (elems (wc_Commitment claims)) =? 0) || empty (wc_IssuedAt claims)
      then Err (ErrText "checkpoint claims are invalid")
      else if negb (validCadence (wc_Cadence claims))
      then Err (ErrText "checkpoint cadence must be a positive portable integer")
      else Ok claims
  end.

Definition protectedCWTClaims (value : option Value) : option headers :=
  match value with
  | Some (VClaims claims) | Some (VMap claims) => Some claims
  | _ => None
  end.

(** The proof of the claims as a value of the [mmr] package. *)
Definition proofOf (w : wireConsistencyProof) : Mmr.ConsistencyProof :=
  Mmr.MkConsistencyProof 1 "consistency" (wcp_SizeA w) (wcp_SizeB w) (peaksOf (wcp_OldPeaks w))
    (witnessOf (wcp_Witness w)) (peaksOf (wcp_NewPeaks w)).

(** [fmt.Sprintf("%s#%d", issuer, size)] *)
Definition subjectOf (issuer : string) (size : Z) : string :=
  String.append issuer (String "#" (FormatUint size)).

(** The header checks of [ParseRecord]: the key and the issuer with its subject. *)
Definition parseHeaders (message : Sign1Message) : result (bytes * string * string) :=
  if negb (zlen (msg_Unprotected message) =? 0) || negb (zlen (msg_Protected message) =? 4)
  then Err (ErrText "checkpoint COSE headers are invalid")
  else if match cose_Algorithm (msg_Protected message) with Ok a => negb (a =? AlgorithmEdDSA) | Err _ => true end
  then Err (ErrText "checkpoint COSE algorithm is invalid")
  else if match headerAt (msg_Protected message) HeaderLabelContentType with
          | Some (VText t) => negb (bool_decide (t = ContentType))
          | _ => true
          end
  then Err (ErrText "checkpoint COSE content type is invalid")
  else
    match headerAt (msg_Protected message) HeaderLabelKeyID with
    | Some (VBytes kid) =>
        if negb (zlen kid =? PublicKeySize) then Err (ErrText "checkpoint COSE key id is invalid")
        else
          match protectedCWTClaims (headerAt (msg_Protected message) HeaderLabelCWTClaims) with
          | Some claims =>
              if negb (zlen claims =? 2) then Err (ErrText "checkpoint CWT claims are invalid")
              else
                match headerAt claims CWTClaimIssuer, headerAt claims CWTClaimSubject with
                | Some (VText issuer), Some (VText subject) => Ok (kid, issuer, subject)
                | _, _ => Err (ErrText "checkpoint CWT identity is invalid")
                end
          | None => Err (ErrText "checkpoint CWT claims are invalid")
          end
    | _ => Err (ErrText "checkpoint COSE key id is invalid")
    end.

(** The predecessor checks of [ParseRecord] and its last step. *)
Definition checkPredecessor (r : Record_) : result Record_ :=
  r ← (if r_PrevSize r =? 0 then
         if negb (zlen (r_PrevPeaks r) =? 0)
         then Err (ErrText "first checkpoint has a previous commitment")
         else Ok (MkRecord (r_Version r) (r_Kind r) (r_LogID r) (r_MMRSize r) (r_Root r) (r_PrevSize r) ""
                    (r_KeyID r) (r_Timestamp r) (r_Cadence r) (r_NewPeaks r) (r_PrevPeaks r)
                    (r_ConsistencyProof r) (r_statement r))
       else if zlen (r_PrevPeaks r) =? 0
       then Err (ErrText "checkpoint previous commitment is required")
       else Ok r);
  _ ← (if r_PrevSize r =? 0 then
         match r_ConsistencyProof r with
         | Some _ => Err (ErrText "first checkpoint cannot carry a consistency proof")
         | None => Ok tt
         end
       else
         match r_ConsistencyProof r with
         | None => Err (ErrText "checkpoint consistency proof is invalid")
         | Some proof =>
             ok ← Mmr.VerifyConsistency (rootFromPeaks (r_PrevPeaks r)) (rootFromPeaks (r_NewPeaks r)) proof;
             (if (ok : bool) then Ok tt else Err (ErrText "checkpoint consistency proof is invalid"))
         end);
  _ ← canonicalFields (payloadOf r);
  Ok r.

Definition ParseRecord (data : bytes) : result Record_ :=
  if (zlen data =? 0) || (MaxEncodedBytes <? zlen data)
  then Err (ErrText "signed checkpoint size is invalid")
  else
    match cose_UnmarshalCBOR data with
    | None => Err (ErrText "decode signed checkpoint COSE")
    | Some message =>
        if match cose_MarshalCBOR message with Ok reencoded => negb (bool_decide (reencoded = data)) | Err _ => true end
        then Err (ErrText "signed checkpoint COSE is not canonical")
        else
          '(kid, issuer, subject) ← parseHeaders message;
          wire ← decodeWireClaims (elems (msg_Payload message));
          if negb (bool_decide (subject = subjectOf issuer (wc_LogSize wire)))
          then Err (ErrText "checkpoint CWT subject is invalid")
          else
            newPeaks ← decodeCommitment (elems (wc_Commitment wire));
            prevPeaks ← (if 0 <? zlen (elems (wc_PrevCommitment wire))
                         then decodeCommitment (elems (wc_PrevCommitment wire)) else Ok []);
            match Parse (wc_IssuedAt wire) with
            | None => Err (ErrText "checkpoint timestamp is invalid")
            | Some timestamp =>
                checkPredecessor
                  (MkRecord 1 "mmr_checkpoint" issuer (wc_LogSize wire)
                     (Hex.EncodeToString (rootFromPeaks newPeaks)) (wc_PrevSize wire)
                     (Hex.EncodeToString (rootFromPeaks prevPeaks)) (Hex.EncodeToString kid) timestamp
                     (wc_Cadence wire) newPeaks prevPeaks (proofOf <$> wc_ConsistencyProof wire) data)
            end
    end.

Definition VerifySignature (r : Record_) : check :=
  match Hex.DecodeString (r_KeyID r) with
  | Some public =>
      if negb (zlen public =? PublicKeySize) then Err (ErrText "invalid checkpoint public key")
      else
        match cose_UnmarshalCBOR (r_statement r) with
        | None => Err (ErrText "decode checkpoint signature")
        | Some message => cose_Verify public message
        end
  | None => Err (ErrText "invalid checkpoint public key")
  end.

(** ** Claims *)

Definition validatePeakCommitments (payload : Payload) (newPeaks prevPeaks : list bytes) : check :=
  if (zlen newPeaks =? 0) || negb (bool_decide (Hex.EncodeToString (rootFromPeaks newPeaks) = p_Root payload))
  then Err (ErrText "checkpoint peaks do not match root")
  else if p_PrevSize payload =? 0 then
    if negb (zlen prevPeaks =? 0) then Err (ErrText "first checkpoint cannot carry previous peaks") else Ok tt
  else if (zlen prevPeaks =? 0) ||
          negb (bool_decide (Hex.EncodeToString (rootFromPeaks prevPeaks) = p_PrevRoot payload))
  then Err (ErrText "checkpoint previous peaks do not match root")
  else Ok tt.

(** The proof must bridge the declared sizes. *)
Definition bridges (payload : Payload) (newPeaks prevPeaks : list bytes) (proof : option Mmr.ConsistencyProof) :
    result bool :=
  match proof with
  | None => Ok false
  | Some proof =>
      if negb (Mmr.cp_OldSize proof =? p_PrevSize payload) || negb (Mmr.cp_NewSize proof =? p_MMRSize payload)
      then Ok false
      else Mmr.VerifyConsistency (rootFromPeaks prevPeaks) (rootFromPeaks newPeaks) proof
  end.

Definition wireProof (proof : Mmr.ConsistencyProof) : wireConsistencyProof :=
  MkWireConsistencyProof (Mmr.cp_OldSize proof) (Mmr.cp_NewSize proof) (clonePeaks (Mmr.cp_OldPeaks proof))
    (cloneWitness (Mmr.cp_Witness proof)) (clonePeaks (Mmr.cp_NewPeaks proof)).

Definition encodeWireClaims (payload : Payload) (newPeaks prevPeaks : list bytes)
    (proof : option Mmr.ConsistencyProof) (cadence : option Z) : result bytes :=
  _ ← validatePeakCommitments payload newPeaks prevPeaks;
  if negb (validCadence cadence) then Err (ErrText "checkpoint cadence must be a positive portable integer")
  else if (p_PrevSize payload =? 0) && match proof with Some _ => true | None => false end
  then Err (ErrText "first checkpoint cannot carry a consistency proof")
  else
    bridged ← (if 0 <? p_PrevSize payload then bridges payload newPeaks prevPeaks proof else Ok true);
    if negb bridged
    then Err (ErrText "checkpoint consistency proof is required and must bridge the declared checkpoints")
    else
      newCommitment ← CommitmentObject (Some (map Some newPeaks));
      previousCommitment ← (if 0 <? p_PrevSize payload then CommitmentObject (Some (map Some prevPeaks)) else Ok []);
      timestamp ← formatTimestamp (p_Timestamp payload);
      cbor_MarshalClaims
        (MkWireClaims wireKind (p_MMRSize payload) (Some newCommitment) (p_PrevSize payload)
           (Some previousCommitment) timestamp cadence (wireProof <$> proof)).

(** ** The Ed25519 signer *)

Record Ed25519Signer := MkEd25519Signer {
  s_private : bytes;
  s_public : bytes
}.

(** [private.Public()] is the second half of the private key. *)
Definition NewEd25519Signer (private : bytes) : result Ed25519Signer :=
  if negb (zlen private =? PrivateKeySize) then Err (ErrText "Ed25519 private key is required")
  else Ok (MkEd25519Signer private (drop 32 private)).

Definition KeyID (s : Ed25519Signer) : string := Hex.EncodeToString (s_public s).

Definition VerifyCheckpoint (s : Ed25519Signer) (payload statement : bytes) : check :=
  parsedPayload ← ParsePayload payload;
  record ← ParseRecord statement;
  if negb (bool_decide (payloadOf record = parsedPayload)) || negb (bool_decide (r_KeyID record = KeyID s))
  then Err (ErrText "checkpoint payload mismatch")
  else VerifySignature record.

Definition signCheckpoint (s : Ed25519Signer) (ctx : check) (payload : bytes)
    (newPeaks prevPeaks : list bytes) (proof : option Mmr.ConsistencyProof) (cadence : option Z) : result bytes :=
  _ ← ctx;
  match ParsePayload payload with
  | Err _ => Err (ErrText "checkpoint payload key does not match signer")
  | Ok parsed =>
      if negb (bool_decide (p_KeyID parsed = KeyID s))
      then Err (ErrText "checkpoint payload key does not match signer")
      else
        claims ← encodeWireClaims parsed newPeaks prevPeaks proof cadence;
        let message := cose_NewSign1Message in
        let protected := cose_SetAlgorithm (msg_Protected message) AlgorithmEdDSA in
        let protected := setHeader protected HeaderLabelContentType (VText ContentType) in
        let protected := setHeader protected HeaderLabelKeyID (VBytes (s_public s)) in
        protected ← cose_SetCWTClaims protected
                      [(CWTClaimIssuer, VText (p_LogID parsed));
                       (CWTClaimSubject, VText (subjectOf (p_LogID parsed) (p_MMRSize parsed)))];
        let message := MkSign1Message protected (msg_Unprotected message) (Some claims) (msg_Signature message) in
        message ← cose_Sign (s_private s) message;
        encoded ← cose_MarshalCBOR message;
        _ ← VerifyCheckpoint s payload encoded;
        Ok encoded
  end.

Definition SignCheckpoint (s : Ed25519Signer) (ctx : check) (payload : bytes) (newPeaks prevPeaks : list bytes)
    (proof : option Mmr.ConsistencyProof) : result bytes :=
  signCheckpoint s ctx payload newPeaks prevPeaks proof None.

Definition SignCheckpointWithCadence (s : Ed25519Signer) (ctx : check) (payload : bytes)
    (newPeaks prevPeaks : list bytes) (proof : option Mmr.ConsistencyProof) (cadence : Z) : result bytes :=
  signCheckpoint s ctx payload newPeaks prevPeaks proof (Some cadence).

End Checkpoint.

End Checkpoint.
