(* ===== verification/CheckpointPayload.v ===== *)
(** * The canonical text of a checkpoint payload

    [ParsePayload] and [CanonicalJSON] invert each other: a valid payload is
    read back from its text, and only that text is read. *)

From Stdlib.Strings Require Import Ascii.
From S2P Require Import Prelude Sha256 DtMmr Hex Text Mmr Cll Portable PortableFormat Wire Utf8 Json JsonProofs.
From S2P Require Import Journal JournalProofs JournalText Rfc3339 Codec Checkpoint.
Import Text Json JsonProofs Cll Portable PortableFormat Journal JournalText JournalProofs Rfc3339 Checkpoint.

Module CheckpointPayload.

Local Open Scope Z_scope.

(** ** Valid payloads *)

Record payload_ok (p : Payload) (timestamp : string) : Prop := {
  ok_log : ValidateIdentifier (p_LogID p) = Ok tt;
  ok_key : validKeyID (p_KeyID p) = true;
  ok_size : p_MMRSize p <> 0 /\ p_MMRSize p <= MaxPortableInteger;
  ok_prev : p_PrevSize p <= MaxPortableInteger /\ p_PrevSize p < p_MMRSize p;
  ok_first : (p_PrevSize p =? 0) = empty (p_PrevRoot p);
  ok_root : exists root, Hex.DecodeString (p_Root p) = Some root /\ strlen (p_Root p) = 64;
  ok_prevRoot : p_PrevRoot p = EmptyString \/
    exists root, Hex.DecodeString (p_PrevRoot p) = Some root /\ zlen root = 32;
  ok_time : formatTimestamp (p_Timestamp p) = Ok timestamp
}.

Definition fieldsOf (p : Payload) (timestamp : string) : canonicalProjection :=
  MkProjection (p_KeyID p) "mmr_checkpoint" (p_LogID p) (p_MMRSize p) (p_PrevRoot p) (p_PrevSize p)
    (p_Root p) timestamp 1.

Lemma canonicalFields_Ok (p : Payload) (c : canonicalProjection) :
  canonicalFields p = Ok c -> exists timestamp, payload_ok p timestamp /\ c = fieldsOf p timestamp.
Proof.
  unfold canonicalFields. destruct (negb (is_ok _) || _ || _ || _ || _ || _) eqn:H1; [done|].
  destruct ((_ <=? _) || _) eqn:H2; [done|].
  destruct (Hex.DecodeString (p_Root p)) as [root|] eqn:Hr; [|done].
  destruct (negb (bool_decide (p_Root p = _))) eqn:H3; [done|].
  destruct (_ && _) eqn:H4; [done|].
  destruct (formatTimestamp (p_Timestamp p)) as [ts|] eqn:Ht; [|done]. cbn [mbind result_bind].
  intros [= <-]. exists ts. split; [|done]. gobool. split; try done; try lia.
  - by destruct (ValidateIdentifier (p_LogID p)) as [[]|].
  - by apply Bool.eqb_prop.
  - by exists root.
  - apply andb_false_iff in H4 as [He|He].
    + left. apply negb_false_iff in He. by apply bool_decide_eq_true in He.
    + right. destruct (Hex.DecodeString (p_PrevRoot p)) as [prev|]; [|done].
      exists prev. split; [done|]. gobool. done.
Qed.

(** ** The text *)

Lemma asciiText_decoded (s : string) (d : bytes) :
  Hex.DecodeString s = Some d -> asciiText s /\ String.length s = (2 * length d)%nat.
Proof.
  revert d. induction s as [s IH] using (induction_ltof1 _ String.length). unfold ltof in IH.
  intros d. destruct s as [|a [|b s]]; cbn [Hex.DecodeString].
  - intros [= <-]. split; [constructor|done].
  - done.
  - destruct (Hex.hex_value a) as [x|] eqn:Ha; [|done]. destruct (Hex.hex_value b) as [y|] eqn:Hb; [|done].
    destruct (Hex.DecodeString s) as [t|] eqn:Hs; [|done]. intros [= <-].
    destruct (IH s ltac:(cbn; lia) t Hs) as [Ht Hl].
    assert (forall c v, Hex.hex_value c = Some v -> 32 <= Z.of_N (N_of_ascii c) < 128) as Hc.
    { intros c v. unfold Hex.hex_value. repeat case_match; try done; gobool; lia. }
    split; [by apply asciiText_cons; [eapply Hc|apply asciiText_cons; [eapply Hc|]]|cbn; lia].
Qed.

Lemma stripZeros_ascii (s : string) : asciiText s -> asciiText (stripZeros s).
Proof.
  induction s as [|c s IH]; [done|]. intros [Hc Hs]%Forall_cons. cbn [stripZeros].
  destruct (stripZeros s) as [|c' r]; [|constructor; [done|by apply IH]].
  case_bool_decide; constructor; done || constructor.
Qed.

Lemma asciiText_timestamp (t : Time) (s : string) : formatTimestamp t = Ok s -> asciiText s.
Proof.
  unfold formatTimestamp. destruct (civil _) as [[y m] d]. destruct (_ || _); [done|]. intros [= <-].
  repeat first [apply asciiText_append; [apply asciiText_fmt0|] | apply asciiText_cons; [done|]].
  apply asciiText_append; [|by apply asciiText_cons; [|constructor]].
  unfold fractionText. pose proof (stripZeros_ascii _ (asciiText_fmt0 9 (Nanosecond (instant t)))) as Hs.
  destruct (stripZeros _); [constructor|]. by apply asciiText_cons.
Qed.

Lemma good_projection (p : Payload) (timestamp : string) :
  payload_ok p timestamp -> good 1 (projectionJson (fieldsOf p timestamp)).
Proof.
  intros []. apply (good_object 0); [lia|]. unfold fieldsOf. cbn [cj_KeyID cj_Kind cj_LogID cj_MMRSize
    cj_PrevRoot cj_PrevSize cj_Root cj_Timestamp cj_Version].
  members; try by apply good_number.
  - apply good_text; [done|]. unfold validKeyID in ok_key0.
    destruct (Hex.DecodeString (p_KeyID p)) as [key|] eqn:Hk; [|done].
    by apply asciiText_utf8, (asciiText_decoded _ _ Hk).
  - by apply good_text.
  - by apply good_text, asciiText_utf8, asciiText_identifier.
  - apply good_text; [done|]. destruct ok_prevRoot0 as [->|(root & Hr & _)]; [done|].
    by apply asciiText_utf8, (asciiText_decoded _ _ Hr).
  - destruct ok_root0 as (root & Hr & _). by apply good_text, asciiText_utf8, (asciiText_decoded _ _ Hr).
  - by eapply good_text, asciiText_utf8, asciiText_timestamp.
Qed.

(** ** Its size *)

Lemma appendRune_size (r : bytes) : (length (appendRune r) <= 6 * length r)%nat.
Proof.
  destruct r as [|b [|c r]]; [vm_compute; lia|destruct b; cbn; lia|].
  unfold appendRune. case_bool_decide; [cbn; lia|]. case_bool_decide; cbn; lia.
Qed.

Lemma appendRunes_size (fuel : nat) (s : bytes) : (length (appendRunes fuel s) <= 6 * length s)%nat.
Proof.
  revert s. induction fuel as [|fuel IH]; intros [|b t]; try (cbn; lia). cbn [appendRunes].
  destruct (Utf8.runeWidth (b :: t)) as [w|].
  - rewrite length_app. pose proof (appendRune_size (take w (b :: t))). specialize (IH (drop w (b :: t))).
    pose proof (take_drop w (b :: t)) as Hs. apply (f_equal length) in Hs. rewrite length_app in Hs. lia.
  - rewrite length_app. specialize (IH t). cbn [length] in *. lia.
Qed.

Lemma text_size (s : string) : (length (encode (text s)) <= 6 * String.length s + 2)%nat.
Proof.
  cbn [encode text]. unfold appendString. cbn [length]. rewrite length_app. cbn [length].
  pose proof (appendRunes_size (length (bytesOf s)) (bytesOf s)).
  assert (length (bytesOf s) = String.length s) as Hl; [|lia].
  rewrite <- (stringOf_bytesOf s) at 2. by rewrite stringOf_size.
Qed.

Lemma bytesOf_size (s : string) : length (bytesOf s) = String.length s.
Proof. rewrite <- (stringOf_bytesOf s) at 2. by rewrite stringOf_size. Qed.

Lemma number_size (n : Z) : 0 <= n <= MaxPortableInteger -> (length (encode (number n)) <= 20)%nat.
Proof.
  intros Hn. cbn [encode number]. unfold FormatInt. rewrite (proj2 (Z.ltb_ge n 0)) by lia.
  rewrite bytesOf_size. apply FormatUint_length; [|lia].
  assert (MaxPortableInteger < 10 ^ Z.of_nat 20) by done. lia.
Qed.

Lemma commas_size (parts : list bytes) :
  (length (commas parts) <= sum_list (map length parts) + length parts)%nat.
Proof.
  induction parts as [|p parts IH]; [cbn; lia|]. destruct parts as [|q parts]; [cbn; lia|].
  rewrite commas_cons by done. rewrite length_app. cbn [map sum_list_with length id] in *. unfold id in *. lia.
Qed.

Lemma member_size (name : string) (v : json) (n : nat) :
  (length (encode v) <= n)%nat ->
  (sum_list (map length (map encodeMember (member name v))) <= 6 * String.length name + 3 + n)%nat.
Proof.
  intros Hn. cbn [member map sum_list_with]. unfold encodeMember, id. cbn [fst snd]. rewrite length_app. cbn [length].
  pose proof (text_size name) as Ht. cbn [encode text] in Ht. lia.
Qed.

Lemma members_size (ms ms' : list (bytes * json)) (a b : nat) :
  (sum_list (map length (map encodeMember ms)) <= a)%nat ->
  (sum_list (map length (map encodeMember ms')) <= b)%nat ->
  (sum_list (map length (map encodeMember (ms ++ ms'))) <= a + b)%nat.
Proof. intros. rewrite !map_app, sum_list_with_app. lia. Qed.

Lemma stripZeros_size (s : string) : (String.length (stripZeros s) <= String.length s)%nat.
Proof.
  induction s as [|c s IH]; [done|]. cbn [stripZeros].
  destruct (stripZeros s); [case_bool_decide; cbn; lia|cbn in *; lia].
Qed.

Lemma timestamp_size (t : Time) (s : string) : formatTimestamp t = Ok s -> (String.length s <= 40)%nat.
Proof.
  unfold formatTimestamp. destruct (civil _) as [[y m] d] eqn:Hc.
  destruct (Z.ltb_spec y 0) as [|Hy0]; [done|]. destruct (Z.ltb_spec 9999 y) as [|Hy9]; [done|]. cbn [orb].
  intros [= <-]. destruct (civil_inverse _ _ _ _ Hc) as (Hm & Hd & _).
  destruct (clock_parts (instant t)) as (Hh & Hn & Hs & Hf & _). unfold Second in Hf.
  rewrite !append_length. cbn [String.length].
  rewrite (fmt0_length 4), !(fmt0_length 2) by (cbn; lia).
  assert (String.length (fractionText (Nanosecond (instant t))) <= 10)%nat; [|cbn; lia].
  unfold fractionText. pose proof (stripZeros_size (fmt0 9 (Nanosecond (instant t)))) as Hz.
  rewrite (fmt0_length 9) in Hz by (cbn; lia). destruct (stripZeros _); cbn in *; lia.
Qed.

Lemma projection_size (p : Payload) (timestamp : string) :
  payload_ok p timestamp -> 0 <= p_MMRSize p -> 0 <= p_PrevSize p ->
  zlen (encode (projectionJson (fieldsOf p timestamp))) <= 6000.
Proof.
  intros [Hlog Hkey Hsize Hprev Hfirst Hroot Hpr Ht] H0 H0'. unfold projectionJson, fieldsOf.
  cbn [cj_KeyID cj_Kind cj_LogID cj_MMRSize cj_PrevRoot cj_PrevSize cj_Root cj_Timestamp cj_Version encode].
  change (fun m => appendString (fst m) ++ x3a :: encode (snd m)) with encodeMember.
  unfold zlen. cbn [length]. rewrite length_app. cbn [length].
  match goal with |- context [commas ?l] => pose proof (commas_size l) as Hc end.
  assert (String.length (p_LogID p) <= 191)%nat as Hl1.
  { unfold ValidateIdentifier in Hlog. destruct (_ || _ || _) eqn:E; [done|]. gobool.
    unfold strlen, MaxIdentifierBytes in *. lia. }
  assert (String.length (p_KeyID p) <= 64)%nat as Hl2.
  { unfold validKeyID in Hkey. destruct (Hex.DecodeString (p_KeyID p)) as [k|] eqn:E; [|done]. gobool.
    apply asciiText_decoded in E as [_ E]. unfold zlen, PublicKeySize in *. lia. }
  assert (String.length (p_Root p) <= 64)%nat as Hl3.
  { destruct Hroot as (root & _ & Hl). unfold strlen in Hl. lia. }
  assert (String.length (p_PrevRoot p) <= 64)%nat as Hl4.
  { destruct Hpr as [->|(root & Hr & Hl)]; [cbn; lia|]. apply asciiText_decoded in Hr as [_ Hr].
    unfold zlen in Hl. lia. }
  pose proof (timestamp_size _ _ Ht) as Hl5.
  assert (forall name s n, (String.length s <= n)%nat ->
    (sum_list (map length (map encodeMember (member name (text s)))) <= 6 * String.length name + 3 + (6 * n + 2))%nat)
    as Htext by (intros name s n Hn; apply member_size; pose proof (text_size s); lia).
  assert (forall name n, 0 <= n <= MaxPortableInteger ->
    (sum_list (map length (map encodeMember (member name (number n)))) <= 6 * String.length name + 3 + 20)%nat)
    as Hnum by (intros name n Hn; by apply member_size, number_size).
  match type of Hc with (_ <= sum_list (map length (map encodeMember ?ms)) + _)%nat =>
    assert (sum_list (map length (map encodeMember ms)) <= 5000)%nat end.
  { etrans.
    { apply members_size; [by apply Htext|]. apply members_size; [by apply Htext|].
      apply members_size; [by apply Htext|]. apply members_size; [apply Hnum; lia|].
      apply members_size; [by apply Htext|]. apply members_size; [apply Hnum; lia|].
      apply members_size; [by apply Htext|]. apply members_size; [by apply Htext|]. by apply Hnum. }
    cbn [String.length]. lia. }
  match type of Hc with (_ <= _ + length ?l)%nat => assert (length l = 9%nat) as Hnine by done end. lia.
Qed.

(** ** Round trip *)

Lemma Ok_inj {A} (a b : A) : Ok a = Ok b -> a = b.
Proof. congruence. Qed.

Lemma decUint64_number (old n : Z) : 0 <= n < two64 -> decUint64 old (number n) = Some n.
Proof.
  intros Hn. unfold decUint64, number, FormatInt. rewrite stringOf_bytesOf, (proj2 (Z.ltb_ge n 0)) by lia.
  by apply ParseUint_FormatUint.
Qed.

Lemma projection_decodes (p : Payload) (timestamp : string) :
  0 <= p_MMRSize p < two64 -> 0 <= p_PrevSize p < two64 ->
  decStruct recordField zeroRecordWire (projectionJson (fieldsOf p timestamp)) =
    Some (MkRecordWire 1 "mmr_checkpoint" (p_LogID p) (p_MMRSize p) (p_Root p) (p_PrevSize p) (p_PrevRoot p)
            (p_KeyID p) timestamp).
Proof.
  intros Hm Hp. unfold projectionJson, fieldsOf, decStruct. rewrite <- (app_nil_r (member "v" _)).
  cbn [cj_KeyID cj_Kind cj_LogID cj_MMRSize cj_PrevRoot cj_PrevSize cj_Root cj_Timestamp cj_Version].
  do 3 (erewrite decMembers_member; [|unfold recordField, zeroRecordWire; fields; by rewrite decString_text]).
  erewrite decMembers_member; [|unfold recordField; fields; by rewrite decUint64_number].
  erewrite decMembers_member; [|unfold recordField; fields; by rewrite decString_text].
  erewrite decMembers_member; [|unfold recordField; fields; by rewrite decUint64_number].
  do 2 (erewrite decMembers_member; [|unfold recordField; fields; by rewrite decString_text]).
  erewrite decMembers_member; [|unfold recordField; fields; by rewrite decUint64_number]. done.
Qed.

(** The payload as its text says it: the instant in UTC. *)
Definition inUTC (p : Payload) : Payload :=
  MkPayload (p_LogID p) (p_KeyID p) (p_MMRSize p) (p_Root p) (p_PrevSize p) (p_PrevRoot p)
    (MkTime (instant (p_Timestamp p)) true).

Lemma CanonicalJSON_inUTC (p : Payload) : CanonicalJSON (inUTC p) = CanonicalJSON p.
Proof. unfold CanonicalJSON, canonicalFields. cbn [inUTC p_LogID p_KeyID p_MMRSize p_Root p_PrevSize p_PrevRoot
  p_Timestamp]. by rewrite formatTimestamp_utc. Qed.

Lemma ParsePayload_CanonicalJSON (p : Payload) (body : bytes) :
  0 <= p_MMRSize p -> 0 <= p_PrevSize p -> CanonicalJSON p = Ok body -> ParsePayload body = Ok (inUTC p).
Proof.
  intros H0 H0' Hc. pose proof Hc as Hcan. unfold CanonicalJSON in Hc.
  destruct (canonicalFields p) as [c|] eqn:Hf; [|done]. cbn [mbind result_bind] in Hc.
  apply Ok_inj in Hc. symmetry in Hc.
  apply canonicalFields_Ok in Hf as (ts & Hok & ->).
  pose proof (projection_size p ts Hok H0 H0') as Hlen. pose proof (good_projection p ts Hok) as [Hw Hh].
  rewrite <- Hc in Hlen.
  assert (zlen body <> 0) as Hne by (rewrite Hc; cbn [projectionJson encode]; rewrite zlen_cons;
    pose proof (zlen_nonneg (commas (map (fun m => appendString (fst m) ++ x3a :: encode (snd m))
      (member "key_id" (text (cj_KeyID (fieldsOf p ts))))))); unfold zlen; lia).
  unfold ParsePayload. rewrite (proj2 (Z.eqb_neq _ _) Hne), (proj2 (Z.ltb_ge _ _))
    by (unfold MaxEncodedBytes; lia). cbn [orb].
  unfold decodeRecordWire.
  pose proof (writable_parses _ Hw (2 * length body + 2)%nat 0 [] I ltac:(unfold maxNestingDepth; lia)
    ltac:(rewrite <- Hc; lia)) as Hp.
  rewrite <- Hc, app_nil_r in Hp. rewrite Hp. cbn [mbind option_bind].
  destruct (ok_size _ _ Hok), (ok_prev _ _ Hok).
  assert (MaxPortableInteger < two64) as Hmax by done.
  rewrite projection_decodes by lia.
  cbn [rw_Kind rw_Version rw_Timestamp rw_LogID rw_KeyID rw_MMRSize rw_Root rw_PrevSize rw_PrevRoot].
  rewrite bool_decide_true by done. cbn [negb orb Z.eqb Pos.eqb].
  rewrite (Parse_formatTimestamp _ _ (ok_time _ _ Hok)).
  change (MkPayload _ _ _ _ _ _ _) with (inUTC p). rewrite CanonicalJSON_inUTC, Hcan.
  by rewrite bool_decide_true.
Qed.

Lemma ParsePayload_Ok (data : bytes) (p : Payload) : ParsePayload data = Ok p -> CanonicalJSON p = Ok data.
Proof.
  unfold ParsePayload. destruct (_ || _); [done|]. destruct (decodeRecordWire data) as [w|]; [|done].
  destruct (_ || _); [done|]. destruct (Parse _) as [t|]; [|done].
  destruct (CanonicalJSON _) as [c|] eqn:Hc; [|done]. case_bool_decide as Heq; [|done].
  intros [= <-]. by rewrite Hc, Heq.
Qed.

(** ** Range *)

Lemma digitsFrom_nonneg (s : string) (acc n : Z) : 0 <= acc -> digitsFrom acc s = Some n -> 0 <= n.
Proof.
  revert acc. induction s as [|c s IH]; intros acc Ha; cbn [digitsFrom]; [by intros [= <-]|].
  intros (d & Hd & Hs)%bind_Some. eapply IH; [|done]. unfold digitValue in Hd. gosteps Hd. gobool. lia.
Qed.

Lemma ParseUint_nonneg (s : string) (n : Z) : ParseUint s = Some n -> 0 <= n.
Proof.
  unfold ParseUint. destruct s; [done|]. intros (m & Hm & Hn)%bind_Some.
  apply digitsFrom_nonneg in Hm; [|done]. gosteps Hn.
Qed.

Lemma decUint64_nonneg (old n : Z) (v : json) : 0 <= old -> decUint64 old v = Some n -> 0 <= n.
Proof.
  intros Ho. destruct v; cbn [decUint64]; try done; [by intros [= <-]|by intros ?%ParseUint_nonneg].
Qed.

Definition sizes_nonneg (w : recordWire) : Prop := 0 <= rw_MMRSize w /\ 0 <= rw_PrevSize w.

Lemma recordField_keeps (key : bytes) (v : json) (a b : recordWire) :
  sizes_nonneg a -> recordField key a v = Some b -> sizes_nonneg b.
Proof.
  destruct a. unfold sizes_nonneg, recordField. cbn [rw_MMRSize rw_PrevSize]. intros [Hm Hp].
  repeat case_match; try done; intros (x & Hx & [= <-])%bind_Some; cbn [rw_MMRSize rw_PrevSize];
    split; try done; eapply decUint64_nonneg; try exact Hx; done.
Qed.

Lemma ParsePayload_nonneg (data : bytes) (p : Payload) :
  ParsePayload data = Ok p -> 0 <= p_MMRSize p /\ 0 <= p_PrevSize p.
Proof.
  unfold ParsePayload. destruct (_ || _); [done|]. destruct (decodeRecordWire data) as [w|] eqn:Hw; [|done].
  assert (sizes_nonneg w) as Hn.
  { unfold decodeRecordWire in Hw. apply bind_Some in Hw as ([v rest] & _ & Hd).
    assert (sizes_nonneg zeroRecordWire) as Hz by (unfold sizes_nonneg; cbn; lia).
    destruct v as [| | | | |ms]; try done; cbn [decStruct] in Hd; [by injection Hd as <-|].
    refine (decMembers_keeps _ sizes_nonneg (fun _ => True) _ _ _ _ Hz _ Hd).
    - intros key v a b Ha _. by apply recordField_keeps.
    - by apply Forall_forall. }
  destruct (_ || _); [done|]. destruct (Parse _) as [t|]; [|done].
  destruct (CanonicalJSON _) as [c|] eqn:Hc; [|done]. case_bool_decide as Heq; [|done].
  by intros [= <-].
Qed.

End CheckpointPayload.
