(* ===== verification/CheckpointRecord.v ===== *)
(** * Checkpoint records: what is accepted and what is signed *)

From Stdlib.Strings Require Import Ascii.
From S2P Require Import Prelude Sha256 Hex Text DtMmr Mmr Cll Portable Journal Rfc3339 Codec Checkpoint CheckpointPayload.
Import Text Cll Portable Rfc3339 Checkpoint CheckpointPayload.

Module CheckpointRecord.

Local Open Scope Z_scope.

Section Records.
Context `{DT : DtMmr} `{CB : Cbor} `{CS : Cose}.

(** ** Accepted records *)

(** What an accepted record says of itself. *)
Record record_ok (data : bytes) (r : Record_) : Prop := {
  rok_statement : r_statement r = data /\ 0 < zlen data <= MaxEncodedBytes;
  rok_canonical : exists message, cose_UnmarshalCBOR data = Some message /\ cose_MarshalCBOR message = Ok data;
  rok_payload : is_ok (canonicalFields (payloadOf r)) = true;
  rok_root : r_Root r = Hex.EncodeToString (Mmr.RootFromPeaks (r_NewPeaks r));
  rok_width : Forall (fun p => zlen p = Mmr.hashSize) (r_NewPeaks r ++ r_PrevPeaks r);
  rok_first : r_PrevSize r = 0 -> r_PrevRoot r = EmptyString /\ r_PrevPeaks r = [] /\ r_ConsistencyProof r = None;
  rok_next : r_PrevSize r <> 0 ->
    r_PrevRoot r = Hex.EncodeToString (Mmr.RootFromPeaks (r_PrevPeaks r)) /\ r_PrevPeaks r <> [] /\
    exists proof, r_ConsistencyProof r = Some proof /\
      Mmr.VerifyConsistency (Mmr.RootFromPeaks (r_PrevPeaks r)) (Mmr.RootFromPeaks (r_NewPeaks r)) proof = Ok true
}.

Lemma decodeCommitment_Ok (data : bytes) (peaks : list bytes) :
  decodeCommitment data = Ok peaks ->
  Forall (fun p => zlen p = Mmr.hashSize) peaks /\
  exists raw, cbor_UnmarshalPeaks data = Some raw /\ CommitmentObject raw = Ok data /\ peaks = peaksOf raw.
Proof.
  unfold decodeCommitment. destruct (cbor_UnmarshalPeaks data) as [raw|] eqn:Hu; [|done].
  destruct (CommitmentObject raw) as [encoded|] eqn:Hc; [|done]. case_bool_decide as He; [|done]. intros [= <-].
  split; [|exists raw; by subst]. unfold CommitmentObject in Hc.
  destruct (existsb _ _) eqn:Hw; [done|]. unfold peaksOf. rewrite Forall_map, Forall_forall. intros p Hp.
  destruct (Z.eqb_spec (zlen (elems p)) Mmr.hashSize) as [|Hne]; [done|exfalso].
  destruct raw as [raw|]; [|inversion Hp]. cbn [elems default] in *.
  assert (existsb (fun peak => negb (zlen (elems peak) =? Mmr.hashSize)) raw = true) as Hx;
    [|exact (eq_true_false_abs _ Hx Hw)].
  apply List.existsb_exists. exists p. split; [by apply list_elem_of_In|]. by apply negb_true_iff, Z.eqb_neq.
Qed.

Lemma checkPredecessor_Ok (r r' : Record_) :
  checkPredecessor r = Ok r' ->
  r' = MkRecord (r_Version r) (r_Kind r) (r_LogID r) (r_MMRSize r) (r_Root r) (r_PrevSize r)
         (if r_PrevSize r =? 0 then EmptyString else r_PrevRoot r) (r_KeyID r) (r_Timestamp r) (r_Cadence r)
         (r_NewPeaks r) (r_PrevPeaks r) (r_ConsistencyProof r) (r_statement r) /\
  is_ok (canonicalFields (payloadOf r')) = true /\
  (r_PrevSize r = 0 -> r_PrevPeaks r = [] /\ r_ConsistencyProof r = None) /\
  (r_PrevSize r <> 0 -> r_PrevPeaks r <> [] /\ exists proof, r_ConsistencyProof r = Some proof /\
     Mmr.VerifyConsistency (rootFromPeaks (r_PrevPeaks r)) (rootFromPeaks (r_NewPeaks r)) proof = Ok true).
Proof.
  unfold checkPredecessor. destruct (Z.eqb_spec (r_PrevSize r) 0) as [H0|H0].
  - destruct (Z.eqb_spec (zlen (r_PrevPeaks r)) 0) as [Hp|]; [|done].
    cbn [negb mbind result_bind r_PrevSize r_ConsistencyProof]. rewrite H0. cbn [Z.eqb].
    destruct (r_ConsistencyProof r) as [proof|] eqn:Hpr; [done|]. cbn [mbind result_bind].
    destruct (canonicalFields _) as [c|] eqn:Hc; [|done]. cbn [mbind result_bind]. intros [= <-].
    rewrite ?H0, ?Hpr in *. rewrite Hc. split_and!; [done|done| |done]. intros _. split; [|done].
    by destruct (r_PrevPeaks r).
  - destruct (Z.eqb_spec (zlen (r_PrevPeaks r)) 0) as [|Hp]; [done|].
    cbn [mbind result_bind]. rewrite (proj2 (Z.eqb_neq _ _) H0).
    destruct (r_ConsistencyProof r) as [proof|] eqn:Hpr; [|done].
    destruct (Mmr.VerifyConsistency _ _ _) as [[]|] eqn:Hv; [|done|done]. cbn [mbind result_bind].
    destruct (canonicalFields _) as [c|] eqn:Hc; [|done]. cbn [mbind result_bind]. intros [= <-].
    split_and!; [by destruct r; cbn in *; subst|by rewrite Hc|done|]. intros _. split; [by intros E; rewrite E in Hp|].
    by exists proof.
Qed.

(** The message of a statement, its headers and its claims. *)
Record parsed (data : bytes) (r : Record_) (message : Sign1Message) (wire : wireClaims) (issuer : string)
    (kid : bytes) : Prop := {
  pr_size : 0 < zlen data <= MaxEncodedBytes;
  pr_message : cose_UnmarshalCBOR data = Some message;
  pr_canonical : cose_MarshalCBOR message = Ok data;
  pr_headers : parseHeaders message = Ok (kid, issuer, subjectOf issuer (wc_LogSize wire));
  pr_claims : decodeWireClaims (elems (msg_Payload message)) = Ok wire;
  pr_new : decodeCommitment (elems (wc_Commitment wire)) = Ok (r_NewPeaks r);
  pr_prev : (if 0 <? zlen (elems (wc_PrevCommitment wire)) then decodeCommitment (elems (wc_PrevCommitment wire))
             else Ok []) = Ok (r_PrevPeaks r);
  pr_time : Parse (wc_IssuedAt wire) = Some (r_Timestamp r);
  pr_fields : r_LogID r = issuer /\ r_KeyID r = Hex.EncodeToString kid /\ r_MMRSize r = wc_LogSize wire /\
    r_PrevSize r = wc_PrevSize wire /\ r_Cadence r = wc_Cadence wire /\
    r_ConsistencyProof r = proofOf <$> wc_ConsistencyProof wire /\ r_statement r = data /\
    r_Root r = Hex.EncodeToString (rootFromPeaks (r_NewPeaks r)) /\
    r_PrevRoot r = if r_PrevSize r =? 0 then EmptyString else Hex.EncodeToString (rootFromPeaks (r_PrevPeaks r))
}.

Lemma ParseRecord_parsed (data : bytes) (r : Record_) :
  ParseRecord data = Ok r ->
  (exists message wire issuer kid, parsed data r message wire issuer kid) /\
  is_ok (canonicalFields (payloadOf r)) = true /\
  (r_PrevSize r = 0 -> r_PrevPeaks r = [] /\ r_ConsistencyProof r = None) /\
  (r_PrevSize r <> 0 -> r_PrevPeaks r <> [] /\ exists proof, r_ConsistencyProof r = Some proof /\
     Mmr.VerifyConsistency (rootFromPeaks (r_PrevPeaks r)) (rootFromPeaks (r_NewPeaks r)) proof = Ok true).
Proof.
  unfold ParseRecord. destruct (Z.eqb_spec (zlen data) 0) as [|H0]; [done|].
  destruct (Z.ltb_spec MaxEncodedBytes (zlen data)) as [|Hmax]; [done|]. cbn [orb].
  destruct (cose_UnmarshalCBOR data) as [message|] eqn:Hm; [|done].
  destruct (cose_MarshalCBOR message) as [re|] eqn:Hre; [|done]. case_bool_decide as Hcan; [|done]. cbn [negb].
  destruct (parseHeaders message) as [[[kid issuer] subject]|] eqn:Hh; [|done]. cbn [mbind result_bind].
  destruct (decodeWireClaims _) as [wire|] eqn:Hw; [|done]. cbn [mbind result_bind].
  case_bool_decide as Hsub; [|done]. cbn [negb].
  destruct (decodeCommitment (elems (wc_Commitment wire))) as [new|] eqn:Hnew; [|done]. cbn [mbind result_bind].
  destruct (if 0 <? _ then _ else _) as [prev|] eqn:Hprev; [|done]. cbn [mbind result_bind].
  destruct (Parse (wc_IssuedAt wire)) as [ts|] eqn:Hts; [|done].
  intros (-> & Hok & Hf & Hn)%checkPredecessor_Ok.
  cbn [r_PrevSize r_PrevPeaks r_NewPeaks r_ConsistencyProof r_Version r_Kind r_LogID r_MMRSize r_Root r_PrevRoot
    r_KeyID r_Timestamp r_Cadence r_statement] in *.
  split_and!; [|done|done|done]. exists message, wire, issuer, kid. subst subject re.
  pose proof (zlen_nonneg data). split; [lia|done|done|done|done|done|done|done|].
  cbn [r_PrevSize r_PrevPeaks r_NewPeaks r_ConsistencyProof r_LogID r_MMRSize r_Root r_PrevRoot r_KeyID r_Cadence
    r_statement]. by split_and!.
Qed.

Lemma ParseRecord_ok (data : bytes) (r : Record_) : ParseRecord data = Ok r -> record_ok data r.
Proof.
  intros ((message & wire & issuer & kid & [Hs Hm Hcan _ _ Hnew Hprev _ Hfields]) & Hok & Hf & Hn)%ParseRecord_parsed.
  destruct Hfields as (_ & _ & _ & _ & _ & _ & Hst & Hroot & Hprevroot).
  split; [done|by exists message|done|done| | |].
  - apply Forall_app. split; [by apply decodeCommitment_Ok in Hnew as [? _]|].
    destruct (0 <? _); [by apply decodeCommitment_Ok in Hprev as [? _]|]. injection Hprev as <-. constructor.
  - intros H0. rewrite Hprevroot, H0. by destruct (Hf H0).
  - intros H0. rewrite Hprevroot, (proj2 (Z.eqb_neq _ _) H0). by destruct (Hn H0).
Qed.

(** ** Signed records *)

Lemma VerifyCheckpoint_Ok (s : Ed25519Signer) (payload statement : bytes) :
  VerifyCheckpoint s payload statement = Ok tt ->
  exists r, ParsePayload payload = Ok (payloadOf r) /\ ParseRecord statement = Ok r /\
    r_KeyID r = KeyID s /\ VerifySignature r = Ok tt.
Proof.
  unfold VerifyCheckpoint. destruct (ParsePayload payload) as [p|] eqn:Hp; [|done]. cbn [mbind result_bind].
  destruct (ParseRecord statement) as [r|] eqn:Hr; [|done]. cbn [mbind result_bind].
  case_bool_decide as H1; [|done]. case_bool_decide as H2; [|done]. cbn [negb orb]. intros Hv.
  exists r. by subst p.
Qed.

(** The steps of a successful signature. *)
Record signed (s : Ed25519Signer) (payload : bytes) (newPeaks prevPeaks : list bytes)
    (proof : option Mmr.ConsistencyProof) (cadence : option Z) (statement : bytes) (r : Record_) : Prop := {
  sg_payload : ParsePayload payload = Ok (payloadOf r);
  sg_key : r_KeyID r = KeyID s;
  sg_record : ParseRecord statement = Ok r;
  sg_verified : VerifySignature r = Ok tt;
  sg_claims : exists claims message, encodeWireClaims (payloadOf r) newPeaks prevPeaks proof cadence = Ok claims /\
    msg_Payload message = Some claims /\ exists signedMessage,
      cose_Sign (s_private s) message = Ok signedMessage /\ cose_MarshalCBOR signedMessage = Ok statement
}.

Lemma signCheckpoint_Ok (s : Ed25519Signer) (ctx : check) (payload : bytes) (newPeaks prevPeaks : list bytes)
    (proof : option Mmr.ConsistencyProof) (cadence : option Z) (statement : bytes) :
  signCheckpoint s ctx payload newPeaks prevPeaks proof cadence = Ok statement ->
  exists r, signed s payload newPeaks prevPeaks proof cadence statement r.
Proof.
  unfold signCheckpoint. destruct ctx as [[]|]; [|done]. cbn [mbind result_bind].
  destruct (ParsePayload payload) as [p|] eqn:Hp; [|done]. case_bool_decide as Hk; [|done]. cbn [negb].
  destruct (encodeWireClaims p newPeaks prevPeaks proof cadence) as [claims|] eqn:Hc; [|done].
  cbn [mbind result_bind].
  destruct (cose_SetCWTClaims _ _) as [protected|] eqn:Hh; [|done]. cbn [mbind result_bind].
  match goal with |- context [cose_Sign ?k ?m] => destruct (cose_Sign k m) as [sm|] eqn:Hs; [|done] end.
  cbn [mbind result_bind]. destruct (cose_MarshalCBOR sm) as [st|] eqn:Hm; [|done]. cbn [mbind result_bind].
  destruct (VerifyCheckpoint s payload st) as [[]|] eqn:Hv; [|done]. cbn [mbind result_bind]. intros [= ->].
  apply VerifyCheckpoint_Ok in Hv as (r & Hpr & Hr & Hkr & Hvr). rewrite Hp in Hpr. injection Hpr as ->.
  exists r. split; [done|done|done|done|]. eexists _, _. split_and!; [done| |by exists sm]. done.
Qed.

Lemma signed_verifies (s : Ed25519Signer) (payload : bytes) (newPeaks prevPeaks : list bytes)
    (proof : option Mmr.ConsistencyProof) (cadence : option Z) (statement : bytes) (r : Record_) :
  signed s payload newPeaks prevPeaks proof cadence statement r -> VerifyCheckpoint s payload statement = Ok tt.
Proof.
  intros [Hp Hk Hr Hv _]. unfold VerifyCheckpoint. rewrite Hp, Hr. cbn [mbind result_bind].
  by rewrite !bool_decide_true.
Qed.

Lemma elems_Some {A} (l : list A) : elems (Some l) = l.
Proof. done. Qed.

Lemma elems_copied (x : bytes) : elems (copied x) = x.
Proof. by destruct x. Qed.

Lemma peaksOf_clonePeaks (peaks : list bytes) : peaksOf (clonePeaks peaks) = peaks.
Proof.
  unfold peaksOf, clonePeaks. rewrite elems_Some, map_map. rewrite <- (map_id peaks) at 2.
  apply map_ext. apply elems_copied.
Qed.

Lemma witnessOf_cloneWitness (w : list (list bytes)) : witnessOf (cloneWitness w) = w.
Proof.
  unfold witnessOf, cloneWitness. rewrite elems_Some, map_map. rewrite <- (map_id w) at 2.
  apply map_ext. apply peaksOf_clonePeaks.
Qed.

Lemma proofOf_wireProof (proof : Mmr.ConsistencyProof) :
  Mmr.cp_V proof = 1 -> Mmr.cp_Kind proof = "consistency"%string -> proofOf (wireProof proof) = proof.
Proof.
  intros HV HK. destruct proof as [v kind a b old w new]. cbn [Mmr.cp_V Mmr.cp_Kind] in *. subst. unfold proofOf, wireProof.
  cbn [Mmr.cp_OldSize Mmr.cp_NewSize Mmr.cp_OldPeaks Mmr.cp_Witness Mmr.cp_NewPeaks wcp_SizeA wcp_SizeB wcp_OldPeaks
    wcp_Witness wcp_NewPeaks].
  by rewrite !peaksOf_clonePeaks, witnessOf_cloneWitness.
Qed.

Lemma CommitmentObject_decodes `{!CborLaws CB} (peaks peaks' : list bytes) (data : bytes) :
  CommitmentObject (Some (map Some peaks)) = Ok data -> decodeCommitment data = Ok peaks' -> peaks' = peaks.
Proof.
  intros Hm (_ & raw & Hraw & _ & ->)%decodeCommitment_Ok. unfold CommitmentObject in Hm. destruct (existsb _ _); [done|].
  rewrite (law_peaks _ _ _ Hm Hraw). unfold peaksOf. by rewrite elems_Some, map_map, map_id.
Qed.

Lemma VerifyConsistency_kind (a b : bytes) (proof : Mmr.ConsistencyProof) :
  Mmr.VerifyConsistency a b proof = Ok true -> Mmr.cp_V proof = 1 /\ Mmr.cp_Kind proof = "consistency"%string.
Proof. unfold Mmr.VerifyConsistency. destruct (_ || _) eqn:E; [done|]. gobool. done. Qed.

Lemma encodeWireClaims_Ok (p : Payload) (newPeaks prevPeaks : list bytes) (proof : option Mmr.ConsistencyProof)
    (cadence : option Z) (claims : bytes) :
  0 <= p_PrevSize p -> encodeWireClaims p newPeaks prevPeaks proof cadence = Ok claims ->
  exists newC prevC ts,
    cbor_MarshalClaims (MkWireClaims wireKind (p_MMRSize p) (Some newC) (p_PrevSize p) (Some prevC) ts cadence
      (wireProof <$> proof)) = Ok claims /\
    CommitmentObject (Some (map Some newPeaks)) = Ok newC /\
    (p_PrevSize p = 0 -> prevPeaks = [] /\ proof = None /\ prevC = []) /\
    (p_PrevSize p <> 0 -> CommitmentObject (Some (map Some prevPeaks)) = Ok prevC /\
       proofOf <$> (wireProof <$> proof) = proof).
Proof.
  intros H0 Hc. unfold encodeWireClaims in Hc.
  destruct (validatePeakCommitments p newPeaks prevPeaks) as [[]|] eqn:Hval; [|done].
  cbn [mbind result_bind] in Hc. destruct (negb (validCadence cadence)); [done|].
  destruct (_ && _) eqn:Hfirst; [done|].
  destruct (if 0 <? p_PrevSize p then bridges _ _ _ _ else _) as [[]|] eqn:Hb; [|done|done].
  cbn [mbind result_bind negb] in Hc.
  destruct (CommitmentObject (Some (map Some newPeaks))) as [newC|] eqn:Hnew; [|done].
  cbn [mbind result_bind] in Hc.
  destruct (if 0 <? p_PrevSize p then _ else _) as [prevC|] eqn:Hprev in Hc; [|done].
  cbn [mbind result_bind] in Hc. destruct (formatTimestamp _) as [ts|]; [|done]. cbn [mbind result_bind] in Hc.
  exists newC, prevC, ts. split; [done|]. split; [done|]. destruct (Z.ltb_spec 0 (p_PrevSize p)) as [Hp|Hp].
  - split; [lia|]. intros _. split; [done|]. unfold bridges in Hb. destruct proof as [q|]; [|done].
    destruct (_ || _); [done|]. apply VerifyConsistency_kind in Hb as [HV HK]. cbn [fmap option_fmap option_map].
    by rewrite proofOf_wireProof.
  - split; [|lia]. intros Hz. rewrite Hz in Hfirst. cbn [Z.eqb andb] in Hfirst. injection Hprev as <-.
    destruct proof; [done|]. split; [|done]. unfold validatePeakCommitments in Hval. rewrite Hz in Hval.
    cbn [Z.eqb] in Hval. destruct (_ || _); [done|]. destruct prevPeaks; [done|exfalso].
    rewrite zlen_cons in Hval. destruct (Z.eqb_spec (zlen prevPeaks + 1) 0); [|done]. pose proof (zlen_nonneg prevPeaks).
    lia.
Qed.

(** The claims an accepted signature carries are those it was given. *)
Lemma signed_contents `{!CborLaws CB} `{!CoseLaws CS} (s : Ed25519Signer) (payload : bytes)
    (newPeaks prevPeaks : list bytes) (proof : option Mmr.ConsistencyProof) (cadence : option Z)
    (statement : bytes) (r : Record_) :
  signed s payload newPeaks prevPeaks proof cadence statement r ->
  r_NewPeaks r = newPeaks /\ r_PrevPeaks r = prevPeaks /\ r_ConsistencyProof r = proof /\ r_Cadence r = cadence.
Proof.
  intros [Hpay _ Hr _ (claims & message & Hc & Hpl & sm & Hs & Hm)].
  apply ParsePayload_nonneg in Hpay as [_ H0].
  apply ParseRecord_parsed in Hr as ((m' & wire & issuer & kid & Hp) & _ & _ & Hne).
  pose proof (law_message _ _ _ Hm (pr_message _ _ _ _ _ _ Hp)) as Hp'. rewrite (law_sign _ _ _ Hs), Hpl in Hp'.
  pose proof (pr_claims _ _ _ _ _ _ Hp) as Hw. rewrite Hp', elems_Some in Hw.
  apply encodeWireClaims_Ok in Hc as (newC & prevC & ts & Hc & Hnew & Hfirst & Hnext); [|done].
  unfold decodeWireClaims in Hw. destruct (cbor_UnmarshalClaims claims) as [decoded|] eqn:Hdec; [|done].
  rewrite (law_claims _ _ _ Hc Hdec) in Hw.
  destruct (match cbor_MarshalClaims _ with Ok _ => _ | Err _ => _ end); [done|].
  destruct (_ || _); [done|]. destruct (negb _); [done|]. apply Ok_inj in Hw. subst wire.
  destruct (pr_fields _ _ _ _ _ _ Hp) as (_ & _ & _ & Hsize & Hcad & Hproof & _).
  pose proof (pr_new _ _ _ _ _ _ Hp) as Hn. pose proof (pr_prev _ _ _ _ _ _ Hp) as Hpv.
  cbn [wc_Commitment wc_PrevCommitment wc_ConsistencyProof wc_Cadence] in *. rewrite !elems_Some in *.
  split; [by eapply CommitmentObject_decodes|]. rewrite Hproof, Hcad.
  change (p_PrevSize (payloadOf r)) with (r_PrevSize r) in *.
  destruct (Z.eq_dec (r_PrevSize r) 0) as [Hz|Hz].
  - destruct (Hfirst Hz) as (-> & -> & ->). by apply Ok_inj in Hpv.
  - destruct (Hnext Hz) as [Hpc Hpr]. rewrite Hpr. split; [|done].
    destruct (0 <? zlen prevC).
    + by eapply CommitmentObject_decodes.
    + apply Ok_inj in Hpv. by destruct (proj1 (Hne Hz)).
Qed.

End Records.

End CheckpointRecord.
