(* ===== verification/CheckpointClaims.v ===== *)
(** * What checkpoints promise

    The canonical text of a payload, the records [ParseRecord] accepts, and
    the statements a signer produces; with a signed chain of two checkpoints
    on which they are tried. *)

From S2P Require Import Prelude Sha256 Hex Geometry Text DtMmr DtMmrRef Mmr MmrBuild MmrProofs MmrBinding.
From S2P Require Import Cll Portable Journal Rfc3339 Codec CodecRef Checkpoint CheckpointPayload CheckpointRecord.
Import Geometry Text MmrBuild MmrProofs MmrBinding Cll Portable Rfc3339 CodecRef Checkpoint CheckpointPayload.
Import CheckpointRecord.

Module CheckpointClaims.

Local Open Scope Z_scope.

(** C22: the canonical text of a valid payload reads back as the payload, with
    its instant in UTC, and no other text reads as that payload: what is signed
    determines what is meant and the reverse. *)
Theorem payload_text_roundtrip (p : Payload) (body : bytes) :
  0 <= p_MMRSize p -> 0 <= p_PrevSize p -> CanonicalJSON p = Ok body ->
  ParsePayload body = Ok (inUTC p) /\ forall data, ParsePayload data = Ok (inUTC p) -> data = body.
Proof.
  intros H1 H2 Hc. split; [by apply ParsePayload_CanonicalJSON|].
  intros data Hd%ParsePayload_Ok. rewrite CanonicalJSON_inUTC, Hc in Hd. by apply Ok_inj in Hd.
Qed.

Section Claims.
Context `{DT : DtMmr} `{CB : Cbor} `{CS : Cose}.

(** C23: whatever bytes [ParseRecord] accepts, they are the canonical encoding
    of a COSE message, the record keeps them, its payload is valid, its roots are
    those of its peaks, a first checkpoint has no predecessor, and any other
    carries a consistency proof that verifies between its two roots.  So against
    a log that has the new root at the second size of that proof, the previous
    root is the root of the log at the first size of the proof and the proof is
    the log's own, or the messages hashed for the proof and for the log's own
    proof contain a SHA-256 collision.  The sizes are those of the proof: nothing
    compares them with the [prev_size] and [log_size] the record declares
    ([declared_sizes_are_not_compared]), and [issued_at] may have a zone offset
    ([issued_at_may_have_an_offset]). *)
Theorem accepted_records_are_valid `{!DtMmrLaws DT} (data : bytes) (r : Record_) :
  ParseRecord data = Ok r ->
  record_ok data r /\
  forall t vs m1 m2 proof,
    r_PrevSize r <> 0 -> r_ConsistencyProof r = Some proof -> commits t vs -> 0 <= m1 <= m2 -> m2 <= zlen vs ->
    Mmr.cp_OldSize proof = mmr_size m1 -> Mmr.cp_NewSize proof = mmr_size m2 ->
    r_Root r = Hex.EncodeToString (logRoot (prefix vs m2)) ->
    exists own, Mmr.ConsistencyProofAt t (mmr_size m1) (mmr_size m2) = Ok own /\
      ((r_PrevRoot r = Hex.EncodeToString (logRoot (prefix vs m1)) /\ proof = own) \/
       collision (consistencyTranscript proof) (consistencyTranscript own)).
Proof.
  intros Hr%ParseRecord_ok. split; [done|]. intros t vs m1 m2 proof Hne Hp Hc Hm Hm2 Ho Hn Hroot.
  destruct (rok_next _ _ Hr Hne) as (-> & _ & proof' & Hp' & Hv).
  rewrite Hp in Hp'. injection Hp' as <-. rewrite (rok_root _ _ Hr) in Hroot. apply Hex.EncodeToString_inj in Hroot.
  rewrite Hroot in Hv. destruct (consistency_produced t vs Hc m1 m2 Hm Hm2) as (ws & Hws & Hown).
  exists (honestConsistency vs m1 m2 ws). split; [done|].
  destruct (consistency_bind _ (logRoot (prefix vs m1)) _ proof (honestConsistency vs m1 m2 ws) Ho Hn Hv)
    as [[-> ->]|Hcol]; [by apply (honestConsistency_verifies t vs Hc); try lia|by left|by right].
Qed.

(** C24: a statement the signer returns is accepted by [ParseRecord] and by the
    signer's own check, carries its signature under the signer's key, and says
    exactly what was signed: the payload, both commitments, the proof and the
    cadence. *)
Theorem signed_statements_parse_back `{!CborLaws CB} `{!CoseLaws CS} (s : Ed25519Signer) (ctx : check)
    (payload : bytes) (newPeaks prevPeaks : list bytes) (proof : option Mmr.ConsistencyProof)
    (cadence : option Z) (statement : bytes) :
  signCheckpoint s ctx payload newPeaks prevPeaks proof cadence = Ok statement ->
  exists r, ParseRecord statement = Ok r /\ ParsePayload payload = Ok (payloadOf r) /\ r_KeyID r = KeyID s /\
    (r_NewPeaks r = newPeaks /\ r_PrevPeaks r = prevPeaks /\ r_ConsistencyProof r = proof /\
     r_Cadence r = cadence) /\
    VerifySignature r = Ok tt /\ VerifyCheckpoint s payload statement = Ok tt.
Proof.
  intros (r & Hs)%signCheckpoint_Ok. exists r. pose proof (signed_contents _ _ _ _ _ _ _ _ Hs).
  pose proof (signed_verifies _ _ _ _ _ _ _ _ Hs). by destruct Hs.
Qed.

End Claims.

(** ** A signed chain *)

Import Ref.

Definition sampleKey : bytes := replicate 32 Byte.x01 ++ replicate 32 Byte.x02.
Definition sampleSigner : Ed25519Signer := MkEd25519Signer sampleKey (drop 32 sampleKey).
Definition sampleTime : Time := MkTime 1500000000123456789 true.

Definition samplePayload : Payload :=
  MkPayload "log" (KeyID sampleSigner) 4 (Hex.EncodeToString (logRoot sampleValues)) 1
    (Hex.EncodeToString (logRoot (take 1 sampleValues))) sampleTime.

Definition okOr {A} (default : A) (r : result A) : A := match r with Ok a => a | Err _ => default end.

Definition sampleBody : bytes := okOr [] (CanonicalJSON samplePayload).

Definition sampleProof : Mmr.ConsistencyProof :=
  okOr (Mmr.MkConsistencyProof 0 "" 0 0 [] [] [])
    (Mmr.ConsistencyProofAt (DT := dt_reference) (buildTree sampleValues) 1 4).

Definition sampleStatement : bytes :=
  okOr [] (signCheckpoint (DT := dt_reference) sampleSigner (Ok tt) sampleBody (logPeaks sampleValues)
             (logPeaks (take 1 sampleValues)) (Some sampleProof) (Some 900)).

Definition sampleRecord : Record_ :=
  okOr (MkRecord 0 "" "" 0 "" 0 "" "" sampleTime None [] [] None [])
    (ParseRecord (DT := dt_reference) sampleStatement).

Lemma payload_text_roundtrip_witness :
  ParsePayload sampleBody = Ok samplePayload /\
  forall data, ParsePayload data = Ok samplePayload -> data = sampleBody.
Proof.
  apply (payload_text_roundtrip samplePayload sampleBody); [vm_compute; congruence..|vm_compute; reflexivity].
Defined.

Lemma signed_statements_parse_back_witness :
  exists r, ParseRecord (DT := dt_reference) sampleStatement = Ok r /\ ParsePayload sampleBody = Ok (payloadOf r) /\
    r_KeyID r = KeyID sampleSigner /\
    (r_NewPeaks r = logPeaks sampleValues /\ r_PrevPeaks r = logPeaks (take 1 sampleValues) /\
     r_ConsistencyProof r = Some sampleProof /\ r_Cadence r = Some 900) /\
    VerifySignature r = Ok tt /\ VerifyCheckpoint (DT := dt_reference) sampleSigner sampleBody sampleStatement = Ok tt.
Proof.
  apply (signed_statements_parse_back (DT := dt_reference) (CB := cbor_reference) (CS := cose_reference)
    sampleSigner (Ok tt)). vm_compute. reflexivity.
Defined.

Lemma accepted_records_are_valid_witness :
  record_ok (DT := dt_reference) sampleStatement sampleRecord /\
  exists own, Mmr.ConsistencyProofAt (DT := dt_reference) (buildTree sampleValues) (mmr_size 1) (mmr_size 3) = Ok own /\
    ((r_PrevRoot sampleRecord = Hex.EncodeToString (logRoot (prefix sampleValues 1)) /\ sampleProof = own) \/
     collision (consistencyTranscript (DT := dt_reference) sampleProof)
       (consistencyTranscript (DT := dt_reference) own)).
Proof.
  assert (ParseRecord (DT := dt_reference) sampleStatement = Ok sampleRecord) as Hr by (vm_compute; reflexivity).
  split; [exact (proj1 (accepted_records_are_valid (DT := dt_reference) _ _ Hr))|].
  assert (r_PrevSize sampleRecord <> 0) as Hne by (vm_compute; congruence).
  assert (r_ConsistencyProof sampleRecord = Some sampleProof) as Hp by (vm_compute; reflexivity).
  assert (3 <= zlen sampleValues) as Hl by (vm_compute; congruence).
  assert (Mmr.cp_OldSize sampleProof = mmr_size 1) as Ho by (vm_compute; reflexivity).
  assert (Mmr.cp_NewSize sampleProof = mmr_size 3) as Hn by (vm_compute; reflexivity).
  assert (r_Root sampleRecord = Hex.EncodeToString (logRoot (prefix sampleValues 3))) as Hroot
    by (vm_compute; reflexivity).
  exact (proj2 (accepted_records_are_valid (DT := dt_reference) _ _ Hr) (buildTree sampleValues) sampleValues 1 3
    sampleProof Hne Hp sample_commits ltac:(lia) Hl Ho Hn Hroot).
Defined.

(** ** Statements only the verifier accepts *)

(** A statement of the log ["log"] over given claims, under the key of
    [sampleSigner]. *)
Definition signClaims (claims : wireClaims) : bytes :=
  okOr [] (
    body ← cbor_MarshalClaims claims;
    message ← cose_Sign sampleKey
      (messageOf (MkProfile AlgorithmEdDSA ContentType (s_public sampleSigner) "log"
                    (subjectOf "log" (wc_LogSize claims)) (Some body) None));
    cose_MarshalCBOR message).

Definition claimsOf (logSize prevSize : Z) (issuedAt : string) : wireClaims :=
  MkWireClaims wireKind logSize (Some (okOr [] (CommitmentObject (Some (map Some (logPeaks sampleValues))))))
    prevSize (Some (okOr [] (CommitmentObject (Some (map Some (logPeaks (take 1 sampleValues)))))))
    issuedAt None (Some (wireProof sampleProof)).

Definition accepts (statement : bytes) (P : Record_ -> bool) : bool :=
  match ParseRecord (DT := dt_reference) statement with
  | Ok r => P r && is_ok (VerifySignature r)
  | Err _ => false
  end.

(** The proof bridges the sizes 1 and 4; the record declares 3 and 7. *)
Example declared_sizes_are_not_compared :
  accepts (signClaims (claimsOf 7 3 "2017-07-14T02:40:00Z"))
    (fun r => (r_PrevSize r =? 3) && (r_MMRSize r =? 7) &&
       match r_ConsistencyProof r with
       | Some proof => (Mmr.cp_OldSize proof =? 1) && (Mmr.cp_NewSize proof =? 4)
       | None => false
       end) = true.
Proof. vm_compute. reflexivity. Qed.

Example issued_at_may_have_an_offset :
  accepts (signClaims (claimsOf 4 1 "2017-07-14T03:40:00+01:00")) (fun _ => true) = true.
Proof. vm_compute. reflexivity. Qed.

End CheckpointClaims.
