(* ===== verification/Runner.v ===== *)
(** * The checkpoint runner: [src/checkpoint/runner.go]

    The runner works over any backend and any signer.  Others use the store at
    the same time: before each call the runner makes, an arbitrary change of
    the store happens, given by a schedule of turns.  The runner's own mutex
    makes each of [RunOnce] and [catchUp] run alone in its runner, so no other
    call of the same runner is among the turns. *)

From S2P Require Import Prelude Hex DtMmr Mmr Cll Portable Engine Backend Rfc3339 Codec Checkpoint.
Import Cll Portable Backend Rfc3339 Checkpoint.

Module Runner.

Local Open Scope Z_scope.
Local Open Scope u64_scope.

(** ** The signer *)

(** [type Signer interface]; [E] is what surrounds a signature. *)
Class Signer (E : Type) := {
  signer_KeyID : string;
  signer_SignCheckpoint :
    E -> bytes -> list bytes -> list bytes -> option Mmr.ConsistencyProof -> result bytes;
  signer_VerifyCheckpoint : bytes -> bytes -> check
}.

(** [var _ Signer = ( *Ed25519Signer)(nil)] *)
Definition ed25519_signer `{DT : DtMmr} `{CB : Cbor} `{CS : Cose} (s : Ed25519Signer) : Signer check := {|
  signer_KeyID := KeyID s;
  signer_SignCheckpoint := SignCheckpoint s;
  signer_VerifyCheckpoint := VerifyCheckpoint s
|}.

(** ** Configuration *)

Record RunnerConfig := MkRunnerConfig {
  LogID : string;
  Cadence : Config;
  ScanLimit : Z;
  PollInterval : Z;
  WitnessIDs : list string
}.

Definition DefaultRunnerConfig (logID : string) : RunnerConfig :=
  MkRunnerConfig logID DefaultConfig DefaultScanLimit (60 * Second) [].

(** The loop of [NewRunner] over the witness identifiers. *)
Fixpoint checkWitnessIDs (ids : list string) (seen : gset string) : check :=
  match ids with
  | [] => Ok tt
  | id :: ids =>
      if negb (is_ok (ValidateIdentifier id)) then Err ErrInvalid
      else if bool_decide (id ∈ seen) then Err ErrInvalid
      else checkWitnessIDs ids ({[id]} ∪ seen)
  end.

(** A store and a signer are always given. *)
Definition NewRunner (config : RunnerConfig) : result RunnerConfig :=
  if negb (is_ok (ValidateIdentifier (LogID config))) || (ScanLimit config <? 1) ||
     (MaxScanLimit <? ScanLimit config) || (PollInterval config <=? 0)
  then Err ErrInvalid
  else if negb (is_ok (Validate (Cadence config))) then Err ErrInvalid
  else if MaxWitnesses <? zlen (WitnessIDs config) then Err ErrInvalid
  else _ ← checkWitnessIDs (WitnessIDs config) ∅; Ok config.

Definition normalizeRunnerTime (now : Z) : result Z :=
  let now := NormalizeTime now in
  if badTime now then Err ErrInvalid else Ok now.

(** The zero [Record], and the one with only a root. *)
Definition rootRecord (root : string) : Record_ :=
  MkRecord 0 "" "" 0 root 0 "" "" (MkTime zeroTime true) None [] [] None [].

Record runnerState := MkRunnerState {
  rs_state : State;
  rs_tree : Mmr.Tree;
  rs_previous : Record_
}.

(** [for index := range left { bytes.Equal(left[index], right[index]) }] *)
Fixpoint equalFrom (left right : list bytes) : bool :=
  match left, right with
  | l :: ls, r :: rs => bool_decide (l = r) && equalFrom ls rs
  | _, _ => true
  end.

Definition samePeaks (left right : list bytes) : bool :=
  if negb (zlen left =? zlen right) then false else equalFrom left right.

Section Runner.
Context {S Env E : Type} `{BK : Backend S Env} `{DT : DtMmr} `{CB : Cbor} `{CS : Cose} `{SG : Signer E}.

(** ** The schedule *)

(** What happens around one call: what others do to the store before it, and
    what surrounds the call itself. *)
Record Turn := MkTurn {
  t_others : S -> S;
  t_env : Env;
  t_sign : E
}.

Variable turns : nat -> Turn.

(** The store, and how many calls were made. *)
Definition World : Type := S * nat.

Definition turnOf (w : World) : Turn := turns (snd w).

(** The world when the next call is made. *)
Definition arrive (w : World) : World := (t_others (turnOf w) (fst w), Datatypes.S (snd w)).

Variable config : RunnerConfig.

(** ** Loading *)

Definition treeRootAt (tree : Mmr.Tree) (size : Z) : result bytes :=
  peaks ← Mmr.PeakHashesAt tree size; Ok (Mmr.RootFromPeaks peaks).

Definition verifyCheckpoint (state : State) (tree : Mmr.Tree) : result Record_ :=
  match st_Checkpoint state with
  | None => Ok (rootRecord "")
  | Some checkpoint =>
      let '(leaves, ok) := Mmr.LeafCount (cpt_Size checkpoint) in
      if negb ok || (st_Size state <? cpt_Size checkpoint) || negb (leaves =? cpt_IndexedSeq checkpoint) ||
         (st_IndexedSeq state <? cpt_IndexedSeq checkpoint)
      then Err ErrCorrupt
      else if match Mmr.PeakHashesAt tree (cpt_Size checkpoint) with
              | Ok expectedPeaks => negb (samePeaks expectedPeaks (cpt_Peaks checkpoint))
              | Err _ => true
              end
      then Err ErrCorrupt
      else
        match ParseRecord (cpt_Bytes checkpoint) with
        | Err _ => Err ErrCorrupt
        | Ok record =>
            if negb (bool_decide (r_LogID record = LogID config)) ||
               negb (bool_decide (r_KeyID record = signer_KeyID)) ||
               negb (r_MMRSize record =? cpt_Size checkpoint) ||
               negb (samePeaks (r_NewPeaks record) (cpt_Peaks checkpoint))
            then Err ErrCorrupt
            else if match treeRootAt tree (cpt_Size checkpoint) with
                    | Ok root =>
                        negb (bool_decide (root = Mmr.RootFromPeaks (cpt_Peaks checkpoint))) ||
                        negb (bool_decide (r_Root record = Hex.EncodeToString root))
                    | Err _ => true
                    end
            then Err ErrCorrupt
            else if match CanonicalJSON (payloadOf record) with
                    | Ok payload => negb (is_ok (signer_VerifyCheckpoint payload (cpt_Bytes checkpoint)))
                    | Err _ => true
                    end
            then Err ErrCorrupt
            else Ok record
        end
  end.

(** The checks of [loadRunnerState] on a loaded state. *)
Definition restoreRunner (state : State) : result runnerState :=
  match Mmr.New (st_Nodes state) with
  | Err _ => Err ErrCorrupt
  | Ok tree =>
      let '(leaves, ok) := Mmr.LeafCount (Mmr.Size tree) in
      if negb ok || negb (leaves =? st_IndexedSeq state) || negb (st_Size state =? Mmr.Size tree)
      then Err ErrCorrupt
      else
        previous ← verifyCheckpoint state tree;
        Ok (MkRunnerState state tree previous)
  end.

Definition loadRunnerState (w : World) : World * result runnerState :=
  let w' := arrive w in
  (w', state ← b_LoadCLL (fst w') (t_env (turnOf w)); restoreRunner state).

(** ** One step *)

(** The loop over the scanned entries; the tree changes also when it fails. *)
Fixpoint indexEntries (entries : list Entry) (tree : Mmr.Tree) (indexed : Z) (firstPending : option Z) :
    Mmr.Tree * result (Z * option Z) :=
  match entries with
  | [] => (tree, Ok (indexed, firstPending))
  | entry :: entries =>
      if negb (entry_Seq entry =? indexed +u 1) || badTime (entry_AppendedAt entry)
      then (tree, Err ErrCorrupt)
      else
        let '(tree, appended) := Mmr.Append tree (entry_Value entry) in
        match appended with
        | Err _ => (tree, Err ErrCorrupt)
        | Ok _ =>
            let firstPending :=
              match firstPending with
              | None => Some (NormalizeTime (entry_AppendedAt entry))
              | Some _ => firstPending
              end in
            indexEntries entries tree (entry_Seq entry) firstPending
        end
  end.

Definition lastCheckpointed (state : State) : Z :=
  match st_Checkpoint state with Some checkpoint => cpt_IndexedSeq checkpoint | None => 0 end.

Definition isDue (now : Z) (state : State) (indexed : Z) (firstPending : option Z) : bool :=
  match firstPending with
  | Some first => Due (Cadence config) (indexed -u lastCheckpointed state) first now
  | None => false
  end.

(** What is signed. *)
Record Draft := MkDraft {
  d_payload : Payload;
  d_body : bytes;
  d_peaks : list bytes;
  d_prevPeaks : list bytes;
  d_proof : option Mmr.ConsistencyProof
}.

Definition draftCheckpoint (now : Z) (state : State) (tree : Mmr.Tree) (previous : Record_) : result Draft :=
  root ← Mmr.Root tree;
  '(prevSize, prevRoot, previousPeaks, proof) ←
    match st_Checkpoint state with
    | None => Ok (0, EmptyString, [], None)
    | Some checkpoint =>
        consistency ← Mmr.ConsistencyProofOf tree (cpt_Size checkpoint) (Mmr.Size tree);
        Ok (cpt_Size checkpoint, r_Root previous, cpt_Peaks checkpoint, Some consistency)
    end;
  let payload := MkPayload (LogID config) signer_KeyID (Mmr.Size tree) (Hex.EncodeToString root)
                   prevSize prevRoot (MkTime now true) in
  body ← CanonicalJSON payload;
  peaks ← Mmr.PeakHashesAt tree (Mmr.Size tree);
  Ok (MkDraft payload body peaks previousPeaks proof).

(** The state with the signed checkpoint and its witness rows. *)
Definition withCheckpoint (now : Z) (next : State) (statement : bytes) (peaks : list bytes) : State :=
  MkState (st_Size next) (st_Nodes next) (st_IndexedSeq next) None
    (Some (MkCheckpoint statement (st_Size next) (st_IndexedSeq next) peaks))
    (st_Witnesses next ++
     map (fun witnessID => MkWitness witnessID (st_Size next) statement 0 now None false "") (WitnessIDs config)).

(** The state to commit and the record to remember. *)
Definition nextState (w : World) (now : Z) (next state : State) (tree : Mmr.Tree) (previous : Record_)
    (due : bool) : World * result (State * Record_) :=
  if due then
    match draftCheckpoint now state tree previous with
    | Err err => (w, Err err)
    | Ok draft =>
        let w' := arrive w in
        (w', statement ← signer_SignCheckpoint (t_sign (turnOf w)) (d_body draft) (d_peaks draft)
                           (d_prevPeaks draft) (d_proof draft);
             Ok (withCheckpoint now next statement (d_peaks draft), rootRecord (p_Root (d_payload draft))))
    end
  else (w, Ok (next, previous)).

(** The end of [advanceOnce]: the compare-and-set commit. *)
Definition commitNext (w : World) (state next : State) (tree : Mmr.Tree) (previous : Record_) (current : runnerState) :
    World * runnerState * result bool :=
  let w' := arrive w in
  let '(s, committed) :=
    b_CommitCLL (fst w') (t_env (turnOf w)) (st_Size state) (cpt_Bytes <$> st_Checkpoint state) next in
  match committed with
  | Err err => ((s, snd w'), current, Err err)
  | Ok _ => ((s, snd w'), MkRunnerState next tree previous, Ok true)
  end.

(** [advanceOnce] after its entry loop. *)
Definition finishStep (w : World) (now : Z) (current : runnerState) (scanned : Z) (indexed : Z)
    (firstPending : option Z) : World * runnerState * result bool :=
  let state := rs_state current in
  let tree := rs_tree current in
  let due := isDue now state indexed firstPending in
  let next := MkState (Mmr.Size tree) (Mmr.Nodes tree) indexed firstPending (st_Checkpoint state)
                (st_Witnesses state) in
  let '(w, drafted) := nextState w now next state tree (rs_previous current) due in
  match drafted with
  | Err err => (w, current, Err err)
  | Ok (next, previous) =>
      if (scanned =? 0) && negb due then (w, current, Ok false)
      else commitNext w state next tree previous current
  end.

Definition advanceOnce (w : World) (now : Z) (current : runnerState) : World * runnerState * result bool :=
  let state := rs_state current in
  let w' := arrive w in
  match b_ScanEntries (fst w') (t_env (turnOf w)) (st_IndexedSeq state) (ScanLimit config) with
  | Err err => (w', current, Err err)
  | Ok entries =>
      let '(tree, walked) := indexEntries entries (rs_tree current) (st_IndexedSeq state) (st_FirstPendingAt state) in
      let current := MkRunnerState state tree (rs_previous current) in
      match walked with
      | Err err => (w', current, Err err)
      | Ok (indexed, firstPending) => finishStep w' now current (zlen entries) indexed firstPending
      end
  end.

Definition RunOnce (w : World) (now : Z) : World * result bool :=
  match normalizeRunnerTime now with
  | Err err => (w, Err err)
  | Ok now =>
      match loadRunnerState w with
      | (w, Err err) => (w, Err err)
      | (w, Ok current) => let '(w, _, changed) := advanceOnce w now current in (w, changed)
      end
  end.

(** ** Catching up *)

(** The loop of [catchUp]; [None] when the fuel runs out. *)
Fixpoint catchUpLoop (fuel : nat) (w : World) (now : Z) (reloadedAfterContention : bool) (current : runnerState) :
    option (World * check) :=
  match fuel with
  | O => None
  | Datatypes.S fuel =>
      let '(w, current, changed) := advanceOnce w now current in
      match changed with
      | Err ErrContention =>
          if reloadedAfterContention then Some (w, Err ErrContention)
          else
            match loadRunnerState w with
            | (w, Err err) => Some (w, Err err)
            | (w, Ok current) => catchUpLoop fuel w now true current
            end
      | Err err => Some (w, Err err)
      | Ok false => Some (w, Ok tt)
      | Ok true => catchUpLoop fuel w now false current
      end
  end.

Definition catchUp (fuel : nat) (w : World) (now : Z) : option (World * check) :=
  match normalizeRunnerTime now with
  | Err err => Some (w, Err err)
  | Ok now =>
      match loadRunnerState w with
      | (w, Err err) => Some (w, Err err)
      | (w, Ok current) => catchUpLoop fuel w now false current
      end
  end.

(** ** The host loop *)

(** The channel of capacity one: whether a wakeup waits in it. *)
Definition Notify (notify : bool) : bool := true.

(** What [select] finds: the end of the context, a wakeup or a tick. *)
Inductive Wake :=
| WakeDone (err : error)
| WakeNotify
| WakeTick.

(** Rounds of [Run], with the clock and the wakeup of each; [None] when the
    rounds or the fuel of a round run out. *)
Fixpoint Run (rounds fuel : nat) (clock : nat -> Z) (wakes : nat -> Wake) (round : nat) (w : World) :
    option (World * error) :=
  match rounds with
  | O => None
  | Datatypes.S rounds =>
      match catchUp fuel w (clock round) with
      | None => None
      | Some (w, outcome) =>
          match outcome with
          | Ok _ | Err ErrContention =>
              match wakes round with
              | WakeDone err => Some (w, err)
              | WakeNotify | WakeTick => Run rounds fuel clock wakes (Datatypes.S round) w
              end
          | Err err => Some (w, err)
          end
      end
  end.

End Runner.

Arguments Turn S Env E : clear implicits.

End Runner.
