(* ===== verification/RunnerSpec.v ===== *)
(** * What the runner maintains

    The state of a store that only runners, appenders and deliverers use is a
    function of the log, of how much of it is indexed and checkpointed, and of
    the signed statements: the node list is the tree of the indexed entries,
    the checkpoint carries the peaks of its prefix, and the first pending time
    is that of the first entry after it. *)

From S2P Require Import Prelude Sha256 Hex Geometry DtMmr Mmr MmrBuild MmrProofs Cll Portable Engine EngineLog.
From S2P Require Import EngineState EngineHistory WireProofs JournalProofs JournalText JsonlReplay Backend.
From S2P Require Import Rfc3339 Codec Checkpoint CheckpointPayload CheckpointRecord Runner.
Import Geometry MmrBuild MmrProofs Cll Portable Engine EngineLog EngineState EngineHistory.
Import WireProofs JournalProofs JournalText JsonlReplay Backend.
Import Rfc3339 Checkpoint CheckpointPayload CheckpointRecord Runner.

Module RunnerSpec.

Local Open Scope Z_scope.

(** ** The signer's promise *)

(** A statement a signer returns parses back to what it was given, and passes
    the signer's own check. *)
Class SignerLaws (E : Type) `{SG : Signer E} `{DT : DtMmr} `{CB : Cbor} `{CS : Cose} : Prop := {
  law_SignCheckpoint e body peaks prevPeaks proof statement :
    signer_SignCheckpoint e body peaks prevPeaks proof = Ok statement ->
    exists r, ParseRecord statement = Ok r /\ ParsePayload body = Ok (payloadOf r) /\
      r_NewPeaks r = peaks /\ r_PrevPeaks r = prevPeaks /\ r_ConsistencyProof r = proof /\
      signer_VerifyCheckpoint body statement = Ok tt
}.

(** The Ed25519 signer keeps it. *)
Lemma ed25519_signer_laws `{DT : DtMmr} `{CB : Cbor} `{CS : Cose} `{!CborLaws CB} `{!CoseLaws CS} (s : Ed25519Signer) :
  @SignerLaws check (ed25519_signer s) DT CB CS.
Proof.
  split. intros e body peaks prevPeaks proof statement (r & Hs)%signCheckpoint_Ok. exists r.
  destruct (signed_contents _ _ _ _ _ _ _ _ Hs) as (H1 & H2 & H3 & _). pose proof (signed_verifies _ _ _ _ _ _ _ _ Hs).
  destruct Hs as [Hp Hk Hr Hv _]. by split_and!.
Qed.

(** ** Logs *)

Definition values (es : list Entry) : list bytes := map entry_Value es.

(** The entries of a valid log. *)
Definition dense (es : list Entry) : Prop := forall i entry, zget es i = Some entry -> entry_ok i entry.

Lemma values_length (es : list Entry) : zlen (values es) = zlen es.
Proof. unfold zlen, values. by rewrite length_map. Qed.

Lemma prefix_mono (vs vs' : list bytes) (n : Z) :
  vs `prefix_of` vs' -> 0 <= n <= zlen vs -> prefix vs' n = prefix vs n.
Proof. intros [k ->] Hn. unfold prefix. apply take_app_le. unfold zlen in Hn. lia. Qed.

Lemma prefix_of_values (es es' : list Entry) : es `prefix_of` es' -> values es `prefix_of` values es'.
Proof. intros [k ->]. unfold values. rewrite map_app. by apply prefix_app_r. Qed.

Lemma prefix_of_zlen {A} (l l' : list A) : l `prefix_of` l' -> zlen l <= zlen l'.
Proof. intros H%prefix_length. unfold zlen. lia. Qed.

Lemma prefix_zget {A} (l l' : list A) (i : Z) : l `prefix_of` l' -> i < zlen l -> zget l' i = zget l i.
Proof. intros [k ->] Hi. by apply zget_app_l. Qed.

Lemma prefix_prefix (vs : list bytes) (m n : Z) : 0 <= m <= n -> prefix (prefix vs n) m = prefix vs m.
Proof. intros Hm. unfold prefix. rewrite take_take. f_equal. lia. Qed.

Lemma prefix_succ (vs : list bytes) (n : Z) (v : bytes) :
  0 <= n -> zget vs n = Some v -> prefix vs (n + 1) = prefix vs n ++ [v].
Proof.
  intros Hn Hv. unfold prefix. replace (Z.to_nat (n + 1)) with (S (Z.to_nat n)) by lia.
  apply take_S_r. by rewrite <- zget_lookup.
Qed.

Lemma zlen_prefix (vs : list bytes) (n : Z) : 0 <= n <= zlen vs -> zlen (prefix vs n) = n.
Proof. apply zlen_take. Qed.

(** The time of the first entry after the checkpoint, if it is indexed. *)
Definition pendingSince (es : list Entry) (last indexed : Z) : option Z :=
  if last <? indexed then (fun entry => NormalizeTime (entry_AppendedAt entry)) <$> zget es last else None.

Lemma pendingSince_mono (es es' : list Entry) (last indexed : Z) :
  es `prefix_of` es' -> 0 <= indexed <= zlen es -> pendingSince es' last indexed = pendingSince es last indexed.
Proof.
  intros Hp Hi. unfold pendingSince. destruct (Z.ltb_spec last indexed); [|done]. by rewrite (prefix_zget es) by (done || lia).
Qed.

Lemma pendingSince_Some (es : list Entry) (last indexed : Z) :
  0 <= last -> indexed <= zlen es -> is_Some (pendingSince es last indexed) <-> last < indexed.
Proof.
  intros Hl Hi. unfold pendingSince. destruct (Z.ltb_spec last indexed) as [Hlt|Hge].
  - destruct (zget_in_range es last ltac:(lia)) as [entry ->]. cbn. split; [done|]. by intros _; eexists.
  - split; [by intros [? ?]|lia].
Qed.

Definition checkpointSize (state : State) : Z :=
  match st_Checkpoint state with Some c => cpt_Size c | None => 0 end.

Section Spec.
Context {E : Type} `{SG : Signer E} `{DT : DtMmr} `{CB : Cbor} `{CS : Cose}.
Variable config : RunnerConfig.

(** ** The invariant *)

(** A checkpoint of the log, with a statement the runner accepts. *)
Record checkpoint_good (es : list Entry) (c : CheckpointState) : Prop := {
  cg_range : 0 < cpt_IndexedSeq c <= zlen es;
  cg_size : cpt_Size c = mmr_size (cpt_IndexedSeq c);
  cg_peaks : cpt_Peaks c = logPeaks (prefix (values es) (cpt_IndexedSeq c));
  cg_record : exists r, ParseRecord (cpt_Bytes c) = Ok r /\ r_LogID r = LogID config /\
    r_KeyID r = signer_KeyID /\ r_MMRSize r = cpt_Size c /\ r_NewPeaks r = cpt_Peaks c /\
    exists body, CanonicalJSON (payloadOf r) = Ok body /\ signer_VerifyCheckpoint body (cpt_Bytes c) = Ok tt
}.

(** A row has Go's integer types and UTF-8 text and belongs to a checkpoint. *)
Definition row_good (size : Z) (row : WitnessState) : Prop := wit_CheckpointSize row <= size /\ row_storable row.

Record indexes (es : list Entry) (state : State) : Prop := {
  ix_range : 0 <= st_IndexedSeq state <= zlen es;
  ix_tree : commits (Mmr.MkTree (st_Nodes state)) (prefix (values es) (st_IndexedSeq state));
  ix_size : st_Size state = zlen (st_Nodes state);
  ix_checkpoint : forall c, st_Checkpoint state = Some c ->
    checkpoint_good es c /\ cpt_IndexedSeq c <= st_IndexedSeq state;
  ix_pending : st_FirstPendingAt state = pendingSince es (lastCheckpointed state) (st_IndexedSeq state);
  ix_rows : Forall (row_good (checkpointSize state)) (st_Witnesses state)
}.

(** An engine whose state indexes its log. *)
Record sound (e : Engine) : Prop := {
  sound_engine : engine_ok e;
  sound_indexes : indexes (entries e) (state e)
}.

Lemma checkpoint_good_mono (es es' : list Entry) (c : CheckpointState) :
  es `prefix_of` es' -> checkpoint_good es c -> checkpoint_good es' c.
Proof.
  intros Hp [Hr Hs Hk Hrec]. pose proof (prefix_of_zlen _ _ Hp). split; [lia|done| |done].
  by rewrite (prefix_mono (values es)) by (rewrite ?values_length; by apply prefix_of_values || lia).
Qed.

(** What indexes a log indexes every later one. *)
Lemma indexes_mono (es es' : list Entry) (state : State) :
  es `prefix_of` es' -> indexes es state -> indexes es' state.
Proof.
  intros Hp [Hr Ht Hs Hc Hpend Hrows]. pose proof (prefix_of_zlen _ _ Hp). split; [lia| |done| | |done].
  - by rewrite (prefix_mono (values es)) by (rewrite ?values_length; by apply prefix_of_values || lia).
  - intros c Hcp. destruct (Hc c Hcp) as [Hg Hle]. split; [by eapply checkpoint_good_mono|done].
  - by rewrite (pendingSince_mono es).
Qed.

Lemma last_range (es : list Entry) (state : State) :
  indexes es state -> 0 <= lastCheckpointed state <= st_IndexedSeq state.
Proof.
  intros [Hr _ _ Hc _ _]. unfold lastCheckpointed. destruct (st_Checkpoint state) as [c|]; [|lia].
  destruct (Hc c eq_refl) as [[? _ _ _] ?]. lia.
Qed.

(** The size of the state and of its checkpoint, by their leaves. *)
Lemma indexed_size (es : list Entry) (state : State) :
  indexes es state -> st_Size state = mmr_size (st_IndexedSeq state) /\ st_IndexedSeq state <= max_leaves.
Proof.
  intros [Hr Ht Hs _ _ _]. destruct (commits_length _ _ Ht) as (Hl & Hm & _). cbn [Mmr.nodes] in Hl.
  rewrite zlen_prefix in * by (rewrite values_length; lia). rewrite Hs, Hl. split; [done|lia].
Qed.

Lemma checkpoint_size (es : list Entry) (state : State) :
  indexes es state -> checkpointSize state = mmr_size (lastCheckpointed state).
Proof.
  intros Hi. unfold checkpointSize, lastCheckpointed. destruct (st_Checkpoint state) as [c|] eqn:Hc; [|done].
  by destruct (ix_checkpoint _ _ Hi c Hc) as [[_ ? _ _] _].
Qed.

End Spec.

End RunnerSpec.
