(* ===== verification/RunnerStep.v ===== *)
(** * One step of the runner, on values

    What [loadRunnerState] makes of a sound state, what the entry loop builds,
    what is drafted for signing, and that each state the runner commits indexes
    the log. *)

From S2P Require Import Prelude Sha256 Hex Geometry DtMmr Mmr MmrBuild MmrProofs Cll Portable Engine EngineLog.
From S2P Require Import EngineState EngineHistory WireProofs JournalProofs JournalText JsonlReplay Backend.
From S2P Require Import Rfc3339 Codec Checkpoint CheckpointPayload CheckpointRecord Runner RunnerSpec.
Import Geometry MmrBuild MmrProofs Cll Portable Engine EngineLog EngineState EngineHistory.
Import WireProofs JournalProofs JournalText JsonlReplay Backend.
Import Rfc3339 Checkpoint CheckpointPayload CheckpointRecord Runner RunnerSpec.

Module RunnerStep.

Local Open Scope Z_scope.

Lemma equalFrom_refl (l : list bytes) : equalFrom l l = true.
Proof. induction l as [|x l IH]; cbn [equalFrom]; [done|]. by rewrite bool_decide_true, IH. Qed.

Lemma samePeaks_refl (l : list bytes) : samePeaks l l = true.
Proof. unfold samePeaks. by rewrite Z.eqb_refl, equalFrom_refl. Qed.

Lemma equalFrom_eq (l k : list bytes) : length l = length k -> equalFrom l k = true -> l = k.
Proof.
  revert k. induction l as [|x l IH]; intros [|y k]; cbn [equalFrom length]; try done.
  intros Hl Hb. gobool. subst. f_equal. apply IH; [lia|done].
Qed.

Lemma samePeaks_eq (l k : list bytes) : samePeaks l k = true -> l = k.
Proof.
  unfold samePeaks. destruct (Z.eqb_spec (zlen l) (zlen k)) as [Hl|]; [|done]. cbn [negb].
  apply equalFrom_eq. unfold zlen in Hl. lia.
Qed.

(** A window of a list. *)
Lemma window_cons {A} (l : list A) (n k : Z) (a : A) :
  0 <= n -> 0 <= k -> zget l n = Some a ->
  take (Z.to_nat (k + 1)) (drop (Z.to_nat n) l) = a :: take (Z.to_nat k) (drop (Z.to_nat (n + 1)) l).
Proof.
  intros Hn Hk Ha. rewrite zget_lookup in Ha by done. rewrite (drop_S _ _ _ Ha).
  replace (Z.to_nat (k + 1)) with (S (Z.to_nat k)) by lia. by replace (Z.to_nat (n + 1)) with (S (Z.to_nat n)) by lia.
Qed.

Section Step.
Context {E : Type} `{SG : Signer E} `{DT : DtMmr} `{!DtMmrLaws DT} `{CB : Cbor} `{CS : Cose}.
Variable config : RunnerConfig.

Abbreviation indexes := (RunnerSpec.indexes config).
Abbreviation checkpoint_good := (RunnerSpec.checkpoint_good config).

(** ** Loading *)

Definition rootText (vs : list bytes) : string := Hex.EncodeToString (logRoot vs).

(** The state a runner holds: a state of the log, its tree, and the root of its
    checkpoint. *)
Record current_ok (es : list Entry) (current : runnerState) : Prop := {
  cu_indexes : indexes es (rs_state current);
  cu_tree : Mmr.nodes (rs_tree current) = st_Nodes (rs_state current);
  cu_previous : forall c, st_Checkpoint (rs_state current) = Some c ->
    r_Root (rs_previous current) = rootText (prefix (values es) (cpt_IndexedSeq c))
}.

Lemma current_mono (es es' : list Entry) (current : runnerState) :
  es `prefix_of` es' -> current_ok es current -> current_ok es' current.
Proof.
  intros Hp [Hi Ht Hprev]. split; [by eapply indexes_mono|done|]. intros c Hc. rewrite (Hprev c Hc).
  destruct (ix_checkpoint _ _ _ Hi c Hc) as [[Hr _ _ _] _].
  by rewrite (prefix_mono (values es) (values es')) by (rewrite ?values_length; by apply prefix_of_values || lia).
Qed.

Lemma verifyCheckpoint_good (es : list Entry) (state : State) (c : CheckpointState) :
  indexes es state -> st_Checkpoint state = Some c ->
  exists r, verifyCheckpoint config state (Mmr.MkTree (st_Nodes state)) = Ok r /\
    r_Root r = rootText (prefix (values es) (cpt_IndexedSeq c)).
Proof.
  intros Hi Hc. destruct (indexed_size _ _ _ Hi) as [Hsize Hmax]. pose proof Hi as [Hr Ht _ Hcp _ _].
  destruct (Hcp c Hc) as [[Hcr Hcs Hcpk (r & Hrec & Hlog & Hkey & Hms & Hnp & body & Hbody & Hv)] Hle].
  assert (zlen (prefix (values es) (st_IndexedSeq state)) = st_IndexedSeq state) as Hlen
    by (apply zlen_prefix; rewrite values_length; lia).
  pose proof (mmr_size_mono (cpt_IndexedSeq c) (st_IndexedSeq state) ltac:(lia)).
  pose proof (peakHashesAtLocked_commits _ _ (cpt_IndexedSeq c) Ht ltac:(lia)) as Hpk.
  change (take (Z.to_nat (cpt_IndexedSeq c)) (prefix (values es) (st_IndexedSeq state)))
    with (prefix (prefix (values es) (st_IndexedSeq state)) (cpt_IndexedSeq c)) in Hpk.
  rewrite prefix_prefix in Hpk by lia.
  assert (Mmr.RootFromPeaks (cpt_Peaks c) = logRoot (prefix (values es) (cpt_IndexedSeq c))) as Hroot.
  { rewrite Hcpk. apply RootFromPeaks_logPeaks. rewrite zlen_prefix by (rewrite values_length; lia). lia. }
  assert (r_Root r = rootText (prefix (values es) (cpt_IndexedSeq c))) as Hrr.
  { rewrite (rok_root _ _ (ParseRecord_ok _ _ Hrec)), Hnp. unfold rootText. by f_equal. }
  exists r. split; [|done]. unfold verifyCheckpoint. rewrite Hc, Hcs, LeafCount_complete by lia.
  rewrite Hsize, !(proj2 (Z.ltb_ge _ _)), Z.eqb_refl by lia. cbn [negb orb].
  unfold treeRootAt, Mmr.PeakHashesAt. rewrite Hpk, Hrec, <- Hcpk, samePeaks_refl. cbn [negb mbind result_bind].
  rewrite !bool_decide_true by done. rewrite Hms, Hcs, Z.eqb_refl, Hnp, samePeaks_refl. cbn [negb orb].
  rewrite bool_decide_true by (rewrite Hrr; unfold rootText; by f_equal). cbn [negb].
  rewrite Hbody, Hv. done.
Qed.

(** A sound state is loaded, with its tree and the root of its checkpoint. *)
Lemma restore_indexes (es : list Entry) (state : State) :
  indexes es state ->
  exists current, restoreRunner config state = Ok current /\ rs_state current = state /\ current_ok es current.
Proof.
  intros Hi. destruct (indexed_size _ _ _ Hi) as [Hsize Hmax]. pose proof Hi as [Hr Ht Hs _ _ _].
  assert (zlen (prefix (values es) (st_IndexedSeq state)) = st_IndexedSeq state) as Hlen
    by (apply zlen_prefix; rewrite values_length; lia).
  unfold restoreRunner.
  rewrite (proj2 (New_accepts (st_Nodes state) (Mmr.MkTree (st_Nodes state))))
    by (split; [done|]; eexists; apply (commits_wf _ _ Ht)).
  unfold Mmr.Size. cbn [Mmr.nodes]. rewrite <- Hs, Hsize, LeafCount_complete by lia.
  rewrite !Z.eqb_refl. cbn [negb orb].
  destruct (st_Checkpoint state) as [c|] eqn:Hc.
  - destruct (verifyCheckpoint_good es state c Hi Hc) as (r & -> & Hroot). cbn [mbind result_bind].
    eexists. split; [done|]. split; [done|]. split; [done|done|]. cbn [rs_state rs_previous]. rewrite Hc.
    by intros c' [= <-].
  - unfold verifyCheckpoint. rewrite Hc. cbn [mbind result_bind]. eexists. split; [done|]. split; [done|].
    split; [done|done|]. cbn [rs_state]. by rewrite Hc.
Qed.

(** ** Indexing *)

Lemma pendingSince_step (es : list Entry) (last n : Z) (entry : Entry) :
  0 <= last <= n -> zget es n = Some entry ->
  match pendingSince es last n with
  | None => Some (NormalizeTime (entry_AppendedAt entry))
  | Some first => Some first
  end = pendingSince es last (n + 1).
Proof.
  intros Hl Hn. unfold pendingSince. rewrite (proj2 (Z.ltb_lt last (n + 1))) by lia.
  destruct (Z.ltb_spec last n) as [Hlt|Hge].
  - pose proof (zget_Some_range _ _ _ Hn). by destruct (zget_in_range es last ltac:(lia)) as [x ->].
  - assert (last = n) as -> by lia. by rewrite Hn.
Qed.

(** The loop over the entries after [n] up to [m]. *)
Lemma indexEntries_ok (es : list Entry) (last : Z) (k : nat) (n : Z) (tree : Mmr.Tree) :
  dense es -> 0 <= last <= n -> n + Z.of_nat k <= zlen es -> commits tree (prefix (values es) n) ->
  exists tree',
    indexEntries (take (Z.to_nat (Z.of_nat k)) (drop (Z.to_nat n) es)) tree n (pendingSince es last n) =
      (tree', Ok (n + Z.of_nat k, pendingSince es last (n + Z.of_nat k))) /\
    commits tree' (prefix (values es) (n + Z.of_nat k)) /\ Mmr.nodes tree `prefix_of` Mmr.nodes tree'.
Proof.
  intros Hd. revert n tree. induction k as [|k IH]; intros n tree Hl Hn Ht.
  - exists tree. rewrite Z.add_0_r. by split_and!.
  - destruct (zget_in_range es n ltac:(lia)) as [entry Hentry]. pose proof (Hd n entry Hentry) as [Hseq Hmax Hw Htime].
    replace (Z.of_nat (S k)) with (Z.of_nat k + 1) by lia. rewrite (window_cons _ _ _ entry) by (done || lia).
    cbn [indexEntries]. rewrite Hseq, u64_add_small by (unfold MaxPortableInteger, two64 in *; lia).
    rewrite Z.eqb_refl, Htime. cbn [negb orb].
    assert (zlen (prefix (values es) n) = n) as Hlen by (apply zlen_prefix; rewrite values_length; lia).
    destruct (Append_commits tree _ (entry_Value entry) Ht) as (tree' & added & -> & Hnodes & Ht').
    { rewrite Hlen. unfold MaxPortableInteger, max_leaves in *. lia. }
    { unfold zlen, EntryBytes in Hw. lia. }
    rewrite <- prefix_succ in Ht' by (lia || (unfold values; by rewrite zget_map, Hentry)).
    pose proof (pendingSince_step es last n entry Hl Hentry) as Hp.
    assert (match pendingSince es last n with
            | None => Some (NormalizeTime (entry_AppendedAt entry))
            | Some _ => pendingSince es last n
            end = pendingSince es last (n + 1)) as -> by (rewrite <- Hp; by destruct (pendingSince es last n)).
    destruct (IH (n + 1) tree' ltac:(lia) ltac:(lia) Ht') as (tree2 & Hloop & Ht2 & Hpre).
    exists tree2. rewrite Nat2Z.id in Hloop |- *. rewrite Hloop. replace (n + (Z.of_nat k + 1)) with (n + 1 + Z.of_nat k) by lia.
    split_and!; [done|done|]. etrans; [|exact Hpre]. rewrite Hnodes. by apply prefix_app_r.
Qed.

(** ** Drafting *)

(** The payload of the checkpoint of [m] entries after the one of [last]. *)
Definition draftPayload (es : list Entry) (last m now : Z) : Payload :=
  MkPayload (LogID config) signer_KeyID (mmr_size m) (rootText (prefix (values es) m)) (mmr_size last)
    (if last =? 0 then EmptyString else rootText (prefix (values es) last)) (MkTime now true).

(** The proof that goes with it: the one the tree of [m] entries makes. *)
Definition draftProof (es : list Entry) (last m : Z) : option Mmr.ConsistencyProof :=
  if last =? 0 then None
  else
    match Mmr.ConsistencyProofAt (treeOf (prefix (values es) m)) (mmr_size last) (mmr_size m) with
    | Ok proof => Some proof
    | Err _ => None
    end.

(** The tree of a prefix of the log. *)
Lemma prefix_commits (es : list Entry) (m : Z) :
  dense es -> 0 <= m <= zlen es -> commits (treeOf (prefix (values es) m)) (prefix (values es) m).
Proof.
  intros Hd Hm. apply treeOf_commits.
  - rewrite zlen_prefix by (rewrite values_length; lia). destruct (Z.eq_dec m 0) as [->|]; [done|].
    destruct (zget_in_range es (m - 1) ltac:(lia)) as [x Hx]. destruct (Hd _ _ Hx) as [Hs Hle _ _].
    unfold MaxPortableInteger, max_leaves in *. lia.
  - apply Forall_take, Forall_fmap, Forall_forall. intros entry Hin.
    apply list_elem_of_lookup in Hin as [i Hi]. pose proof (lookup_lt_Some _ _ _ Hi).
    destruct (Hd (Z.of_nat i) entry) as [_ _ Hw _]; [by rewrite zget_lookup, Nat2Z.id by lia|].
    unfold compose. unfold zlen, EntryBytes in Hw. lia.
Qed.

Definition draftOf (es : list Entry) (last m now : Z) : result Draft :=
  body ← CanonicalJSON (draftPayload es last m now);
  Ok (MkDraft (draftPayload es last m now) body (logPeaks (prefix (values es) m))
        (logPeaks (prefix (values es) last)) (draftProof es last m)).

Lemma draft_ok (es : list Entry) (current : runnerState) (tree : Mmr.Tree) (m now : Z) :
  let last := lastCheckpointed (rs_state current) in
  dense es -> current_ok es current -> commits tree (prefix (values es) m) -> last <= m <= zlen es ->
  draftCheckpoint config now (rs_state current) tree (rs_previous current) = draftOf es last m now.
Proof.
  intros last Hd [Hi _ Hprev] Ht Hm. pose proof (last_range _ _ _ Hi) as Hlast. fold last in Hlast.
  assert (zlen (prefix (values es) m) = m) as Hlen by (apply zlen_prefix; rewrite values_length; lia).
  destruct (commits_length _ _ Ht) as (Hsize & Hmax & _). rewrite Hlen in Hsize, Hmax.
  pose proof (peakHashesAtLocked_commits _ _ m Ht ltac:(lia)) as Hpk.
  change (take (Z.to_nat m) (prefix (values es) m)) with (prefix (prefix (values es) m) m) in Hpk.
  rewrite prefix_prefix in Hpk by lia.
  pose proof (commits_unique _ _ _ (prefix_commits es m Hd ltac:(lia)) Ht) as Heq.
  unfold draftCheckpoint, draftOf, draftProof, draftPayload. rewrite (Root_commits _ _ Ht), Heq. cbn [mbind result_bind].
  unfold Mmr.Size, Mmr.PeakHashesAt. rewrite Hsize, Hpk. unfold last, lastCheckpointed in *. clear last Heq.
  destruct (st_Checkpoint (rs_state current)) as [c|] eqn:Hc.
  - destruct (ix_checkpoint _ _ _ Hi c Hc) as [[Hcr Hcs Hcpk _] Hle].
    rewrite (proj2 (Z.eqb_neq _ _)) by lia.
    destruct (consistency_produced tree _ Ht (cpt_IndexedSeq c) m ltac:(lia) ltac:(lia)) as (ws & Hws & Hp).
    unfold Mmr.ConsistencyProofOf. rewrite Hcs, Hp. cbn [mbind result_bind]. by rewrite (Hprev c eq_refl), Hcpk.
  - cbn [mbind result_bind Z.eqb]. by destruct (CanonicalJSON _).
Qed.

(** The proof bridges the two checkpoints and verifies between their roots. *)
Lemma draftProof_verifies (es : list Entry) (last m : Z) :
  dense es -> 0 < last <= m -> m <= zlen es ->
  exists p, draftProof es last m = Some p /\ Mmr.cp_OldSize p = mmr_size last /\ Mmr.cp_NewSize p = mmr_size m /\
    Mmr.VerifyConsistency (logRoot (prefix (values es) last)) (logRoot (prefix (values es) m)) p = Ok true.
Proof.
  intros Hd Hl Hm. pose proof (prefix_commits es m Hd ltac:(lia)) as Ht.
  assert (zlen (prefix (values es) m) = m) as Hlen by (apply zlen_prefix; rewrite values_length; lia).
  unfold draftProof. rewrite (proj2 (Z.eqb_neq _ _)) by lia.
  destruct (consistency_produced _ _ Ht last m ltac:(lia) ltac:(lia)) as (ws & Hws & ->).
  pose proof (honestConsistency_verifies _ _ Ht last m ws ltac:(lia) ltac:(lia) Hws) as Hv.
  rewrite !prefix_prefix in Hv by lia. by eexists.
Qed.

(** ** States of the log *)

(** The state after indexing up to [m]. *)
Definition indexedState (es : list Entry) (state : State) (tree : Mmr.Tree) (m : Z) : State :=
  MkState (Mmr.Size tree) (Mmr.Nodes tree) m (pendingSince es (lastCheckpointed state) m) (st_Checkpoint state)
    (st_Witnesses state).

Lemma Nodes_id (tree : Mmr.Tree) : Mmr.Nodes tree = Mmr.nodes tree.
Proof. apply cloneProof_id. Qed.

Lemma MkTree_nodes (tree : Mmr.Tree) : Mmr.MkTree (Mmr.nodes tree) = tree.
Proof. by destruct tree. Qed.

Lemma indexedState_indexes (es : list Entry) (state : State) (tree : Mmr.Tree) (m : Z) :
  indexes es state -> commits tree (prefix (values es) m) -> st_IndexedSeq state <= m <= zlen es ->
  indexes es (indexedState es state tree m).
Proof.
  intros Hi Ht Hm. pose proof Hi as [Hr _ _ Hc _ Hrows].
  split; cbn [indexedState st_Size st_Nodes st_IndexedSeq st_FirstPendingAt st_Checkpoint st_Witnesses].
  - lia.
  - by rewrite Nodes_id, MkTree_nodes.
  - by rewrite Nodes_id.
  - intros c Hcp. destruct (Hc c Hcp) as [? ?]. split; [done|lia].
  - done.
  - done.
Qed.

(** A signed draft makes a good checkpoint. *)
Lemma signed_good `{!SignerLaws E} (env : E) (es : list Entry) (last m now : Z) (body statement : bytes)
    (proof : option Mmr.ConsistencyProof) :
  0 <= last -> 0 < m <= zlen es -> m <= max_leaves ->
  CanonicalJSON (draftPayload es last m now) = Ok body ->
  signer_SignCheckpoint env body (logPeaks (prefix (values es) m)) (logPeaks (prefix (values es) last)) proof =
    Ok statement ->
  checkpoint_good es (MkCheckpoint statement (mmr_size m) m (logPeaks (prefix (values es) m))) /\
  exists r, ParseRecord statement = Ok r /\ payloadOf r = draftPayload es last m now /\
    r_ConsistencyProof r = proof.
Proof.
  intros Hl Hm Hmax Hbody (r & Hr & Hp & Hn & _ & Hproof & Hv)%law_SignCheckpoint.
  assert (payloadOf r = draftPayload es last m now) as Hpay.
  { pose proof (mmr_size_ge m ltac:(lia)). pose proof (mmr_size_ge last ltac:(lia)).
    rewrite (ParsePayload_CanonicalJSON (draftPayload es last m now) body) in Hp
      by (cbn [draftPayload p_MMRSize p_PrevSize]; done || lia).
    apply Ok_inj in Hp. by rewrite <- Hp. }
  split; [|by exists r]. split; cbn [cpt_IndexedSeq cpt_Size cpt_Peaks cpt_Bytes]; [lia|done|done|].
  exists r. change (r_LogID r) with (p_LogID (payloadOf r)). change (r_KeyID r) with (p_KeyID (payloadOf r)).
  change (r_MMRSize r) with (p_MMRSize (payloadOf r)). rewrite Hpay. split_and!; try done. by exists body.
Qed.

Lemma withCheckpoint_indexes (es : list Entry) (state : State) (tree : Mmr.Tree) (m now : Z) (statement : bytes) :
  indexes es state -> commits tree (prefix (values es) m) -> st_IndexedSeq state <= m <= zlen es ->
  checkpoint_good es (MkCheckpoint statement (mmr_size m) m (logPeaks (prefix (values es) m))) ->
  indexes es (withCheckpoint config now (indexedState es state tree m) statement (logPeaks (prefix (values es) m))).
Proof.
  intros Hi Ht Hm Hg. pose proof (indexedState_indexes es state tree m Hi Ht Hm) as Hi'.
  destruct (indexed_size _ _ _ Hi') as [Hsize Hmax]. cbn [indexedState st_Size st_IndexedSeq] in Hsize, Hmax.
  pose proof Hi' as [Hr' Ht' Hs' _ _ Hrows].
  split; cbn [withCheckpoint st_Size st_Nodes st_IndexedSeq st_FirstPendingAt st_Checkpoint st_Witnesses].
  - done.
  - done.
  - done.
  - intros c [= <-]. cbn [indexedState st_Size st_IndexedSeq cpt_IndexedSeq]. rewrite Hsize. split; [done|lia].
  - unfold pendingSince, lastCheckpointed.
    cbn [withCheckpoint st_Checkpoint indexedState st_IndexedSeq cpt_IndexedSeq]. by rewrite Z.ltb_irrefl.
  - unfold checkpointSize. cbn [withCheckpoint st_Checkpoint indexedState st_Size cpt_Size]. rewrite Hsize.
    destruct Hr' as [Hr0 _]. cbn [indexedState st_IndexedSeq] in Hr0.
    pose proof (mmr_size_bound m ltac:(lia)). pose proof (mmr_size_ge m Hr0).
    apply Forall_app. split.
    + eapply Forall_impl; [exact Hrows|]. intros w [Hw Hst]. split; [|done]. etrans; [exact Hw|].
      rewrite (checkpoint_size _ _ _ Hi'). pose proof (last_range _ _ _ Hi') as Hl.
      apply mmr_size_mono. exact Hl.
    + apply Forall_fmap, Forall_true. intros id. split; cbn [wit_CheckpointSize]; [lia|].
      split; cbn [wit_Attempts wit_LastError wit_CheckpointSize]; [done|done|].
      unfold u64, two63, two64 in *. lia.
Qed.

End Step.

End RunnerStep.
