(* ===== verification/RunnerProofs.v ===== *)
(** * The runner over any backend, whatever others do

    Rely and guarantee: as long as whatever happens between the calls of a
    runner keeps the store sound, so does the runner, however its calls are
    interleaved with the others, and every call of the runner is one the others
    may rely on. *)

From S2P Require Import Prelude Sha256 Hex Geometry DtMmr Mmr MmrBuild MmrProofs Cll Portable Engine EngineLog.
From S2P Require Import EngineState EngineHistory EngineWitness WireProofs JournalProofs JournalText JsonlReplay Backend.
From S2P Require Import Rfc3339 Codec Checkpoint CheckpointPayload CheckpointRecord Runner RunnerSpec RunnerStep.
Import Geometry MmrBuild MmrProofs Cll Portable Engine EngineLog EngineState EngineHistory EngineWitness.
Import WireProofs JournalProofs JournalText JsonlReplay Backend.
Import Rfc3339 Checkpoint CheckpointPayload CheckpointRecord Runner RunnerSpec RunnerStep.

Module RunnerProofs.

Local Open Scope Z_scope.

Section Commits.
Context {E : Type} `{SG : Signer E} `{DT : DtMmr} `{!DtMmrLaws DT} `{CB : Cbor} `{CS : Cose}.
Variable config : RunnerConfig.

Abbreviation indexes := (RunnerSpec.indexes config).
Abbreviation sound := (RunnerSpec.sound config).

(** ** Engine operations *)

Lemma checkpointSize_le (es : list Entry) (s s' : State) :
  indexes es s -> indexes es s' -> checkpoint_le (st_Checkpoint s) (st_Checkpoint s') ->
  checkpointSize s <= checkpointSize s'.
Proof.
  intros Hs Hs' Hc. unfold checkpointSize. unfold checkpoint_le in Hc.
  destruct (st_Checkpoint s) as [c|], (st_Checkpoint s') as [c'|] eqn:Hc'; [lia|done| |lia].
  destruct (ix_checkpoint _ _ _ Hs' c' Hc') as [[Hr -> _ _] _]. pose proof (mmr_size_ge (cpt_IndexedSeq c') ltac:(lia)). lia.
Qed.

Lemma committed_indexes (es : list Entry) (s next : State) :
  indexes es s -> indexes es next -> checkpoint_le (st_Checkpoint s) (st_Checkpoint next) ->
  indexes es (committed s next).
Proof.
  intros Hs Hn Hc. pose proof (checkpointSize_le _ _ _ Hs Hn Hc) as Hle. pose proof Hn as [Hr Ht Hz Hcp Hp Hrows].
  split; cbn [committed with_rows st_Size st_Nodes st_IndexedSeq st_FirstPendingAt st_Checkpoint st_Witnesses];
    try done.
  change (checkpointSize (committed s next)) with (checkpointSize next).
  apply Forall_app. split; [|by apply Forall_newRows'].
  eapply Forall_impl; [apply Hs|]. intros w [Hw Hst]. split; [lia|done].
Qed.

Lemma CommitCLL_sound (e : Engine) (size : Z) (checkpoint : option bytes) (next : State) :
  sound e -> indexes (entries e) next ->
  sound (fst (CommitCLL e size checkpoint next)) /\ engine_le e (fst (CommitCLL e size checkpoint next)) /\
  (snd (CommitCLL e size checkpoint next) = Ok tt ->
   state (fst (CommitCLL e size checkpoint next)) = committed (state e) next).
Proof.
  intros [Hok Hi] Hn. destruct (CommitCLL_step e size checkpoint next Hok) as [Hok' Hle].
  split; [|split; [done|]]; unfold CommitCLL in *.
  - split; [done|]. destruct (ApplyCLL_outcome (state e) size checkpoint next (ok_state _ Hok)); try done.
    by apply committed_indexes.
  - by destruct (ApplyCLL_outcome (state e) size checkpoint next (ok_state _ Hok)).
Qed.

Lemma Append_sound (e : Engine) (input : AppendInput) : sound e -> sound (fst (Append e input)).
Proof.
  intros [Hok Hi]. destruct (perform_step e (OpAppend input) Hok I) as [Hok' [Hle _]]. cbn [perform] in *.
  split; [done|]. destruct (Append_refine e input (EngineHistory.ok_log _ Hok)) as (_ & -> & _).
  by eapply indexes_mono.
Qed.

Lemma CommitWitness_sound (e : Engine) (attempts : Z) (row : WitnessState) :
  sound e -> row_storable row -> sound (fst (CommitWitness e attempts row)).
Proof.
  intros [Hok Hi] Hst. destruct (perform_step e (OpCommitWitness attempts row) Hok I) as [Hok' _]. cbn [perform] in *.
  split; [done|]. unfold CommitWitness in *. destruct (ApplyWitness _ _ _) as [s'|] eqn:Ha; [|done].
  cbn [fst entries state]. clear Hok'.
  apply ApplyWitness_Ok in Ha as (_ & pre & w & post & Hrows & _ & Hkey & _ & _ & ->).
  destruct Hi as [Hr Ht Hz Hcp Hp Hw].
  split; cbn [with_rows st_Size st_Nodes st_IndexedSeq st_FirstPendingAt st_Checkpoint st_Witnesses]; try done.
  change (checkpointSize (with_rows _ _ _)) with (checkpointSize (state e)).
  rewrite Hrows in Hw. apply Forall_app in Hw as [Hpre [[Hsize [_ _ Hu]] Hpost]%Forall_cons].
  apply Forall_app. split; [done|]. constructor; [|done]. split; [|done].
  apply WitnessKey_inj in Hkey as [_ <-]; [done|apply Hu|apply (storable_size _ Hst)].
Qed.

(** A state that indexes a log can be given to every backend. *)
Lemma indexes_storable (es : list Entry) (state : State) :
  indexes es state -> u64 (st_Size state) /\ state_storable state.
Proof.
  intros Hi. destruct (indexed_size _ _ _ Hi) as [Hs Hm]. pose proof Hi as [Hr _ _ Hcp _ Hrows].
  pose proof (mmr_size_bound (st_IndexedSeq state) ltac:(lia)). pose proof (mmr_size_ge (st_IndexedSeq state) ltac:(lia)).
  assert (u64 (st_Size state)) as Hu by (unfold u64, two63, two64 in *; lia).
  split; [done|]. split; [split|].
  - done.
  - unfold u64, two63, two64 in *. lia.
  - intros c Hc. destruct (Hcp c Hc) as [[Hcr Hcs _ _] Hle].
    pose proof (mmr_size_mono (cpt_IndexedSeq c) (st_IndexedSeq state) ltac:(lia)).
    pose proof (mmr_size_ge (cpt_IndexedSeq c) ltac:(lia)). unfold u64, two63, two64 in *. lia.
  - eapply Forall_impl; [exact Hrows|]. intros w [_ Hst]. apply Hst.
  - eapply Forall_impl; [exact Hrows|]. by intros w [_ Hst].
Qed.

End Commits.

Section Runner.
Context {S Env E : Type} `{BL : BackendLaws S Env} `{!DtMmrLaws DT} `{CB : Cbor} `{CS : Cose}
  `{SG : Signer E} `{!SignerLaws E}.
Variable config : RunnerConfig.

Abbreviation indexes := (RunnerSpec.indexes config).
Abbreviation sound := (RunnerSpec.sound config).
Abbreviation current_ok := (RunnerStep.current_ok config).

(** ** What may happen to the store *)

(** The store is shut or represents a later sound engine with [P]. *)
Definition reaches (e : Engine) (P : Engine -> Prop) (s : S) : Prop :=
  shut s \/ exists e', represents s e' /\ sound e' /\ engine_le e e' /\ P e'.

(** From a sound store to a sound store, forward; a shut one stays shut. *)
Record keeps (s s' : S) : Prop := {
  keeps_shut : shut s -> shut s';
  keeps_sound : forall e, represents s e -> sound e -> reaches e (fun _ => True) s'
}.

#[export] Instance keeps_preorder : PreOrder keeps.
Proof.
  split.
  - intros s. split; [done|]. intros e Hr Hs. right. by exists e.
  - intros a b c [Hs1 Hk1] [Hs2 Hk2]. split; [auto|]. intros e Hr Hs.
    destruct (Hk1 e Hr Hs) as [Hb|(e1 & Hr1 & So1 & Hle1 & _)]; [left; auto|].
    destruct (Hk2 e1 Hr1 So1) as [Hc|(e2 & Hr2 & So2 & Hle2 & _)]; [by left|right].
    exists e2. split_and!; [done|done|by etrans|done].
Qed.

Lemma reaches_impl (e0 e : Engine) (P Q : Engine -> Prop) (s : S) :
  engine_le e0 e -> (forall e', engine_le e e' -> P e' -> Q e') -> reaches e P s -> reaches e0 Q s.
Proof.
  intros Hle HPQ [?|(e' & ? & ? & ? & ?)]; [by left|right]. exists e'. split_and!; [done|done|by etrans|auto].
Qed.

(** Calls that keep the store: any append, a row of Go's types, and a commit of
    a state that indexes the log. *)
Definition polite (s : S) (c : Call Env) : Prop :=
  match c with
  | CallAppend _ _ => True
  | CallCommitCLL _ size _ next => u64 size /\ forall e, represents s e -> sound e -> indexes (entries e) next
  | CallCommitWitness _ attempts row => uint32 attempts /\ row_storable row
  end.

(** What a backend keeps of a sound engine is sound. *)
Lemma kept_sound (e e' : Engine) : engine_kept e e' -> engine_ok e' -> sound e -> sound e'.
Proof.
  intros [Hes Hk] He' [_ [Hr Ht Hz Hc Hp Hrows]]. split; [done|]. rewrite Hes.
  pose proof (kept_forall (row_good (checkpointSize (state e))) (state e) (state e')) as Hgood.
  destruct Hk as [Hsize Hnodes Hindexed Hcp Hpend Hperm]. split; rewrite ?Hsize, ?Hnodes, ?Hindexed, ?Hcp; try done.
  - unfold lastCheckpointed in *. rewrite Hcp. destruct Hpend as [Hpend|Hpend]; [congruence|]. rewrite Hpend, Hp.
    unfold pendingSince. destruct (_ <? _); [|done]. destruct (zget _ _) as [entry|]; [|done]. cbn. by rewrite NormalizeTime_idem.
  - unfold checkpointSize in *. rewrite Hcp. apply Hgood; [|by split|done].
    intros w [Hw [Ha He Hs]]. by split; [|split].
Qed.

Lemma agrees_keeps {A} (s : S) (e : Engine) (spec : Engine * result A) (out : S * result A) :
  represents s e -> sound e -> sound (fst spec) -> engine_le e (fst spec) ->
  agrees represents shut e spec out -> reaches e (fun _ => True) (fst out).
Proof.
  intros Hr Hs Hs' Hle Ha.
  assert ((exists e', represents (fst out) e' /\ engine_kept (fst spec) e') -> reaches e (fun _ => True) (fst out)) as Hmade.
  { intros (e' & He' & Hk). right. exists e'. split_and!; [done| | |done].
    - eapply kept_sound; [done|by eapply law_ok|done].
    - etrans; [exact Hle|by apply engine_kept_le]. }
  destruct Ha as [[Hm _]|[[Hr'|[Hm|Hsh]] _]]; [by apply Hmade|right; by exists e|by apply Hmade|by left].
Qed.

Lemma call_keeps (s : S) (c : Call Env) : polite s c -> keeps s (call s c).
Proof.
  intros Hc. split; [apply (shut_calls s [c])|]. intros e Hr Hs.
  destruct c as [env input|env size cp next|env attempts row]; cbn [call polite] in *.
  - eapply agrees_keeps; [done|done| | |by apply law_Append].
    + by apply Append_sound.
    + by apply (perform_step e (OpAppend input) (sound_engine _ _ Hs) I).
  - destruct Hc as [Hu Hn]. specialize (Hn e Hr Hs).
    destruct (CommitCLL_sound config e size cp next Hs Hn) as (? & ? & _).
    destruct (indexes_storable config _ _ Hn).
    eapply agrees_keeps; [done|done| | |apply law_CommitCLL; [done|by apply law_storable]]; done.
  - destruct Hc as [Hu Hst]. eapply agrees_keeps; [done|done| | |apply law_CommitWitness; [done|by apply law_storableRow]].
    + by apply CommitWitness_sound.
    + by apply (perform_step e (OpCommitWitness attempts row) (sound_engine _ _ Hs) I).
Qed.

End Runner.

End RunnerProofs.
