(* ===== verification/RunnerRely.v ===== *)
(** * The calls of a runner

    Each of [loadRunnerState] and [advanceOnce], made over a sound store while
    others keep it sound, leaves it sound, and what the runner holds afterwards
    describes it. *)

From S2P Require Import Prelude Sha256 Hex Geometry DtMmr Mmr MmrBuild MmrProofs Cll Portable Engine EngineLog.
From S2P Require Import EngineState EngineHistory EngineWitness WireProofs JournalProofs JournalText JsonlReplay Backend.
From S2P Require Import Rfc3339 Codec Checkpoint CheckpointPayload CheckpointRecord Runner RunnerSpec RunnerStep.
From S2P Require Import RunnerProofs.
Import Geometry MmrBuild MmrProofs Cll Portable Engine EngineLog EngineState EngineHistory EngineWitness.
Import WireProofs JournalProofs JournalText JsonlReplay Backend.
Import Rfc3339 Checkpoint CheckpointPayload CheckpointRecord Runner RunnerSpec RunnerStep RunnerProofs.

Module RunnerRely.

Local Open Scope Z_scope.

(** ** Moving forward *)

Definition behind (s s' : State) : Prop :=
  st_IndexedSeq s <= st_IndexedSeq s' /\ lastCheckpointed s <= lastCheckpointed s'.

(** More is indexed, or what was pending is checkpointed. *)
Definition progress (s s' : State) : Prop :=
  st_IndexedSeq s < st_IndexedSeq s' \/
  st_IndexedSeq s = st_IndexedSeq s' /\ is_Some (st_FirstPendingAt s) /\ st_FirstPendingAt s' = None.

Lemma due_pending (config : RunnerConfig) (now : Z) (state : State) (m : Z) (pending : option Z) :
  isDue config now state m pending = true -> is_Some pending.
Proof. unfold isDue. destruct pending; [by eexists|done]. Qed.

Section Runner.
Context {S Env E : Type} `{BL : BackendLaws S Env} `{!DtMmrLaws DT} `{CB : Cbor} `{CS : Cose}
  `{SG : Signer E} `{!SignerLaws E}.
Variable config : RunnerConfig.

Abbreviation indexes := (RunnerSpec.indexes config).
Abbreviation sound := (RunnerSpec.sound config).
Abbreviation current_ok := (RunnerStep.current_ok config).
Abbreviation keeps := (RunnerProofs.keeps config).
Abbreviation reaches := (RunnerProofs.reaches config).

(** What the runner holds describes the log of the engine, from its past. *)
Record holds (current : runnerState) (e : Engine) : Prop := {
  holds_current : current_ok (entries e) current;
  holds_behind : behind (rs_state current) (state e)
}.

Lemma last_mono (s s' : State) :
  checkpoint_le (st_Checkpoint s) (st_Checkpoint s') -> 0 <= lastCheckpointed s' ->
  lastCheckpointed s <= lastCheckpointed s'.
Proof.
  unfold checkpoint_le, lastCheckpointed. destruct (st_Checkpoint s), (st_Checkpoint s'); try done. tauto.
Qed.

Lemma holds_mono (e e' : Engine) (current : runnerState) :
  engine_le e e' -> sound e' -> holds current e -> holds current e'.
Proof.
  intros [Hes [Ha Hc _]] Hs [Hcur [Hi Hl]]. split; [by eapply current_mono|].
  pose proof (last_mono _ _ Hc (proj1 (last_range _ _ _ (sound_indexes _ _ Hs)))). destruct Ha as (_ & ? & _).
  split; lia.
Qed.

Variable turns : nat -> Turn S Env E.

(** Everything the others do keeps the store. *)
Hypothesis rely : forall k s, keeps s (t_others (turns k) s).

Abbreviation arrive := (Runner.arrive turns).

Lemma arrive_shut (w : World) : shut (fst w) -> shut (fst (arrive w)).
Proof. apply (rely (snd w) (fst w)). Qed.

Lemma arrive_reaches (w : World) (e : Engine) :
  represents (fst w) e -> sound e -> reaches e (fun _ => True) (fst (arrive w)).
Proof. apply (rely (snd w) (fst w)). Qed.

(** ** Loading *)

Lemma load_shut (w : World) :
  shut (fst w) -> shut (fst (fst (loadRunnerState turns config w))) /\
  is_ok (snd (loadRunnerState turns config w)) = false.
Proof.
  intros Hs. pose proof (arrive_shut w Hs) as Ha. unfold loadRunnerState. cbn [fst snd]. split; [done|].
  pose proof (law_shut _ (t_env (turnOf turns w)) (MkAppendInput [] 0) [] 0 None emptyState 0
    (MkWitness "" 0 [] 0 0 None false "") Ha) as Hl.
  destruct (b_LoadCLL _ _); [|done]. exfalso. by destruct Hl as (_ & _ & _ & _ & _ & _ & _ & ?).
Qed.

Lemma load_state (w : World) (e : Engine) :
  represents (fst w) e -> sound e ->
  reaches e (fun e' => forall current, snd (loadRunnerState turns config w) = Ok current ->
      holds current e' /\ rs_state current = state e')
    (fst (fst (loadRunnerState turns config w))).
Proof.
  intros Hr Hs. unfold loadRunnerState. cbn [fst snd].
  destruct (arrive_reaches w e Hr Hs) as [?|(e1 & Hr1 & Hs1 & Hle & _)]; [by left|right].
  exists e1. split_and!; [done|done|done|]. intros current.
  destruct (law_LoadCLL _ e1 (t_env (turnOf turns w)) Hr1) as [->|(err & ->)]; [|done]. cbn [mbind result_bind].
  unfold LoadState. rewrite CloneState_id.
  destruct (restore_indexes config (entries e1) (state e1) (sound_indexes _ _ Hs1)) as (cur & -> & Hst & Hcur).
  intros [= <-]. split; [split; [done|]|done]. rewrite Hst. split; lia.
Qed.

Lemma load_reaches (w : World) (e : Engine) :
  represents (fst w) e -> sound e ->
  reaches e (fun e' => forall current, snd (loadRunnerState turns config w) = Ok current -> holds current e')
    (fst (fst (loadRunnerState turns config w))).
Proof.
  intros Hr Hs. eapply (reaches_impl config e e); [done| |by apply load_state].
  intros e' _ Hpost current Hc. by apply Hpost.
Qed.

(** ** Committing *)

Lemma commit_shut (w : World) (state next : State) (tree : Mmr.Tree) (previous : Record_) (current : runnerState) :
  shut (fst w) ->
  shut (fst (fst (fst (commitNext turns w state next tree previous current)))) /\
  is_ok (snd (commitNext turns w state next tree previous current)) = false.
Proof.
  intros Hs. pose proof (arrive_shut w Hs) as Ha. unfold commitNext.
  pose proof (law_shut _ (t_env (turnOf turns w)) (MkAppendInput [] 0) [] (st_Size state)
    (cpt_Bytes <$> st_Checkpoint state) next 0 (MkWitness "" 0 [] 0 0 None false "") Ha)
    as (_ & _ & Hshut & Hbad & _).
  destruct (b_CommitCLL _ _ _ _ _) as [s [|err]]; [done|]. by split.
Qed.

Lemma commit_reaches (w : World) (e : Engine) (state next : State) (tree : Mmr.Tree) (previous : Record_)
    (current : runnerState) :
  represents (fst w) e -> sound e -> u64 (st_Size state) ->
  current_ok (entries e) (MkRunnerState next tree previous) ->
  let out := commitNext turns w state next tree previous current in
  reaches e (fun e' => snd out = Ok true ->
      snd (fst out) = MkRunnerState next tree previous /\ holds (MkRunnerState next tree previous) e')
    (fst (fst (fst out))).
Proof.
  intros Hr Hs Hu Hcur. cbv zeta. unfold commitNext.
  destruct (arrive_reaches w e Hr Hs) as [Ha|(e1 & Hr1 & Hs1 & Hle & _)].
  { pose proof (law_shut _ (t_env (turnOf turns w)) (MkAppendInput [] 0) [] (st_Size state)
      (cpt_Bytes <$> st_Checkpoint state) next 0 (MkWitness "" 0 [] 0 0 None false "") Ha)
      as (_ & _ & Hshut & Hbad & _). left. by destruct (b_CommitCLL _ _ _ _ _) as [s [|err]]. }
  pose proof (current_mono config _ _ _ (le_entries _ _ Hle) Hcur) as Hcur1.
  pose proof (cu_indexes _ _ _ Hcur1) as Hi1. cbn [rs_state] in Hi1.
  destruct (indexes_storable config _ _ Hi1) as [_ Hstor].
  destruct (CommitCLL_sound config e1 (st_Size state) (cpt_Bytes <$> st_Checkpoint state) next Hs1 Hi1)
    as (Hs2 & Hle2 & Hst).
  set (spec := CommitCLL e1 (st_Size state) (cpt_Bytes <$> st_Checkpoint state) next) in *.
  assert (forall s' e', represents s' e' -> engine_kept (fst spec) e' -> sound e' /\ engine_le e e') as Hmade.
  { intros s' e' Hr' Hk. split; [eapply kept_sound; [done|by eapply law_ok|done]|].
    etrans; [exact Hle|]. etrans; [exact Hle2|by apply engine_kept_le]. }
  destruct (law_CommitCLL _ e1 (t_env (turnOf turns w)) (st_Size state) (cpt_Bytes <$> st_Checkpoint state) next
    Hr1 (law_storable _ _ Hu Hstor)) as [[(e2 & Hr2 & Hk) Hout]|[Hr2 (err & Hout)]]; fold spec in Hout.
  - right. exists e2. destruct (b_CommitCLL _ _ _ _ _) as [s r]. cbn [fst snd] in *. rewrite Hout.
    destruct (Hmade _ _ Hr2 Hk) as [Hs3 Hle3].
    destruct (snd spec) as [[]|] eqn:Hc; cbn [fst snd]; (split_and!; [done|done|done|]); [|done].
    intros _. split; [done|]. split; [eapply current_mono; [|exact Hcur1]|].
    + rewrite (kept_entries _ _ Hk). apply Hle2.
    + destruct Hk as [_ Hk]. unfold behind. unfold lastCheckpointed. rewrite (kept_indexed _ _ Hk), (kept_checkpoint _ _ Hk). fold spec. rewrite (Hst eq_refl). split; apply Z.le_refl.
  - fold spec in Hr2. destruct (b_CommitCLL _ _ _ _ _) as [s r]. cbn [fst snd] in *. rewrite Hout. cbn [fst snd].
    destruct Hr2 as [Hr2|[(e2 & Hr2 & Hk)|Hsh]]; [right; exists e1; by split_and!| |by left].
    right. exists e2. destruct (Hmade _ _ Hr2 Hk). by split_and!.
Qed.

(** ** Finishing a step *)

Lemma finish_shut (w : World) (now : Z) (current : runnerState) (scanned indexed : Z) (pending : option Z) :
  shut (fst w) ->
  shut (fst (fst (fst (finishStep turns config w now current scanned indexed pending)))) /\
  snd (finishStep turns config w now current scanned indexed pending) <> Ok true.
Proof.
  intros Hs. unfold finishStep.
  set (next := MkState _ _ _ _ _ _). set (due := isDue _ _ _ _ _).
  assert (shut (fst (fst (nextState turns config w now next (rs_state current) (rs_tree current)
    (rs_previous current) due)))) as Hn.
  { unfold nextState. destruct due; [|done]. destruct (draftCheckpoint _ _ _ _ _); [|done].
    by apply arrive_shut. }
  destruct (nextState _ _ _ _ _ _ _ _ _) as [w' [[next' previous']|err]]; [|done]. cbn [fst] in Hn.
  destruct (_ && _); [done|]. destruct (commit_shut w' (rs_state current) next' (rs_tree current) previous' current Hn)
    as [Hs' Hf]. split; [done|]. intros Ht. by rewrite Ht in Hf.
Qed.

Lemma sound_dense (e : Engine) : sound e -> dense (entries e).
Proof. intros Hs. exact (log_entries _ _ (EngineHistory.ok_log _ (sound_engine _ _ Hs))). Qed.

(** The state a step signs, when it is due. *)
Lemma due_next (es : list Entry) (state : State) (tree tree0 : Mmr.Tree) (previous : Record_) (env : E) (m now : Z)
    (body statement : bytes) (proof : option Mmr.ConsistencyProof) :
  let last := lastCheckpointed state in
  let peaks := logPeaks (prefix (values es) m) in
  let payload := draftPayload config es last m now in
  current_ok es (MkRunnerState state tree0 previous) -> commits tree (prefix (values es) m) ->
  st_IndexedSeq state <= m <= zlen es -> last < m ->
  CanonicalJSON payload = Ok body ->
  signer_SignCheckpoint env body peaks (logPeaks (prefix (values es) last)) proof = Ok statement ->
  current_ok es (MkRunnerState (withCheckpoint config now (indexedState es state tree m) statement peaks) tree
    (rootRecord (p_Root payload))).
Proof.
  intros last peaks payload [Hi _ _] Ht Hm Hl Hbody Hsign. cbn [rs_state] in Hi.
  pose proof (last_range _ _ _ Hi) as Hlast. fold last in Hlast.
  destruct (indexed_size _ _ _ (indexedState_indexes config es state tree m Hi Ht Hm)) as [_ Hmax].
  cbn [indexedState st_IndexedSeq] in Hmax.
  destruct (signed_good config env es last m now body statement proof) as [Hg _]; [lia|lia|done|done|done|].
  split; cbn [rs_state rs_tree rs_previous].
  - by apply withCheckpoint_indexes.
  - cbn [withCheckpoint st_Nodes indexedState]. by rewrite Nodes_id.
  - intros c [= <-]. cbn [cpt_IndexedSeq indexedState st_IndexedSeq]. done.
Qed.

Lemma finish_reaches (w : World) (e : Engine) (state : State) (tree tree0 : Mmr.Tree) (previous : Record_) (m now : Z) :
  let out := finishStep turns config w now (MkRunnerState state tree previous) (m - st_IndexedSeq state) m
               (pendingSince (entries e) (lastCheckpointed state) m) in
  represents (fst w) e -> sound e -> current_ok (entries e) (MkRunnerState state tree0 previous) ->
  commits tree (prefix (values (entries e)) m) -> st_IndexedSeq state <= m <= zlen (entries e) ->
  reaches e (fun e' => snd out = Ok true -> holds (snd (fst out)) e' /\ progress state (rs_state (snd (fst out))))
    (fst (fst (fst out))).
Proof.
  intros out Hr Hs Hcur Ht Hm. subst out. pose proof (cu_indexes _ _ _ Hcur) as Hi. cbn [rs_state] in Hi.
  pose proof (last_range _ _ _ Hi) as Hlast. destruct (indexes_storable config _ _ Hi) as [Hu _].
  unfold finishStep. cbn [rs_state rs_tree rs_previous].
  change (MkState (Mmr.Size tree) (Mmr.Nodes tree) m (pendingSince (entries e) (lastCheckpointed state) m)
    (st_Checkpoint state) (st_Witnesses state)) with (indexedState (entries e) state tree m).
  destruct (isDue config now state m _) eqn:Hdue; unfold nextState.
  - apply due_pending in Hdue. apply pendingSince_Some in Hdue; [|lia|lia].
    pose proof (draft_ok config (entries e) (MkRunnerState state tree0 previous) tree m now (sound_dense e Hs) Hcur Ht
      ltac:(cbn [rs_state]; lia)) as Hdraft. cbn [rs_state rs_previous] in Hdraft. rewrite Hdraft. unfold draftOf.
    destruct (CanonicalJSON _) as [body|err] eqn:Hbody; cbn [mbind result_bind]; [|right; by exists e].
    cbn [d_body d_peaks d_prevPeaks d_proof d_payload].
    destruct (signer_SignCheckpoint _ _ _ _ _) as [statement|err] eqn:Hsign; cbn [mbind result_bind].
    2: { eapply (reaches_impl config e e); [done| |by apply arrive_reaches]. by intros. }
    rewrite andb_false_r.
    pose proof (due_next (entries e) state tree tree0 previous _ m now body statement _ Hcur Ht Hm Hdue Hbody Hsign)
      as Hnext.
    destruct (arrive_reaches w e Hr Hs) as [Ha|(e1 & Hr1 & Hs1 & Hle & _)].
    { left. apply (commit_shut (arrive w)). done. }
    eapply (reaches_impl config e e1); [done| |apply commit_reaches; [done|done|done|]].
    2: { eapply current_mono; [apply Hle|exact Hnext]. }
    intros e2 _ Hpost Hok. destruct (Hpost Hok) as [Hcur2 Hh]. rewrite Hcur2. split; [done|].
    unfold progress. cbn [rs_state withCheckpoint st_IndexedSeq st_FirstPendingAt indexedState].
    destruct (Z.eq_dec (st_IndexedSeq state) m) as [Heq|]; [right|left; lia].
    split_and!; [done| |done]. rewrite (ix_pending _ _ _ Hi). apply pendingSince_Some; lia.
  - rewrite andb_true_r. destruct (Z.eqb_spec (m - st_IndexedSeq state) 0) as [H0|H0]; [right; by exists e|].
    eapply (reaches_impl config e e); [done| |apply commit_reaches; [done|done|done|]].
    2: { split; cbn [rs_state rs_tree rs_previous]; [by apply indexedState_indexes|apply eq_sym, Nodes_id|].
      intros c Hc. apply (cu_previous _ _ _ Hcur c Hc). }
    intros e2 _ Hpost Hok. destruct (Hpost Hok) as [Hcur2 Hh]. rewrite Hcur2. split; [done|].
    left. cbn [rs_state indexedState st_IndexedSeq]. lia.
Qed.

(** ** A step *)

Definition stepped (current current' : runnerState) (e : Engine) : Prop :=
  holds current' e /\ progress (rs_state current) (rs_state current').

Lemma advance_shut (w : World) (now : Z) (current : runnerState) :
  shut (fst w) ->
  shut (fst (fst (fst (advanceOnce turns config w now current)))) /\
  snd (advanceOnce turns config w now current) <> Ok true.
Proof.
  intros Hs. pose proof (arrive_shut w Hs) as Ha. unfold advanceOnce.
  destruct (b_ScanEntries _ _ _ _) as [es|err]; [|done].
  destruct (indexEntries _ _ _ _) as [tree [[indexed pending]|err]]; [|done]. by apply finish_shut.
Qed.

Hypothesis limit_ok : 1 <= ScanLimit config <= MaxScanLimit.

(** The page a scan returns, and what the entry loop makes of it. *)
Lemma scan_walk (e : Engine) (current : runnerState) :
  sound e -> holds current e ->
  let idx := st_IndexedSeq (rs_state current) in
  let m := Z.min (idx + ScanLimit config) (zlen (entries e)) in
  exists page tree,
    ScanEntries e idx (ScanLimit config) = Ok page /\ zlen page = m - idx /\
    indexEntries page (rs_tree current) idx (st_FirstPendingAt (rs_state current)) =
      (tree, Ok (m, pendingSince (entries e) (lastCheckpointed (rs_state current)) m)) /\
    commits tree (prefix (values (entries e)) m) /\ idx <= m <= zlen (entries e) /\ 0 <= idx.
Proof.
  intros Hs [[Hi Htree _] _] idx m. pose proof Hi as [Hr Ht _ _ Hp _]. fold idx in Hr, Ht, Hp.
  pose proof (last_range _ _ _ Hi) as Hlast. fold idx in Hlast.
  pose proof (sound_dense e Hs) as Hd.
  assert (zlen (entries e) <= MaxPortableInteger) as Hmax.
  { destruct (Z.eq_dec (zlen (entries e)) 0) as [H0|H0]; [rewrite H0; done|].
    destruct (zget_in_range (entries e) (zlen (entries e) - 1) ltac:(lia)) as [x Hx].
    destruct (Hd _ _ Hx) as [Hseq Hle _ _]. lia. }
  assert (idx <= m <= zlen (entries e)) as Hm by (unfold m; lia).
  rewrite ScanEntries_window by (apply Hs || lia).
  assert (take (Z.to_nat (ScanLimit config)) (drop (Z.to_nat idx) (entries e)) =
          take (Z.to_nat (m - idx)) (drop (Z.to_nat idx) (entries e))) as ->.
  { destruct (Z.le_gt_cases (idx + ScanLimit config) (zlen (entries e))).
    - unfold m. rewrite Z.min_l by lia. do 2 f_equal. lia.
    - unfold m. rewrite Z.min_r by lia. unfold zlen in *. rewrite !take_ge; [done| |]; rewrite length_drop; lia. }
  rewrite <- (MkTree_nodes (rs_tree current)), Htree, Hp.
  destruct (indexEntries_ok (entries e) (lastCheckpointed (rs_state current)) (Z.to_nat (m - idx)) idx
    (Mmr.MkTree (st_Nodes (rs_state current))) Hd ltac:(lia) ltac:(lia) Ht) as (tree & Hwalk & Ht' & _).
  rewrite Z2Nat.id in Hwalk, Ht' by lia. replace (idx + (m - idx)) with m in Hwalk, Ht' by lia.
  eexists _, tree. split_and!; [done| |done|done|lia|lia|lia].
  unfold zlen in *. rewrite length_take, length_drop. lia.
Qed.

Lemma advance_reaches (w : World) (e : Engine) (now : Z) (current : runnerState) :
  let out := advanceOnce turns config w now current in
  represents (fst w) e -> sound e -> holds current e ->
  reaches e (fun e' => snd out = Ok true -> stepped current (snd (fst out)) e') (fst (fst (fst out))).
Proof.
  intros out Hr Hs Hh. subst out. unfold advanceOnce.
  destruct (arrive_reaches w e Hr Hs) as [Ha|(e1 & Hr1 & Hs1 & Hle & _)].
  { destruct (b_ScanEntries _ _ _ _) as [es|err]; [|by left].
    destruct (indexEntries _ _ _ _) as [tree [[indexed pending]|err]]; [|by left]. left. by apply finish_shut. }
  pose proof (holds_mono e e1 current Hle Hs1 Hh) as Hh1.
  destruct (scan_walk e1 current Hs1 Hh1) as (page & tree & Hscan & Hlen & Hwalk & Ht & Hm & Hidx).
  destruct (law_ScanEntries _ e1 (t_env (turnOf turns w)) (st_IndexedSeq (rs_state current)) (ScanLimit config) Hr1 Hidx)
    as [->|(err & ->)]; [|right; by exists e1]. rewrite Hscan, Hwalk, Hlen.
  destruct Hh1 as [Hcur _]. destruct current as [state tree0 previous]. cbn [rs_state rs_previous] in *.
  eapply (reaches_impl config e e1); [done| |by apply (finish_reaches _ e1 state tree tree0)].
  intros e2 _ Hpost Hok. by apply Hpost.
Qed.

(** ** Whole calls *)

Abbreviation RunOnce := (Runner.RunOnce turns config).
Abbreviation catchUp := (Runner.catchUp turns config).
Abbreviation catchUpLoop := (Runner.catchUpLoop turns config).

(** Keeping, from a shut store and from a sound one. *)
Lemma keeps_from (s s' : S) :
  (shut s -> shut s') ->
  (forall e, represents s e -> sound e -> reaches e (fun _ => True) s') -> keeps s s'.
Proof. by split. Qed.

Lemma RunOnce_keeps (w : World) (now : Z) : keeps (fst w) (fst (fst (RunOnce w now))).
Proof.
  unfold Runner.RunOnce. destruct (normalizeRunnerTime now) as [t|err]; [|by apply keeps_from; [|right; exists e]].
  apply keeps_from.
  - intros Hs. destruct (load_shut w Hs) as [Hs' Hf].
    destruct (loadRunnerState turns config w) as [w' [current|err]]; [done|done].
  - intros e Hr Hs. pose proof (load_reaches w e Hr Hs) as Hl.
    destruct (loadRunnerState turns config w) as [w' [current|err]]; cbn [fst snd] in *.
    2: { by eapply (reaches_impl config e e); [| |exact Hl]. }
    destruct Hl as [Ha|(e1 & Hr1 & Hs1 & Hle & Hcur)].
    { destruct (advance_shut w' t current Ha) as [Ha' _].
      destruct (advanceOnce turns config w' t current) as [[w2 cur] r]. by left. }
    pose proof (advance_reaches w' e1 t current Hr1 Hs1 (Hcur current eq_refl)) as Hadv. cbv zeta in Hadv.
    destruct (advanceOnce turns config w' t current) as [[w2 cur] r]. cbn [fst snd] in *.
    by eapply (reaches_impl config e e1); [| |exact Hadv].
Qed.

Lemma catchUpLoop_shut (fuel : nat) (w w' : World) (now : Z) (reloaded : bool) (current : runnerState) (r : check) :
  shut (fst w) -> catchUpLoop fuel w now reloaded current = Some (w', r) -> shut (fst w').
Proof.
  revert w reloaded current. induction fuel as [|fuel IH]; intros w reloaded current Hs; [done|].
  cbn [Runner.catchUpLoop]. destruct (advance_shut w now current Hs) as [Hs' Hne].
  destruct (advanceOnce turns config w now current) as [[w1 cur] [[]|err]]; cbn [fst snd] in *; [done| |].
  - by intros [= <- _].
  - destruct err; try (by intros [= <- _]). destruct reloaded; [by intros [= <- _]|].
    destruct (load_shut w1 Hs') as [Hs2 Hf]. destruct (loadRunnerState turns config w1) as [w2 [c|err]]; [done|].
    by intros [= <- _].
Qed.

Lemma catchUpLoop_reaches (fuel : nat) (w w' : World) (e : Engine) (now : Z) (reloaded : bool)
    (current : runnerState) (r : check) :
  represents (fst w) e -> sound e -> holds current e ->
  catchUpLoop fuel w now reloaded current = Some (w', r) -> reaches e (fun _ => True) (fst w').
Proof.
  revert w e reloaded current. induction fuel as [|fuel IH]; intros w e reloaded current Hr Hs Hh; [done|].
  cbn [Runner.catchUpLoop]. pose proof (advance_reaches w e now current Hr Hs Hh) as Hadv. cbv zeta in Hadv.
  destruct (advanceOnce turns config w now current) as [[w1 cur] [[]|err]]; cbn [fst snd] in *.
  - intros Hloop. destruct Hadv as [Ha|(e1 & Hr1 & Hs1 & Hle & Hst)]; [left; by eapply catchUpLoop_shut|].
    eapply (reaches_impl config e e1); [done| |eapply IH; [exact Hr1|done|apply (Hst eq_refl)|exact Hloop]]. done.
  - intros [= <- _]. by eapply (reaches_impl config e e); [| |exact Hadv].
  - assert (reaches e (fun _ => True) (fst w1)) as Hw1 by by eapply (reaches_impl config e e); [| |exact Hadv].
    destruct err; try (by intros [= <- _]). destruct reloaded; [by intros [= <- _]|].
    destruct Hadv as [Ha|(e1 & Hr1 & Hs1 & Hle & _)].
    { destruct (load_shut w1 Ha) as [Ha' Hf]. destruct (loadRunnerState turns config w1) as [w2 [c|err]]; [done|].
      intros [= <- _]. by left. }
    pose proof (load_reaches w1 e1 Hr1 Hs1) as Hl.
    destruct (loadRunnerState turns config w1) as [w2 [c|err]]; cbn [fst snd] in *.
    + intros Hloop. destruct Hl as [Ha|(e2 & Hr2 & Hs2 & Hle2 & Hcur)]; [left; by eapply catchUpLoop_shut|].
      eapply (reaches_impl config e e2); [by etrans| |eapply IH; [exact Hr2|done|by apply Hcur|exact Hloop]]. done.
    + intros [= <- _]. by eapply (reaches_impl config e e1); [| |exact Hl].
Qed.

Lemma catchUp_keeps (fuel : nat) (w w' : World) (now : Z) (r : check) :
  catchUp fuel w now = Some (w', r) -> keeps (fst w) (fst w').
Proof.
  unfold Runner.catchUp. destruct (normalizeRunnerTime now) as [t|err]; [|by intros [= <- _]].
  intros Hc. apply keeps_from.
  - intros Hs. destruct (load_shut w Hs) as [Hs' Hf].
    destruct (loadRunnerState turns config w) as [w1 [current|err]]; [done|]. by injection Hc as <- _.
  - intros e Hr Hs. pose proof (load_reaches w e Hr Hs) as Hl.
    destruct (loadRunnerState turns config w) as [w1 [current|err]]; cbn [fst snd] in *.
    2: { injection Hc as <- _. by eapply (reaches_impl config e e); [| |exact Hl]. }
    destruct Hl as [Ha|(e1 & Hr1 & Hs1 & Hle & Hcur)]; [left; by eapply catchUpLoop_shut|].
    eapply (reaches_impl config e e1); [done| |eapply catchUpLoop_reaches; [exact Hr1|done|by apply Hcur|exact Hc]]. done.
Qed.

Lemma Run_keeps (rounds fuel : nat) (clock : nat -> Z) (wakes : nat -> Wake) (round : nat) (w w' : World) (err : error) :
  Run turns config rounds fuel clock wakes round w = Some (w', err) -> keeps (fst w) (fst w').
Proof.
  revert round w. induction rounds as [|rounds IH]; intros round w; [done|]. cbn [Run].
  destruct (catchUp fuel w (clock round)) as [[w1 outcome]|] eqn:Hc; [|done]. apply catchUp_keeps in Hc.
  assert (match wakes round with
          | WakeDone err' => Some (w1, err')
          | WakeNotify | WakeTick => Run turns config rounds fuel clock wakes (Datatypes.S round) w1
          end = Some (w', err) -> keeps (fst w) (fst w')) as Hwake.
  { destruct (wakes round); [by intros [= <- _]|intros Hrun%IH; by etrans|intros Hrun%IH; by etrans]. }
  destruct outcome as [[]|err']; [done|]. destruct err'; done || by intros [= <- _].
Qed.

(** ** Termination *)

Definition pendingWeight (state : State) : Z := match st_FirstPendingAt state with Some _ => 1 | None => 0 end.

(** What is left to do, counting one reload after each step. *)
Definition effort (reloaded : bool) (state : State) : Z :=
  2 * (2 * (MaxPortableInteger - st_IndexedSeq state) + pendingWeight state) + (if reloaded then 0 else 1).

Lemma pendingWeight_range (state : State) : 0 <= pendingWeight state <= 1.
Proof. unfold pendingWeight. destruct (st_FirstPendingAt state); lia. Qed.

Lemma log_bounded (e : Engine) : sound e -> zlen (entries e) <= MaxPortableInteger.
Proof.
  intros Hs. destruct (Z.eq_dec (zlen (entries e)) 0) as [->|H0]; [done|].
  destruct (zget_in_range (entries e) (zlen (entries e) - 1)) as [x Hx]; [pose proof (zlen_nonneg (entries e)); lia|].
  destruct (sound_dense e Hs _ _ Hx) as [Hseq Hle _ _]. lia.
Qed.

Lemma progress_effort (reloaded : bool) (s s' : State) : progress s s' -> effort false s' + 1 <= effort reloaded s.
Proof.
  intros [Hlt|(Heq & [t Hp] & Hn)]; unfold effort.
  - pose proof (pendingWeight_range s). pose proof (pendingWeight_range s'). destruct reloaded; lia.
  - unfold pendingWeight. rewrite Hp, Hn, Heq. destruct reloaded; lia.
Qed.

(** Loading again never adds to what is left. *)
Lemma reload_effort (e e' : Engine) (current current' : runnerState) :
  sound e' -> holds current e -> engine_le e e' -> holds current' e' -> rs_state current' = state e' ->
  effort true (rs_state current') + 1 <= effort false (rs_state current).
Proof.
  intros Hs' Hh Hle Hh' Heq. pose proof (holds_mono e e' current Hle Hs' Hh) as [[Hi _ _] [Hidx Hlast]].
  rewrite <- Heq in Hidx, Hlast. destruct Hh' as [[Hi' _ _] _]. unfold effort, pendingWeight.
  rewrite (ix_pending _ _ _ Hi), (ix_pending _ _ _ Hi').
  pose proof (last_range _ _ _ Hi). pose proof (last_range _ _ _ Hi'). pose proof (ix_range _ _ _ Hi).
  pose proof (ix_range _ _ _ Hi').
  destruct (Z.eq_dec (st_IndexedSeq (rs_state current)) (st_IndexedSeq (rs_state current'))) as [He|Hne].
  - destruct (pendingSince _ _ (st_IndexedSeq (rs_state current'))) as [t'|] eqn:Hp'.
    + assert (is_Some (pendingSince (entries e') (lastCheckpointed (rs_state current)) (st_IndexedSeq (rs_state current))))
        as [t Ht].
      { apply pendingSince_Some; [lia|lia|]. assert (lastCheckpointed (rs_state current') < st_IndexedSeq (rs_state current'));
          [|lia]. apply (pendingSince_Some (entries e')); [lia|lia|by eexists]. }
      rewrite Ht. lia.
    + destruct (pendingSince (entries e') (lastCheckpointed (rs_state current)) (st_IndexedSeq (rs_state current)));
        lia.
  - repeat case_match; lia.
Qed.

Lemma catchUpLoop_stops_shut (fuel : nat) (w : World) (now : Z) (reloaded : bool) (current : runnerState) :
  shut (fst w) -> (0 < fuel)%nat -> is_Some (catchUpLoop fuel w now reloaded current).
Proof.
  intros Hs Hf. destruct fuel as [|fuel]; [lia|]. cbn [Runner.catchUpLoop].
  destruct (advance_shut w now current Hs) as [Hs' Hne].
  destruct (advanceOnce turns config w now current) as [[w1 cur] [[]|err]]; cbn [fst snd] in *; [done|by eexists|].
  destruct err; try by eexists. destruct reloaded; [by eexists|].
  destruct (load_shut w1 Hs') as [_ Hbad]. destruct (loadRunnerState turns config w1) as [w2 [c|err]]; [done|].
  by eexists.
Qed.

Lemma catchUpLoop_stops (fuel : nat) (w : World) (e : Engine) (now : Z) (reloaded : bool) (current : runnerState) :
  represents (fst w) e -> sound e -> holds current e ->
  effort reloaded (rs_state current) + 1 < Z.of_nat fuel -> is_Some (catchUpLoop fuel w now reloaded current).
Proof.
  revert w e reloaded current. induction fuel as [|fuel IH]; intros w e reloaded current Hr Hs Hh Hf.
  { exfalso. destruct Hh as [[Hi _ _] _]. pose proof (ix_range _ _ _ Hi). pose proof (log_bounded e Hs).
    pose proof (pendingWeight_range (rs_state current)). unfold effort in Hf. destruct reloaded; lia. }
  assert (0 <= effort reloaded (rs_state current)) as Hpos.
  { destruct Hh as [[Hi _ _] _]. pose proof (ix_range _ _ _ Hi). pose proof (log_bounded e Hs).
    pose proof (pendingWeight_range (rs_state current)). unfold effort. destruct reloaded; lia. }
  cbn [Runner.catchUpLoop]. pose proof (advance_reaches w e now current Hr Hs Hh) as Hadv. cbv zeta in Hadv.
  destruct (advanceOnce turns config w now current) as [[w1 cur] [[]|err]]; cbn [fst snd] in *; [|by eexists|].
  - destruct Hadv as [Ha|(e1 & Hr1 & Hs1 & Hle & Hst)]; [apply catchUpLoop_stops_shut; [done|lia]|].
    destruct (Hst eq_refl) as [Hh1 Hp]. apply (IH w1 e1); try done.
    pose proof (progress_effort reloaded _ _ Hp). lia.
  - destruct err; try by eexists. destruct reloaded; [by eexists|].
    destruct Hadv as [Ha|(e1 & Hr1 & Hs1 & Hle & _)].
    { destruct (load_shut w1 Ha) as [_ Hbad]. destruct (loadRunnerState turns config w1) as [w2 [c|err]]; [done|].
      by eexists. }
    pose proof (load_state w1 e1 Hr1 Hs1) as Hl.
    destruct (loadRunnerState turns config w1) as [w2 [c|err]]; cbn [fst snd] in *; [|by eexists].
    destruct Hl as [Ha|(e2 & Hr2 & Hs2 & Hle2 & Hcur)]; [apply catchUpLoop_stops_shut; [done|lia]|].
    destruct (Hcur c eq_refl) as [Hh2 Hst2]. apply (IH w2 e2); try done.
    pose proof (reload_effort e e2 current c Hs2 Hh ltac:(by etrans) Hh2 Hst2). lia.
Qed.

(** The log holds at most [MaxPortableInteger] entries, whoever appends. *)
Lemma catchUp_stops (w : World) (now : Z) :
  shut (fst w) \/ (exists e, represents (fst w) e /\ sound e) ->
  exists fuel, forall fuel', (fuel <= fuel')%nat -> is_Some (catchUp fuel' w now).
Proof.
  intros Hw. exists (Z.to_nat (4 * MaxPortableInteger + 5)). intros fuel Hf. unfold Runner.catchUp.
  destruct (normalizeRunnerTime now) as [t|err]; [|by eexists].
  assert (0 < MaxPortableInteger) as HM by done.
  assert (4 * MaxPortableInteger + 5 <= Z.of_nat fuel) as Hf' by lia. clear Hf.
  assert (forall w', shut (fst w') -> is_Some
    (match loadRunnerState turns config w with
     | (_, Ok current) => catchUpLoop fuel w' t false current
     | (_, Err err) => Some (w', Err err)
     end)) as Hshut.
  { intros w' Hs'. destruct (loadRunnerState turns config w) as [w2 [c|err]]; [|by eexists].
    apply catchUpLoop_stops_shut; [done|lia]. }
  destruct Hw as [Hs|(e & Hr & Hs)].
  - destruct (load_shut w Hs) as [_ Hbad]. destruct (loadRunnerState turns config w) as [w1 [c|err]]; [done|].
    by eexists.
  - pose proof (load_reaches w e Hr Hs) as Hl.
    destruct (loadRunnerState turns config w) as [w1 [c|err]]; cbn [fst snd] in *; [|by eexists].
    destruct Hl as [Ha|(e1 & Hr1 & Hs1 & Hle & Hcur)]; [by apply Hshut|].
    pose proof (Hcur c eq_refl) as Hh. apply (catchUpLoop_stops fuel w1 e1); try done.
    destruct Hh as [[Hi _ _] _]. pose proof (ix_range _ _ _ Hi). pose proof (pendingWeight_range (rs_state c)).
    unfold effort. lia.
Qed.

End Runner.

End RunnerRely.
