(* ===== verification/RunnerCalm.v ===== *)
(** * Steps of the runner over a calm store

    When the store answers and nobody else moves it, a step does exactly what
    the log and the cadence call for. *)

From stdpp Require Import relations.
From S2P Require Import Prelude Sha256 Geometry DtMmr Hex Mmr MmrBuild MmrProofs Cll Portable Engine EngineLog.
From S2P Require Import EngineState EngineHistory EngineWitness WireProofs JournalProofs JournalText JsonlReplay.
From S2P Require Import Backend Rfc3339 Codec Checkpoint CheckpointPayload CheckpointRecord Runner RunnerSpec.
From S2P Require Import RunnerStep RunnerProofs RunnerRely.
Import Geometry MmrBuild MmrProofs Cll Portable Engine EngineLog EngineState EngineHistory EngineWitness.
Import WireProofs JournalProofs JournalText JsonlReplay Backend Rfc3339 Checkpoint CheckpointPayload.
Import CheckpointRecord Runner RunnerSpec RunnerStep RunnerProofs RunnerRely.

Module RunnerCalm.

Local Open Scope Z_scope.

(** ** The runner over a store that answers

    When the store answers as its engine and nobody else moves it, a step does
    exactly what the log and the cadence call for, and catching up indexes the
    whole log and signs what is due. *)

(** ** Configurations [NewRunner] accepts *)

Record config_ok (config : RunnerConfig) : Prop := {
  cfg_log : ValidateIdentifier (LogID config) = Ok tt;
  cfg_limit : 1 <= ScanLimit config <= MaxScanLimit;
  cfg_cadence : 0 < CadenceEntries (Cadence config) \/ CadenceEntries (Cadence config) < 0;
  cfg_age : 0 < CadenceAge (Cadence config);
  cfg_ids : Forall (fun id => ValidateIdentifier id = Ok tt) (WitnessIDs config);
  cfg_unique : NoDup (WitnessIDs config)
}.

Lemma is_ok_unit (r : check) : is_ok r = true -> r = Ok tt.
Proof. by destruct r as [[]|]. Qed.

Lemma checkWitnessIDs_Ok (ids : list string) (seen : gset string) :
  checkWitnessIDs ids seen = Ok tt ->
  Forall (fun id => ValidateIdentifier id = Ok tt) ids /\ NoDup ids /\ forall id, id ∈ ids -> id ∉ seen.
Proof.
  revert seen. induction ids as [|id ids IH]; intros seen; cbn [checkWitnessIDs].
  - intros _. split_and!; [constructor|constructor|]. intros id Hid. by apply elem_of_nil in Hid.
  - destruct (is_ok (ValidateIdentifier id)) eqn:Hv; cbn [negb]; [|done]. case_bool_decide as Hs; [done|].
    intros (Hall & Hnd & Hseen)%IH. split_and!.
    + constructor; [by apply is_ok_unit|done].
    + constructor; [|done]. intros Hin. apply (Hseen id Hin). set_solver.
    + intros x [->|Hx]%elem_of_cons; [done|]. specialize (Hseen x Hx). set_solver.
Qed.

Lemma NewRunner_Ok (config c : RunnerConfig) : NewRunner config = Ok c -> c = config /\ config_ok config.
Proof.
  unfold NewRunner. do 3 (match goal with |- context [if ?b then Err _ else _] => destruct b eqn:?; [done|] end).
  destruct (checkWitnessIDs _ _) as [[]|] eqn:H4; cbn [mbind result_bind]; [|done].
  intros [= <-]. split; [done|]. apply checkWitnessIDs_Ok in H4 as (Hall & Hnd & _). gobool.
  unfold Validate in *. destruct (_ || _) eqn:H5; [done|]. gobool.
  split; try done; [by apply is_ok_unit|lia].
Qed.

(** ** Rows *)

Lemma newRows_app (ws extra : list WitnessState) :
  NoDup (map keyOf (ws ++ extra)) -> newRows ws (ws ++ extra) = extra.
Proof.
  rewrite map_app, NoDup_app. intros (_ & Hdisj & _). unfold newRows. rewrite List.filter_app.
  assert (List.filter (fun w => negb (bool_decide (keyOf w ∈ map keyOf ws))) ws = []) as ->.
  { assert (forall l, l ⊆ ws -> List.filter (fun w => negb (bool_decide (keyOf w ∈ map keyOf ws))) l = []) as H;
      [|by apply H]. induction l as [|w l IH]; intros Hl; [done|]. cbn [List.filter].
    rewrite bool_decide_true by (apply list_elem_of_fmap_2, Hl; left). cbn [negb]. apply IH. set_solver. }
  assert (forall l, l ⊆ extra -> List.filter (fun w => negb (bool_decide (keyOf w ∈ map keyOf ws))) l = l) as H;
    [|by apply H]. induction l as [|w l IH]; intros Hl; [done|]. cbn [List.filter].
  rewrite bool_decide_false.
  - cbn [negb]. f_equal. apply IH. set_solver.
  - intros Hin. apply (Hdisj _ Hin). apply list_elem_of_fmap_2, Hl. left.
Qed.

Lemma keys_agree (ws : list WitnessState) : NoDup (map keyOf ws) -> forall w w', w ∈ ws -> w' ∈ ws -> keyOf w = keyOf w' -> w = w'.
Proof.
  intros Hnd w w' Hw Hw' Hk. apply list_elem_of_lookup in Hw as [i Hi]. apply list_elem_of_lookup in Hw' as [j Hj].
  assert (i = j) as ->; [|congruence].
  apply (NoDup_lookup (map keyOf ws) i j (keyOf w) Hnd); rewrite list_lookup_fmap; [by rewrite Hi|rewrite Hj; cbn; by f_equal].
Qed.

Section Accept.
Context {E : Type} `{SG : Signer E} `{DT : DtMmr} `{!DtMmrLaws DT} `{CB : Cbor} `{CS : Cose}.
Variable config : RunnerConfig.

Abbreviation indexes := (RunnerSpec.indexes config).
Abbreviation sound := (RunnerSpec.sound config).

Definition withState (e : Engine) (next : State) : Engine := MkEngine (entries e) (byValue e) next.

(** A valid state that extends the stored one, rows included, is accepted as it is. *)
Lemma commit_accepted (e : Engine) (next : State) (extra : list WitnessState) :
  sound e -> state_wf next -> append_only (state e) next ->
  checkpoint_le (st_Checkpoint (state e)) (st_Checkpoint next) ->
  st_Witnesses next = st_Witnesses (state e) ++ extra ->
  CommitCLL e (st_Size (state e)) (cpt_Bytes <$> st_Checkpoint (state e)) next = (withState e next, Ok tt).
Proof.
  intros [Hok _] Hwf Ha Hc Hrows. unfold CommitCLL. pose proof (wf_keys _ Hwf) as Hkeys.
  destruct (ApplyCLL_outcome (state e) (st_Size (state e)) (cpt_Bytes <$> st_Checkpoint (state e)) next (ok_state _ Hok))
    as [Hs|_ Hbad|_ _ _ Hbad|_ _ _ _ _].
  - by destruct Hs.
  - by destruct Hbad.
  - destruct Hbad. split; [done|]. intros w w' Hw Hw' Hk. f_equal. apply (keys_agree (st_Witnesses next) Hkeys); try done.
    rewrite Hrows. apply elem_of_app. by left.
  - unfold withState, committed. do 2 f_equal. rewrite Hrows in Hkeys |- *. rewrite newRows_app by done.
    rewrite <- Hrows. by destruct next.
Qed.

(** The nodes of a tree are hashes. *)
Lemma commits_widths (tree : Mmr.Tree) (vs : list bytes) :
  commits tree vs -> Forall (fun n => zlen n = EntryBytes) (Mmr.nodes tree).
Proof.
  intros [Hwf _ _]. apply Forall_forall. intros n Hn. apply list_elem_of_lookup in Hn as [i Hi].
  destruct (MmrBuild.wf_nodes _ _ Hwf (Z.of_nat i) n) as [Hl _]; [by rewrite zget_lookup, Nat2Z.id by lia|].
  unfold zlen, EntryBytes. lia.
Qed.

Lemma pendingSince_ok (es : list Entry) (last m : Z) : dense es -> pending_ok (pendingSince es last m).
Proof.
  intros Hd. unfold pendingSince. destruct (last <? m); [|done]. destruct (zget es last) as [entry|] eqn:He; [|done].
  cbn [pending_ok fmap option_fmap option_map]. rewrite badTime_normalize. by destruct (Hd _ _ He).
Qed.

(** ** The states a step commits are valid *)

Lemma prefix_nodes (es : list Entry) (state : State) (m : Z) :
  dense es -> indexes es state -> st_IndexedSeq state <= m <= zlen es ->
  st_Nodes state `prefix_of` Mmr.nodes (treeOf (prefix (values es) m)).
Proof.
  intros Hd Hi Hm. pose proof Hi as [Hr Ht _ _ _ _].
  pose proof (prefix_commits es m Hd ltac:(lia)) as Hc.
  destruct (indexEntries_ok es (st_IndexedSeq state) (Z.to_nat (m - st_IndexedSeq state)) (st_IndexedSeq state)
    (Mmr.MkTree (st_Nodes state)) Hd ltac:(lia) ltac:(lia) Ht) as (tree & _ & Ht' & Hpre).
  rewrite Z2Nat.id in Ht' by lia. replace (st_IndexedSeq state + (m - st_IndexedSeq state)) with m in Ht' by lia.
  by rewrite (commits_unique _ _ _ Hc Ht').
Qed.

Lemma indexedState_wf (es : list Entry) (state : State) (m : Z) :
  dense es -> state_wf state -> indexes es state -> st_IndexedSeq state <= m <= zlen es ->
  let next := indexedState es state (treeOf (prefix (values es) m)) m in
  state_wf next /\ append_only state next.
Proof.
  intros Hd Hwf Hi Hm next. pose proof Hi as [Hr _ Hz _ _ _].
  pose proof (prefix_commits es m Hd ltac:(lia)) as Ht.
  pose proof (indexedState_indexes config es state _ m Hi Ht Hm) as Hi'. fold next in Hi'.
  destruct (indexed_size _ _ _ Hi') as [Hsize Hmax]. destruct (indexed_size _ _ _ Hi) as [Hsize0 _].
  assert (st_IndexedSeq next = m) as Hidx by done. rewrite Hidx in Hsize, Hmax.
  pose proof (mmr_size_mono (st_IndexedSeq state) m ltac:(lia)) as Hmono.
  assert (append_only state next) as Ha.
  { split_and!; [lia|lia|]. unfold next. cbn [indexedState st_Nodes]. rewrite Nodes_id. by apply prefix_nodes. }
  split; [|done]. split.
  - apply (ix_size _ _ _ Hi').
  - rewrite Hsize, Hidx. apply LeafCount_complete. lia.
  - by apply pendingSince_ok.
  - intros c Hc. destruct (wf_checkpoint _ Hwf c Hc) as (? & ? & ? & ? & ?). split_and!; try done; lia.
  - unfold next. cbn [indexedState st_Nodes]. rewrite Nodes_id. by eapply commits_widths.
  - apply (wf_rows _ Hwf).
  - apply (wf_keys _ Hwf).
Qed.

Hypothesis config_valid : config_ok config.

(** The new rows are valid and their keys are new. *)
Lemma fanout_ok (es : list Entry) (state : State) (m now : Z) (statement : bytes) :
  state_wf state -> indexes es state -> checkpointSize state < mmr_size m -> mmr_size m < two63 ->
  1 <= zlen statement <= MaxCheckpointBytes -> badTime now = false ->
  let rows := map (fun id => MkWitness id (mmr_size m) statement 0 now None false "") (WitnessIDs config) in
  Forall witness_ok rows /\ NoDup (map keyOf (st_Witnesses state ++ rows)).
Proof.
  intros Hwf Hi Hlt Hmax Hlen Hnow rows. pose proof Hi as [_ _ _ Hcp _ Hrows].
  assert (0 <= checkpointSize state) as H0.
  { rewrite (checkpoint_size _ _ _ Hi). pose proof (last_range _ _ _ Hi). pose proof (mmr_size_ge (lastCheckpointed state)).
    lia. }
  split.
  - unfold rows. rewrite Forall_map. eapply Forall_impl; [apply (cfg_ids _ config_valid)|]. intros id Hid. cbv beta in Hid.
    unfold witness_ok, validateWitness. cbn [wit_WitnessID wit_CheckpointSize wit_Checkpoint wit_NextAttemptAt
      wit_LastError wit_Receipt].
    rewrite Hid, (proj2 (Z.eqb_neq _ _)), !(proj2 (Z.ltb_ge _ _)), Hnow by lia. done.
  - rewrite map_app. apply NoDup_app. split; [apply (wf_keys _ Hwf)|]. split.
    + intros k (w & -> & Hw)%list_elem_of_fmap (w' & Hk & Hw')%list_elem_of_fmap.
      unfold rows in Hw'. apply list_elem_of_fmap in Hw' as (id & -> & _).
      rewrite Forall_forall in Hrows. destruct (Hrows w Hw) as [Hle [_ _ Hu]].
      apply WitnessKey_inj in Hk as [_ Hsz]; cbn [wit_CheckpointSize] in *; [lia|apply Hu|lia].
    + unfold rows. rewrite map_map. apply NoDup_fmap_2_strong; [|apply (cfg_unique _ config_valid)].
      intros a b _ _ Hk. by apply WitnessKey_inj in Hk as [? _]; cbn [wit_CheckpointSize]; [|lia|lia].
Qed.

Lemma withCheckpoint_wf (es : list Entry) (state : State) (m now : Z) (statement : bytes) :
  dense es -> state_wf state -> indexes es state -> st_IndexedSeq state <= m <= zlen es -> lastCheckpointed state < m ->
  1 <= zlen statement <= MaxCheckpointBytes -> badTime now = false ->
  let next := withCheckpoint config now (indexedState es state (treeOf (prefix (values es) m)) m) statement
                (logPeaks (prefix (values es) m)) in
  state_wf next /\ append_only state next /\ checkpoint_le (st_Checkpoint state) (st_Checkpoint next).
Proof.
  intros Hd Hwf Hi Hm Hlast Hlen Hnow next.
  destruct (indexedState_wf es state m Hd Hwf Hi Hm) as [[Hsz Hlv _ _ Hnd _ _] Ha].
  pose proof (prefix_commits es m Hd ltac:(pose proof (ix_range _ _ _ Hi); lia)) as Ht.
  pose proof (indexedState_indexes config es state _ m Hi Ht Hm) as Hi'.
  destruct (indexed_size _ _ _ Hi') as [Hsize Hmax]. cbn [indexedState st_IndexedSeq] in Hmax.
  assert (st_Size (indexedState es state (treeOf (prefix (values es) m)) m) = mmr_size m) as Hsm by exact Hsize.
  pose proof (last_range _ _ _ Hi) as Hl0. pose proof (mmr_size_strict (lastCheckpointed state) m ltac:(lia)) as Hstrict.
  rewrite <- (checkpoint_size _ _ _ Hi) in Hstrict. pose proof (mmr_size_bound m ltac:(lia)).
  destruct (fanout_ok es state m now statement Hwf Hi Hstrict ltac:(lia) Hlen Hnow) as [Hrows Hkeys].
  assert (st_Witnesses next = st_Witnesses state ++
    map (fun id => MkWitness id (mmr_size m) statement 0 now None false "") (WitnessIDs config)) as Hws.
  { unfold next. cbn [withCheckpoint st_Witnesses]. rewrite Hsm. done. }
  assert (st_Checkpoint next = Some (MkCheckpoint statement (mmr_size m) m (logPeaks (prefix (values es) m)))) as Hcpn.
  { unfold next. cbn [withCheckpoint st_Checkpoint]. by rewrite Hsm. }
  assert (st_Size next = mmr_size m /\ st_IndexedSeq next = m) as [Hns Hni] by (split; [exact Hsm|done]).
  split; [|split; [done|]].
  - split; try done.
    + rewrite Hcpn. intros c [= <-]. pose proof (mmr_size_ge m ltac:(lia)). unfold checkpoint_ok. rewrite Hns, Hni.
      cbn [cpt_Bytes cpt_Size cpt_IndexedSeq cpt_Peaks]. split_and!; try lia.
      eapply Forall_impl; [apply logPeaks_width|]. intros p Hp. cbv beta in Hp. unfold zlen, EntryBytes. lia.
    + rewrite Hws. apply Forall_app. split; [apply (wf_rows _ Hwf)|done].
    + by rewrite Hws.
  - unfold checkpoint_le. rewrite Hcpn. unfold checkpointSize, lastCheckpointed in *.
    destruct (st_Checkpoint state) as [c|]; [|done]. cbn [cpt_Size cpt_IndexedSeq]. split_and!; lia.
Qed.

End Accept.

Section Outcome.
Context {E : Type} `{SG : Signer E} `{DT : DtMmr} `{CB : Cbor} `{CS : Cose}.
Variable config : RunnerConfig.

(** ** What a step should do *)

Definition nextIndexed (e : Engine) : Z := Z.min (st_IndexedSeq (state e) + ScanLimit config) (zlen (entries e)).

Definition dueAt (now : Z) (e : Engine) (m : Z) : bool :=
  isDue config now (state e) m (pendingSince (entries e) (lastCheckpointed (state e)) m).

(** The state with the next entries indexed. *)
Definition indexedNext (e : Engine) : State :=
  indexedState (entries e) (state e) (treeOf (prefix (values (entries e)) (nextIndexed e))) (nextIndexed e).

(** Nothing to do; or a page is indexed; or it is indexed and signed, with one
    row for each witness. *)
Inductive step_outcome (now : Z) (e : Engine) : Engine -> bool -> Prop :=
| step_idle :
    st_IndexedSeq (state e) = zlen (entries e) -> dueAt now e (nextIndexed e) = false ->
    step_outcome now e e false
| step_index :
    st_IndexedSeq (state e) < nextIndexed e -> dueAt now e (nextIndexed e) = false ->
    step_outcome now e (withState e (indexedNext e)) true
| step_checkpoint statement r :
    dueAt now e (nextIndexed e) = true ->
    ParseRecord statement = Ok r ->
    payloadOf r = draftPayload config (entries e) (lastCheckpointed (state e)) (nextIndexed e) now ->
    r_NewPeaks r = logPeaks (prefix (values (entries e)) (nextIndexed e)) ->
    r_ConsistencyProof r = draftProof (entries e) (lastCheckpointed (state e)) (nextIndexed e) ->
    step_outcome now e
      (withState e (withCheckpoint config now (indexedNext e) statement
                      (logPeaks (prefix (values (entries e)) (nextIndexed e))))) true.

Lemma outcome_entries (now : Z) (e e' : Engine) (b : bool) : step_outcome now e e' b -> entries e' = entries e.
Proof. by intros []. Qed.

End Outcome.

Section Calm.
Context {S Env E : Type} `{BL : BackendLaws S Env} `{!DtMmrLaws DT} `{CB : Cbor} `{CS : Cose}
  `{SG : Signer E} `{!SignerLaws E}.
Variable config : RunnerConfig.

Abbreviation indexes := (RunnerSpec.indexes config).
Abbreviation sound := (RunnerSpec.sound config).
Abbreviation holds := (RunnerRely.holds config).
Abbreviation step_outcome := (RunnerCalm.step_outcome config).
Abbreviation nextIndexed := (RunnerCalm.nextIndexed config).
Abbreviation dueAt := (RunnerCalm.dueAt config).

(** Nobody else moves the store, and it answers as its engine. *)
Record calm (t : Turn S Env E) : Prop := {
  calm_others s : t_others t s = s;
  calm_load s e : represents s e -> b_LoadCLL s (t_env t) = Ok (LoadState e);
  calm_scan s e afterSeq limit :
    represents s e -> b_ScanEntries s (t_env t) afterSeq limit = ScanEntries e afterSeq limit;
  calm_commit s e size checkpoint next :
    represents s e -> storable size next ->
    represents (fst (b_CommitCLL s (t_env t) size checkpoint next)) (fst (CommitCLL e size checkpoint next)) /\
    snd (b_CommitCLL s (t_env t) size checkpoint next) = snd (CommitCLL e size checkpoint next)
}.

Variable turns : nat -> Turn S Env E.
Hypothesis calm_turns : forall k, calm (turns k).
Hypothesis config_valid : config_ok config.

(** Every checkpoint of the log has a text, and the signer signs it. *)
Definition signs (es : list Entry) (now : Z) : Prop :=
  forall k last m, 0 <= last < m -> m <= zlen es ->
    exists draft statement, draftOf config es last m now = Ok draft /\
      signer_SignCheckpoint (t_sign (turns k)) (d_body draft) (d_peaks draft) (d_prevPeaks draft) (d_proof draft) =
        Ok statement.

Abbreviation arrive := (Runner.arrive turns).

Lemma arrive_calm (w : World) : fst (arrive w) = fst w.
Proof. apply (calm_others _ (calm_turns (snd w))). Qed.

Lemma calm_rely (k : nat) (s : S) : RunnerProofs.keeps config s (t_others (turns k) s).
Proof. by rewrite (calm_others _ (calm_turns k)). Qed.

(** What the runner holds is the state of the store. *)
Definition fresh (current : runnerState) (e : Engine) : Prop := holds current e /\ rs_state current = state e.

Lemma load_calm (w : World) (e : Engine) :
  represents (fst w) e -> sound e ->
  exists current, loadRunnerState turns config w = (arrive w, Ok current) /\ fresh current e.
Proof.
  intros Hr Hs. unfold loadRunnerState, turnOf. rewrite arrive_calm, (calm_load _ (calm_turns (snd w)) _ _ Hr).
  cbn [mbind result_bind]. unfold LoadState. rewrite CloneState_id.
  destruct (restore_indexes config (entries e) (state e) (sound_indexes _ _ Hs)) as (current & -> & Hst & Hcur).
  exists current. split; [done|]. split; [|done]. split; [done|]. rewrite Hst. split; lia.
Qed.

(** A commit of a valid extension of the stored state. *)
Lemma commit_calm (w : World) (e : Engine) (next : State) (extra : list WitnessState) (tree : Mmr.Tree)
    (previous : Record_) (current : runnerState) :
  represents (fst w) e -> sound e -> state_wf next -> append_only (state e) next ->
  checkpoint_le (st_Checkpoint (state e)) (st_Checkpoint next) ->
  st_Witnesses next = st_Witnesses (state e) ++ extra ->
  current_ok config (entries e) (MkRunnerState next tree previous) ->
  let out := commitNext turns w (state e) next tree previous current in
  snd out = Ok true /\ represents (fst (fst (fst out))) (withState e next) /\ sound (withState e next) /\
  fresh (snd (fst out)) (withState e next).
Proof.
  intros Hr Hs Hwf Ha Hc Hrows Hcur out. subst out. unfold commitNext.
  pose proof (commit_accepted config e next extra Hs Hwf Ha Hc Hrows) as Hcommit.
  destruct (indexes_storable config _ _ (cu_indexes _ _ _ Hcur)) as [_ Hstor]. cbn [rs_state] in Hstor.
  destruct (indexes_storable config _ _ (sound_indexes _ _ Hs)) as [Hu _].
  destruct (calm_commit _ (calm_turns (snd w)) (fst (arrive w)) e (st_Size (state e))
    (cpt_Bytes <$> st_Checkpoint (state e)) next) as [Hr' Hout];
    [by rewrite arrive_calm|by apply law_storable|]. unfold turnOf.
  destruct (b_CommitCLL _ _ _ _ _) as [s r]. cbn [fst snd] in *. rewrite Hcommit in Hr', Hout. cbn [fst snd] in *.
  rewrite Hout. cbn [fst snd].
  destruct (CommitCLL_sound config e (st_Size (state e)) (cpt_Bytes <$> st_Checkpoint (state e)) next Hs
    (cu_indexes _ _ _ Hcur)) as (Hs' & _ & _). rewrite Hcommit in Hs'.
  split_and!; [done|done|done|]. split; [|done]. split; [done|]. split; apply Z.le_refl.
Qed.

Lemma statement_length (statement : bytes) (r : Record_) :
  ParseRecord statement = Ok r -> 1 <= zlen statement <= MaxCheckpointBytes.
Proof.
  intros Hr%ParseRecord_ok. destruct (rok_statement _ _ Hr) as [_ Hl]. unfold MaxEncodedBytes, MaxCheckpointBytes in *. lia.
Qed.

Lemma finish_calm (w : World) (e : Engine) (tree0 : Mmr.Tree) (previous : Record_) (now : Z) :
  let m := nextIndexed e in
  let out := finishStep turns config w now (MkRunnerState (state e) (treeOf (prefix (values (entries e)) m)) previous)
               (m - st_IndexedSeq (state e)) m (pendingSince (entries e) (lastCheckpointed (state e)) m) in
  represents (fst w) e -> sound e -> current_ok config (entries e) (MkRunnerState (state e) tree0 previous) ->
  badTime now = false -> signs (entries e) now ->
  exists e' b, snd out = Ok b /\ represents (fst (fst (fst out))) e' /\ step_outcome now e e' b /\ sound e' /\
    (b = true -> fresh (snd (fst out)) e').
Proof.
  intros m out Hr Hs Hcur Hnow Hsig. subst out. pose proof Hs as [Hok Hi].
  pose proof (sound_dense config e Hs) as Hd. pose proof (ix_range _ _ _ Hi) as Hidx.
  pose proof (last_range _ _ _ Hi) as Hlast. pose proof (cfg_limit _ config_valid) as Hlim.
  assert (st_IndexedSeq (state e) <= m <= zlen (entries e)) as Hm by (unfold m, RunnerCalm.nextIndexed; lia).
  pose proof (prefix_commits (entries e) m Hd ltac:(lia)) as Ht.
  unfold finishStep. cbn [rs_state rs_tree rs_previous].
  match goal with |- context [MkState ?a ?b ?c ?d ?f ?g] =>
    change (MkState a b c d f g) with (indexedNext config e) end.
  destruct (isDue config now (state e) m _) eqn:Hdue; unfold nextState.
  - pose proof Hdue as Hpend. apply due_pending, pendingSince_Some in Hpend; [|lia|lia].
    destruct (Hsig (snd w) (lastCheckpointed (state e)) m ltac:(lia) ltac:(lia)) as (draft & statement & Hdraft & Hsign).
    pose proof (draft_ok config (entries e) (MkRunnerState (state e) tree0 previous) _ m now Hd Hcur Ht
      ltac:(cbn [rs_state]; lia)) as Heq. cbn [rs_state rs_previous] in Heq. rewrite Heq, Hdraft.
    unfold turnOf. rewrite Hsign. cbn [mbind result_bind]. rewrite andb_false_r.
    unfold draftOf in Hdraft. destruct (CanonicalJSON _) as [body|] eqn:Hbody; [|done]. cbn [mbind result_bind] in Hdraft.
    injection Hdraft as <-. cbn [d_body d_peaks d_prevPeaks d_proof d_payload] in *.
    pose proof (due_next config (entries e) (state e) _ tree0 previous _ m now body statement _ Hcur Ht Hm Hpend Hbody Hsign)
      as Hnext.
    destruct (indexed_size _ _ _ (indexedState_indexes config (entries e) (state e) _ m Hi Ht Hm)) as [_ Hmax].
    cbn [indexedState st_IndexedSeq] in Hmax.
    destruct (signed_good config _ (entries e) (lastCheckpointed (state e)) m now body statement _ ltac:(lia) ltac:(lia) Hmax
      Hbody Hsign) as (_ & r & Hparse & Hpay & Hproof).
    destruct (law_SignCheckpoint _ _ _ _ _ _ Hsign) as (r' & Hparse' & _ & Hpeaks & _).
    assert (r' = r) as -> by congruence.
    destruct (withCheckpoint_wf config config_valid (entries e) (state e) m now statement Hd (ok_state _ Hok) Hi Hm Hpend
      (statement_length _ _ Hparse) Hnow) as (Hwf & Ha & Hc).
    destruct (commit_calm (arrive w) e _ _ (treeOf (prefix (values (entries e)) m)) _
      (MkRunnerState (state e) (treeOf (prefix (values (entries e)) m)) previous)
      ltac:(by rewrite arrive_calm) Hs Hwf Ha Hc eq_refl Hnext) as (Hout & Hrep & Hsound & Hfresh).
    eexists _, true. split_and!; [exact Hout|exact Hrep| |exact Hsound|done].
    by apply (step_checkpoint config now e statement r).
  - rewrite andb_true_r. destruct (Z.eqb_spec (m - st_IndexedSeq (state e)) 0) as [H0|H0].
    + exists e, false. split_and!; try done. apply step_idle; [|done]. unfold m, RunnerCalm.nextIndexed in H0. lia.
    + destruct (indexedState_wf config (entries e) (state e) m Hd (ok_state _ Hok) Hi Hm) as [Hwf Ha].
      destruct (commit_calm w e (indexedNext config e) [] (treeOf (prefix (values (entries e)) m)) previous
        (MkRunnerState (state e) (treeOf (prefix (values (entries e)) m)) previous) Hr Hs Hwf Ha ltac:(done)
        ltac:(by rewrite app_nil_r)) as (Hout & Hrep & Hsound & Hfresh).
      { split; cbn [rs_state rs_tree rs_previous]; [by apply indexedState_indexes|apply eq_sym, Nodes_id|].
        apply (cu_previous _ _ _ Hcur). }
      eexists _, true. split_and!; [exact Hout|exact Hrep| |exact Hsound|done].
      apply step_index; [|done]. change (nextIndexed e) with m. lia.
Qed.

Lemma advance_calm (w : World) (e : Engine) (now : Z) (current : runnerState) :
  let out := advanceOnce turns config w now current in
  represents (fst w) e -> sound e -> fresh current e -> badTime now = false -> signs (entries e) now ->
  exists e' b, snd out = Ok b /\ represents (fst (fst (fst out))) e' /\ step_outcome now e e' b /\ sound e' /\
    (b = true -> fresh (snd (fst out)) e').
Proof.
  intros out Hr Hs [Hh Hst] Hnow Hsig. subst out. unfold advanceOnce, turnOf.
  rewrite (calm_scan _ (calm_turns (snd w)) _ e) by (by rewrite arrive_calm).
  destruct (scan_walk config (cfg_limit _ config_valid) e current Hs Hh) as (page & tree & -> & Hlen & Hwalk & Ht & Hm).
  rewrite Hwalk, Hlen. pose proof (sound_dense config e Hs) as Hd. destruct Hh as [Hcur _].
  pose proof (ix_range _ _ _ (sound_indexes _ _ Hs)) as Hidx.
  destruct current as [st tree0 previous]. cbn [rs_state rs_tree rs_previous] in *. subst st.
  pose proof (prefix_commits (entries e) (nextIndexed e) Hd ltac:(unfold RunnerCalm.nextIndexed; lia)) as Hc.
  rewrite <- (commits_unique _ _ _ Hc Ht).
  apply (finish_calm (arrive w) e tree0 previous now); try done. by rewrite arrive_calm.
Qed.

(** ** Whole calls *)

Lemma outcome_progress (now : Z) (e e' : Engine) :
  sound e -> step_outcome now e e' true -> progress (state e) (state e').
Proof.
  intros Hs Hout. pose proof (sound_indexes _ _ Hs) as Hi. pose proof (ix_range _ _ _ Hi) as Hidx.
  pose proof (cfg_limit _ config_valid). pose proof (last_range _ _ _ Hi).
  inversion Hout as [|Hlt ? Heq|statement r Hdue ? ? ? ? Heq]; subst; clear Hout.
  - by left.
  - unfold progress. cbn [withState state withCheckpoint indexedNext indexedState st_IndexedSeq st_FirstPendingAt].
    destruct (Z.eq_dec (st_IndexedSeq (state e)) (nextIndexed e)) as [Heq|Hne]; [right|left].
    + split_and!; [done| |done]. rewrite (ix_pending _ _ _ Hi). apply pendingSince_Some; [lia|lia|].
      apply due_pending, pendingSince_Some in Hdue; unfold RunnerCalm.nextIndexed in *; lia.
    + unfold RunnerCalm.nextIndexed in *. lia.
Qed.

(** What is left for a runner to do. *)
Definition remaining (e : Engine) : Z :=
  2 * (zlen (entries e) - st_IndexedSeq (state e)) + pendingWeight (state e).

Lemma progress_remaining (e e' : Engine) :
  entries e' = entries e -> progress (state e) (state e') -> remaining e' < remaining e.
Proof.
  intros He [Hlt|(Heq & [t Hp] & Hn)]; unfold remaining; rewrite He.
  - pose proof (pendingWeight_range (state e)). pose proof (pendingWeight_range (state e')). lia.
  - unfold pendingWeight. rewrite Hp, Hn. lia.
Qed.

Definition advances (now : Z) (e e' : Engine) : Prop := step_outcome now e e' true.

Lemma catchUpLoop_calm (fuel : nat) (w : World) (e : Engine) (now : Z) (reloaded : bool) (current : runnerState) :
  represents (fst w) e -> sound e -> fresh current e -> badTime now = false -> signs (entries e) now ->
  remaining e < Z.of_nat fuel ->
  exists w' e', Runner.catchUpLoop turns config fuel w now reloaded current = Some (w', Ok tt) /\
    represents (fst w') e' /\ sound e' /\ rtc (advances now) e e' /\ step_outcome now e' e' false.
Proof.
  revert w e reloaded current. induction fuel as [|fuel IH]; intros w e reloaded current Hr Hs Hf Hnow Hsig Hfuel.
  { exfalso. pose proof (ix_range _ _ _ (sound_indexes _ _ Hs)). pose proof (pendingWeight_range (state e)).
    unfold remaining in Hfuel. lia. }
  cbn [Runner.catchUpLoop]. pose proof (advance_calm w e now current Hr Hs Hf Hnow Hsig) as Hadv. cbv zeta in Hadv.
  destruct (advanceOnce turns config w now current) as [[w1 cur] r]. cbn [fst snd] in Hadv.
  destruct Hadv as (e1 & b & -> & Hr1 & Hout & Hs1 & Hf1). destruct b.
  - pose proof (outcome_entries config now e e1 true Hout) as Hes.
    pose proof (progress_remaining e e1 Hes (outcome_progress now e e1 Hs Hout)) as Hlt.
    destruct (IH w1 e1 false cur Hr1 Hs1 (Hf1 eq_refl) Hnow ltac:(by rewrite Hes) ltac:(lia))
      as (w' & e' & Hloop & Hr' & Hs' & Hrtc & Hidle).
    exists w', e'. split_and!; [exact Hloop|done|done| |done]. by eapply rtc_l.
  - assert (e1 = e) as -> by by inversion Hout. exists w1, e. split_and!; try done.
Qed.

Lemma RunOnce_calm (w : World) (e : Engine) (now t : Z) :
  represents (fst w) e -> sound e -> normalizeRunnerTime now = Ok t -> signs (entries e) t ->
  exists e' b, snd (Runner.RunOnce turns config w now) = Ok b /\
    represents (fst (fst (Runner.RunOnce turns config w now))) e' /\ sound e' /\ step_outcome t e e' b.
Proof.
  intros Hr Hs Ht Hsig. assert (badTime t = false) as Hbad.
  { unfold normalizeRunnerTime in Ht. destruct (badTime (NormalizeTime now)) eqn:Hb; [done|]. by injection Ht as <-. }
  unfold Runner.RunOnce. rewrite Ht. destruct (load_calm w e Hr Hs) as (current & -> & Hf).
  pose proof (advance_calm (arrive w) e t current ltac:(by rewrite arrive_calm) Hs Hf Hbad Hsig) as Hadv. cbv zeta in Hadv.
  destruct (advanceOnce turns config (arrive w) t current) as [[w1 cur] r]. cbn [fst snd] in Hadv |- *.
  destruct Hadv as (e1 & b & -> & Hr1 & Hout & Hs1 & _). by exists e1, b.
Qed.

Lemma catchUp_calm (fuel : nat) (w : World) (e : Engine) (now t : Z) :
  represents (fst w) e -> sound e -> normalizeRunnerTime now = Ok t -> signs (entries e) t ->
  remaining e < Z.of_nat fuel ->
  exists w' e', Runner.catchUp turns config fuel w now = Some (w', Ok tt) /\
    represents (fst w') e' /\ sound e' /\ rtc (advances t) e e' /\ step_outcome t e' e' false.
Proof.
  intros Hr Hs Ht Hsig Hfuel. assert (badTime t = false) as Hbad.
  { unfold normalizeRunnerTime in Ht. destruct (badTime (NormalizeTime now)) eqn:Hb; [done|]. by injection Ht as <-. }
  unfold Runner.catchUp. rewrite Ht. destruct (load_calm w e Hr Hs) as (current & -> & Hf).
  apply catchUpLoop_calm; try done. by rewrite arrive_calm.
Qed.

Lemma advances_entries (now : Z) (e e' : Engine) : rtc (advances now) e e' -> entries e' = entries e.
Proof.
  induction 1 as [e|e e1 e2 Hstep _ IH]; [done|]. rewrite IH. by apply (outcome_entries config now e e1 true).
Qed.

End Calm.

End RunnerCalm.
