(* ===== verification/RunnerClaims.v ===== *)
(** * What the runner promises

    The runner and everyone else who uses the store politely keep it sound;
    a call does one of three things; catching up stops whatever the others do
    and finishes when they do nothing; and a stored history that was rewritten
    under a signed checkpoint is refused.  Each is tried on a store in memory
    with the reference implementations. *)

From stdpp Require Import relations.
From S2P Require Import Prelude Sha256 Geometry DtMmr DtMmrRef Hex Mmr MmrBuild MmrBinding MmrNodes Cll Portable.
From S2P Require Import Engine EngineLog EngineState EngineHistory EngineWitness WireProofs JournalProofs.
From S2P Require Import JournalText JsonlReplay Backend Memory Rfc3339 Codec CodecRef Checkpoint.
From S2P Require Import CheckpointPayload CheckpointRecord CheckpointClaims Runner RunnerSpec RunnerStep.
From S2P Require Import RunnerProofs RunnerRely RunnerCalm.
Import Geometry MmrBuild Cll Portable Rfc3339 Checkpoint CheckpointPayload CheckpointRecord Runner RunnerStep.
Import MmrBinding MmrNodes Engine EngineLog EngineState EngineHistory WireProofs JournalProofs JournalText.
Import JsonlReplay Backend Memory CodecRef CheckpointClaims RunnerSpec RunnerProofs RunnerRely RunnerCalm.

Module RunnerClaims.

Local Open Scope Z_scope.

(** ** What a runner accepts when it loads

    A stored state is trusted only under the runner's own signature: its node
    list is a well-formed tree of the stated size, and its checkpoint carries
    the peaks of that tree and a statement the signer accepts. *)

Section Load.
Context {E : Type} `{SG : Signer E} `{DT : DtMmr} `{!DtMmrLaws DT} `{CB : Cbor} `{CS : Cose}.
Variable config : RunnerConfig.

(** A checkpoint the runner trusts: its size is that of a number of leaves
    within the tree, its peaks are the tree's, and its statement was signed for
    this log with this key and says so. *)
Record trusted (state : State) (tree : Mmr.Tree) (c : CheckpointState) (r : Record_) : Prop := {
  tr_size : cpt_Size c = mmr_size (cpt_IndexedSeq c) /\ 0 <= cpt_IndexedSeq c <= st_IndexedSeq state;
  tr_peaks : Mmr.PeakHashesAt tree (cpt_Size c) = Ok (cpt_Peaks c);
  tr_record : ParseRecord (cpt_Bytes c) = Ok r;
  tr_names : r_LogID r = LogID config /\ r_KeyID r = signer_KeyID;
  tr_signed : r_MMRSize r = cpt_Size c /\ r_NewPeaks r = cpt_Peaks c /\
    r_Root r = Hex.EncodeToString (Mmr.RootFromPeaks (cpt_Peaks c));
  tr_verified : exists body, CanonicalJSON (payloadOf r) = Ok body /\
    signer_VerifyCheckpoint body (cpt_Bytes c) = Ok tt
}.

Lemma LeafCount_inv (size leaves : Z) :
  0 <= size -> Mmr.LeafCount size = (leaves, true) -> size = mmr_size leaves /\ 0 <= leaves <= max_leaves.
Proof.
  intros Hs Hl. assert (Mmr.validMMRSize size = true) as Hv.
  { unfold Mmr.LeafCount in Hl. by destruct (Mmr.validMMRSize size). }
  apply validMMRSize_iff in Hv as (n & Hn & ->); [|done]. rewrite LeafCount_complete in Hl by done.
  by injection Hl as <-.
Qed.

Lemma verifyCheckpoint_Ok (state : State) (tree : Mmr.Tree) (c : CheckpointState) (r : Record_) :
  st_Checkpoint state = Some c -> 0 <= cpt_Size c -> verifyCheckpoint config state tree = Ok r -> trusted state tree c r.
Proof.
  intros Hc Hz. unfold verifyCheckpoint. rewrite Hc.
  destruct (Mmr.LeafCount (cpt_Size c)) as [leaves ok] eqn:Hl.
  match goal with |- context [if ?b then Err ErrCorrupt else _] => destruct b eqn:Hb; [done|] end. gobool. subst leaves.
  destruct (Mmr.PeakHashesAt tree (cpt_Size c)) as [peaks|] eqn:Hpk; [|done].
  destruct (samePeaks peaks (cpt_Peaks c)) eqn:Hsame; cbn [negb]; [|done]. apply samePeaks_eq in Hsame as ->.
  destruct (ParseRecord (cpt_Bytes c)) as [r'|] eqn:Hr; [|done].
  match goal with |- context [if ?b then Err ErrCorrupt else _] => destruct b eqn:Hb2; [done|] end. gobool.
  unfold treeRootAt. rewrite Hpk. cbn [mbind result_bind].
  match goal with |- context [if ?b then Err ErrCorrupt else _] => destruct b eqn:Hb3; [done|] end. gobool.
  destruct (CanonicalJSON (payloadOf r')) as [body|] eqn:Hbody; [|done].
  destruct (signer_VerifyCheckpoint body (cpt_Bytes c)) as [[]|] eqn:Hv; cbn [is_ok negb]; [|done].
  intros [= <-]. subst ok. apply LeafCount_inv in Hl as [Hs Hn]; [|done].
  split; try done; [by split; [|lia]| |by exists body]. split_and!; [done| |done]. by apply samePeaks_eq.
Qed.

Lemma restoreRunner_Ok (state : State) (current : runnerState) :
  restoreRunner config state = Ok current ->
  rs_state current = state /\ rs_tree current = Mmr.MkTree (st_Nodes state) /\
  tree_wf (rs_tree current) (st_IndexedSeq state) /\ st_Size state = mmr_size (st_IndexedSeq state) /\
  forall c, st_Checkpoint state = Some c -> 0 <= cpt_Size c -> trusted state (rs_tree current) c (rs_previous current).
Proof.
  unfold restoreRunner. destruct (Mmr.New (st_Nodes state)) as [tree|] eqn:Hnew; [|done].
  apply New_accepts in Hnew as [-> [n Hwf]].
  pose proof (MmrBuild.wf_leaves _ _ Hwf) as Hn. unfold Mmr.Size. rewrite (MmrBuild.wf_size _ _ Hwf), LeafCount_complete by done.
  match goal with |- context [if ?b then Err ErrCorrupt else _] => destruct b eqn:Hb; [done|] end. gobool.
  destruct (verifyCheckpoint config state _) as [previous|] eqn:Hv; cbn [mbind result_bind]; [|done].
  intros [= <-]. cbn [rs_state rs_tree rs_previous]. subst n. split_and!; try done.
  intros c Hc Hz. by apply verifyCheckpoint_Ok.
Qed.

End Load.

Section Claims.
Context {S Env E : Type} `{BL : BackendLaws S Env} `{!DtMmrLaws DT} `{CB : Cbor} `{CS : Cose}
  `{SG : Signer E} `{!SignerLaws E}.
Variable config : RunnerConfig.
Variable turns : nat -> Turn S Env E.

Abbreviation sound := (RunnerSpec.sound config).
Abbreviation keeps := (RunnerProofs.keeps config).
Abbreviation reaches := (RunnerProofs.reaches config).

(** C25: over any backend, from a store whose state indexes its log, every call
    of the runner, every round of catching up and every run of the host loop
    leave such a store or a closed one, and what it represents only moves
    forward, provided the others keep the store in between; appending, recording a
    delivery and committing a state that indexes the log do. *)
Theorem runner_keeps_the_log (w : World) (e : Engine) :
  (forall k s, keeps s (t_others (turns k) s)) -> 1 <= ScanLimit config <= MaxScanLimit ->
  represents (fst w) e -> sound e ->
  (forall now, reaches e (fun _ => True) (fst (fst (RunOnce turns config w now)))) /\
  (forall fuel now w' r, catchUp turns config fuel w now = Some (w', r) -> reaches e (fun _ => True) (fst w')) /\
  (forall rounds fuel clock wakes w' err,
     Run turns config rounds fuel clock wakes 0 w = Some (w', err) -> reaches e (fun _ => True) (fst w')) /\
  (forall s c, polite config s c -> keeps s (call s c)).
Proof.
  intros Hrely Hlim Hr Hs. split_and!.
  - intros now. by apply (keeps_sound _ _ _ (RunOnce_keeps config turns Hrely Hlim w now)).
  - intros fuel now w' r Hc. by apply (keeps_sound _ _ _ (catchUp_keeps config turns Hrely Hlim _ _ _ _ _ Hc)).
  - intros rounds fuel clock wakes w' err Hrun.
    by apply (keeps_sound _ _ _ (Run_keeps config turns Hrely Hlim _ _ _ _ _ _ _ _ Hrun)).
  - intros s c. apply call_keeps.
Qed.

(** [catchUp] stops: whatever the others do that keeps the store, however
    often they win the race for a commit, some number of rounds is enough. *)
Lemma catch_up_stops (w : World) (now : Z) :
  (forall k s, keeps s (t_others (turns k) s)) -> 1 <= ScanLimit config <= MaxScanLimit ->
  shut (fst w) \/ (exists e, represents (fst w) e /\ sound e) ->
  exists fuel, forall fuel', (fuel <= fuel')%nat -> is_Some (catchUp turns config fuel' w now).
Proof. intros Hrely Hlim. by apply catchUp_stops. Qed.

(** C26: when nobody else moves the store and every call is served, [RunOnce]
    on a store whose state indexes its log succeeds, and does one of three
    things: nothing, when the whole log is indexed and no checkpoint is due; a
    page of entries is indexed; or it is indexed and a checkpoint is signed over
    it, whose statement carries the payload, peaks and proof of the log, with
    one undelivered row for each witness. *)
Theorem run_once_outcome (w : World) (e : Engine) (now t : Z) :
  NewRunner config = Ok config -> (forall k, calm (turns k)) ->
  represents (fst w) e -> sound e -> normalizeRunnerTime now = Ok t -> signs config turns (entries e) t ->
  exists e' b, snd (RunOnce turns config w now) = Ok b /\
    represents (fst (fst (RunOnce turns config w now))) e' /\ sound e' /\ step_outcome config t e e' b.
Proof. intros [_ Hc]%NewRunner_Ok Hcalm. by apply RunOnce_calm. Qed.

(** C27: when nobody else moves the store and every call is served, [catchUp]
    finishes within twice the unindexed entries and one more round, by steps of
    [RunOnce]: then the whole log is indexed, no entry was changed, and no
    checkpoint is due. *)
Theorem catch_up_finishes (fuel : nat) (w : World) (e : Engine) (now t : Z) :
  NewRunner config = Ok config -> (forall k, calm (turns k)) ->
  represents (fst w) e -> sound e -> normalizeRunnerTime now = Ok t -> signs config turns (entries e) t ->
  remaining e < Z.of_nat fuel ->
  exists w' e', catchUp turns config fuel w now = Some (w', Ok tt) /\
    represents (fst w') e' /\ sound e' /\ rtc (advances config t) e e' /\
    entries e' = entries e /\ st_IndexedSeq (state e') = zlen (entries e) /\
    dueAt config t e' (zlen (entries e)) = false.
Proof.
  intros [_ Hc]%NewRunner_Ok Hcalm Hr Hs Ht Hsig Hf.
  destruct (catchUp_calm config turns Hcalm Hc fuel w e now t Hr Hs Ht Hsig Hf) as (w' & e' & H1 & H2 & H3 & H4 & H5).
  pose proof (advances_entries config t e e' H4) as Hes. exists w', e'. split_and!; try done.
  - inversion H5. congruence.
  - inversion H5 as [Hall Hdue| |]. rewrite <- Hes. unfold nextIndexed in Hdue. rewrite Hall in Hdue.
    pose proof (cfg_limit _ Hc). by rewrite Z.min_r in Hdue by lia.
Qed.

(** C28: a state is loaded only if its nodes are a well-formed tree of its
    size and its checkpoint is signed for this log with this key and carries the
    peaks of that tree; so of two states loaded with the same signed statement,
    the checkpoints and all the nodes below them are the same, or the messages
    hashed into the interior nodes contain a SHA-256 collision. *)
Theorem rewritten_history_is_refused (s1 s2 : State) (cur1 cur2 : runnerState) (c1 c2 : CheckpointState) :
  restoreRunner config s1 = Ok cur1 -> restoreRunner config s2 = Ok cur2 ->
  st_Checkpoint s1 = Some c1 -> st_Checkpoint s2 = Some c2 -> 0 <= cpt_Size c1 -> 0 <= cpt_Size c2 ->
  trusted config s1 (rs_tree cur1) c1 (rs_previous cur1) /\ tree_wf (rs_tree cur1) (st_IndexedSeq s1) /\
  (cpt_Bytes c1 = cpt_Bytes c2 ->
   c1 = c2 /\
   (take (Z.to_nat (cpt_Size c1)) (st_Nodes s1) = take (Z.to_nat (cpt_Size c2)) (st_Nodes s2) \/
    collision (nodeMsgs (st_Nodes s1)) (nodeMsgs (st_Nodes s2)))).
Proof.
  intros (_ & Ht1 & Hw1 & _ & Hc1)%restoreRunner_Ok (_ & Ht2 & Hw2 & _ & Hc2)%restoreRunner_Ok H1 H2 Hz1 Hz2.
  specialize (Hc1 c1 H1 Hz1). specialize (Hc2 c2 H2 Hz2). split; [done|]. split; [done|]. intros Heq.
  destruct Hc1 as [[Hs1 Hi1] Hp1 Hr1 _ (Hm1 & Hn1 & _) _], Hc2 as [[Hs2 Hi2] Hp2 Hr2 _ (Hm2 & Hn2 & _) _].
  assert (rs_previous cur2 = rs_previous cur1) as Hrr by congruence. rewrite Hrr in Hm2, Hn2.
  assert (cpt_Size c1 = cpt_Size c2) as Hsz by congruence.
  assert (cpt_IndexedSeq c1 = cpt_IndexedSeq c2) as Hseq by (apply mmr_size_inj; [lia|lia|congruence]).
  assert (c1 = c2) as <- by (destruct c1, c2; cbn [cpt_Bytes cpt_Size cpt_IndexedSeq cpt_Peaks] in *; congruence).
  split; [done|]. rewrite Hs1 in Hp1, Hp2 |- *. rewrite Ht1, Ht2 in *.
  apply (peaks_bind (Mmr.MkTree (st_Nodes s1)) (Mmr.MkTree (st_Nodes s2)) _ _ _ Hw1 Hw2); [lia|lia|congruence].
Qed.

End Claims.

(** ** A store in memory *)

Import Ref.

Definition runnerConfig : RunnerConfig :=
  MkRunnerConfig "log" (MkConfig 2 (900 * Second)) 2 (60 * Second) ["https://witness.example"%string].

#[export] Instance sampleRunnerSigner : Signer check := ed25519_signer (DT := dt_reference) sampleSigner.

#[export] Instance sampleRunnerSigner_laws : SignerLaws check (DT := dt_reference).
Proof. apply ed25519_signer_laws. Qed.

(** Three entries, none of them indexed. *)
Definition runnerEngine : Engine := perform (DT := dt_reference) sampleEngine (OpAppend (sampleInput Byte.x03)).
Definition runnerWorld : World (S := Store) := (MkStore runnerEngine false, 0%nat).
Definition runnerNow : Z := 1700000001000000000.

Definition calmTurns (k : nat) : Turn Store check check := MkTurn (fun s => s) (Ok tt) (Ok tt).

(** Others append between any two calls. *)
Definition busyTurns (k : nat) : Turn Store check check :=
  MkTurn (fun s => call s (CallAppend (Ok tt) (sampleInput Byte.x05))) (Ok tt) (Ok tt).

Lemma runnerEngine_ok : engine_ok (DT := dt_reference) runnerEngine.
Proof. exact (proj1 (perform_step (DT := dt_reference) sampleEngine (OpAppend (sampleInput Byte.x03)) sampleEngine_ok I)). Qed.

Lemma runnerEngine_sound (config : RunnerConfig) : RunnerSpec.sound (DT := dt_reference) config runnerEngine.
Proof.
  split; [apply runnerEngine_ok|]. split.
  - vm_compute. split; congruence.
  - apply empty_commits.
  - done.
  - done.
  - done.
  - constructor.
Qed.

Lemma runner_represented : represents (DT := dt_reference) (fst runnerWorld) runnerEngine.
Proof. split; [done|apply runnerEngine_ok]. Qed.

Lemma calmTurns_calm (k : nat) : calm (DT := dt_reference) (calmTurns k).
Proof.
  split.
  - done.
  - intros s e [-> _]. done.
  - intros s e afterSeq limit [-> _]. done.
  - intros s e size checkpoint next [-> He] _. cbn [b_CommitCLL memory_backend calmTurns t_env]. unfold CommitCLL.
    cbn [closed engine]. pose proof (CommitCLL_step (DT := dt_reference) e size checkpoint next He) as [He' _].
    destruct (Engine.CommitCLL e size checkpoint next) as [e' r]. cbn [fst snd] in *. done.
Qed.

Lemma busyTurns_keep (k : nat) (s : Store) :
  RunnerProofs.keeps (DT := dt_reference) runnerConfig s (t_others (busyTurns k) s).
Proof. apply (call_keeps (DT := dt_reference) runnerConfig s (CallAppend (Ok tt) (sampleInput Byte.x05))). done. Qed.

Definition signable (last m : Z) : bool :=
  match draftOf (DT := dt_reference) runnerConfig (entries runnerEngine) last m runnerNow with
  | Ok draft =>
      is_ok (SignCheckpoint (DT := dt_reference) sampleSigner (Ok tt) (d_body draft) (d_peaks draft)
               (d_prevPeaks draft) (d_proof draft))
  | Err _ => false
  end.

Lemma sample_signable (last m : Z) : 0 <= last < m -> m <= 3 -> signable last m = true.
Proof.
  intros H1 H2. assert (last = 0 \/ last = 1 \/ last = 2) as [ -> | [ -> | -> ]] by lia;
    assert (m = 1 \/ m = 2 \/ m = 3) as [ -> | [ -> | -> ]] by lia; first [exfalso; lia|vm_compute; reflexivity].
Qed.

Lemma sample_signs : signs (DT := dt_reference) runnerConfig calmTurns (entries runnerEngine) runnerNow.
Proof.
  intros k last m H1 H2. pose proof (sample_signable last m H1 H2) as Hs. unfold signable in Hs.
  destruct (draftOf _ _ _ _ _) as [draft|]; [|done]. exists draft.
  destruct (SignCheckpoint _ _ _ _ _ _) as [statement|] eqn:Hsign; [|done]. by exists statement.
Qed.

Abbreviation runnerRuns turns :=
  (Runner.RunOnce (DT := dt_reference) (SG := sampleRunnerSigner) turns runnerConfig runnerWorld runnerNow).

(** ** Witnesses *)

Lemma runner_keeps_the_log_witness :
  RunnerProofs.reaches (DT := dt_reference) runnerConfig runnerEngine (fun _ => True) (fst (fst (runnerRuns busyTurns))).
Proof.
  refine (proj1 (runner_keeps_the_log (DT := dt_reference) runnerConfig busyTurns runnerWorld runnerEngine
    busyTurns_keep _ runner_represented (runnerEngine_sound _)) runnerNow).
  vm_compute. split; congruence.
Defined.

Lemma run_once_outcome_witness :
  exists e' b, snd (runnerRuns calmTurns) = Ok b /\
    represents (DT := dt_reference) (fst (fst (runnerRuns calmTurns))) e' /\
    RunnerSpec.sound (DT := dt_reference) runnerConfig e' /\
    step_outcome (DT := dt_reference) runnerConfig runnerNow runnerEngine e' b.
Proof.
  refine (run_once_outcome (DT := dt_reference) runnerConfig calmTurns runnerWorld runnerEngine runnerNow runnerNow
    _ calmTurns_calm runner_represented (runnerEngine_sound _) _ sample_signs); vm_compute; reflexivity.
Defined.

Lemma catch_up_finishes_witness :
  exists w' e', catchUp (DT := dt_reference) calmTurns runnerConfig 7 runnerWorld runnerNow = Some (w', Ok tt) /\
    represents (DT := dt_reference) (fst w') e' /\ RunnerSpec.sound (DT := dt_reference) runnerConfig e' /\
    rtc (advances (DT := dt_reference) runnerConfig runnerNow) runnerEngine e' /\
    entries e' = entries runnerEngine /\ st_IndexedSeq (state e') = zlen (entries runnerEngine) /\
    dueAt runnerConfig runnerNow e' (zlen (entries runnerEngine)) = false.
Proof.
  refine (catch_up_finishes (DT := dt_reference) runnerConfig calmTurns 7 runnerWorld runnerEngine runnerNow runnerNow
    _ calmTurns_calm runner_represented (runnerEngine_sound _) _ sample_signs _); vm_compute; reflexivity.
Defined.

(** The states after one call and after the whole log is indexed. *)
Definition indexedTwo : State := state (engine (fst (fst (runnerRuns calmTurns)))).
Definition indexedAll : State :=
  match catchUp (DT := dt_reference) calmTurns runnerConfig 7 runnerWorld runnerNow with
  | Some (w, _) => state (engine (fst w))
  | None => emptyState
  end.

Definition loaded (st : State) : runnerState :=
  okOr (MkRunnerState emptyState (Mmr.MkTree []) (rootRecord "")) (restoreRunner (DT := dt_reference) runnerConfig st).

Definition checkpointOf (st : State) : CheckpointState := default (MkCheckpoint [] 0 0 []) (st_Checkpoint st).

Lemma rewritten_history_is_refused_witness :
  let c1 := checkpointOf indexedTwo in
  let c2 := checkpointOf indexedAll in
  trusted (DT := dt_reference) runnerConfig indexedTwo (rs_tree (loaded indexedTwo)) c1 (rs_previous (loaded indexedTwo)) /\
  c1 = c2 /\
  (take (Z.to_nat (cpt_Size c1)) (st_Nodes indexedTwo) = take (Z.to_nat (cpt_Size c2)) (st_Nodes indexedAll) \/
   collision (nodeMsgs (DT := dt_reference) (st_Nodes indexedTwo)) (nodeMsgs (DT := dt_reference) (st_Nodes indexedAll))).
Proof.
  cbv zeta.
  assert (restoreRunner (DT := dt_reference) runnerConfig indexedTwo = Ok (loaded indexedTwo)) as H1
    by (vm_compute; reflexivity).
  assert (restoreRunner (DT := dt_reference) runnerConfig indexedAll = Ok (loaded indexedAll)) as H2
    by (vm_compute; reflexivity).
  assert (st_Checkpoint indexedTwo = Some (checkpointOf indexedTwo)) as Hc1 by (vm_compute; reflexivity).
  assert (st_Checkpoint indexedAll = Some (checkpointOf indexedAll)) as Hc2 by (vm_compute; reflexivity).
  assert (0 <= cpt_Size (checkpointOf indexedTwo)) as Hz1 by (vm_compute; congruence).
  assert (0 <= cpt_Size (checkpointOf indexedAll)) as Hz2 by (vm_compute; congruence).
  assert (cpt_Bytes (checkpointOf indexedTwo) = cpt_Bytes (checkpointOf indexedAll)) as Hb by (vm_compute; reflexivity).
  destruct (rewritten_history_is_refused (DT := dt_reference) runnerConfig _ _ _ _ _ _ H1 H2 Hc1 Hc2 Hz1 Hz2)
    as (Ht & _ & H). exact (conj Ht (H Hb)).
Defined.

End RunnerClaims.
