(* ===== verification/Client.v ===== *)
(** * The witness client: [src/witness/client.go]

    One submission of a signed checkpoint, as a function of the statement and of
    the HTTP exchange: the outcome of making the request, of sending it and of
    reading the response. *)

From S2P Require Import Prelude Hex Text Base64 Utf8 Json DtMmr Mmr Cll Portable Engine Journal.
From S2P Require Import Rfc3339 Codec Checkpoint Delivery.
Import Text Cll Portable Engine Json Journal Checkpoint.

Module Client.

Local Open Scope Z_scope.

Definition DefaultMaxResponseBytes : Z := MaxWitnessResponseBytes.
Definition DefaultRequestTimeout : Z := 30 * Second.
Definition EntryHashSchemeCheckpointDigest : string := "legacy".

Record Receipt := MkReceipt {
  rc_Bytes : bytes;
  rc_EntryHash : string;
  rc_EntryHashScheme : string;
  rc_LeafIndex : Z;
  rc_TreeSize : Z
}.

(** ** Errors *)

(** The error values [IsRetryable] tells apart, with their text: a
    [*HTTPError], a [*transportError], a [net.Error], and any other. *)
Inductive SubmitError :=
| HTTPError (StatusCode : Z) (Body : string)
| transportError (cause : string)
| networkError (text : string)
| plainError (text : string).

(** The verb [%d]. *)
Definition decimalText (n : Z) : string := if n <? 0 then "-" ++ FormatUint (- n) else FormatUint n.

(** [Error] *)
Definition errorText (err : SubmitError) : string :=
  match err with
  | HTTPError status body => "witness returned HTTP " ++ decimalText status ++ ": " ++ body
  | transportError cause => cause
  | networkError text => text
  | plainError text => text
  end.

(** [Retryable] *)
Definition Retryable (status : Z) : bool := (status =? 408) || (status =? 429) || (500 <=? status).

Definition IsRetryable (err : SubmitError) : bool :=
  match err with
  | HTTPError status _ => Retryable status
  | transportError _ => true
  | networkError _ => true
  | plainError _ => false
  end.

Inductive outcome (A : Type) :=
| Done (a : A)
| Failed (err : SubmitError).
Arguments Done {A} a.
Arguments Failed {A} err.

(** ** [strings.TrimSpace] *)

(** The encodings of the runes [unicode.IsSpace] accepts. *)
Definition spaces : list bytes :=
  [[x09]; [x0a]; [x0b]; [x0c]; [x0d]; [x20]; [xc2; x85]; [xc2; xa0]; [xe1; x9a; x80];
   [xe2; x80; x80]; [xe2; x80; x81]; [xe2; x80; x82]; [xe2; x80; x83]; [xe2; x80; x84]; [xe2; x80; x85];
   [xe2; x80; x86]; [xe2; x80; x87]; [xe2; x80; x88]; [xe2; x80; x89]; [xe2; x80; x8a];
   [xe2; x80; xa8]; [xe2; x80; xa9]; [xe2; x80; xaf]; [xe2; x81; x9f]; [xe3; x80; x80]].

(** What follows one of the encodings at the head of [s]. *)
Fixpoint cutSpace (encodings : list bytes) (s : bytes) : option bytes :=
  match encodings with
  | [] => None
  | e :: encodings => match cutPrefix e s with Some rest => Some rest | None => cutSpace encodings s end
  end.

Fixpoint trimFrom (encodings : list bytes) (fuel : nat) (s : bytes) : bytes :=
  match fuel with
  | O => s
  | S fuel => match cutSpace encodings s with Some rest => trimFrom encodings fuel rest | None => s end
  end.

(** A rune ends where its last byte stands, so the end is trimmed backwards. *)
Definition TrimSpace (s : bytes) : bytes :=
  let s := trimFrom spaces (length s) s in
  rev (trimFrom (map (@rev byte) spaces) (length s) (rev s)).

(** ** The client *)

(** The fields of [http.Client] the constructor reads or sets. *)
Record HTTP := MkHTTP {
  http_Timeout : Z;
  http_RejectsRedirects : bool
}.

Definition DefaultClient : HTTP := MkHTTP 0 false.

Record Client := MkClient {
  endpoint : string;
  http : HTTP;
  maxBytes : Z
}.

(** [url.URL], as [NewClient] reads it. *)
Record URL := MkURL {
  u_Scheme : string;
  u_Host : string;
  u_HasUser : bool;
  u_RawQuery : string;
  u_Fragment : string
}.

(** [strings.TrimRight(s, "/")] *)
Fixpoint dropSlashes (s : bytes) : bytes :=
  match s with
  | x2f :: s => dropSlashes s
  | _ => s
  end.

Definition TrimRightSlash (s : string) : string := stringOf (rev (dropSlashes (rev (bytesOf s)))).

(** [parsed] is the outcome of [url.Parse] on [baseURL]. *)
Definition NewClient (baseURL : string) (parsed : option URL) (client : option HTTP) (maxResponseBytes : Z) :
    result Client :=
  if bool_decide (baseURL = EmptyString) then Err (ErrText "base URL is required")
  else
    let bad := Err (ErrText "base URL must be an HTTP(S) origin or path") in
    match parsed with
    | None => bad
    | Some u =>
        if bool_decide (u_Host u = EmptyString) || u_HasUser u || negb (bool_decide (u_RawQuery u = EmptyString)) ||
           negb (bool_decide (u_Fragment u = EmptyString)) ||
           negb (bool_decide (u_Scheme u = "http"%string)) && negb (bool_decide (u_Scheme u = "https"%string))
        then bad
        else
          let maxResponseBytes := if maxResponseBytes =? 0 then DefaultMaxResponseBytes else maxResponseBytes in
          if maxResponseBytes <? 1 then Err (ErrText "max response bytes must be positive")
          else
            let client := match client with Some client => client | None => DefaultClient end in
            let timeout := if http_Timeout client =? 0 then DefaultRequestTimeout else http_Timeout client in
            Ok (MkClient (TrimRightSlash baseURL ++ "/checkpoints") (MkHTTP timeout true) maxResponseBytes)
    end.

(** ** Submitting *)

Record Response := MkResponse {
  rs_StatusCode : Z;
  (** what the server sends *)
  rs_Body : bytes;
  (** the error of reading or closing the body, if one occurs *)
  rs_Error : option string
}.

Record Exchange := MkExchange {
  (** the error of [http.NewRequestWithContext] *)
  ex_Request : option SubmitError;
  (** the outcome of [http.Client.Do] *)
  ex_Do : string + Response
}.

(** The response as [Submit] decodes it; further members are ignored. *)
Record wireResponse := MkWireResponse {
  wr_ReceiptB64 : string;
  wr_EntryHash : string;
  wr_EntryHashScheme : string;
  wr_LeafIndex : Z;
  wr_TreeSize : Z
}.

Definition zeroWireResponse : wireResponse := MkWireResponse "" "" "" 0 0.

Definition responseField (key : bytes) : decoder wireResponse := fun w v =>
  let 'MkWireResponse receipt hash scheme leaf size := w in
  if fieldIs "receipt_b64" key then x ← decString receipt v; Some (MkWireResponse x hash scheme leaf size)
  else if fieldIs "entry_hash" key then x ← decString hash v; Some (MkWireResponse receipt x scheme leaf size)
  else if fieldIs "entry_hash_scheme" key then x ← decString scheme v; Some (MkWireResponse receipt hash x leaf size)
  else if fieldIs "leaf_index" key then x ← decInt64 leaf v; Some (MkWireResponse receipt hash scheme x size)
  else if fieldIs "tree_size" key then x ← decInt64 size v; Some (MkWireResponse receipt hash scheme leaf x)
  else Some w.

(** [json.Unmarshal(raw, &wire)] *)
Definition UnmarshalResponse (raw : bytes) : option wireResponse :=
  v ← Json.decode raw; decStruct responseField zeroWireResponse v.

(** Texts the model does not keep: of an error value, of a decoding error of
    [encoding/json], and of a string under the verb [%q]. *)
Class Texts := {
  valueText : error -> string;
  jsonText : bytes -> string;
  quoted : string -> string
}.

Section Submit.
Context `{DT : DtMmr} `{CB : Cbor} `{CS : Cose} `{TX : Texts}.

(** The checks of [Submit] on a decoded response. *)
Definition receiptOf (wire : wireResponse) : outcome Receipt :=
  if negb (bool_decide (wr_EntryHashScheme wire = EntryHashSchemeCheckpointDigest))
  then Failed (plainError ("unsupported entry hash scheme " ++ quoted (wr_EntryHashScheme wire)))
  else if negb (validEntryHash (wr_EntryHash wire)) then Failed (plainError "invalid entry hash")
  else if (wr_TreeSize wire <=? 0) || (wr_LeafIndex wire <? 0) || (wr_TreeSize wire <=? wr_LeafIndex wire) ||
          (MaxPortableInteger <? wr_TreeSize wire) || (MaxPortableInteger <? wr_LeafIndex wire)
  then Failed (plainError "invalid transparency position")
  else
    match Base64.StrictDecodeString (wr_ReceiptB64 wire) with
    | None | Some [] => Failed (plainError "invalid receipt base64")
    | Some receiptBytes =>
        Done (MkReceipt receiptBytes (wr_EntryHash wire) (wr_EntryHashScheme wire) (wr_LeafIndex wire) (wr_TreeSize wire))
    end.

(** [Submit] once the response is there. *)
Definition readResponse (c : Client) (response : Response) : outcome Receipt :=
  match rs_Error response with
  | Some cause => Failed (transportError cause)
  | None =>
      (** [io.ReadAll(io.LimitReader(response.Body, c.maxBytes+1))] *)
      let raw := take (Z.to_nat (i64 (maxBytes c + 1))) (rs_Body response) in
      if maxBytes c <? zlen raw
      then Failed (plainError ("witness response exceeds " ++ decimalText (maxBytes c) ++ " bytes"))
      else if (rs_StatusCode response <? 200) || (300 <=? rs_StatusCode response)
      then Failed (HTTPError (rs_StatusCode response) (Delivery.boundedText (stringOf (TrimSpace raw))))
      else
        match UnmarshalResponse raw with
        | None => Failed (plainError ("decode witness response: " ++ jsonText raw))
        | Some wire => receiptOf wire
        end
  end.

Definition Submit (c : Client) (exchange : Exchange) (signedCheckpoint : bytes) : outcome Receipt :=
  match ParseRecord signedCheckpoint with
  | Err err => Failed (plainError (valueText err))
  | Ok record =>
      match VerifySignature record with
      | Err err => Failed (plainError (valueText err))
      | Ok _ =>
          match ex_Request exchange with
          | Some err => Failed err
          | None =>
              match ex_Do exchange with
              | inl cause => Failed (transportError cause)
              | inr response => readResponse c response
              end
          end
      end
  end.

End Submit.

End Client.
