(* ===== verification/Verify.v ===== *)
(** * The receipt verifier: [src/witness/verify.go]

    [Verify] and the decoding around [rootFromProof].  The CBOR and COSE
    functions are those of [Codec]; a header value is told apart by its type as
    Go's type switches do, with one constructor for all integer types. *)

From S2P Require Import Prelude Hex Text DtMmr Mmr Cll Portable Engine Journal Rfc3339 Codec Checkpoint.
From S2P Require Import Sha256 MmrBinding Rfc9162 Client.
Import Cll Checkpoint Client.

Module Verify.

Local Open Scope Z_scope.

Definition headerVDS : Z := 395.
Definition headerVDP : Z := 396.
Definition vdsRFC9162 : Z := 1.
Definition vdpInclusion : Z := -1.

(** [type ReceiptVerifier struct] *)
Record ReceiptVerifier := MkReceiptVerifier { public : bytes }.

Definition NewReceiptVerifier (public : bytes) : result ReceiptVerifier :=
  if negb (zlen public =? PublicKeySize) then Err (ErrText "pinned Ed25519 authority key is required")
  else Ok (MkReceiptVerifier public).

Definition lookup (values : headers) (key : Z) : option Value := headerAt values (LInt key).

Definition integerHeader (values : headers) (key : Z) : option Z :=
  match lookup values key with
  | Some (VInt n) => if n <? two63 then Some n else None
  | _ => None
  end.

Section Verify.
Context `{DT : DtMmr} `{CB : Cbor} `{CP : CborProof} `{CS : Cose}.

Definition decodeProof (blob : bytes) : result (Z * Z * list bytes) :=
  let bad := Err (ErrText "invalid inclusion proof") in
  match cbor_UnmarshalRaws blob with
  | Some [rawSize; rawIndex; rawPath] =>
      match cbor_UnmarshalInt64 rawSize with
      | None => bad
      | Some size =>
          match cbor_UnmarshalInt64 rawIndex with
          | None => bad
          | Some index =>
              match cbor_UnmarshalPath rawPath with
              | None => bad
              | Some path =>
                  if forallb (fun node => zlen node =? 32) path then Ok (size, index, path)
                  else Err (ErrText "invalid proof hash length")
              end
          end
      end
  | _ => bad
  end.

(** The inclusion proof of a receipt: the header checks of [Verify]. *)
Definition proofBlob (message : Sign1Message) : result bytes :=
  if match integerHeader (msg_Protected message) headerVDS with Some vds => negb (vds =? vdsRFC9162) | None => true end
  then Err (ErrText "receipt protected header requires RFC9162 VDS")
  else if match cose_Algorithm (msg_Protected message) with Ok a => negb (a =? AlgorithmEdDSA) | Err _ => true end
  then Err (ErrText "receipt must use EdDSA")
  else
    match lookup (msg_Unprotected message) headerVDP with
    | None => Err (ErrText "receipt missing VDP")
    | Some (VMap vdp) =>
        match lookup vdp vdpInclusion with
        | None => Err (ErrText "receipt missing inclusion proof")
        | Some (VArray [proof]) =>
            match proof with
            | VBytes blob => Ok blob
            | _ => Err (ErrText "receipt proof is not bytes")
            end
        | Some _ => Err (ErrText "receipt requires one inclusion proof")
        end
    | Some _ => Err (ErrText "receipt VDP is not a map")
    end.

(** [message.Payload = root] *)
Definition withPayload (message : Sign1Message) (root : bytes) : Sign1Message :=
  MkSign1Message (msg_Protected message) (msg_Unprotected message) (Some root) (msg_Signature message).

Definition Verify (v : ReceiptVerifier) (statement : bytes) (receipt : Receipt) : check :=
  if (zlen (rc_Bytes receipt) =? 0) || (DefaultMaxResponseBytes <? zlen (rc_Bytes receipt))
  then Err (ErrText "receipt size is invalid")
  else if negb (bool_decide (rc_EntryHashScheme receipt = EntryHashSchemeCheckpointDigest))
  then Err (ErrText "unsupported receipt entry hash scheme")
  else
    record ← ParseRecord statement;
    _ ← VerifySignature record;
    entry ← EntryHash record;
    if negb (bool_decide (Hex.EncodeToString entry = rc_EntryHash receipt))
    then Err (ErrText "entry hash does not bind signed checkpoint")
    else
      match cose_UnmarshalCBOR (rc_Bytes receipt) with
      | None => Err (ErrText "decode COSE receipt")
      | Some message =>
          blob ← proofBlob message;
          '(treeSize, leafIndex, path) ← decodeProof blob;
          if negb (treeSize =? rc_TreeSize receipt) || negb (leafIndex =? rc_LeafIndex receipt)
          then Err (ErrText "receipt position mismatch")
          else
            match Rfc9162.rootFromProof entry leafIndex treeSize path with
            | None => Err (ErrText "receipt inclusion proof is invalid")
            | Some root => cose_Verify (public v) (withPayload message root)
            end
      end.

End Verify.

End Verify.
