(* ===== verification/VerifyClaims.v ===== *)
(** * What receipts prove

    An accepted receipt shows that the checkpoint is an entry of the tree whose
    root the pinned authority signed, and cannot be moved to another payload;
    and the receipt of an honest log is accepted. *)

From S2P Require Import Prelude Sha256 Hex Text DtMmr DtMmrRef Mmr MmrBinding Rfc9162 Cll Portable Engine Journal.
From S2P Require Import Rfc3339 Codec CodecRef Checkpoint CheckpointPayload CheckpointRecord CheckpointClaims Client Verify.
Import MmrBinding Rfc9162 Cll CodecRef Checkpoint CheckpointPayload CheckpointClaims Client Verify.

Module VerifyClaims.

Local Open Scope Z_scope.

Section Receipts.
Context `{DT : DtMmr} `{CB : Cbor} `{CP : CborProof} `{CS : Cose}.

(** What [Verify] has checked: the entry is the hash of the payload of a signed
    record, and the authority signed the root of a path from it. *)
Record verified (v : ReceiptVerifier) (statement : bytes) (receipt : Receipt) (r : Record_) (entry : bytes)
    (message : Sign1Message) (path : list bytes) (root : bytes) : Prop := {
  vf_record : ParseRecord statement = Ok r;
  vf_signed : VerifySignature r = Ok tt;
  vf_entry : EntryHash r = Ok entry;
  vf_hash : rc_EntryHash receipt = Hex.EncodeToString entry;
  vf_scheme : rc_EntryHashScheme receipt = EntryHashSchemeCheckpointDigest;
  vf_size : 0 < zlen (rc_Bytes receipt) <= MaxWitnessResponseBytes;
  vf_message : cose_UnmarshalCBOR (rc_Bytes receipt) = Some message;
  vf_blob : exists blob, proofBlob message = Ok blob /\
    decodeProof blob = Ok (rc_TreeSize receipt, rc_LeafIndex receipt, path);
  vf_root : rootFromProof entry (rc_LeafIndex receipt) (rc_TreeSize receipt) path = Some root;
  vf_authority : cose_Verify (public v) (withPayload message root) = Ok tt
}.

Lemma decodeProof_width (blob : bytes) (size index : Z) (path : list bytes) :
  decodeProof blob = Ok (size, index, path) -> Forall width32 path.
Proof.
  unfold decodeProof. repeat case_match; try done. intros [= <- <- <-].
  apply Forall_forall. intros node Hn. rewrite forallb_forall in *.
  match goal with H : forall _, In _ _ -> _ |- _ => specialize (H node ltac:(by apply list_elem_of_In)) end.
  gobool. unfold width32, zlen in *. lia.
Qed.

(** [Verify] accepts exactly that. *)
Lemma Verify_Ok (v : ReceiptVerifier) (statement : bytes) (receipt : Receipt) :
  Verify v statement receipt = Ok tt <->
  exists r entry message path root, verified v statement receipt r entry message path root.
Proof.
  unfold Verify. split.
  - destruct (_ || _) eqn:H1; [done|]. destruct (negb _) eqn:H2; [done|]. gobool.
    destruct (ParseRecord statement) as [r|] eqn:Hr; cbn [mbind result_bind]; [|done].
    destruct (VerifySignature r) as [[]|] eqn:Hv; cbn [mbind result_bind]; [|done].
    destruct (EntryHash r) as [entry|] eqn:He; cbn [mbind result_bind]; [|done].
    destruct (negb _) eqn:H3; [done|]. gobool.
    destruct (cose_UnmarshalCBOR _) as [message|] eqn:Hm; [|done].
    destruct (proofBlob message) as [blob|] eqn:Hb; cbn [mbind result_bind]; [|done].
    destruct (decodeProof blob) as [[[size index] path]|] eqn:Hp; cbn [mbind result_bind]; [|done].
    destruct (_ || _) eqn:H4; [done|]. gobool. subst.
    destruct (rootFromProof _ _ _ _) as [root|] eqn:Hroot; [|done]. intros Hs.
    pose proof (zlen_nonneg (rc_Bytes receipt)). exists r, entry, message, path, root. split; try done.
    + unfold DefaultMaxResponseBytes in *. lia.
    + by exists blob.
  - intros (r & entry & message & path & root & [Hr Hv He Hh Hsch Hsz Hm (blob & Hb & Hp) Hroot Hs]).
    rewrite (proj2 (Z.eqb_neq _ _)), (proj2 (Z.ltb_ge _ _)) by (unfold DefaultMaxResponseBytes; lia). cbn [orb].
    rewrite bool_decide_true by done. cbn [negb]. rewrite Hr. cbn [mbind result_bind]. rewrite Hv. cbn [mbind result_bind].
    rewrite He. cbn [mbind result_bind]. rewrite bool_decide_true by done. cbn [negb].
    rewrite Hm, Hb. cbn [mbind result_bind]. rewrite Hp. cbn [mbind result_bind].
    by rewrite !Z.eqb_refl, Hroot.
Qed.

(** The messages hashed into an entry. *)
Definition entryMsgs (r : Record_) : list bytes :=
  match CanonicalJSON (payloadOf r) with Ok body => [body; sha256 body] | Err _ => [] end.

Lemma EntryHash_bind (r1 r2 : Record_) (entry : bytes) :
  EntryHash r1 = Ok entry -> EntryHash r2 = Ok entry ->
  CanonicalJSON (payloadOf r1) = CanonicalJSON (payloadOf r2) \/ collision (entryMsgs r1) (entryMsgs r2).
Proof.
  unfold EntryHash, Digest, entryMsgs.
  destruct (CanonicalJSON (payloadOf r1)) as [b1|]; cbn [mbind result_bind]; [|done].
  destruct (CanonicalJSON (payloadOf r2)) as [b2|]; cbn [mbind result_bind]; [|done].
  intros H1%Ok_inj H2%Ok_inj. assert (sha256 (sha256 b1) = sha256 (sha256 b2)) as Heq by congruence. clear H1 H2.
  assert (forall x y : bytes, y ∈ [x; y]) as Hin by (intros x y; right; left).
  destruct (sha256_bind (sha256 b1) (sha256 b2) _ _ (Hin b1 _) (Hin b2 _) Heq) as [Hd|?]; [|by right].
  destruct (sha256_bind b1 b2 [b1; sha256 b1] [b2; sha256 b2]) as [->|?]; [left|left|done|by left|by right].
Qed.

Lemma accepted_entry (entry : bytes) (index size : Z) (path : list bytes) (root : bytes) (log : list bytes) :
  Forall width32 path -> rootFromProof entry index size path = Some root -> zlen log = size -> mth log = root ->
  exists entry', zget log index = Some entry' /\
    (entry' = entry \/ collision (transcript entry index size path)
                         (transcript entry' index size (inclusionPath index log))).
Proof.
  intros Hw Hroot Hl Hm. pose proof (rootFromProof_accepts entry index size path root) as [Ha _].
  destruct (Ha Hroot) as (Hi & Hmax & _). destruct (zget_in_range log index ltac:(lia)) as [entry' He].
  exists entry'. split; [done|]. subst size root.
  destruct (honest_path_root log index entry' Hmax He) as [Hw' Hr'].
  destruct (rootFromProof_bind entry entry' index (zlen log) path (inclusionPath index log) (mth log) Hw Hw' Hroot Hr')
    as [[-> _]|?]; [by left|by right].
Qed.

(** C29: an accepted receipt proves that the checkpoint is logged: its entry is
    the hash of the payload of a signed record, the pinned authority signed the
    root recomputed from it, and every log with that root and size has this entry
    at the stated position, or the hashed messages contain a SHA-256 collision;
    and the receipt is accepted for no statement with another payload. *)
Theorem verified_receipts_bind (v : ReceiptVerifier) (statement : bytes) (receipt : Receipt) :
  Verify v statement receipt = Ok tt ->
  exists r entry message path root,
    verified v statement receipt r entry message path root /\
    (forall log, zlen log = rc_TreeSize receipt -> mth log = root ->
       exists entry', zget log (rc_LeafIndex receipt) = Some entry' /\
         (entry' = entry \/
          collision (transcript entry (rc_LeafIndex receipt) (rc_TreeSize receipt) path)
            (transcript entry' (rc_LeafIndex receipt) (rc_TreeSize receipt)
               (inclusionPath (rc_LeafIndex receipt) log)))) /\
    (forall statement', Verify v statement' receipt = Ok tt ->
       exists r', ParseRecord statement' = Ok r' /\
         (CanonicalJSON (payloadOf r') = CanonicalJSON (payloadOf r) \/ collision (entryMsgs r') (entryMsgs r))).
Proof.
  intros (r & entry & message & path & root & Hv)%Verify_Ok. exists r, entry, message, path, root.
  split; [done|]. destruct Hv as [Hr _ He Hh _ _ Hm (blob & Hb & Hp) Hroot _]. split.
  - intros log Hl Hmth. apply (accepted_entry entry _ _ path root log); try done. by eapply decodeProof_width.
  - intros statement' (r' & entry' & m' & path' & root' & [Hr' _ He' Hh' _ _ _ _ _ _])%Verify_Ok.
    exists r'. split; [done|]. rewrite Hh in Hh'. apply Hex.EncodeToString_inj in Hh'. subst entry'.
    by apply (EntryHash_bind r' r entry).
Qed.

(** C30: the receipt of an honest log is accepted: when the log has the hash of
    a signed record's payload at a position and the authority signed the tree
    hash of the log, a receipt with the inclusion path of that position
    verifies. *)
Theorem honest_receipts_verify (v : ReceiptVerifier) (statement : bytes) (receipt : Receipt) (r : Record_)
    (log : list bytes) (entry blob : bytes) (message : Sign1Message) :
  ParseRecord statement = Ok r -> VerifySignature r = Ok tt -> EntryHash r = Ok entry ->
  zlen log <= maxTreeSize -> zget log (rc_LeafIndex receipt) = Some entry ->
  rc_EntryHash receipt = Hex.EncodeToString entry -> rc_EntryHashScheme receipt = EntryHashSchemeCheckpointDigest ->
  rc_TreeSize receipt = zlen log -> 0 < zlen (rc_Bytes receipt) <= MaxWitnessResponseBytes ->
  cose_UnmarshalCBOR (rc_Bytes receipt) = Some message -> proofBlob message = Ok blob ->
  decodeProof blob = Ok (zlen log, rc_LeafIndex receipt, inclusionPath (rc_LeafIndex receipt) log) ->
  cose_Verify (public v) (withPayload message (mth log)) = Ok tt ->
  Verify v statement receipt = Ok tt.
Proof.
  intros Hr Hv He Hmax Hget Hh Hs Hsize Hlen Hm Hb Hp Hsig. apply Verify_Ok.
  exists r, entry, message, (inclusionPath (rc_LeafIndex receipt) log), (mth log). split; try done.
  - exists blob. by rewrite Hsize.
  - rewrite Hsize. by apply honest_path_root.
Qed.

End Receipts.

(** ** Witnesses *)

Import Ref.

Definition authorityKey : bytes := replicate 32 Byte.x09.
Definition sampleVerifier : ReceiptVerifier := MkReceiptVerifier authorityKey.
Definition sampleEntry : bytes := okOr [] (EntryHash sampleRecord).
Definition receiptLog : list bytes := [[Byte.x01]; [Byte.x02]; sampleEntry; [Byte.x04]].
Definition sampleBlob : bytes := write [write 4; write 2; write (inclusionPath 2 receiptLog)].
Definition sampleReceipt : Receipt :=
  MkReceipt (receiptBytes (1, -8, [sampleBlob], signatureOf authorityKey (Some (mth receiptLog))))
    (Hex.EncodeToString sampleEntry) "legacy" 2 4.

Lemma sample_verifies : Verify (DT := dt_reference) sampleVerifier sampleStatement sampleReceipt = Ok tt.
Proof. vm_compute. reflexivity. Qed.

Lemma verified_receipts_bind_witness :
  exists r, ParseRecord (DT := dt_reference) sampleStatement = Ok r /\
    (forall statement', Verify (DT := dt_reference) sampleVerifier statement' sampleReceipt = Ok tt ->
       exists r', ParseRecord (DT := dt_reference) statement' = Ok r' /\
         (CanonicalJSON (payloadOf r') = CanonicalJSON (payloadOf r) \/ collision (entryMsgs r') (entryMsgs r))).
Proof.
  destruct (verified_receipts_bind (DT := dt_reference) sampleVerifier sampleStatement sampleReceipt sample_verifies)
    as (r & entry & message & path & root & Hv & _ & H).
  exists r. split; [exact (vf_record _ _ _ _ _ _ _ _ Hv)|exact H].
Defined.

Lemma honest_receipts_verify_witness :
  Verify (DT := dt_reference) sampleVerifier sampleStatement sampleReceipt = Ok tt.
Proof.
  assert (0 < zlen (rc_Bytes sampleReceipt) <= MaxWitnessResponseBytes) as Hlen by (vm_compute; split; congruence).
  assert (zlen receiptLog <= maxTreeSize) as Hmax by (vm_compute; congruence).
  apply (honest_receipts_verify (DT := dt_reference) sampleVerifier sampleStatement sampleReceipt sampleRecord
    receiptLog sampleEntry sampleBlob
    (receiptMessage (1, -8, [sampleBlob], signatureOf authorityKey (Some (mth receiptLog)))));
    try exact Hmax; try exact Hlen; vm_compute; reflexivity.
Defined.

End VerifyClaims.
