(* ===== verification/ClientClaims.v ===== *)
(** * What a submission promises

    When [Submit] returns a receipt, which failures may be retried, and that it
    reads back what a server writes, whatever members newer servers add. *)

From S2P Require Import Prelude Hex Text Base64 Utf8 Json JsonProofs DtMmr DtMmrRef Mmr Cll Portable Engine.
From S2P Require Import Journal JournalProofs JournalText Rfc3339 Codec CodecRef Checkpoint CheckpointClaims Delivery.
From S2P Require Import Client.
Import Text Cll Engine Json JsonProofs Journal JournalProofs JournalText CodecRef Checkpoint CheckpointClaims Client.

Module ClientClaims.

Local Open Scope Z_scope.

(** A receipt a client may return. *)
Record receipt_valid (rc : Receipt) : Prop := {
  rv_bytes : rc_Bytes rc <> [];
  rv_hash : validEntryHash (rc_EntryHash rc) = true;
  rv_scheme : rc_EntryHashScheme rc = EntryHashSchemeCheckpointDigest;
  rv_position : 0 <= rc_LeafIndex rc < rc_TreeSize rc;
  rv_portable : rc_TreeSize rc <= MaxPortableInteger
}.

(** The whole response was read and is within the limit of the client. *)
Definition complete (c : Client) (response : Response) : Prop :=
  rs_Error response = None /\ zlen (rs_Body response) <= maxBytes c.

(** A client as [NewClient] makes it, short of the widest limit. *)
Definition limited (c : Client) : Prop := 1 <= maxBytes c < two63 - 1.

Definition successful (response : Response) : Prop := 200 <= rs_StatusCode response < 300.

(** The response of a server, with more members after those the client reads. *)
Definition responseJson (rc : Receipt) (more : list (bytes * json)) : json :=
  JObject (member "receipt_b64" (text (Base64.EncodeToString (rc_Bytes rc))) ++
    member "entry_hash" (text (rc_EntryHash rc)) ++ member "entry_hash_scheme" (text (rc_EntryHashScheme rc)) ++
    member "leaf_index" (number (rc_LeafIndex rc)) ++ member "tree_size" (number (rc_TreeSize rc)) ++ more).

Definition knownNames : list string := ["receipt_b64"; "entry_hash"; "entry_hash_scheme"; "leaf_index"; "tree_size"]%string.

(** Members the client ignores. *)
Definition unknown (more : list (bytes * json)) : Prop :=
  goodMembers 9 more /\ Forall (fun m => Forall (fun name => fieldIs name (fst m) = false) knownNames) more.

Lemma unknown_ignored (more : list (bytes * json)) (w : wireResponse) :
  unknown more -> decMembers responseField w more = Some w.
Proof.
  intros [_ Hf]. induction Hf as [|[key v] more Hm _ IH]; [done|]. cbn [decMembers].
  unfold knownNames in Hm. cbn [fst] in Hm. rewrite !Forall_cons in Hm. destruct Hm as (H1 & H2 & H3 & H4 & H5 & _).
  assert (responseField key w v = Some w) as -> by (unfold responseField; destruct w; by rewrite H1, H2, H3, H4, H5).
  exact IH.
Qed.

Lemma response_decodes (rc : Receipt) (more : list (bytes * json)) :
  receipt_valid rc -> unknown more ->
  UnmarshalResponse (Json.encode (responseJson rc more)) =
    Some (MkWireResponse (Base64.EncodeToString (rc_Bytes rc)) (rc_EntryHash rc) (rc_EntryHashScheme rc)
            (rc_LeafIndex rc) (rc_TreeSize rc)).
Proof.
  intros [_ Hh Hs Hp Hm] Hmore. assert (MaxPortableInteger < two63) as Hmax by done.
  assert (good 10 (responseJson rc more)) as [Hw Hht].
  { apply (good_object 9); [lia|].
    assert (utf8 (rc_EntryHash rc)) as Hh8 by (apply hash_utf8; by rewrite Hh, andb_false_r).
    assert (utf8 (rc_EntryHashScheme rc)) as Hs8 by by rewrite Hs.
    repeat (apply Forall_app; split); try apply Hmore; apply good_member; try done;
      (apply good_text || apply good_number); try lia; try done. by apply asciiText_utf8, asciiText_base64. }
  unfold UnmarshalResponse. rewrite json_roundtrip by (done || unfold maxNestingDepth; lia).
  cbn [mbind option_bind]. unfold responseJson, decStruct.
  do 3 (erewrite decMembers_member; [|unfold responseField, zeroWireResponse; fields; by rewrite decString_text]).
  do 2 (erewrite decMembers_member; [|unfold responseField; fields; rewrite decInt64_number; [done|split; lia]]).
  by apply unknown_ignored.
Qed.

Section Submissions.
Context `{DT : DtMmr} `{CB : Cbor} `{CS : Cose} `{TX : Texts}.

Lemma receiptOf_Done (wire : wireResponse) (rc : Receipt) : receiptOf wire = Done rc -> receipt_valid rc.
Proof.
  unfold receiptOf. destruct (negb _) eqn:H1; [done|]. destruct (negb _) eqn:H2 in |- *; [done|].
  destruct (_ || _) eqn:H3; [done|]. gobool.
  destruct (Base64.StrictDecodeString _) as [[|b bs]|]; try done. intros [= <-].
  split; cbn [rc_Bytes rc_EntryHash rc_EntryHashScheme rc_LeafIndex rc_TreeSize]; try done; lia.
Qed.

Lemma receiptOf_Failed (wire : wireResponse) (err : SubmitError) : receiptOf wire = Failed err -> IsRetryable err = false.
Proof. unfold receiptOf. repeat case_match; try done; by intros [= <-]. Qed.

Lemma receiptOf_valid (rc : Receipt) :
  receipt_valid rc ->
  receiptOf (MkWireResponse (Base64.EncodeToString (rc_Bytes rc)) (rc_EntryHash rc) (rc_EntryHashScheme rc)
    (rc_LeafIndex rc) (rc_TreeSize rc)) = Done rc.
Proof.
  intros [Hb Hh Hs Hp Hm]. unfold receiptOf. cbn [wr_ReceiptB64 wr_EntryHash wr_EntryHashScheme wr_LeafIndex wr_TreeSize].
  rewrite bool_decide_true, Hh by done. cbn [negb].
  rewrite !(proj2 (Z.leb_gt _ _)), !(proj2 (Z.ltb_ge _ _)) by lia. cbn [orb].
  rewrite Base64.StrictDecodeString_EncodeToString. destruct rc as [[|b bs] ? ? ? ?]; [done|]. done.
Qed.

(** All of a body within the limit is read. *)
Lemma read_all (c : Client) (body : bytes) :
  limited c -> (zlen (take (Z.to_nat (i64 (maxBytes c + 1))) body) <= maxBytes c <-> zlen body <= maxBytes c) /\
  (zlen body <= maxBytes c -> take (Z.to_nat (i64 (maxBytes c + 1))) body = body).
Proof.
  intros [H1 H2]. rewrite i64_small by (unfold two63 in *; lia).
  assert (zlen body <= maxBytes c -> take (Z.to_nat (maxBytes c + 1)) body = body) as Hall
    by (intros Hb; apply take_ge; unfold zlen in Hb; lia).
  split; [split|done].
  - unfold zlen. rewrite length_take. lia.
  - intros Hb. by rewrite Hall.
Qed.

Lemma readResponse_Done (c : Client) (response : Response) (rc : Receipt) :
  limited c -> readResponse c response = Done rc -> complete c response /\ successful response /\ receipt_valid rc.
Proof.
  intros Hc. unfold readResponse. destruct (rs_Error response) eqn:He; [done|].
  destruct (read_all c (rs_Body response) Hc) as [Hread _].
  destruct (Z.ltb_spec (maxBytes c) (zlen (take (Z.to_nat (i64 (maxBytes c + 1))) (rs_Body response)))); [done|].
  destruct (_ || _) eqn:Hst; [done|]. gobool. destruct (UnmarshalResponse _) as [wire|]; [|done].
  intros Hr. split_and!; [split; [done|by apply Hread]|split; lia|by apply (receiptOf_Done wire)].
Qed.

Lemma readResponse_Failed (c : Client) (response : Response) (err : SubmitError) :
  limited c -> readResponse c response = Failed err ->
  IsRetryable err = true <->
  is_Some (rs_Error response) \/
  (complete c response /\ ~ successful response /\ Retryable (rs_StatusCode response) = true).
Proof.
  intros Hc. unfold readResponse, complete, successful. destruct (rs_Error response) as [cause|] eqn:He.
  { intros [= <-]. split; [by left; eexists|done]. }
  destruct (read_all c (rs_Body response) Hc) as [Hread _].
  assert (forall P : Prop, (is_Some (@None string) \/ P) <-> P) as Hnone.
  { intros P. split; [intros [[? ?]|?]; done|by right]. }
  rewrite Hnone.
  destruct (Z.ltb_spec (maxBytes c) (zlen (take (Z.to_nat (i64 (maxBytes c + 1))) (rs_Body response)))) as [Hlt|Hle].
  { intros [= <-]. split; [done|]. intros ((_ & Hb) & _). apply Hread in Hb. lia. }
  apply Hread in Hle. destruct (_ || _) eqn:Hst.
  - intros [= <-]. cbn [IsRetryable]. split; [intros Hs|by intros (_ & _ & ?)].
    split_and!; [done|done| |done]. intros [? ?]. apply orb_true_iff in Hst as [?%Z.ltb_lt|?%Z.leb_le]; lia.
  - gobool. intros Hf. assert (IsRetryable err = false) as ->.
    { destruct (UnmarshalResponse _) as [wire|]; [by apply (receiptOf_Failed wire)|]. by injection Hf as <-. }
    split; [done|]. intros (_ & Hn & _). destruct Hn. lia.
Qed.

(** C31: [Submit] returns a receipt only for a statement that parses and whose
    signature verifies, from a successful response that was read whole and is
    within the limit, and the receipt has a non-empty text, the hash of an entry
    and a portable position; a failure may be retried exactly when the request
    made a network error, the exchange or the reading failed, whatever the cause,
    or the response is within the limit and its status is 408, 429 or 5xx.  The
    comment on [IsRetryable] promises less and more: a failed exchange may be
    retried though it is no timeout ([transport_failure_is_retryable]), and a 5xx
    over the limit may not ([oversized_server_error_is_permanent]). *)
Theorem submit_outcomes (c : Client) (exchange : Exchange) (statement : bytes) :
  limited c ->
  (forall rc, Submit c exchange statement = Done rc ->
     (exists r, ParseRecord statement = Ok r /\ VerifySignature r = Ok tt) /\ receipt_valid rc /\
     exists response, ex_Do exchange = inr response /\ complete c response /\ successful response) /\
  (forall err, Submit c exchange statement = Failed err ->
     IsRetryable err = true <->
     (exists r, ParseRecord statement = Ok r /\ VerifySignature r = Ok tt) /\
     match ex_Request exchange, ex_Do exchange with
     | Some err', _ => IsRetryable err' = true
     | None, inl _ => True
     | None, inr response =>
         is_Some (rs_Error response) \/
         (complete c response /\ ~ successful response /\ Retryable (rs_StatusCode response) = true)
     end).
Proof.
  intros Hc. unfold Submit. destruct (ParseRecord statement) as [r|e].
  2: { split; [done|]. intros err [= <-]. split; [done|]. by intros [(r & ? & _) _]. }
  destruct (VerifySignature r) as [[]|e] eqn:Hv.
  2: { split; [done|]. intros err [= <-]. split; [done|]. intros [(r' & [= <-] & ?) _]. congruence. }
  assert (exists r', Ok r = Ok r' /\ VerifySignature r' = Ok tt) as Hex by by exists r.
  destruct (ex_Request exchange) as [err'|].
  { split; [done|]. intros err [= <-]. tauto. }
  destruct (ex_Do exchange) as [cause|response].
  { split; [done|]. by intros err [= <-]. }
  split.
  - intros rc Hrc. destruct (readResponse_Done c response rc Hc Hrc) as (? & ? & ?).
    split; [done|]. split; [done|]. by exists response.
  - intros err Herr. rewrite (readResponse_Failed c response err Hc Herr). tauto.
Qed.

(** A server's response reads back: for every valid receipt, whatever
    unknown members follow, a successful response within the limit gives the
    client that receipt. *)
Lemma honest_responses_read_back (c : Client) (statement : bytes) (r : Record_) (rc : Receipt) (status : Z)
    (more : list (bytes * json)) :
  limited c -> ParseRecord statement = Ok r -> VerifySignature r = Ok tt -> receipt_valid rc -> unknown more ->
  200 <= status < 300 -> zlen (Json.encode (responseJson rc more)) <= maxBytes c ->
  Submit c (MkExchange None (inr (MkResponse status (Json.encode (responseJson rc more)) None))) statement = Done rc.
Proof.
  intros Hc Hr Hv Hrc Hmore Hst Hlen. unfold Submit. rewrite Hr, Hv. cbn [ex_Request ex_Do].
  unfold readResponse. cbn [rs_Error rs_Body rs_StatusCode].
  destruct (read_all c (Json.encode (responseJson rc more)) Hc) as [_ Hread]. rewrite Hread by done.
  rewrite (proj2 (Z.ltb_ge _ _)), (proj2 (Z.ltb_ge _ _)), (proj2 (Z.leb_gt _ _)) by lia. cbn [orb].
  rewrite response_decodes by done. by apply receiptOf_valid.
Qed.

End Submissions.

(** ** Witnesses *)

Import Ref.

Definition sampleClient : Client := MkClient "https://witness.example/checkpoints" (MkHTTP DefaultRequestTimeout true) 4096.

#[export] Instance sampleTexts : Texts := {
  valueText _ := "error"; jsonText _ := "unexpected end of JSON input"; quoted s := s
}.

Definition clientReceipt : Receipt :=
  MkReceipt [Byte.xd2; Byte.x84] (Hex.EncodeToString (replicate 32 Byte.x07)) "legacy" 4 9.

Definition newerMembers : list (bytes * json) := member "log_url" (text "https://log.example") ++ member "shard" (number 7).

Definition busyExchange : Exchange := MkExchange None (inr (MkResponse 503 [Byte.x20; Byte.x62; Byte.x75; Byte.x73; Byte.x79] None)).

(** How a submission of the sample statement ends, if it fails. *)
Definition retryableFailure (exchange : Exchange) : option bool :=
  match Submit (DT := dt_reference) sampleClient exchange sampleStatement with
  | Done _ => None
  | Failed err => Some (IsRetryable err)
  end.

Example transport_failure_is_retryable :
  retryableFailure (MkExchange None (inl "tls: failed to verify certificate"%string)) = Some true.
Proof. vm_compute. reflexivity. Qed.

Example oversized_server_error_is_permanent :
  retryableFailure (MkExchange None (inr (MkResponse 503 (replicate 4097 Byte.x20) None))) = Some false.
Proof. vm_compute. reflexivity. Qed.

Lemma submit_outcomes_witness :
  Submit (DT := dt_reference) sampleClient busyExchange sampleStatement = Failed (HTTPError 503 "busy") /\
  (IsRetryable (HTTPError 503 "busy") = true <->
   (exists r, ParseRecord (DT := dt_reference) sampleStatement = Ok r /\ VerifySignature r = Ok tt) /\
   (is_Some (@None string) \/
    (complete sampleClient (MkResponse 503 [Byte.x20; Byte.x62; Byte.x75; Byte.x73; Byte.x79] None) /\
     ~ successful (MkResponse 503 [Byte.x20; Byte.x62; Byte.x75; Byte.x73; Byte.x79] None) /\ Retryable 503 = true))).
Proof.
  assert (limited sampleClient) as Hc by (unfold limited, two63; cbn [maxBytes sampleClient]; lia).
  assert (Submit (DT := dt_reference) sampleClient busyExchange sampleStatement = Failed (HTTPError 503 "busy")) as Hs
    by (vm_compute; reflexivity).
  split; [exact Hs|].
  exact (proj2 (submit_outcomes (DT := dt_reference) sampleClient busyExchange sampleStatement Hc) _ Hs).
Defined.

End ClientClaims.
