(* ===== verification/Deliver.v ===== *)
(** * Witness delivery: [src/witness/runner.go]

    [RunOnce] reads the due rows, groups them by witness, and runs one goroutine
    for each group; a schedule says which of them acts next.  A goroutine acts by
    whole deliveries: submitting and verifying do not touch the store, so the
    only shared step of a delivery is its commit.  Sending its outcome and the
    deferred [Done] are steps of their own: a send waits for room in the buffer
    of the channel, which nobody reads before the counter is zero.  What others
    do to the store before each call is a turn, as for the checkpoint runner. *)

From S2P Require Import Prelude DtMmr Mmr Cll Portable Engine Backend Rfc3339 Codec Checkpoint Delivery Runner.
From S2P Require Import Client.
Import Cll Portable Backend Checkpoint Delivery Client.

Module Deliver.

Local Open Scope Z_scope.

(** [type Submitter interface]: a submission with what surrounds it. *)
Definition Submitter (X : Type) : Type := X -> bytes -> outcome Receipt.

(** [type Verifier interface] *)
Definition Verifier : Type := bytes -> Receipt -> check.

(** [type DeliveryRunner struct], without the store, the mutex and the channel *)
Record DeliveryRunner (X : Type) := MkDeliveryRunner {
  config : DeliveryConfig;
  clients : gmap string (Submitter X);
  verifiers : gmap string Verifier
}.
Arguments MkDeliveryRunner {X} config clients verifiers.
Arguments config {X} d.
Arguments clients {X} d.
Arguments verifiers {X} d.

(** A dependency that is [nil] is [None]; the store is always given. *)
Definition dependencyOk {X} (verifiers : gmap string (option Verifier)) (item : string * option (Submitter X)) : bool :=
  is_ok (ValidateIdentifier (fst item)) &&
  match snd item, verifiers !! fst item with
  | Some _, Some (Some _) => true
  | _, _ => false
  end.

(** The copies hold the verifiers of the clients. *)
Definition NewDeliveryRunner {X} (config : DeliveryConfig) (clients : gmap string (option (Submitter X)))
    (verifiers : gmap string (option Verifier)) : result (DeliveryRunner X) :=
  if (PollInterval config <=? 0) || (BaseBackoff config <=? 0) || (MaxBackoff config <? BaseBackoff config) ||
     (Z.of_nat (size clients) =? 0) || (MaxWitnesses <? Z.of_nat (size clients)) ||
     negb (Z.of_nat (size verifiers) =? Z.of_nat (size clients))
  then Err ErrInvalid
  else if forallb (dependencyOk verifiers) (map_to_list clients)
  then
    Ok (MkDeliveryRunner config (omap id clients)
          (omap id (filter (fun v => is_Some (clients !! fst v)) verifiers)))
  else Err ErrInvalid.

(** The channel of capacity one. *)
Definition Notify (notify : bool) : bool := true.

(** What surrounds one delivery: the error of its context when the submission
    is over, the exchange with the witness, and [rand.Int64N]. *)
Record Around (X : Type) := MkAround {
  ar_ctx : check;
  ar_exchange : X;
  ar_draw : Z -> Z
}.
Arguments MkAround {X} ar_ctx ar_exchange ar_draw.
Arguments ar_ctx {X} a.
Arguments ar_exchange {X} a.
Arguments ar_draw {X} a.

(** ** One delivery *)

(** The row a delivery commits, whether it succeeded, and whether the failure
    may be retried. *)
Record Attempt := MkAttempt {
  at_next : WitnessState;
  at_success : bool;
  at_retryable : bool
}.

(** The row with its receipt. *)
Definition receivedWitness (item : WitnessState) (now : Z) (receipt : Receipt) : WitnessState :=
  MkWitness (wit_WitnessID item) (wit_CheckpointSize item) (wit_Checkpoint item)
    ((wit_Attempts item + 1) mod two32) now
    (Some (Cll.MkReceipt (rc_Bytes receipt) (rc_EntryHash receipt) (rc_EntryHashScheme receipt)
             (Some (rc_LeafIndex receipt)) (Some (rc_TreeSize receipt)))) false "".

(** ** The results channel *)

(** What a goroutine reports: [type outcome struct]. *)
Abbreviation Outcome := (Z * check)%type.

(** [make(chan outcome, capacity)] *)
Record Channel := MkChannel {
  ch_capacity : nat;
  ch_buffer : list Outcome
}.

(** A send while nobody receives: it goes into the buffer, and blocks ([None])
    when the buffer is full. *)
Definition send (results : Channel) (out : Outcome) : option Channel :=
  if (length (ch_buffer results) <? ch_capacity results)%nat
  then Some (MkChannel (ch_capacity results) (ch_buffer results ++ [out]))
  else None.

Section Deliver.
Context {S Env X : Type} `{BK : Backend S Env} `{DT : DtMmr} `{CB : Cbor} `{CS : Cose} `{TX : Texts}.

Abbreviation Turn := (Runner.Turn S Env (Around X)).
Abbreviation World := (Runner.World (S := S)).

Variable turns : nat -> Turn.
Variable runner : DeliveryRunner X.

(** [ParseRecord(item.Checkpoint)] and [VerifySignature] *)
Definition checkpointOk (statement : bytes) : bool :=
  match ParseRecord statement with
  | Ok record => is_ok (VerifySignature record)
  | Err _ => false
  end.

(** [deliver] up to its commit. *)
Definition attempt (around : Around X) (now : Z) (id : string) (item : WitnessState) : result Attempt :=
  let delay := backoff (ar_draw around) (config runner) (wit_Attempts item) in
  match clients runner !! id, verifiers runner !! id with
  | Some client, Some verifier =>
      if negb (checkpointOk (wit_Checkpoint item))
      then Ok (MkAttempt (failedWitness item now true "stored checkpoint failed verification" delay) false false)
      else
        let submitted := client (ar_exchange around) (wit_Checkpoint item) in
        match ar_ctx around with
        | Err err => Err err
        | Ok _ =>
            match submitted with
            | Failed err =>
                let retryable := IsRetryable err in
                Ok (MkAttempt (failedWitness item now (negb retryable) (errorText err) delay) false retryable)
            | Done receipt =>
                match verifier (wit_Checkpoint item) receipt with
                | Err err => Ok (MkAttempt (failedWitness item now true (valueText err) delay) false false)
                | Ok _ => Ok (MkAttempt (receivedWitness item now receipt) true false)
                end
            end
        end
  | _, _ => Err ErrInvalid
  end.

Definition deliver (w : World) (now : Z) (id : string) (item : WitnessState) : World * result (bool * bool) :=
  let turn := Runner.turnOf turns w in
  let w' := Runner.arrive turns w in
  match attempt (Runner.t_sign turn) now id item with
  | Err err => (w', Err err)
  | Ok a =>
      let '(s, committed) := b_CommitWitness (fst w') (Runner.t_env turn) (wit_Attempts item) (at_next a) in
      ((s, snd w'), _ ← committed; Ok (at_success a, at_retryable a))
  end.

(** ** The goroutines *)

(** Where a goroutine is: before a delivery with the rows left and the number
    completed, at [results <- outcome], or past it, with the deferred
    [wait.Done()] to run. *)
Inductive Task :=
| Delivering (items : list WitnessState) (completed : Z)
| Sending (out : Outcome)
| Returning.

(** The loop of a goroutine up to its next delivery, or to its send. *)
Definition stepDelivering (w : World) (now : Z) (id : string) (items : list WitnessState) (completed : Z) : World * Task :=
  match items with
  | [] => (w, Sending (completed, Ok tt))
  | item :: items =>
      let '(w, delivered) := deliver w now id item in
      match delivered with
      | Err err => (w, Sending (completed, Err err))
      | Ok (success, retryable) =>
          let completed := if (success : bool) then completed + 1 else completed in
          if (retryable : bool) then (w, Sending (completed, Ok tt))
          else (w, Delivering items completed)
      end
  end.

(** The goroutines that have not returned, the channel, and the counter of the
    [WaitGroup]. *)
Record Pool := MkPool {
  pl_world : World;
  pl_tasks : gmap string Task;
  pl_results : Channel;
  pl_wait : Z
}.

(** The goroutine of [id] acts; nothing happens if it has returned or if it
    blocks. *)
Definition stepPool (now : Z) (pool : Pool) (id : string) : Pool :=
  match pl_tasks pool !! id with
  | None => pool
  | Some (Delivering items completed) =>
      let '(w, task) := stepDelivering (pl_world pool) now id items completed in
      MkPool w (<[id := task]> (pl_tasks pool)) (pl_results pool) (pl_wait pool)
  | Some (Sending out) =>
      match send (pl_results pool) out with
      | None => pool
      | Some results => MkPool (pl_world pool) (<[id := Returning]> (pl_tasks pool)) results (pl_wait pool)
      end
  | Some Returning => MkPool (pl_world pool) (delete id (pl_tasks pool)) (pl_results pool) (pl_wait pool - 1)
  end.

Definition runPool (schedule : list string) (now : Z) (pool : Pool) : Pool :=
  fold_left (stepPool now) schedule pool.

(** [groups[item.WitnessID] = append(groups[item.WitnessID], item)] *)
Definition groupItems (pending : list WitnessState) : gmap string (list WitnessState) :=
  fold_left (fun groups item =>
    <[wit_WitnessID item := default [] (groups !! wit_WitnessID item) ++ [item]]> groups) pending ∅.

(** [make(chan outcome, len(groups))], and the loop that starts the goroutines:
    each adds one to the counter. *)
Definition spawn (w : World) (groups : gmap string (list WitnessState)) : Pool :=
  MkPool w ((fun items => Delivering items 0) <$> groups) (MkChannel (size groups) []) (Z.of_nat (size groups)).

(** The loop over the outcomes of the closed channel. *)
Fixpoint collect (results : list Outcome) (completed : Z) : Outcome :=
  match results with
  | [] => (completed, Ok tt)
  | (n, Err err) :: _ => (completed + n, Err err)
  | (n, Ok _) :: results => collect results (completed + n)
  end.

(** The caller waits for the counter, so it does not receive while the
    goroutines run; then it closes the channel and reads it.  [None] when the
    schedule ends and the caller still waits. *)
Definition RunOnce (schedule : list string) (w : World) (now limit : Z) : option (World * Outcome) :=
  let now := NormalizeTime now in
  let turn := Runner.turnOf turns w in
  let w' := Runner.arrive turns w in
  match b_PendingWitnesses (fst w') (Runner.t_env turn) now limit with
  | Err err => Some (w', (0, Err err))
  | Ok pending =>
      let pool := runPool schedule now (spawn w' (groupItems pending)) in
      if pl_wait pool =? 0 then Some (pl_world pool, collect (ch_buffer (pl_results pool)) 0) else None
  end.

(** ** The host loop *)

(** Rounds of [Run] with the clock, the schedule and the wakeup of each; [None]
    when the rounds run out or a schedule is too short. *)
Fixpoint Run (rounds : nat) (schedules : nat -> list string) (clock : nat -> Z) (wakes : nat -> Runner.Wake)
    (round : nat) (w : World) : option (World * error) :=
  match rounds with
  | O => None
  | Datatypes.S rounds =>
      match RunOnce (schedules round) w (clock round) MaxWitnesses with
      | None => None
      | Some (w, (_, outcome)) =>
          match outcome with
          | Ok _ | Err ErrContention =>
              match wakes round with
              | Runner.WakeDone err => Some (w, err)
              | Runner.WakeNotify | Runner.WakeTick => Run rounds schedules clock wakes (Datatypes.S round) w
              end
          | Err err => Some (w, err)
          end
      end
  end.

End Deliver.

End Deliver.
