(* ===== verification/DeliverProofs.v ===== *)
(** * Deliveries over any backend, whatever others do

    Every commit of a delivery is one the rest of the system may rely on, so
    deliveries and checkpoint runners keep the same invariant of the store; and
    no goroutine ever blocks at the channel, so each returns after at most three
    steps more than it has rows. *)

From S2P Require Import Prelude Sha256 Hex Text Utf8 Geometry DtMmr Mmr MmrBuild Cll Portable Engine EngineLog.
From S2P Require Import EngineState EngineHistory EngineWitness WireProofs JournalProofs JournalText JsonlReplay Backend.
From S2P Require Import Rfc3339 Codec Checkpoint CheckpointRecord Delivery Runner RunnerSpec RunnerStep RunnerProofs.
From S2P Require Import Client Deliver.
Import Text Cll Portable Engine EngineLog EngineState EngineHistory EngineWitness WireProofs JournalProofs JournalText JsonlReplay.
Import Backend Checkpoint Delivery Runner RunnerSpec RunnerProofs Client Deliver.

Module DeliverProofs.

Local Open Scope Z_scope.

(** ** Rows *)

(** The part of a row a delivery passes on. *)
Definition item_ok (item : WitnessState) : Prop := u64 (wit_CheckpointSize item).

Lemma attempts_range (n : Z) : uint32 (n mod two32).
Proof. unfold uint32. apply Z.mod_pos_bound. done. Qed.

Lemma boundedText_utf8 (reason : string) : utf8 (boundedText reason).
Proof. unfold utf8, boundedText. rewrite bytesOf_stringOf. apply boundedBytes_spec. Qed.

Lemma failed_storable (item : WitnessState) (now : Z) (permanent : bool) (reason : string) (delay : Z) :
  item_ok item -> row_storable (failedWitness item now permanent reason delay).
Proof. intros Hi. split; [apply attempts_range|apply boundedText_utf8|done]. Qed.

Lemma received_storable (item : WitnessState) (now : Z) (receipt : Receipt) :
  item_ok item -> row_storable (receivedWitness item now receipt).
Proof. intros Hi. split; [apply attempts_range|done|done]. Qed.

(** What a delivery may make of a row. *)
Inductive row_outcome {X} `{DT : DtMmr} `{CB : Cbor} `{CS : Cose} `{TX : Texts} (runner : DeliveryRunner X)
    (around : Around X) (now : Z) (item : WitnessState) : Attempt -> Prop :=
| row_received client verifier receipt :
    clients runner !! wit_WitnessID item = Some client -> verifiers runner !! wit_WitnessID item = Some verifier ->
    checkpointOk (wit_Checkpoint item) = true ->
    client (ar_exchange around) (wit_Checkpoint item) = Done receipt ->
    verifier (wit_Checkpoint item) receipt = Ok tt ->
    row_outcome runner around now item (MkAttempt (receivedWitness item now receipt) true false)
| row_retried client err :
    clients runner !! wit_WitnessID item = Some client ->
    client (ar_exchange around) (wit_Checkpoint item) = Failed err -> IsRetryable err = true ->
    row_outcome runner around now item
      (MkAttempt (failedWitness item now false (errorText err)
                    (backoff (ar_draw around) (config runner) (wit_Attempts item))) false true)
| row_refused reason :
    row_outcome runner around now item
      (MkAttempt (failedWitness item now true reason
                    (backoff (ar_draw around) (config runner) (wit_Attempts item))) false false).

Lemma attempt_outcome {X} `{DT : DtMmr} `{CB : Cbor} `{CS : Cose} `{TX : Texts} (runner : DeliveryRunner X)
    (around : Around X) (now : Z) (item : WitnessState) (a : Attempt) :
  attempt runner around now (wit_WitnessID item) item = Ok a -> row_outcome runner around now item a.
Proof.
  unfold attempt. destruct (clients runner !! _) as [client|] eqn:Hc; [|done].
  destruct (verifiers runner !! _) as [verifier|] eqn:Hv; [|done].
  destruct (checkpointOk _) eqn:Hok; cbn [negb]; [|intros [= <-]; apply row_refused].
  destruct (ar_ctx around); [|done]. destruct (client _ _) as [receipt|err] eqn:Hs.
  - destruct (verifier _ receipt) as [[]|err] eqn:Hr; intros [= <-]; [by eapply row_received|apply row_refused].
  - intros [= <-]. destruct (IsRetryable err) eqn:Hr; cbn [negb]; [by eapply row_retried|apply row_refused].
Qed.

(** The due rows are rows of the engine, and there are no two of a key. *)
Lemma pending_rows (e : Engine) (now limit : Z) (pending : list WitnessState) :
  PendingWitnesses e now limit = Ok pending ->
  pending ⊆ st_Witnesses (state e) /\
  (NoDup (map keyOf (st_Witnesses (state e))) -> NoDup (map keyOf pending)).
Proof.
  unfold PendingWitnesses. destruct (_ || _); [done|]. rewrite CloneWitness_map. intros [= <-].
  set (due := SliceStable pendingLess (List.filter (duePending now) (st_Witnesses (state e)))).
  assert (due ≡ₚ List.filter (duePending now) (st_Witnesses (state e))) as Hdue by apply SliceStable_perm.
  assert ((if limit <? zlen due then take (Z.to_nat limit) due else due) `sublist_of` due) as Hsub
    by (destruct (_ <? _); [apply sublist_take|done]).
  split.
  - intros x Hx. eapply elem_of_sublist in Hx; [|exact Hsub]. rewrite Hdue in Hx.
    apply list_elem_of_In, filter_In in Hx as [Hx _]. by apply list_elem_of_In.
  - intros Hk. eapply sublist_NoDup; [|by apply (fmap_sublist keyOf)]. fold (map keyOf). rewrite Hdue.
    eapply sublist_NoDup; [exact Hk|]. apply (fmap_sublist keyOf). clear. induction (st_Witnesses (state e)) as [|x l IH]; [done|]. cbn [List.filter].
    destruct (duePending now x); by constructor.
Qed.

Section Deliveries.
Context {S Env X E : Type} `{BL : BackendLaws S Env} `{!DtMmrLaws DT} `{CB : Cbor} `{CS : Cose}
  `{SG : Signer E} `{!SignerLaws E} `{TX : Texts}.
Variable rc : RunnerConfig.
Variable turns : nat -> Turn S Env (Around X).
Variable runner : DeliveryRunner X.

Abbreviation sound := (RunnerSpec.sound rc).
Abbreviation keeps := (RunnerProofs.keeps rc).
Abbreviation reaches := (RunnerProofs.reaches rc).
Abbreviation arrive := (Runner.arrive turns).

Lemma attempt_storable (around : Around X) (now : Z) (id : string) (item : WitnessState) (a : Attempt) :
  item_ok item -> attempt runner around now id item = Ok a -> row_storable (at_next a).
Proof.
  intros Hi. unfold attempt. destruct (clients runner !! id) as [client|]; [|done].
  destruct (verifiers runner !! id) as [verifier|]; [|done].
  destruct (negb _); [intros [= <-]; by apply failed_storable|]. destruct (ar_ctx around); [|done].
  destruct (client _ _) as [receipt|err]; [destruct (verifier _ receipt) as [?|err]|]; intros [= <-];
    by apply failed_storable || apply received_storable.
Qed.

(** Everything the others do keeps the store. *)
Hypothesis rely : forall k s, keeps s (t_others (turns k) s).

Abbreviation kept e s := (reaches e (fun _ => True) s).

Lemma keeps_kept (e : Engine) (s s' : S) : keeps s s' -> kept e s -> kept e s'.
Proof.
  intros [Hshut Hsound] [Hs|(e1 & Hr & Hs & Hle & _)]; [left; auto|].
  eapply (reaches_impl rc e e1); [done| |by apply Hsound]. done.
Qed.

Lemma delivery_arrive_shut (w : World) : shut (fst w) -> shut (fst (arrive w)).
Proof. apply (rely (snd w) (fst w)). Qed.

Lemma deliver_shut (w : World) (now : Z) (id : string) (item : WitnessState) :
  shut (fst w) -> shut (fst (fst (deliver turns runner w now id item))).
Proof.
  intros Hs%delivery_arrive_shut. unfold deliver. destruct (attempt _ _ _ _ _) as [a|]; [|done].
  pose proof (shut_calls (fst (arrive w)) [CallCommitWitness (t_env (turnOf turns w)) (wit_Attempts item) (at_next a)] Hs)
    as Hc. cbn [fold_left call] in Hc. by destruct (b_CommitWitness _ _ _ _).
Qed.

Lemma deliver_kept (e : Engine) (w : World) (now : Z) (id : string) (item : WitnessState) :
  item_ok item -> uint32 (wit_Attempts item) -> kept e (fst w) ->
  kept e (fst (fst (deliver turns runner w now id item))).
Proof.
  intros Hi Ha Hk. assert (kept e (fst (arrive w))) as Hk' by (eapply keeps_kept; [apply rely|done]).
  unfold deliver. destruct (attempt _ _ _ _ _) as [a|] eqn:Hat; [|done].
  pose proof (call_keeps rc (fst (arrive w)) (CallCommitWitness (t_env (turnOf turns w)) (wit_Attempts item) (at_next a))
    (conj Ha (attempt_storable _ _ _ _ _ Hi Hat))) as Hc. cbn [call] in Hc.
  apply (keeps_kept e) in Hc; [|done]. by destruct (b_CommitWitness _ _ _ _).
Qed.

(** ** The goroutines *)

Definition items_ok (items : list WitnessState) : Prop :=
  Forall (fun item => item_ok item /\ uint32 (wit_Attempts item)) items.

(** The rows a goroutine has before it. *)
Definition tk_items (task : Task) : list WitnessState :=
  match task with Delivering items _ => items | _ => [] end.

Lemma stepPool_shut (now : Z) (pool : Pool) (id : string) :
  shut (fst (pl_world pool)) -> shut (fst (pl_world (stepPool turns runner now pool id))).
Proof.
  intros Hs. unfold stepPool. destruct (pl_tasks pool !! id) as [[[|item items] n|out|]|]; [done| | |done..].
  - unfold stepDelivering. pose proof (deliver_shut (pl_world pool) now id item Hs) as Hd.
    destruct (deliver _ _ _ _ _ _) as [w [[success retryable]|err]]; [|done]. by destruct retryable.
  - by destruct (send _ _).
Qed.

Lemma stepPool_kept (e : Engine) (now : Z) (pool : Pool) (id : string) :
  kept e (fst (pl_world pool)) -> map_Forall (fun _ task => items_ok (tk_items task)) (pl_tasks pool) ->
  kept e (fst (pl_world (stepPool turns runner now pool id))) /\
  map_Forall (fun _ task => items_ok (tk_items task)) (pl_tasks (stepPool turns runner now pool id)).
Proof.
  intros Hk Hall. unfold stepPool. destruct (pl_tasks pool !! id) as [[items n|out|]|] eqn:Ht; [| | |done].
  - pose proof (Hall _ _ Ht) as Hitems. cbn [tk_items] in Hitems. unfold stepDelivering.
    destruct items as [|item items]; [split; [done|by apply map_Forall_insert_2; [constructor|]]|].
    apply Forall_cons in Hitems as [[Hi Ha] Hitems].
    pose proof (deliver_kept e (pl_world pool) now id item Hi Ha Hk) as Hd.
    destruct (deliver _ _ _ _ _ _) as [w [[success retryable]|err]]; [destruct retryable|];
      (split; [done|apply map_Forall_insert_2; [first [done|constructor]|done]]).
  - destruct (send _ _); [|done]. split; [done|by apply map_Forall_insert_2; [constructor|]].
  - split; [done|by apply map_Forall_delete].
Qed.

Lemma runPool_shut (schedule : list string) (now : Z) (pool : Pool) :
  shut (fst (pl_world pool)) -> shut (fst (pl_world (runPool turns runner schedule now pool))).
Proof.
  revert pool. induction schedule as [|id schedule IH]; intros pool Hs; [done|].
  cbn [runPool fold_left]. by apply IH, stepPool_shut.
Qed.

Lemma runPool_kept (e : Engine) (schedule : list string) (now : Z) (pool : Pool) :
  kept e (fst (pl_world pool)) -> map_Forall (fun _ task => items_ok (tk_items task)) (pl_tasks pool) ->
  kept e (fst (pl_world (runPool turns runner schedule now pool))).
Proof.
  revert pool. induction schedule as [|id schedule IH]; intros pool Hs Hall; [done|].
  cbn [runPool fold_left]. destruct (stepPool_kept e now pool id Hs Hall). by apply IH.
Qed.

(** ** Groups *)

Definition sameWitness (id : string) (item : WitnessState) : bool := bool_decide (wit_WitnessID item = id).

(** The group of a witness holds its rows in their order. *)
Lemma groupItems_lookup (pending : list WitnessState) (id : string) :
  default [] (groupItems pending !! id) = List.filter (sameWitness id) pending /\
  (groupItems pending !! id <> None -> List.filter (sameWitness id) pending <> []).
Proof.
  unfold groupItems. induction pending as [|item pending IH] using rev_ind; [done|].
  rewrite fold_left_app, List.filter_app. cbn [fold_left List.filter].
  set (groups := fold_left _ pending ∅) in *.
  destruct (decide (wit_WitnessID item = id)) as [<-|Hne].
  - unfold sameWitness at 2 4. rewrite lookup_insert_eq, bool_decide_true by done. destruct IH as [<- _].
    split; [done|]. intros _ Hnil. by apply app_eq_nil in Hnil as [_ ?].
  - unfold sameWitness at 2 4. by rewrite lookup_insert_ne, bool_decide_false, app_nil_r by done.
Qed.

Lemma groups_forall (P : WitnessState -> Prop) (pending : list WitnessState) :
  Forall P pending -> map_Forall (fun _ task => Forall P (tk_items task))
    ((fun items => Delivering items 0) <$> groupItems pending).
Proof.
  intros Hp id task Ht. apply lookup_fmap_Some in Ht as (items & <- & Hi). cbn [tk_items].
  destruct (groupItems_lookup pending id) as [Hg _]. rewrite Hi in Hg. cbn in Hg. rewrite Hg.
  apply Forall_forall. intros x [Hx _]%list_elem_of_In%filter_In. rewrite Forall_forall in Hp.
  by apply Hp, list_elem_of_In.
Qed.

(** ** Whole calls *)

(** The rows a call would read. *)
Definition dueRows (w : World) (now limit : Z) : list WitnessState :=
  match b_PendingWitnesses (fst (arrive w)) (t_env (turnOf turns w)) (NormalizeTime now) limit with
  | Ok pending => pending
  | Err _ => []
  end.

Lemma pending_items (e : Engine) (now limit : Z) (pending : list WitnessState) :
  sound e -> PendingWitnesses e now limit = Ok pending -> pending ⊆ st_Witnesses (state e) /\ items_ok pending.
Proof.
  intros Hs Hp. destruct (pending_rows e now limit pending Hp) as [Hsub _]. split; [done|].
  apply Forall_forall. intros x Hx.
  pose proof (ix_rows _ _ _ (sound_indexes _ _ Hs)) as Hrows. rewrite Forall_forall in Hrows.
  destruct (Hrows x (Hsub x Hx)) as [_ [Ha _ Hz]]. done.
Qed.

Lemma RunOnce_keeps_store (schedule : list string) (w w' : World) (now limit : Z) (out : Z * check) :
  RunOnce turns runner schedule w now limit = Some (w', out) -> keeps (fst w) (fst w').
Proof.
  intros Hrun. unfold Deliver.RunOnce in Hrun. split.
  - intros Hs%delivery_arrive_shut. destruct (b_PendingWitnesses _ _ _ _) as [pending|]; [|by injection Hrun as <- _].
    destruct (_ =? _); [|done]. injection Hrun as <- _. by apply runPool_shut.
  - intros e Hr Hs. assert (kept e (fst (arrive w))) as Hk by by apply (rely (snd w) (fst w)).
    pose proof Hk as [Hshut|(e1 & Hr1 & Hs1 & Hle & _)].
    + left. destruct (b_PendingWitnesses _ _ _ _) as [pending|]; [|by injection Hrun as <- _].
      destruct (_ =? _); [|done]. injection Hrun as <- _. by apply runPool_shut.
    + destruct (law_PendingWitnesses _ e1 (t_env (turnOf turns w)) (NormalizeTime now) limit Hr1) as [Heq|[err Heq]];
        rewrite Heq in Hrun; [|by injection Hrun as <- _].
      destruct (PendingWitnesses e1 (NormalizeTime now) limit) as [pending|] eqn:Hp; [|by injection Hrun as <- _].
      destruct (_ =? _); [|done]. injection Hrun as <- _. apply runPool_kept; [done|].
      apply groups_forall. by eapply pending_items.
Qed.

Lemma Run_keeps_store (rounds : nat) (schedules : nat -> list string) (clock : nat -> Z) (wakes : nat -> Wake)
    (round : nat) (w w' : World) (err : error) :
  Deliver.Run turns runner rounds schedules clock wakes round w = Some (w', err) -> keeps (fst w) (fst w').
Proof.
  revert round w. induction rounds as [|rounds IH]; intros round w; [done|]. cbn [Deliver.Run].
  destruct (RunOnce _ _ _ _ _ _) as [[w1 [n outcome]]|] eqn:Hc; [|done]. apply RunOnce_keeps_store in Hc.
  assert (match wakes round with
          | WakeDone err' => Some (w1, err')
          | WakeNotify | WakeTick => Deliver.Run turns runner rounds schedules clock wakes (Datatypes.S round) w1
          end = Some (w', err) -> keeps (fst w) (fst w')) as Hwake.
  { destruct (wakes round); [by intros [= <- _]|intros Hrun%IH; by etrans|intros Hrun%IH; by etrans]. }
  destruct outcome as [[]|err']; [done|]. destruct err'; done || by intros [= <- _].
Qed.

End Deliveries.

(** ** Termination *)

Section Ends.
Context {S Env X : Type} `{BK : Backend S Env} `{DT : DtMmr} `{CB : Cbor} `{CS : Cose} `{TX : Texts}.
Variable turns : nat -> Turn S Env (Around X).
Variable runner : DeliveryRunner X.

(** How often a schedule lets a goroutine act. *)
Definition turnsOf (id : string) (schedule : list string) : nat :=
  length (List.filter (fun x => bool_decide (x = id)) schedule).

(** The channel has a place for every goroutine that has not sent its outcome,
    and the counter is the number of goroutines that have not returned. *)
Record pool_ok (ids : gset string) (pool : Pool (S := S)) : Prop := {
  po_sent : exists sent : gset string, size sent = length (ch_buffer (pl_results pool)) /\ sent ⊆ ids /\
    forall id, id ∈ sent -> pl_tasks pool !! id = None \/ pl_tasks pool !! id = Some Returning;
  po_capacity : ch_capacity (pl_results pool) = size ids;
  po_tasks : dom (pl_tasks pool) ⊆ ids;
  po_wait : pl_wait pool = Z.of_nat (size (pl_tasks pool))
}.

(** A send never blocks. *)
Lemma send_ok (ids : gset string) (pool : Pool) (id : string) (out : Outcome) :
  pool_ok ids pool -> pl_tasks pool !! id = Some (Sending out) ->
  send (pl_results pool) out =
    Some (MkChannel (ch_capacity (pl_results pool)) (ch_buffer (pl_results pool) ++ [out])).
Proof.
  intros [(sent & Hsize & Hsub & Hsent) Hcap Htasks _] Ht. unfold send. rewrite (proj2 (Nat.ltb_lt _ _)); [done|].
  rewrite Hcap, <- Hsize. apply subset_size. split; [done|]. intros Hids.
  assert (id ∈ sent) as Hin by (apply Hids, Htasks, elem_of_dom; by eexists).
  destruct (Hsent id Hin) as [Hn|Hn]; congruence.
Qed.

Lemma size_insert_same {A} (tasks : gmap string A) (id : string) (x y : A) :
  tasks !! id = Some x -> size (<[id := y]> tasks) = size tasks.
Proof. intros Ht. rewrite map_size_insert. by rewrite Ht. Qed.

Lemma stepPool_ok (ids : gset string) (now : Z) (pool : Pool) (id : string) :
  pool_ok ids pool -> pool_ok ids (stepPool turns runner now pool id).
Proof.
  intros Hok. pose proof Hok as [(sent & Hsize & Hsub & Hsent) Hcap Htasks Hwait]. unfold stepPool.
  destruct (pl_tasks pool !! id) as [task|] eqn:Ht; [|done].
  assert (id ∈ ids) as Hid by (apply Htasks, elem_of_dom; by eexists).
  assert (forall task, dom (<[id := task]> (pl_tasks pool)) ⊆ ids) as Hdom by (intros ?; rewrite dom_insert; set_solver).
  destruct task as [items n|out|].
  - destruct (stepDelivering _ _ _ _ _ _ _) as [w task].
    split; cbn [pl_results pl_tasks pl_wait]; [|done|apply Hdom|by erewrite size_insert_same].
    exists sent. split_and!; [done..|]. intros i Hi. rewrite lookup_insert. case_decide; [|auto].
    subst i. destruct (Hsent id Hi); congruence.
  - rewrite (send_ok _ _ _ _ Hok Ht).
    split; cbn [pl_results pl_tasks pl_wait ch_buffer ch_capacity]; [|done|apply Hdom|by erewrite size_insert_same].
    exists ({[id]} ∪ sent). split_and!; [|set_solver|].
    + rewrite size_union, size_singleton, length_app, <- Hsize; [cbn; lia|]. intros i ->%elem_of_singleton [?|?]%Hsent; congruence.
    + intros i. rewrite lookup_insert. case_decide; [auto|]. intros [->%elem_of_singleton|?]%elem_of_union; [done|auto].
  - split; cbn [pl_results pl_tasks pl_wait]; [|done|rewrite dom_delete; set_solver|].
    + exists sent. split_and!; [done..|]. intros i Hi. rewrite lookup_delete. case_decide; auto.
    + rewrite map_size_delete, Ht, Hwait. assert (size (pl_tasks pool) <> 0%nat); [|lia].
      intros Hz%map_size_empty_iff. by rewrite Hz in Ht.
Qed.

Lemma runPool_ok (ids : gset string) (schedule : list string) (now : Z) (pool : Pool) :
  pool_ok ids pool -> pool_ok ids (runPool turns runner schedule now pool).
Proof.
  revert pool. induction schedule as [|id schedule IH]; intros pool Hp; [done|]. by apply IH, stepPool_ok.
Qed.

Lemma spawn_ok (w : World) (groups : gmap string (list WitnessState)) : pool_ok (dom groups) (spawn w groups).
Proof.
  split; cbn [spawn pl_results pl_tasks pl_wait ch_buffer ch_capacity].
  - exists ∅. split_and!; [apply size_empty|set_solver|set_solver].
  - by rewrite size_dom.
  - by rewrite dom_fmap.
  - by rewrite map_size_fmap.
Qed.

(** The counter is zero when all goroutines have returned. *)
Lemma wait_zero (ids : gset string) (pool : Pool) : pool_ok ids pool -> pl_wait pool = 0 <-> pl_tasks pool = ∅.
Proof. intros [_ _ _ ->]. rewrite <- map_size_empty_iff. lia. Qed.

(** The steps a goroutine has left at most. *)
Definition stepsLeft (task : option Task) : nat :=
  match task with
  | Some (Delivering items _) => 3 + length items
  | Some (Sending _) => 2
  | Some Returning => 1
  | None => 0
  end.

Definition todo (pool : Pool (S := S)) (id : string) : nat := stepsLeft (pl_tasks pool !! id).

Lemma todo_step (ids : gset string) (now : Z) (pool : Pool) (id id' : string) :
  pool_ok ids pool ->
  (todo (stepPool turns runner now pool id) id' <= todo pool id' - (if bool_decide (id = id') then 1 else 0))%nat.
Proof.
  intros Hok. unfold stepPool, todo. destruct (pl_tasks pool !! id) as [task|] eqn:Ht.
  2: { case_bool_decide as Hid; [subst id'; rewrite Ht; cbn; lia|lia]. }
  assert (forall task', (stepsLeft task' <= stepsLeft (Some task) - 1)%nat ->
    (stepsLeft (partial_alter (fun _ => task') id (pl_tasks pool) !! id') <=
     stepsLeft (pl_tasks pool !! id') - (if bool_decide (id = id') then 1 else 0))%nat) as Hstep.
  { intros task' Hle. case_bool_decide as Hid; [subst id'; by rewrite lookup_partial_alter_eq, Ht|].
    rewrite lookup_partial_alter_ne by done. lia. }
  destruct task as [items n|out|].
  - assert (stepsLeft (Some (snd (stepDelivering turns runner (pl_world pool) now id items n))) <= 2 + length items)%nat as Hle.
    { unfold stepDelivering. destruct items as [|item items]; [cbn; lia|].
      destruct (deliver _ _ _ _ _ _) as [w [[success []]|err]]; cbn [snd stepsLeft length]; lia. }
    destruct (stepDelivering _ _ _ _ _ _ _) as [w task]. cbn [pl_tasks]. apply Hstep. cbn [snd stepsLeft] in *. lia.
  - rewrite (send_ok _ _ _ _ Hok Ht). cbn [pl_tasks]. apply Hstep. cbn. lia.
  - cbn [pl_tasks]. apply Hstep. cbn. lia.
Qed.

Lemma todo_run (ids : gset string) (schedule : list string) (now : Z) (pool : Pool) (id : string) :
  pool_ok ids pool ->
  (todo (runPool turns runner schedule now pool) id <= todo pool id - turnsOf id schedule)%nat.
Proof.
  revert pool. induction schedule as [|x schedule IH]; intros pool Hok; [cbn; lia|]. cbn [runPool fold_left].
  etrans; [by apply IH, stepPool_ok|]. pose proof (todo_step ids now pool x id Hok). unfold turnsOf. cbn [List.filter].
  destruct (bool_decide (x = id)); cbn [length]; lia.
Qed.

(** A schedule that gives each goroutine its steps runs all of them to the end. *)
Lemma run_ends (ids : gset string) (schedule : list string) (now : Z) (pool : Pool) :
  pool_ok ids pool -> (forall id, (todo pool id <= turnsOf id schedule)%nat) ->
  pl_wait (runPool turns runner schedule now pool) = 0.
Proof.
  intros Hok Hf. apply (wait_zero ids); [by apply runPool_ok|]. apply map_empty. intros id.
  pose proof (todo_run ids schedule now pool id Hok) as Ht. specialize (Hf id). unfold todo at 1 in Ht.
  destruct (pl_tasks (runPool _ _ _ _ _) !! id) as [[]|]; cbn [stepsLeft] in Ht; [lia..|done].
Qed.

(** A goroutine has at most its rows and three more steps before it. *)
Lemma spawn_todo (w : World) (pending : list WitnessState) (schedule : list string) (id : string) :
  (forall item, item ∈ pending -> (length pending + 3 <= turnsOf (wit_WitnessID item) schedule)%nat) ->
  (todo (spawn w (groupItems pending)) id <= turnsOf id schedule)%nat.
Proof.
  intros Hf. unfold todo. cbn [spawn pl_tasks]. rewrite lookup_fmap.
  destruct (groupItems pending !! id) as [items|] eqn:Hg; [|cbn; lia]. cbn [fmap option_fmap option_map stepsLeft].
  destruct (groupItems_lookup pending id) as [Hl Hne]. rewrite Hg in Hl, Hne. cbn in Hl.
  specialize (Hne ltac:(done)). rewrite Hl.
  destruct (List.filter (sameWitness id) pending) as [|item rest] eqn:Hfil; [done|].
  assert (item ∈ pending /\ wit_WitnessID item = id) as [Hin <-].
  { assert (In item (List.filter (sameWitness id) pending)) as Hin by (rewrite Hfil; by left).
    apply filter_In in Hin as [Hin Hid]. unfold sameWitness in Hid. gobool. split; [by apply list_elem_of_In|done]. }
  specialize (Hf item Hin). rewrite <- Hfil.
  pose proof (List.filter_length_le (sameWitness (wit_WitnessID item)) pending). lia.
Qed.

(** A schedule that gives every goroutine its steps. *)
Definition roundRobin (rows : list WitnessState) : list string :=
  flat_map (fun row => replicate (length rows + 3) (wit_WitnessID row)) rows.

Lemma turnsOf_app (id : string) (s1 s2 : list string) : turnsOf id (s1 ++ s2) = (turnsOf id s1 + turnsOf id s2)%nat.
Proof. unfold turnsOf. by rewrite List.filter_app, length_app. Qed.

Lemma turnsOf_replicate (id : string) (n : nat) : turnsOf id (replicate n id) = n.
Proof.
  unfold turnsOf. induction n as [|n IH]; [done|]. cbn [replicate List.filter]. rewrite bool_decide_true by done.
  cbn [length]. by rewrite IH.
Qed.

Lemma roundRobin_fair (rows : list WitnessState) (item : WitnessState) :
  item ∈ rows -> (length rows + 3 <= turnsOf (wit_WitnessID item) (roundRobin rows))%nat.
Proof.
  unfold roundRobin. generalize (length rows + 3)%nat as n. intros n. induction rows as [|row rows IH]; [by intros ?%elem_of_nil|].
  intros Hin. cbn [flat_map]. rewrite turnsOf_app. apply elem_of_cons in Hin as [->|Hin]; [|specialize (IH Hin); lia].
  rewrite turnsOf_replicate. lia.
Qed.

(** Whatever has run, the call can still end. *)
Lemma RunOnce_ends (before schedule : list string) (w : World) (now limit : Z) :
  (forall item, item ∈ dueRows turns w now limit ->
     (length (dueRows turns w now limit) + 3 <= turnsOf (wit_WitnessID item) schedule)%nat) ->
  is_Some (RunOnce turns runner (before ++ schedule) w now limit).
Proof.
  unfold dueRows, Deliver.RunOnce. destruct (b_PendingWitnesses _ _ _ _) as [pending|]; [|by eexists].
  intros Hf. rewrite (proj2 (Z.eqb_eq _ _)); [by eexists|].
  apply (run_ends (dom (groupItems pending))); [apply spawn_ok|]. intros id.
  etrans; [by apply spawn_todo|]. rewrite turnsOf_app. lia.
Qed.

End Ends.

End DeliverProofs.
