(* ===== verification/DeliverCalm.v ===== *)
(** * Deliveries over a calm store

    When nobody else moves the store and the witnesses answer by the submission
    alone, what a call of [RunOnce] makes of every row does not depend on how
    its goroutines are interleaved: it is computed here from the rows, one
    witness at a time. *)

From S2P Require Import Prelude Sha256 Hex Text Utf8 Geometry DtMmr Mmr MmrBuild Cll Portable Engine EngineLog.
From S2P Require Import EngineState EngineHistory EngineWitness WireProofs JournalProofs JournalText JsonlReplay Backend.
From S2P Require Import Rfc3339 Codec Checkpoint CheckpointRecord Delivery Runner Client Deliver DeliverProofs.
Import Text Cll Portable Engine EngineLog EngineState EngineHistory EngineWitness WireProofs JournalProofs JournalText JsonlReplay.
Import Backend Checkpoint Delivery Runner Client Deliver DeliverProofs.

Module DeliverCalm.

Local Open Scope Z_scope.

(** ** What a call should do *)

Section Plan.
Context {X : Type} `{DT : DtMmr} `{CB : Cbor} `{CS : Cose} `{TX : Texts}.
Variable runner : DeliveryRunner X.
Variable around : Around X.
Variable now : Z.

Definition attemptAt (row : WitnessState) : result Attempt := attempt runner around now (wit_WitnessID row) row.

(** What a delivery makes of a row, and why it makes nothing of it. *)
Definition settled (row : WitnessState) : option Attempt :=
  match attemptAt row with
  | Ok a => if is_ok (validateWitness (at_next a) ErrInvalid) then Some a else None
  | Err _ => None
  end.

Definition failure (row : WitnessState) : check :=
  a ← attemptAt row; validateWitness (at_next a) ErrInvalid.

(** The rows of a witness that are reached, and how its goroutine ends. *)
Fixpoint tries (rows : list WitnessState) : list WitnessState :=
  match rows with
  | [] => []
  | row :: rows =>
      match settled row with
      | None => []
      | Some a => row :: if at_retryable a then [] else tries rows
      end
  end.

Fixpoint groupError (rows : list WitnessState) : check :=
  match rows with
  | [] => Ok tt
  | row :: rows =>
      match settled row with
      | None => failure row
      | Some a => if at_retryable a then Ok tt else groupError rows
      end
  end.

Definition received (row : WitnessState) : bool := match settled row with Some a => at_success a | None => false end.

Definition nextRow (row : WitnessState) : WitnessState :=
  match settled row with Some a => at_next a | None => row end.

Definition groupOf (pending : list WitnessState) (id : string) : list WitnessState :=
  List.filter (sameWitness id) pending.

Definition tried (pending : list WitnessState) (row : WitnessState) : bool :=
  bool_decide (row ∈ tries (groupOf pending (wit_WitnessID row))).

(** A row after the call. *)
Definition delivered (pending : list WitnessState) (row : WitnessState) : WitnessState :=
  if tried pending row then nextRow row else row.

(** What the goroutine of a witness sends. *)
Definition groupOutcome (pending : list WitnessState) (id : string) : Z * check :=
  (zlen (List.filter received (tries (groupOf pending id))), groupError (groupOf pending id)).

Lemma tries_subset (rows : list WitnessState) : tries rows ⊆ rows.
Proof.
  induction rows as [|row rows IH]; [done|]. cbn [tries]. destruct (settled row) as [a|]; [|set_solver].
  destruct (at_retryable a); set_solver.
Qed.

Lemma settled_Some (row : WitnessState) (a : Attempt) :
  settled row = Some a <-> attemptAt row = Ok a /\ witness_ok (at_next a).
Proof.
  unfold settled, witness_ok. destruct (attemptAt row) as [b|]; [|split; [done|by intros [? _]]].
  destruct (validateWitness_cases (at_next b) ErrInvalid) as [[Hok ->]|[Hbad ->]]; cbn [is_ok].
  - split; [intros [= <-]; done|]. by intros [[= <-] _].
  - split; [done|]. by intros [[= <-] ?].
Qed.

(** A delivery never changes what a row is about. *)
Lemma attempt_next (row : WitnessState) (a : Attempt) :
  attemptAt row = Ok a ->
  keyOf (at_next a) = keyOf row /\ wit_WitnessID (at_next a) = wit_WitnessID row /\
  wit_Checkpoint (at_next a) = wit_Checkpoint row.
Proof. by intros [? ? ? ? ? ? ? ?|? ? ? ? ?|]%attempt_outcome. Qed.

Lemma delivered_key (pending : list WitnessState) (row : WitnessState) : keyOf (delivered pending row) = keyOf row.
Proof.
  unfold delivered, nextRow. destruct (tried pending row); [|done]. destruct (settled row) as [a|] eqn:Ha; [|done].
  apply settled_Some in Ha as [Ha _]. by apply attempt_next.
Qed.

End Plan.

(** ** Steps of the goroutines *)

(** One element of a mapped list changes when the element of its key does. *)
Lemma map_update {A} (key : A -> string) (f : A -> A) (l pre post : list A) (item w x : A) :
  NoDup (map key l) -> (forall r, key (f r) = key r) -> map f l = pre ++ w :: post -> item ∈ l -> key item = key w ->
  forall g, g item = x -> (forall r, r ∈ l -> r <> item -> g r = f r) -> map g l = pre ++ x :: post.
Proof.
  intros Hnd Hf Hl Hitem Hkey g Hx Hg. apply map_eq_app in Hl as (l1 & l2 & -> & <- & Hl).
  apply map_eq_cons in Hl as (y & l3 & -> & <- & <-). rewrite Hf in Hkey.
  assert (y = item) as ->.
  { rewrite map_app in Hnd. cbn [map] in Hnd. apply NoDup_app in Hnd as (_ & Hd & Hnd).
    apply NoDup_cons in Hnd as [Hni _]. apply elem_of_app in Hitem as [Hin|[->|Hin]%elem_of_cons]; [| |].
    - destruct (Hd (key item)); [by apply list_elem_of_fmap_2|]. rewrite Hkey. left.
    - done.
    - destruct Hni. rewrite <- Hkey. by apply list_elem_of_fmap_2. }
  rewrite map_app in Hnd. cbn [map] in Hnd. apply NoDup_app in Hnd as (_ & Hd & Hnd).
  apply NoDup_cons in Hnd as [Hni _]. rewrite map_app. cbn [map]. rewrite Hx. f_equal; [|f_equal].
  - apply map_ext_in. intros r Hr%list_elem_of_In. apply Hg; [by apply elem_of_app; left|]. intros ->.
    apply (Hd (key item)); [by apply list_elem_of_fmap_2|left].
  - apply map_ext_in. intros r Hr%list_elem_of_In. apply Hg; [apply elem_of_app; right; by right|]. intros ->.
    apply Hni. by apply list_elem_of_fmap_2.
Qed.

Definition withRows (e : Engine) (rows : list WitnessState) : Engine :=
  MkEngine (entries e) (byValue e) (with_rows (state e) (st_Nodes (state e)) rows).

Section Calm.
Context {S Env X : Type} `{BL : BackendLaws S Env} `{!DtMmrLaws DT} `{CB : Cbor} `{CS : Cose} `{TX : Texts}.
Variable runner : DeliveryRunner X.
Variable around : Around X.

(** Nobody else moves the store, which answers as its engine, and every
    delivery has the same surroundings. *)
Record calm (t : Turn S Env (Around X)) : Prop := {
  calm_others s : t_others t s = s;
  calm_around : t_sign t = around;
  calm_pending s e now limit :
    represents s e -> b_PendingWitnesses s (t_env t) now limit = PendingWitnesses e now limit;
  calm_commit s e attempts next :
    represents s e -> storableRow attempts next ->
    represents (fst (b_CommitWitness s (t_env t) attempts next)) (fst (CommitWitness e attempts next)) /\
    snd (b_CommitWitness s (t_env t) attempts next) = snd (CommitWitness e attempts next)
}.

Variable turns : nat -> Turn S Env (Around X).
Hypothesis calm_turns : forall k, calm (turns k).

Variable now : Z.

Abbreviation attemptAt := (DeliverCalm.attemptAt runner around now).
Abbreviation settled := (DeliverCalm.settled runner around now).
Abbreviation tries := (DeliverCalm.tries runner around now).
Abbreviation arrive := (Runner.arrive turns).

Lemma delivery_arrive_calm (w : World) : fst (arrive w) = fst w.
Proof. apply (calm_others _ (calm_turns (snd w))). Qed.

Lemma around_arrived (w : World) : t_sign (turnOf turns w) = around.
Proof. apply (calm_around _ (calm_turns (snd w))). Qed.

Lemma commit_arrived (w : World) (e : Engine) (attempts : Z) (next : WitnessState) :
  represents (fst w) e -> storableRow attempts next ->
  represents (fst (b_CommitWitness (fst (arrive w)) (t_env (turnOf turns w)) attempts next))
    (fst (CommitWitness e attempts next)) /\
  snd (b_CommitWitness (fst (arrive w)) (t_env (turnOf turns w)) attempts next) = snd (CommitWitness e attempts next).
Proof. intros Hr Hs. rewrite delivery_arrive_calm. by apply (calm_commit _ (calm_turns (snd w))). Qed.

(** A delivery of a row that has not changed: it is committed, or nothing
    happens and the goroutine ends. *)
Lemma deliver_settled (w : World) (e : Engine) (item : WitnessState) (a : Attempt) :
  represents (fst w) e -> item ∈ st_Witnesses (state e) -> row_storable item -> settled item = Some a ->
  exists w' pre x post, deliver turns runner w now (wit_WitnessID item) item = (w', Ok (at_success a, at_retryable a)) /\
    st_Witnesses (state e) = pre ++ x :: post /\ keyOf item = keyOf x /\
    represents (fst w') (withRows e (pre ++ at_next a :: post)).
Proof.
  intros Hr Hin [Hatt _ Hsize] [Ha Hok]%settled_Some. unfold deliver.
  rewrite around_arrived.
  change (attempt runner around now (wit_WitnessID item) item) with (attemptAt item). rewrite Ha.
  destruct (attempt_next _ _ _ _ _ Ha) as (Hkey & _ & Hcp).
  destruct (commit_arrived w e (wit_Attempts item) (at_next a) Hr) as [Hr' Hout].
  { apply law_storableRow; [done|]. by eapply attempt_storable. }
  destruct (b_CommitWitness _ _ _ _) as [s' r]. cbn [fst snd] in *.
  destruct (CommitWitness_cases e (wit_Attempts item) (at_next a) (law_ok _ _ Hr))
    as [[Hbad _]|[(_ & Hno & _)|(_ & _ & pre & x & post & Hws & Hx & Heq)]]; [done| |].
  - destruct Hno. exists item. by rewrite Hkey, Hcp.
  - rewrite Heq in Hr', Hout. cbn [fst snd] in *. rewrite Hout. eexists (s', _), pre, x, post. split; [reflexivity|].
    split_and!; [done|congruence|done].
Qed.

Lemma deliver_failed (w : World) (e : Engine) (item : WitnessState) :
  represents (fst w) e -> row_storable item -> settled item = None ->
  exists w' err, deliver turns runner w now (wit_WitnessID item) item = (w', Err err) /\
    failure runner around now item = Err err /\ represents (fst w') e.
Proof.
  intros Hr [Hatt _ Hsize]. unfold deliver, DeliverCalm.settled, failure.
  rewrite around_arrived.
  change (attempt runner around now (wit_WitnessID item) item) with (attemptAt item).
  destruct (attemptAt item) as [a|err] eqn:Ha; cbn [mbind result_bind].
  - destruct (validateWitness_cases (at_next a) ErrInvalid) as [[_ ->]|[Hbad ->]]; [done|]. intros _.
    destruct (commit_arrived w e (wit_Attempts item) (at_next a) Hr) as [Hr' Hout].
    { apply law_storableRow; [done|]. by eapply attempt_storable. }
    destruct (b_CommitWitness _ _ _ _) as [s' r]. cbn [fst snd] in *.
    destruct (CommitWitness_cases e (wit_Attempts item) (at_next a) (law_ok _ _ Hr)) as [[_ Heq]|[[? _]|[? _]]]; [|done..].
    rewrite Heq in Hr', Hout. cbn [fst snd] in *. rewrite Hout. by eexists (s', _), _.
  - intros _. eexists _, _. split_and!; [reflexivity|reflexivity|]. by rewrite delivery_arrive_calm.
Qed.

(** ** The pool *)

Abbreviation nextRow := (DeliverCalm.nextRow runner around now).
Abbreviation received := (DeliverCalm.received runner around now).
Abbreviation groupError := (DeliverCalm.groupError runner around now).
Abbreviation groupOutcome := (DeliverCalm.groupOutcome runner around now).

Variable e : Engine.
Variable pending : list WitnessState.
Hypothesis pending_stored : pending ⊆ st_Witnesses (state e).
Hypothesis pending_keys : NoDup (map keyOf pending).
Hypothesis rows_keys : NoDup (map keyOf (st_Witnesses (state e))).
Hypothesis rows_storable : Forall row_storable (st_Witnesses (state e)).

Definition left (pool : Pool (S := S)) (id : string) : list WitnessState :=
  match pl_tasks pool !! id with Some task => tk_items task | None => [] end.

(** A row while the goroutines run. *)
Definition current (pool : Pool) (row : WitnessState) : WitnessState :=
  if tried runner around now pending row && negb (bool_decide (row ∈ tries (left pool (wit_WitnessID row))))
  then nextRow row else row.

(** A goroutine has dealt with the first rows of its group, or is about to send
    what its group should give. *)
Definition task_ok (id : string) (task : Task) : Prop :=
  match task with
  | Delivering items n => exists done, groupOf pending id = done ++ items /\
      tries (groupOf pending id) = done ++ tries items /\
      groupError (groupOf pending id) = groupError items /\
      n = zlen (List.filter received done)
  | Sending out => out = groupOutcome pending id
  | Returning => True
  end.

Definition hasSent (task : option Task) : Prop := task = None \/ task = Some Returning.

Record progress (pool : Pool) : Prop := {
  pg_store : represents (fst (pl_world pool)) (withRows e (map (current pool) (st_Witnesses (state e))));
  pg_tasks : map_Forall task_ok (pl_tasks pool);
  pg_results : exists sent, NoDup sent /\ ch_buffer (pl_results pool) = map (groupOutcome pending) sent /\
    forall id, id ∈ sent <-> id ∈ dom (groupItems pending) /\ hasSent (pl_tasks pool !! id)
}.

Lemma group_elem (id : string) (row : WitnessState) :
  row ∈ groupOf pending id <-> row ∈ pending /\ wit_WitnessID row = id.
Proof.
  unfold groupOf. rewrite list_elem_of_In, filter_In, <- list_elem_of_In. unfold sameWitness. by rewrite bool_decide_eq_true.
Qed.

Lemma group_NoDup (id : string) : NoDup (groupOf pending id).
Proof. apply NoDup_ListNoDup, List.NoDup_filter, NoDup_ListNoDup. by eapply NoDup_fmap_1. Qed.

Lemma current_key (pool : Pool) (row : WitnessState) : keyOf (current pool row) = keyOf row.
Proof.
  unfold current, DeliverCalm.nextRow. destruct (_ && _); [|done]. destruct (settled row) as [a|] eqn:Ha; [|done].
  apply settled_Some in Ha as [Ha _]. by apply (attempt_next _ _ _ _ _ Ha).
Qed.

(** The next row of a goroutine has not changed, and is not tried again. *)
Lemma next_row (pool : Pool) (id : string) (item : WitnessState) (items : list WitnessState) (n : Z) :
  map_Forall task_ok (pl_tasks pool) -> pl_tasks pool !! id = Some (Delivering (item :: items) n) ->
  wit_WitnessID item = id /\ item ∈ st_Witnesses (state e) /\ row_storable item /\ (item ∉ items) /\
  (is_Some (settled item) -> current pool item = item).
Proof.
  intros Htasks Ht. destruct (Htasks _ _ Ht) as (done & Hg & Htr & _ & _). cbn [tk_items] in *.
  assert (item ∈ groupOf pending id) as [Hin <-]%group_elem by (rewrite Hg; set_solver).
  split_and!; [done|by apply pending_stored| | |].
  - rewrite Forall_forall in rows_storable. by apply rows_storable, pending_stored.
  - pose proof (group_NoDup (wit_WitnessID item)) as Hnd. rewrite Hg in Hnd. apply NoDup_app in Hnd as (_ & _ & Hnd).
    by apply NoDup_cons in Hnd as [? _].
  - intros [a Ha]. unfold current, left. rewrite Ht. cbn [tk_items DeliverCalm.tries]. rewrite Ha.
    rewrite (bool_decide_true (item ∈ _)) by set_solver. by rewrite andb_false_r.
Qed.

(** A goroutine that has not sent goes on, to its next row or to its send. *)
Lemma progress_goes (pool : Pool) (id : string) (items : list WitnessState) (n : Z) (w : World) (task : Task) :
  progress pool -> pl_tasks pool !! id = Some (Delivering items n) -> task_ok id task -> task <> Returning ->
  let pool' := MkPool w (<[id := task]> (pl_tasks pool)) (pl_results pool) (pl_wait pool) in
  represents (fst w) (withRows e (map (current pool') (st_Witnesses (state e)))) -> progress pool'.
Proof.
  intros [_ Htasks (sent & Hnd & Hres & Hsent)] Ht Hok Hne pool' Hr. split; [done|by apply map_Forall_insert_2|].
  exists sent. split_and!; [done..|]. intros i. rewrite Hsent. unfold pool', hasSent. cbn [pl_tasks].
  rewrite lookup_insert. case_decide as Hi; [|done]. subst i. rewrite Ht. naive_solver.
Qed.

(** Only what is left of its own group decides a row. *)
Lemma current_same (pool pool' : Pool) (id : string) (row : WitnessState) :
  (forall i, i <> id -> left pool' i = left pool i) -> (wit_WitnessID row = id -> row ∈ tries (left pool' id) <-> row ∈ tries (left pool id)) ->
  current pool' row = current pool row.
Proof.
  intros Hne Hid. unfold current. destruct (decide (wit_WitnessID row = id)) as [Heq|Hrow].
  - rewrite Heq. by rewrite (bool_decide_ext _ _ (Hid Heq)).
  - by rewrite Hne.
Qed.

Lemma zlen_received (items : list WitnessState) (item : WitnessState) (a : Attempt) (n : Z) :
  settled item = Some a -> n = zlen (List.filter received items) ->
  (if at_success a then n + 1 else n) = zlen (List.filter received (items ++ [item])).
Proof.
  intros Ha ->. rewrite List.filter_app. cbn [List.filter]. assert (received item = at_success a) as -> by (unfold DeliverCalm.received; by rewrite Ha).
  destruct (at_success a); [|by rewrite app_nil_r]. by rewrite zlen_app.
Qed.

(** A committed row: the other rows stay as they are. *)
Lemma current_committed (pool pool' : Pool) (item x : WitnessState) (items pre post : list WitnessState) (n : Z) (a : Attempt) :
  map_Forall task_ok (pl_tasks pool) -> pl_tasks pool !! wit_WitnessID item = Some (Delivering (item :: items) n) ->
  settled item = Some a -> map (current pool) (st_Witnesses (state e)) = pre ++ x :: post -> keyOf item = keyOf x ->
  (forall i, i <> wit_WitnessID item -> left pool' i = left pool i) ->
  left pool' (wit_WitnessID item) = (if at_retryable a then [] else items) ->
  map (current pool') (st_Witnesses (state e)) = pre ++ at_next a :: post.
Proof.
  intros Htasks Ht Ha Hrows Hkey Hne Hl.
  destruct (next_row pool _ item items n Htasks Ht) as (_ & Hin & _ & Hni & _).
  eapply (map_update keyOf (current pool)); [exact rows_keys|apply current_key|exact Hrows|exact Hin|exact Hkey| |].
  - unfold current. rewrite Hl. destruct (Htasks _ _ Ht) as (done & Hg & Htr & _ & _). cbn [tk_items] in *.
    unfold tried. rewrite Htr. cbn [DeliverCalm.tries]. rewrite Ha.
    rewrite bool_decide_true by set_solver. rewrite bool_decide_false; [unfold DeliverCalm.nextRow; by rewrite Ha|].
    destruct (at_retryable a); [apply not_elem_of_nil|]. intros Hbad. by apply tries_subset in Hbad.
  - intros r _ Hr. apply (current_same _ _ (wit_WitnessID item)); [done|]. intros _. rewrite Hl. unfold left.
    rewrite Ht. cbn [tk_items DeliverCalm.tries]. rewrite Ha. destruct (at_retryable a); set_solver.
Qed.

Lemma left_set (pool : Pool) (w : World) (id : string) (task : Task) (results : Channel) (n : Z) (i : string) :
  left (MkPool w (<[id := task]> (pl_tasks pool)) results n) i = if decide (id = i) then tk_items task else left pool i.
Proof. unfold left. cbn [pl_tasks]. rewrite lookup_insert. by case_decide. Qed.

Lemma progress_delivering (pool : Pool) (id : string) (items : list WitnessState) (n : Z) :
  progress pool -> pl_tasks pool !! id = Some (Delivering items n) -> progress (stepPool turns runner now pool id).
Proof.
  intros Hp Ht. pose proof Hp as [Hstore Htasks _]. unfold stepPool. rewrite Ht. unfold stepDelivering.
  pose proof (Htasks _ _ Ht) as (dealt & Hg & Htr & Herr & Hn).
  destruct items as [|item items].
  { eapply progress_goes; [done|done| |done|].
    - cbn [task_ok]. unfold DeliverCalm.groupOutcome. by rewrite Htr, Herr, Hn, app_nil_r.
    - cbn [fst]. erewrite map_ext; [exact Hstore|]. intros row.
      apply (current_same _ _ id); [intros i Hi|intros _]; rewrite left_set; case_decide; [congruence|done| |congruence].
      unfold left. by rewrite Ht. }
  destruct (next_row pool id item items n Htasks Ht) as (<- & Hin & Hstor & Hni & Hcur).
  cbn [DeliverCalm.tries DeliverCalm.groupError] in Htr, Herr. destruct (settled item) as [a|] eqn:Ha.
  - destruct (deliver_settled (pl_world pool) _ item a Hstore) as (w & pre & x & post & -> & Hrows & Hkey & Hr);
      [|done|done|].
    { cbn [state withRows with_rows st_Witnesses]. rewrite <- (Hcur ltac:(done)). by apply list_elem_of_fmap_2. }
    cbn [state withRows with_rows st_Witnesses] in Hrows.
    change (withRows (withRows ?e _) ?rows) with (withRows e rows) in Hr.
    pose proof (zlen_received dealt item a n Ha Hn) as Hn'.
    destruct (at_retryable a) eqn:Hret; (eapply progress_goes; [done|done| |done|]).
    + cbn [task_ok]. unfold DeliverCalm.groupOutcome. by rewrite Htr, Herr, Hn'.
    + cbn [fst]. erewrite current_committed; [exact Hr|exact Htasks|exact Ht|exact Ha|exact Hrows|exact Hkey| |];
        [intros i Hi|]; rewrite left_set; case_decide; [congruence|done|by rewrite Hret|congruence].
    + exists (dealt ++ [item]). rewrite <- !app_assoc. by split_and!.
    + cbn [fst]. erewrite current_committed; [exact Hr|exact Htasks|exact Ht|exact Ha|exact Hrows|exact Hkey| |];
        [intros i Hi|]; rewrite left_set; case_decide; [congruence|done|by rewrite Hret|congruence].
  - destruct (deliver_failed (pl_world pool) _ item Hstore) as (w & err & -> & Hfail & Hr); [done..|].
    eapply progress_goes; [done|done| |done|].
    + cbn [task_ok]. unfold DeliverCalm.groupOutcome. by rewrite Htr, Herr, Hn, app_nil_r, Hfail.
    + cbn [fst]. erewrite map_ext; [exact Hr|]. intros row.
      apply (current_same _ _ (wit_WitnessID item)); [intros i Hi|intros _]; rewrite left_set; case_decide;
        [congruence|done| |congruence].
      unfold left. rewrite Ht. cbn [tk_items DeliverCalm.tries]. by rewrite Ha.
Qed.

(** Past the last delivery the rows stay as they are. *)
Lemma current_past (pool : Pool) (tasks : gmap string Task) (results : Channel) (n : Z) (id : string) (row : WitnessState) :
  left pool id = [] -> (forall i, i <> id -> tasks !! i = pl_tasks pool !! i) ->
  tasks !! id = None \/ tasks !! id = Some Returning ->
  current (MkPool (pl_world pool) tasks results n) row = current pool row.
Proof.
  intros Hl Hne Hid. apply (current_same _ _ id); [intros i Hi|intros _; rewrite Hl]; unfold left; cbn [pl_tasks]; [by rewrite Hne|].
  by destruct Hid as [-> | ->].
Qed.

Lemma progress_sending (pool : Pool) (id : string) (out : Z * check) :
  pool_ok (dom (groupItems pending)) pool -> progress pool -> pl_tasks pool !! id = Some (Sending out) ->
  progress (stepPool turns runner now pool id).
Proof.
  intros Hok [Hstore Htasks (sent & Hnd & Hres & Hsent)] Ht. unfold stepPool. rewrite Ht, (send_ok _ _ _ _ Hok Ht).
  pose proof (Htasks _ _ Ht) as Hout. cbn [task_ok] in Hout.
  split; cbn [pl_world pl_tasks pl_results ch_buffer].
  - erewrite map_ext; [exact Hstore|]. intros row. apply (current_past _ _ _ _ id).
    + unfold left. by rewrite Ht.
    + intros i Hi. by rewrite lookup_insert_ne.
    + rewrite lookup_insert_eq. by right.
  - by apply map_Forall_insert_2.
  - exists (sent ++ [id]). split_and!.
    + apply NoDup_app. split_and!; [done| |apply NoDup_singleton]. intros i Hi%Hsent ->%list_elem_of_singleton.
      destruct Hi as [_ [Hi|Hi]]; congruence.
    + by rewrite map_app, Hres, Hout.
    + intros i. rewrite elem_of_app, list_elem_of_singleton, Hsent, lookup_insert. unfold hasSent. case_decide as Hi; [|naive_solver].
      subst i. split; [|tauto]. intros _. split; [|by right]. apply (po_tasks _ _ Hok), elem_of_dom. by eexists.
Qed.

Lemma progress_step (pool : Pool) (id : string) :
  pool_ok (dom (groupItems pending)) pool -> progress pool -> progress (stepPool turns runner now pool id).
Proof.
  intros Hok Hp. destruct (pl_tasks pool !! id) as [[items n|out|]|] eqn:Ht.
  - by eapply progress_delivering.
  - by eapply progress_sending.
  - destruct Hp as [Hstore Htasks (sent & Hnd & Hres & Hsent)]. unfold stepPool. rewrite Ht.
    split; cbn [pl_world pl_tasks pl_results].
    + erewrite map_ext; [exact Hstore|]. intros row. apply (current_past _ _ _ _ id).
      * unfold left. by rewrite Ht.
      * intros i Hi. by rewrite lookup_delete_ne.
      * rewrite lookup_delete_eq. by left.
    + by apply map_Forall_delete.
    + exists sent. split_and!; [done..|]. intros i. rewrite Hsent, lookup_delete. unfold hasSent. case_decide; [|done].
      subst i. rewrite Ht. naive_solver.
  - unfold stepPool. by rewrite Ht.
Qed.

(** ** Whole calls *)

Lemma progress_start (w : World) :
  represents (fst w) e -> progress (spawn w (groupItems pending)).
Proof.
  intros Hr. assert (forall id, left (spawn w (groupItems pending)) id = groupOf pending id) as Hl.
  { intros id. unfold left, groupOf. cbn [spawn pl_tasks]. rewrite <- (proj1 (groupItems_lookup pending id)), lookup_fmap.
    by destruct (groupItems pending !! id). }
  split; cbn [spawn pl_world pl_tasks pl_results ch_buffer].
  - erewrite map_ext_in, map_id; [|intros row _].
    { cbn [fst]. replace (withRows e _) with e; [done|]. by destruct e as [es vs []]. }
    unfold current, tried. rewrite Hl. destruct (bool_decide _); [|done]. by cbn.
  - intros id task Ht. pose proof (Hl id) as Hid. unfold left in Hid. cbn [spawn pl_tasks] in Hid. rewrite Ht in Hid.
    apply lookup_fmap_Some in Ht as (items & <- & _). exists []. cbn [tk_items] in Hid. by rewrite Hid.
  - exists []. split_and!; [constructor|done|]. intros id. rewrite elem_of_nil, elem_of_dom, lookup_fmap. unfold hasSent.
    destruct (groupItems pending !! id); [|naive_solver]. cbn. naive_solver.
Qed.

Lemma progress_run (schedule : list string) (pool : Pool) :
  pool_ok (dom (groupItems pending)) pool -> progress pool -> progress (runPool turns runner schedule now pool).
Proof.
  revert pool. induction schedule as [|id schedule IH]; intros pool Hok Hp; [done|].
  apply IH; [by apply stepPool_ok|by apply progress_step].
Qed.

Lemma group_ids (id : string) : id ∈ dom (groupItems pending) <-> id ∈ map wit_WitnessID pending.
Proof.
  destruct (groupItems_lookup pending id) as [Hg Hne]. transitivity (groupOf pending id <> []).
  - rewrite elem_of_dom. split; [intros [items Hi]; apply Hne; by rewrite Hi|]. intros Hn. unfold groupOf in Hn.
    rewrite <- Hg in Hn. by destruct (groupItems pending !! id).
  - split.
    + intros Hn. destruct (groupOf pending id) as [|row rows] eqn:Hr; [done|].
      assert (row ∈ groupOf pending id) as [Hin <-]%group_elem by (rewrite Hr; left). by apply list_elem_of_fmap_2.
    + intros (row & -> & Hin)%list_elem_of_fmap Hn. assert (row ∈ groupOf pending (wit_WitnessID row)) as Hr by by apply group_elem.
      rewrite Hn in Hr. by apply elem_of_nil in Hr.
Qed.

Lemma pool_calm (schedule : list string) (w : World) :
  represents (fst w) e ->
  let pool := runPool turns runner schedule now (spawn w (groupItems pending)) in
  pl_wait pool = 0 ->
  represents (fst (pl_world pool)) (withRows e (map (delivered runner around now pending) (st_Witnesses (state e)))) /\
  exists order, order ≡ₚ remove_dups (map wit_WitnessID pending) /\
    ch_buffer (pl_results pool) = map (groupOutcome pending) order.
Proof.
  intros Hr pool Hwait. pose proof (spawn_ok w (groupItems pending)) as Hstart.
  apply (wait_zero (dom (groupItems pending)) pool) in Hwait as Hend; [|by apply runPool_ok].
  destruct (progress_run schedule _ Hstart (progress_start w Hr)) as [Hstore _ (sent & Hnd & Hres & Hsent)].
  fold pool in Hstore, Hres, Hsent. split.
  - erewrite map_ext; [exact Hstore|]. intros row. unfold delivered, current, left. rewrite Hend, lookup_empty.
    cbn [DeliverCalm.tries]. rewrite (bool_decide_false (row ∈ [])) by apply not_elem_of_nil. by rewrite andb_true_r.
  - exists sent. split; [|done]. apply NoDup_Permutation; [done|apply NoDup_remove_dups|]. intros id.
    rewrite elem_of_remove_dups, Hsent, Hend, lookup_empty, group_ids. unfold hasSent. tauto.
Qed.

End Calm.

(** ** The outcome of a call *)

Section Outcome.
Context {X : Type} `{DT : DtMmr} `{CB : Cbor} `{CS : Cose} `{TX : Texts}.
Variable runner : DeliveryRunner X.
Variable around : Around X.
Variable now : Z.

Abbreviation tries := (DeliverCalm.tries runner around now).
Abbreviation received := (DeliverCalm.received runner around now).
Abbreviation groupError := (DeliverCalm.groupError runner around now).
Abbreviation groupOutcome := (DeliverCalm.groupOutcome runner around now).

(** The rows that get a receipt. *)
Definition completed (pending : list WitnessState) : list WitnessState :=
  List.filter (fun row => tried runner around now pending row && received row) pending.

Lemma tried_none (rows : list WitnessState) : List.filter (fun r => bool_decide (r ∈ [])) rows = [].
Proof. apply filter_none. intros r _. apply bool_decide_false, not_elem_of_nil. Qed.

Lemma tries_filter (rows : list WitnessState) :
  NoDup rows -> List.filter (fun row => bool_decide (row ∈ tries rows)) rows = tries rows.
Proof.
  induction rows as [|row rows IH]; [done|]. intros [Hni Hnd]%NoDup_cons. cbn [DeliverCalm.tries List.filter].
  assert (forall l, (row ∉ l) -> List.filter (fun r => bool_decide (r ∈ row :: l)) rows = List.filter (fun r => bool_decide (r ∈ l)) rows)
    as Hskip.
  { intros l Hl. apply List.filter_ext_in. intros r Hr%list_elem_of_In. apply bool_decide_ext. set_solver. }
  destruct (settled runner around now row) as [a|].
  - rewrite bool_decide_true by left. f_equal. destruct (at_retryable a).
    + by rewrite Hskip, tried_none by apply not_elem_of_nil.
    + rewrite Hskip; [by apply IH|]. intros Hin%tries_subset. done.
  - by rewrite bool_decide_false, tried_none by apply not_elem_of_nil.
Qed.

Lemma filter_filter {A} (p q : A -> bool) (l : list A) :
  List.filter p (List.filter q l) = List.filter (fun x => q x && p x) l.
Proof.
  induction l as [|x l IH]; [done|]. cbn [List.filter]. destruct (q x); cbn [List.filter andb]; [|done]. by rewrite IH.
Qed.

(** The receipts of a witness are the completed rows of its group. *)
Lemma group_completed (pending : list WitnessState) (id : string) :
  NoDup pending -> List.filter received (tries (groupOf pending id)) =
  List.filter (fun row => tried runner around now pending row && received row) (groupOf pending id).
Proof.
  intros Hnd. rewrite <- tries_filter by (by apply NoDup_ListNoDup, List.NoDup_filter, NoDup_ListNoDup).
  rewrite filter_filter. apply List.filter_ext_in. intros row [_ Hid]%filter_In. unfold sameWitness in Hid. gobool.
  unfold tried. by rewrite Hid.
Qed.

Definition sum (l : list Z) : Z := foldr Z.add 0 l.

Lemma sum_map_add {A} (f g : A -> Z) (l : list A) :
  sum (map (fun x => f x + g x) l) = sum (map f l) + sum (map g l).
Proof. induction l as [|x l IH]; [done|]. unfold sum in *. cbn [map foldr]. lia. Qed.

Lemma sum_one (x : string) (ids : list string) :
  NoDup ids -> x ∈ ids -> sum (map (fun id => if bool_decide (x = id) then 1 else 0) ids) = 1.
Proof.
  intros Hnd Hin. induction Hnd as [|id ids Hni Hnd IH]; [by apply elem_of_nil in Hin|]. unfold sum in *. cbn [map foldr].
  case_bool_decide as Hx; [|apply elem_of_cons in Hin as [?|Hin]; [done|by rewrite IH]]. subst id.
  enough (foldr Z.add 0 (map (fun id => if bool_decide (x = id) then 1 else 0) ids) = 0) by lia.
  clear - Hni. induction ids as [|id ids IH]; [done|]. apply not_elem_of_cons in Hni as [Hne Hni]. cbn [map foldr].
  rewrite bool_decide_false by done. by rewrite IH.
Qed.

(** Every row is in the group of its witness only. *)
Lemma sum_groups (p : WitnessState -> bool) (rows : list WitnessState) (ids : list string) :
  NoDup ids -> Forall (fun row => wit_WitnessID row ∈ ids) rows ->
  sum (map (fun id => zlen (List.filter p (groupOf rows id))) ids) = zlen (List.filter p rows).
Proof.
  intros Hnd Hin. induction Hin as [|row rows Hrow _ IH].
  - clear. induction ids as [|id ids IH]; [done|]. unfold sum in *. cbn [map foldr]. by rewrite IH.
  - rewrite (map_ext _ (fun id => (if p row then if bool_decide (wit_WitnessID row = id) then 1 else 0 else 0) +
      zlen (List.filter p (groupOf rows id)))).
    + rewrite sum_map_add, IH. cbn [List.filter]. destruct (p row).
      * rewrite sum_one by done. unfold zlen. cbn [length]. lia.
      * rewrite <- (Z.add_0_l (zlen _)) at 2. f_equal. clear. induction ids as [|id ids IH]; [done|]. by cbn.
    + intros id. unfold groupOf, sameWitness. cbn [List.filter].
      destruct (bool_decide _); cbn [List.filter]; destruct (p row); unfold zlen; cbn [length]; lia.
Qed.

Lemma collect_spec (results : list (Z * check)) (n : Z) :
  (Forall (fun r => snd r = Ok tt) results -> collect results n = (n + sum (map fst results), Ok tt)) /\
  (forall err, snd (collect results n) = Err err -> exists m, (m, Err err) ∈ results) /\
  (Exists (fun r => snd r <> Ok tt) results -> snd (collect results n) <> Ok tt).
Proof.
  revert n. induction results as [|[m r] results IH]; intros n.
  { split_and!; [intros _; cbn; by rewrite Z.add_0_r|done|by intros ?%Exists_nil]. }
  destruct r as [[]|err]; cbn [collect].
  - destruct (IH (n + m)) as (H1 & H2 & H3). split_and!.
    + intros [_ Hall]%Forall_cons. rewrite H1 by done. unfold sum. cbn [map foldr fst]. f_equal. lia.
    + intros err Herr. destruct (H2 err Herr) as [k Hk]. exists k. by right.
    + intros [?|?]%Exists_cons; [done|]. by apply H3.
  - split_and!; [intros [? _]%Forall_cons; done|intros err' [= ->]; exists m; left|done].
Qed.

(** If no goroutine fails the call counts the rows that got a receipt, and
    otherwise it fails as one of them. *)
Lemma collect_groups (pending : list WitnessState) (order : list string) :
  NoDup (map keyOf pending) -> order ≡ₚ remove_dups (map wit_WitnessID pending) ->
  let out := collect (map (groupOutcome pending) order) 0 in
  ((forall row, row ∈ pending -> groupError (groupOf pending (wit_WitnessID row)) = Ok tt) ->
   out = (zlen (completed pending), Ok tt)) /\
  (forall err, snd out = Err err -> exists row, row ∈ pending /\ groupError (groupOf pending (wit_WitnessID row)) = Err err) /\
  (forall row err, row ∈ pending -> groupError (groupOf pending (wit_WitnessID row)) = Err err -> snd out <> Ok tt).
Proof.
  intros Hk%NoDup_fmap_1 Horder out.
  assert (forall id, id ∈ order <-> exists row, row ∈ pending /\ wit_WitnessID row = id) as Hids.
  { intros id. rewrite Horder, elem_of_remove_dups, list_elem_of_fmap. by split; intros (row & H1 & H2); exists row. }
  destruct (collect_spec (map (groupOutcome pending) order) 0) as (H1 & H2 & H3). fold out in H1, H2, H3. split_and!.
  - intros Hok. rewrite H1, map_map.
    + f_equal. rewrite Z.add_0_l. unfold completed. rewrite <- (sum_groups _ pending order).
      * f_equal. apply map_ext. intros id. cbn [fst]. unfold DeliverCalm.groupOutcome. cbn [fst]. by rewrite group_completed.
      * rewrite Horder. apply NoDup_remove_dups.
      * apply Forall_forall. intros row Hr. apply Hids. by exists row.
    + apply Forall_map, Forall_forall. intros id (row & Hr & <-)%Hids. cbn. by apply Hok.
  - intros err (m & (id & Heq & Hid)%list_elem_of_fmap)%H2. apply Hids in Hid as (row & Hr & <-). exists row. split; [done|].
    unfold DeliverCalm.groupOutcome in Heq. congruence.
  - intros row err Hr Herr. apply H3, Exists_exists. eexists. split; [apply list_elem_of_fmap_2, Hids; by exists row|].
    cbn. by rewrite Herr.
Qed.

End Outcome.

End DeliverCalm.
