(* ===== verification/DeliverClaims.v ===== *)
(** * What witness delivery promises

    Deliveries keep the store sound, beside each other and beside the checkpoint
    runner; no interleaving of a call deadlocks; and what it makes of
    the rows is the same for every interleaving.  Each is tried on the rows the
    checkpoint runner leaves in a store in memory, with the client and the
    receipt verifier. *)

From S2P Require Import Prelude Sha256 Hex Text Json Geometry DtMmr DtMmrRef Mmr MmrBuild Cll Portable Engine EngineLog.
From S2P Require Import EngineState EngineHistory EngineWitness WireProofs JournalProofs JournalText JsonlReplay Backend.
From S2P Require Import Memory Rfc3339 Codec CodecRef Checkpoint CheckpointRecord CheckpointClaims Rfc9162 Delivery Runner.
From S2P Require Import RunnerSpec RunnerStep RunnerProofs RunnerRely RunnerCalm RunnerClaims Client Verify VerifyClaims ClientClaims.
From S2P Require Import Deliver DeliverProofs DeliverCalm.
Import Text Cll Portable Engine EngineLog EngineState EngineHistory EngineWitness WireProofs JournalProofs JournalText JsonlReplay.
Import Backend CodecRef Checkpoint CheckpointClaims Rfc9162 Delivery Runner RunnerSpec RunnerProofs Client Verify.
Import VerifyClaims ClientClaims Deliver DeliverProofs DeliverCalm.

Module DeliverClaims.

Local Open Scope Z_scope.

Section Claims.
Context {S Env X : Type} `{BL : BackendLaws S Env} `{!DtMmrLaws DT} `{CB : Cbor} `{CS : Cose} `{TX : Texts}.
Variable turns : nat -> Turn S Env (Around X).
Variable runner : DeliveryRunner X.

(** C32: over any backend, from a store whose state indexes its log, every call
    of [RunOnce], however its goroutines are interleaved, and every run of the
    host loop leave such a store or a closed one, and what it represents only
    moves forward, provided the others keep the store in between. *)
Theorem deliveries_keep_the_log {E} `{SG : Signer E} `{!SignerLaws E} (rc : RunnerConfig) (w : World) (e : Engine) :
  (forall k s, keeps rc s (t_others (turns k) s)) -> represents (fst w) e -> sound rc e ->
  (forall schedule now limit w' out,
     RunOnce turns runner schedule w now limit = Some (w', out) -> reaches rc e (fun _ => True) (fst w')) /\
  (forall rounds schedules clock wakes w' err,
     Run turns runner rounds schedules clock wakes 0 w = Some (w', err) -> reaches rc e (fun _ => True) (fst w')).
Proof.
  intros Hrely Hr Hs. split.
  - intros schedule now limit w' out Hrun.
    exact (keeps_sound rc _ _ (RunOnce_keeps_store rc turns runner Hrely _ _ _ _ _ _ Hrun) e Hr Hs).
  - intros rounds schedules clock wakes w' err Hrun.
    exact (keeps_sound rc _ _ (Run_keeps_store rc turns runner Hrely _ _ _ _ _ _ _ _ Hrun) e Hr Hs).
Qed.

(** C33: the goroutines of a call of [RunOnce] never deadlock, whatever the
    store and the witnesses answer.  The caller receives only once the counter of
    the [WaitGroup] is zero, so every outcome must find room in the channel:
    however the goroutines have run so far, each returns after at most as many
    further turns as there are due rows and three more, and then so does the
    call; and from every such point there is a way on to the end. *)
Theorem deliveries_end (before : list string) (w : World) (now limit : Z) :
  (forall schedule,
     (forall item, item ∈ dueRows turns w now limit ->
        (length (dueRows turns w now limit) + 3 <= turnsOf (wit_WitnessID item) schedule)%nat) ->
     is_Some (RunOnce turns runner (before ++ schedule) w now limit)) /\
  exists schedule, is_Some (RunOnce turns runner (before ++ schedule) w now limit).
Proof.
  split; [intros schedule; exact (RunOnce_ends turns runner before schedule w now limit)|].
  exists (roundRobin (dueRows turns w now limit)). apply (RunOnce_ends turns runner), roundRobin_fair.
Qed.

(** C34: over a store nobody else moves, with witnesses that answer by the
    submission alone, every interleaving of the goroutines of a call gives the
    same rows: each due row its witness reaches, trying in order up to the first
    retryable failure, is replaced by what the delivery made of it, and nothing
    else is changed.  A row gets a receipt only if its checkpoint is signed and
    the verifier of its witness accepted the receipt.  If no goroutine fails, the
    call returns the number of receipts; it fails if one does, and as one of
    them. *)
Theorem deliveries_are_independent (around : Around X) (schedule : list string) (w w' : World) (e : Engine)
    (now limit : Z) (pending : list WitnessState) (out : Z * check) :
  let t := NormalizeTime now in
  let failed row := groupError runner around t (groupOf pending (wit_WitnessID row)) in
  (forall k, calm around (turns k)) -> represents (fst w) e -> Forall row_storable (st_Witnesses (state e)) ->
  PendingWitnesses e t limit = Ok pending -> RunOnce turns runner schedule w now limit = Some (w', out) ->
  represents (fst w') (withRows e (map (delivered runner around t pending) (st_Witnesses (state e)))) /\
  (forall row, delivered runner around t pending row = row \/
     exists a, row_outcome runner around t row a /\ delivered runner around t pending row = at_next a) /\
  ((forall row, row ∈ pending -> failed row = Ok tt) -> out = (zlen (completed runner around t pending), Ok tt)) /\
  (forall err, snd out = Err err -> exists row, row ∈ pending /\ failed row = Err err) /\
  (forall row err, row ∈ pending -> failed row = Err err -> snd out <> Ok tt).
Proof.
  intros t failed Hcalm Hr Hrows Hp Hrun. pose proof (wf_keys _ (ok_state _ (law_ok _ _ Hr))) as Hkeys.
  destruct (pending_rows e t limit pending Hp) as [Hsub Hnd]. specialize (Hnd Hkeys). unfold Deliver.RunOnce in Hrun.
  assert (represents (fst (arrive turns w)) e) as Hr' by by rewrite (delivery_arrive_calm around turns Hcalm).
  unfold turnOf in Hrun. rewrite (calm_pending _ _ (Hcalm (snd w)) _ e _ _ Hr') in Hrun. fold t in Hrun. rewrite Hp in Hrun.
  destruct (_ =? _) eqn:Hend; [|done]. apply Z.eqb_eq in Hend. injection Hrun as <- <-.
  destruct (pool_calm runner around turns Hcalm t e pending Hsub Hnd Hkeys Hrows schedule _ Hr' Hend) as (Hstore & order & Horder & Hres).
  split; [exact Hstore|]. split.
  - intros row. unfold delivered, nextRow. destruct (tried _ _ _ _ _); [|by left].
    destruct (settled runner around t row) as [a|] eqn:Ha; [right|by left]. exists a. split; [|done].
    apply settled_Some in Ha as [Ha _]. by apply attempt_outcome.
  - rewrite Hres. by apply collect_groups.
Qed.

End Claims.

(** ** Rows the checkpoint runner left *)

Import Ref Memory RunnerClaims.

Definition deliveryConfig : RunnerConfig :=
  MkRunnerConfig "log" (MkConfig 2 (900 * Second)) 2 (60 * Second)
    ["https://other.example"%string; "https://witness.example"%string].

Definition deliveryWorld : World (S := Store) :=
  fst (Runner.RunOnce (DT := dt_reference) (SG := sampleRunnerSigner) calmTurns deliveryConfig runnerWorld runnerNow).

Definition deliveryEngine : Engine := engine (fst deliveryWorld).

Abbreviation soundHere := (RunnerSpec.sound (DT := dt_reference) (SG := sampleRunnerSigner) deliveryConfig).

Lemma delivery_start : represents (DT := dt_reference) (fst deliveryWorld) deliveryEngine /\ soundHere deliveryEngine.
Proof.
  assert (keeps (DT := dt_reference) (SG := sampleRunnerSigner) deliveryConfig (fst runnerWorld) (fst deliveryWorld)) as Hk.
  { apply (RunnerRely.RunOnce_keeps (DT := dt_reference)); [|vm_compute; split; congruence].
    apply (RunnerCalm.calm_rely (DT := dt_reference)), calmTurns_calm. }
  destruct (keeps_sound _ _ _ Hk runnerEngine runner_represented (runnerEngine_sound _)) as [Hs|(e & [Heq He] & Hs & _)].
  - exfalso. assert (closed (fst deliveryWorld) = false) as Hopen by (vm_compute; reflexivity).
    unfold shut in Hs. cbn in Hs. congruence.
  - unfold deliveryEngine. rewrite Heq. exact (conj (conj eq_refl He) Hs).
Qed.

(** The statement, and a receipt for it from a log of four entries. *)
Definition dueRow : WitnessState := List.hd (MkWitness "" 0 [] 0 0 None false "") (st_Witnesses (state deliveryEngine)).

Definition dueRecord : Record_ := okOr (rootRecord "") (ParseRecord (DT := dt_reference) (wit_Checkpoint dueRow)).
Definition dueEntry : bytes := okOr [] (EntryHash dueRecord).
Definition dueLog : list bytes := [[Byte.x01]; [Byte.x02]; dueEntry; [Byte.x04]].
Definition dueBlob : bytes := write [write 4; write 2; write (inclusionPath 2 dueLog)].
Definition dueReceipt : Receipt :=
  MkReceipt (receiptBytes (1, -8, [dueBlob], signatureOf authorityKey (Some (mth dueLog))))
    (Hex.EncodeToString dueEntry) "legacy" 2 4.

(** One witness answers with the receipt, and the other is busy. *)
Definition answer (statement : bytes) : Exchange :=
  MkExchange None (inr (MkResponse 201 (Json.encode (responseJson dueReceipt newerMembers)) None)).

Definition submitTo (exchange : (bytes -> Exchange) -> bytes -> Exchange) : Submitter (bytes -> Exchange) :=
  fun around statement => Submit (DT := dt_reference) sampleClient (exchange around statement) statement.

Definition sampleVerify : Verifier := Verify (DT := dt_reference) sampleVerifier.

Definition sampleDeliveries : DeliveryRunner (bytes -> Exchange) :=
  MkDeliveryRunner (MkDeliveryConfig Minute Second (60 * Minute) false)
    (<["https://other.example"%string := submitTo (fun _ _ => busyExchange)]>
     {["https://witness.example"%string := submitTo (fun around => around)]})
    (<["https://other.example"%string := sampleVerify]> {["https://witness.example"%string := sampleVerify]}).

Definition deliveryAround : Around (bytes -> Exchange) := MkAround (Ok tt) answer (fun n => n).

Definition calmDeliveries (k : nat) : Turn Store check (Around (bytes -> Exchange)) :=
  MkTurn (fun s => s) (Ok tt) deliveryAround.

Definition busyDeliveries (k : nat) : Turn Store check (Around (bytes -> Exchange)) :=
  MkTurn (fun s => call s (CallAppend (Ok tt) (sampleInput Byte.x05))) (Ok tt) deliveryAround.

Definition turnsTaken : list string :=
  ["https://witness.example"; "https://other.example"; "https://witness.example"; "https://other.example";
   "https://other.example"; "https://witness.example"; "https://witness.example"]%string.

Definition delivers (turns : nat -> Turn Store check (Around (bytes -> Exchange))) :
    option (World (S := Store) * (Z * check)) :=
  RunOnce (DT := dt_reference) turns sampleDeliveries turnsTaken deliveryWorld runnerNow 10.

Lemma calmDeliveries_calm (k : nat) : calm (DT := dt_reference) deliveryAround (calmDeliveries k).
Proof.
  split.
  - done.
  - done.
  - intros s e now limit [-> _]. done.
  - intros s e attempts next [-> He] _. cbn [b_CommitWitness memory_backend calmDeliveries t_env]. unfold CommitWitness.
    cbn [closed engine]. pose proof (perform_step (DT := dt_reference) e (OpCommitWitness attempts next) He I) as [He' _].
    cbn [perform] in He'. destruct (Engine.CommitWitness e attempts next) as [e' r]. cbn [fst snd] in *. done.
Qed.

Lemma busyDeliveries_keep (k : nat) (s : Store) :
  keeps (DT := dt_reference) (SG := sampleRunnerSigner) deliveryConfig s (t_others (busyDeliveries k) s).
Proof. apply (call_keeps (DT := dt_reference) deliveryConfig s (CallAppend (Ok tt) (sampleInput Byte.x05))). done. Qed.

Definition ended {A} (o : option A) : bool := match o with Some _ => true | None => false end.

Definition worldOf (w : World (S := Store)) (o : option (World (S := Store) * (Z * check))) : World (S := Store) :=
  match o with Some (w, _) => w | None => w end.

Definition deliveredWorld : World (S := Store) := worldOf deliveryWorld (delivers calmDeliveries).

Definition duePending : list WitnessState :=
  okOr [] (Engine.PendingWitnesses deliveryEngine (NormalizeTime runnerNow) 10).

(** ** Witnesses *)

Lemma deliveries_keep_the_log_witness :
  exists w out, delivers busyDeliveries = Some (w, out) /\
    reaches (DT := dt_reference) (SG := sampleRunnerSigner) deliveryConfig deliveryEngine (fun _ => True) (fst w).
Proof.
  destruct delivery_start as [Hr Hs].
  assert (forall w out, delivers busyDeliveries = Some (w, out) ->
    reaches (DT := dt_reference) (SG := sampleRunnerSigner) deliveryConfig deliveryEngine (fun _ => True) (fst w)) as Hk.
  { unfold delivers. exact (proj1 (deliveries_keep_the_log (DT := dt_reference) busyDeliveries sampleDeliveries (SG := sampleRunnerSigner)
    deliveryConfig deliveryWorld deliveryEngine busyDeliveries_keep Hr Hs) turnsTaken runnerNow 10). }
  assert (ended (delivers busyDeliveries) = true) as Hended by (vm_compute; reflexivity).
  destruct (delivers busyDeliveries) as [[w out]|]; [|discriminate Hended].
  exact (ex_intro _ w (ex_intro _ out (conj eq_refl (Hk w out eq_refl)))).
Defined.

Lemma deliveries_end_witness :
  let rows := dueRows busyDeliveries deliveryWorld runnerNow 10 in
  is_Some (RunOnce (DT := dt_reference) busyDeliveries sampleDeliveries
    (["https://other.example"; "https://other.example"; "https://other.example"]%string ++ roundRobin rows)
    deliveryWorld runnerNow 10).
Proof.
  exact (proj1 (deliveries_end (DT := dt_reference) busyDeliveries sampleDeliveries _ deliveryWorld runnerNow 10)
    _ (roundRobin_fair _)).
Defined.

Lemma deliveries_are_independent_witness :
  represents (DT := dt_reference) (fst deliveredWorld)
    (withRows deliveryEngine (map (delivered (DT := dt_reference) sampleDeliveries deliveryAround (NormalizeTime runnerNow)
      duePending) (st_Witnesses (state deliveryEngine)))) /\
  completed (DT := dt_reference) sampleDeliveries deliveryAround (NormalizeTime runnerNow) duePending <> [].
Proof.
  assert (delivers calmDeliveries = Some (deliveredWorld, (1, Ok tt))) as Hrun.
  { assert (match delivers calmDeliveries with Some (_, out) => bool_decide (out = (1, Ok tt)) | None => false end = true)
      as Hout by (vm_compute; reflexivity).
    unfold deliveredWorld. destruct (delivers calmDeliveries) as [[w out]|]; [|discriminate Hout].
    apply bool_decide_eq_true in Hout. rewrite Hout. reflexivity. }
  assert (Engine.PendingWitnesses deliveryEngine (NormalizeTime runnerNow) 10 = Ok duePending) as Hp by (vm_compute; reflexivity).
  assert (Forall row_storable (st_Witnesses (state deliveryEngine))) as Hrows.
  { pose proof (ix_rows _ _ _ (sound_indexes _ _ (proj2 delivery_start))) as Hix.
    apply Forall_forall. intros row Hin. exact (proj2 (proj1 (Forall_forall _ _) Hix row Hin)). }
  split.
  - unfold delivers in Hrun. refine (proj1 (deliveries_are_independent (DT := dt_reference) calmDeliveries sampleDeliveries deliveryAround turnsTaken
      deliveryWorld deliveredWorld deliveryEngine runnerNow 10 duePending (1, Ok tt) calmDeliveries_calm (proj1 delivery_start) Hrows Hp Hrun)).
  - vm_compute. discriminate.
Defined.

End DeliverClaims.
