(* ===== verification/Sql.v ===== *)
(** * Relational tables and statements

    The four tables of the SQL backends and the statements the two packages
    issue, each one step on the tables.  A database transaction is a program of
    statements; [faults] says which statement fails and how, so that a program has
    an outcome for every failure of the driver.  How a column of type TEXT or
    VARCHAR compares is its collation. *)

From S2P Require Import Prelude Cll Engine.
Import Cll Engine.

Module Sql.

Local Open Scope Z_scope.

(** ** Tables *)

Record MetaRow := MkMetaRow {
  mr_log_id : string;
  mr_state : bytes
}.

Record EntryRow := MkEntryRow {
  er_log_id : string;
  er_seq : Z;
  er_value : bytes;
  er_appended_at : string
}.

Record NodeRow := MkNodeRow {
  nr_log_id : string;
  nr_position : Z;
  nr_node : bytes
}.

Record WitnessRow := MkWitnessRow {
  wr_log_id : string;
  wr_witness_id : string;
  wr_checkpoint_size : string;
  wr_attempts : Z;
  wr_witness : bytes
}.

#[global] Instance MetaRow_eq_dec : EqDecision MetaRow.
Proof. solve_decision. Defined.
#[global] Instance EntryRow_eq_dec : EqDecision EntryRow.
Proof. solve_decision. Defined.
#[global] Instance NodeRow_eq_dec : EqDecision NodeRow.
Proof. solve_decision. Defined.
#[global] Instance WitnessRow_eq_dec : EqDecision WitnessRow.
Proof. solve_decision. Defined.

(** A table that does not exist is [None]; rows have no order of their own. *)
Record Tables := MkTables {
  cll_meta : option (list MetaRow);
  cll_entries : option (list EntryRow);
  cll_nodes : option (list NodeRow);
  cll_witnesses : option (list WitnessRow)
}.

Definition noTables : Tables := MkTables None None None None.

(** ** Failures *)

(** An error of the code, or one of the driver with its code. *)
Inductive failure :=
| Plain (err : error)
| Driver (code : Z).

(** An error as it is: one of the driver has no sentinel. *)
Definition unclassified (f : failure) : error :=
  match f with
  | Plain err => err
  | Driver _ => ErrText "database"
  end.

(** A statement that is refused has no effect; of one that is lost the effect
    remains and the answer is an error. *)
Inductive fault :=
| Refused (f : failure)
| Lost (f : failure).

Definition faultOf (f : fault) : failure := match f with Refused f | Lost f => f end.

Definition Faults : Type := nat -> option fault.

Definition noFaults : Faults := fun _ => None.

(** ** Programs of statements *)

(** The locks of InnoDB that matter here: on the metadata row of a log, and on
    the row of a witness.  SQLite locks the whole database. *)
Inductive Lock :=
| OnMeta (logID : string)
| OnWitness (logID witnessID checkpointSize : string).

(** A program ends, or issues a statement and goes on with its answer: a query,
    which with [FOR UPDATE] locks what it reads, or one that writes and locks
    what it writes. *)
Inductive Program (A : Type) : Type :=
| Return (r : failure + A)
| Query {B : Type} (forUpdate : list Lock) (answer : Tables -> failure + B) (next : B -> Program A)
| Update {B : Type} (locks : list Lock) (effect : Tables -> Tables * (failure + B)) (next : B -> Program A).
Arguments Return {A} r.
Arguments Query {A B} forUpdate answer next.
Arguments Update {A B} locks effect next.

#[export] Instance program_ret : MRet Program := fun A a => Return (inr a).

#[export] Instance program_bind : MBind Program := fun A B k =>
  fix bind (m : Program A) : Program B :=
    match m with
    | Return (inl f) => Return (inl f)
    | Return (inr a) => k a
    | Query locks answer next => Query locks answer (fun b => bind (next b))
    | Update locks effect next => Update locks effect (fun b => bind (next b))
    end.

Definition fail {A} (f : failure) : Program A := Return (inl f).

(** An outcome of Go code between the statements. *)
Definition lift {A} (r : result A) : Program A :=
  match r with
  | Ok a => mret a
  | Err err => fail (Plain err)
  end.

Definition statement {A} (locks : list Lock) (effect : Tables -> Tables * (failure + A)) : Program A :=
  Update locks effect mret.

(** A statement that changes nothing; [reading] takes no lock. *)
Definition query {A} (forUpdate : list Lock) (answer : Tables -> failure + A) : Program A :=
  Query forUpdate answer mret.

Definition reading {A} : (Tables -> failure + A) -> Program A := query [].

(** A program alone on the tables, from the number of the next statement. *)
Fixpoint exec {A} (p : Program A) (faults : Faults) (s : nat * Tables) : (nat * Tables) * (failure + A) :=
  match p with
  | Return r => (s, r)
  | Query _ answer next =>
      let '(k, t) := s in
      match faults k with
      | Some f => ((S k, t), inl (faultOf f))
      | None => match answer t with inl f => ((S k, t), inl f) | inr b => exec (next b) faults (S k, t) end
      end
  | Update _ effect next =>
      let '(k, t) := s in
      match faults k with
      | Some (Refused f) => ((S k, t), inl f)
      | Some (Lost f) => ((S k, fst (effect t)), inl f)
      | None =>
          match effect t with
          | (t, inl f) => ((S k, t), inl f)
          | (t, inr b) => exec (next b) faults (S k, t)
          end
      end
  end.

Coercion exec : Program >-> Funclass.

(** ** Statements *)

Class Collation := {
  sameText : string -> string -> bool;
  textBefore : string -> string -> bool
}.

(** Codes of a failure of the driver that the code tells apart from others, or
    that a statement of the code can raise: a missing table and a duplicate key. *)
Class Dialect := {
  noSuchTable : Z;
  duplicateKey : Z
}.

Section Statements.
Context `{CO : Collation} `{DI : Dialect}.

(** [FROM table WHERE p], in the order [before]. *)
Definition selectFrom {A} (table : option (list A)) (p : A -> bool) (before : A -> A -> bool) : failure + list A :=
  match table with
  | None => inl (Driver noSuchTable)
  | Some rows => inr (SliceStable before (List.filter p rows))
  end.

(** The row of a key. *)
Definition selectRow {A} (table : option (list A)) (p : A -> bool) : failure + option A :=
  match table with
  | None => inl (Driver noSuchTable)
  | Some rows => inr (find p rows)
  end.

(** [INSERT], where [clash] says which rows share a key with the new one. *)
Definition insertInto {A} (table : option (list A)) (clash : A -> bool) (row : A) : failure + list A :=
  match table with
  | None => inl (Driver noSuchTable)
  | Some rows => if existsb clash rows then inl (Driver duplicateKey) else inr (rows ++ [row])
  end.

(** [CREATE TABLE IF NOT EXISTS] for one table *)
Definition createMeta : Program unit := statement [] (fun t =>
  (MkTables (Some (default [] (cll_meta t))) (cll_entries t) (cll_nodes t) (cll_witnesses t), inr tt)).
Definition createEntries : Program unit := statement [] (fun t =>
  (MkTables (cll_meta t) (Some (default [] (cll_entries t))) (cll_nodes t) (cll_witnesses t), inr tt)).
Definition createNodes : Program unit := statement [] (fun t =>
  (MkTables (cll_meta t) (cll_entries t) (Some (default [] (cll_nodes t))) (cll_witnesses t), inr tt)).
Definition createWitnesses : Program unit := statement [] (fun t =>
  (MkTables (cll_meta t) (cll_entries t) (cll_nodes t) (Some (default [] (cll_witnesses t))), inr tt)).

(** [INSERT OR IGNORE INTO cll_meta(log_id,state)] *)
Definition insertMetaOrIgnore (logID : string) (state : bytes) : Program unit := statement [] (fun t =>
  match insertInto (cll_meta t) (fun row => sameText (mr_log_id row) logID) (MkMetaRow logID state) with
  | inl (Driver code) => if code =? duplicateKey then (t, inr tt) else (t, inl (Driver code))
  | inl f => (t, inl f)
  | inr rows => (MkTables (Some rows) (cll_entries t) (cll_nodes t) (cll_witnesses t), inr tt)
  end).

(** [SELECT state FROM cll_meta WHERE log_id=?], and with [FOR UPDATE] *)
Definition selectMeta (logID : string) (forUpdate : bool) : Program (option bytes) :=
  query (if forUpdate then [OnMeta logID] else []) (fun t =>
  match selectRow (cll_meta t) (fun row => sameText (mr_log_id row) logID) with
  | inl f => inl f
  | inr row => inr (mr_state <$> row)
  end).

(** [UPDATE cll_meta SET state=? WHERE log_id=?] *)
Definition updateMeta (logID : string) (state : bytes) : Program unit := statement [OnMeta logID] (fun t =>
  match cll_meta t with
  | None => (t, inl (Driver noSuchTable))
  | Some rows =>
      let update row := if sameText (mr_log_id row) logID then MkMetaRow (mr_log_id row) state else row in
      (MkTables (Some (map update rows)) (cll_entries t) (cll_nodes t) (cll_witnesses t), inr tt)
  end).

(** [SELECT seq,value,appended_at FROM cll_entries WHERE log_id=? ORDER BY seq] *)
Definition selectEntries (logID : string) : Program (list EntryRow) := reading (fun t =>
  selectFrom (cll_entries t) (fun row => sameText (er_log_id row) logID) (fun a b => er_seq a <? er_seq b)).

(** [... WHERE log_id=? AND seq>? ORDER BY seq LIMIT ?] *)
Definition selectEntriesAfter (logID : string) (afterSeq limit : Z) : Program (list EntryRow) := reading (fun t =>
  match selectFrom (cll_entries t) (fun row => sameText (er_log_id row) logID && (afterSeq <? er_seq row))
          (fun a b => er_seq a <? er_seq b) with
  | inl f => inl f
  | inr rows => inr (take (Z.to_nat limit) rows)
  end).

(** [... WHERE log_id=? AND value=?] *)
Definition selectEntry (logID : string) (value : bytes) : Program (option EntryRow) := reading (fun t =>
  selectRow (cll_entries t) (fun row => sameText (er_log_id row) logID && bool_decide (er_value row = value))).

(** [SELECT MAX(seq) FROM cll_entries WHERE log_id=?] *)
Definition selectMaxSeq (logID : string) : Program (option Z) := reading (fun t =>
  match selectFrom (cll_entries t) (fun row => sameText (er_log_id row) logID) (fun _ _ => false) with
  | inl f => inl f
  | inr [] => inr None
  | inr (row :: rows) => inr (Some (fold_left (fun m row => Z.max m (er_seq row)) rows (er_seq row)))
  end).

(** [INSERT INTO cll_entries(log_id,seq,value,appended_at)] *)
Definition insertEntry (row : EntryRow) : Program unit := statement [] (fun t =>
  let clash other := sameText (er_log_id other) (er_log_id row) &&
                     ((er_seq other =? er_seq row) || bool_decide (er_value other = er_value row)) in
  match insertInto (cll_entries t) clash row with
  | inl f => (t, inl f)
  | inr rows => (MkTables (cll_meta t) (Some rows) (cll_nodes t) (cll_witnesses t), inr tt)
  end).

(** [SELECT position,node FROM cll_nodes WHERE log_id=? ORDER BY position] *)
Definition selectNodes (logID : string) : Program (list NodeRow) := reading (fun t =>
  selectFrom (cll_nodes t) (fun row => sameText (nr_log_id row) logID) (fun a b => nr_position a <? nr_position b)).

(** [INSERT INTO cll_nodes(log_id,position,node)] *)
Definition insertNode (row : NodeRow) : Program unit := statement [] (fun t =>
  let clash other := sameText (nr_log_id other) (nr_log_id row) && (nr_position other =? nr_position row) in
  match insertInto (cll_nodes t) clash row with
  | inl f => (t, inl f)
  | inr rows => (MkTables (cll_meta t) (cll_entries t) (Some rows) (cll_witnesses t), inr tt)
  end).

(** [ORDER BY checkpoint_size,witness_id] *)
Definition witnessBefore (a b : WitnessRow) : bool :=
  textBefore (wr_checkpoint_size a) (wr_checkpoint_size b) ||
  (sameText (wr_checkpoint_size a) (wr_checkpoint_size b) && textBefore (wr_witness_id a) (wr_witness_id b)).

(** [SELECT witness_id,checkpoint_size,attempts,witness FROM cll_witnesses WHERE log_id=? ...] *)
Definition selectWitnesses (logID : string) : Program (list WitnessRow) := reading (fun t =>
  selectFrom (cll_witnesses t) (fun row => sameText (wr_log_id row) logID) witnessBefore).

Definition sameWitnessKey (logID witnessID checkpointSize : string) (row : WitnessRow) : bool :=
  sameText (wr_log_id row) logID && sameText (wr_witness_id row) witnessID &&
  sameText (wr_checkpoint_size row) checkpointSize.

(** [... WHERE log_id=? AND witness_id=? AND checkpoint_size=?] *)
Definition selectWitness (logID witnessID checkpointSize : string) : Program (option WitnessRow) := reading (fun t =>
  selectRow (cll_witnesses t) (sameWitnessKey logID witnessID checkpointSize)).

(** [INSERT INTO cll_witnesses(log_id,witness_id,checkpoint_size,attempts,witness)] *)
Definition insertWitness (row : WitnessRow) : Program unit := statement [] (fun t =>
  match insertInto (cll_witnesses t)
          (sameWitnessKey (wr_log_id row) (wr_witness_id row) (wr_checkpoint_size row)) row with
  | inl f => (t, inl f)
  | inr rows => (MkTables (cll_meta t) (cll_entries t) (cll_nodes t) (Some rows), inr tt)
  end).

(** [UPDATE cll_witnesses SET attempts=?,witness=? WHERE ... AND attempts=?] and
    its [RowsAffected], by which rows count. *)
Definition updateWitness (counts : WitnessRow -> WitnessRow -> bool) (logID witnessID checkpointSize : string)
    (expectedAttempts attempts : Z) (witness : bytes) : Program Z :=
  statement [OnWitness logID witnessID checkpointSize] (fun t =>
  match cll_witnesses t with
  | None => (t, inl (Driver noSuchTable))
  | Some rows =>
      let matches row := sameWitnessKey logID witnessID checkpointSize row && (wr_attempts row =? expectedAttempts) in
      let update row :=
        if matches row
        then MkWitnessRow (wr_log_id row) (wr_witness_id row) (wr_checkpoint_size row) attempts witness else row in
      (MkTables (cll_meta t) (cll_entries t) (cll_nodes t) (Some (map update rows)),
       inr (zlen (List.filter (fun row => matches row && counts row (update row)) rows)))
  end).

(** Locks exclude each other on one row. *)
Definition sameLock (a b : Lock) : bool :=
  match a, b with
  | OnMeta log, OnMeta log' => sameText log log'
  | OnWitness log id size, OnWitness log' id' size' =>
      sameText log log' && sameText id id' && sameText size size'
  | _, _ => false
  end.

End Statements.

End Sql.
