(* ===== verification/SqlStore.v ===== *)
(** * What the SQL backends share: [src/store/sqlite/store.go], [src/store/mysql/store.go]

    The programs of statements inside the transactions of the two packages,
    which have the same code but for the locking clauses.  An outcome of a query
    covers the errors of its rows and of closing them. *)

From S2P Require Import Prelude Text Json DtMmr Mmr Cll Portable Engine Wire Journal Sql.
Import Text Cll Portable Engine Wire Journal Sql.

Module SqlStore.

Local Open Scope Z_scope.
Local Open Scope u64_scope.

(** ** Rows *)

(** [rows.Scan] into an integer of Go. *)
Definition scan (low high n : Z) : result Z :=
  if (low <=? n) && (n <? high) then Ok n else Err (ErrText "converting driver value").

Definition scanUint64 : Z -> result Z := scan 0 two64.
Definition scanInt64 : Z -> result Z := scan (- two63) two63.
Definition scanUint32 : Z -> result Z := scan 0 4294967296.

(** The loop of [validateEntries]. *)
Fixpoint checkRows (rows : list EntryRow) (expected : Z) : check :=
  match rows with
  | [] => Ok tt
  | row :: rows =>
      seq ← scanUint64 (er_seq row);
      if negb (seq =? expected) || (MaxPortableInteger <? seq) || negb (zlen (er_value row) =? EntryBytes)
      then Err ErrCorrupt
      else if negb (is_ok (ParseTime (er_appended_at row))) then Err ErrCorrupt
      else checkRows rows (expected +u 1)
  end.

Definition entryFromRow (seq : Z) (value : bytes) (timestamp : string) : result Entry :=
  if (seq =? 0) || (MaxPortableInteger <? seq) || negb (zlen value =? EntryBytes) then Err ErrCorrupt
  else
    match ParseTime timestamp with
    | Err _ => Err ErrCorrupt
    | Ok appendedAt => Ok (MkEntry seq value appendedAt)
    end.

(** [Scan(&seq, &value, &timestamp)], then [entryFromRow]. *)
Definition scanEntry (row : EntryRow) : result Entry :=
  seq ← scanUint64 (er_seq row); entryFromRow seq (er_value row) (er_appended_at row).

(** [json.Unmarshal] of the metadata and of a witness. *)
Definition UnmarshalState (raw : bytes) : option WireState :=
  v ← Json.decode raw; decStruct stateField zeroState v.

Definition UnmarshalWire (raw : bytes) : option WireWitness :=
  v ← Json.decode raw; decStruct witnessField zeroWitness v.

(** The node loop of [loadState]. *)
Fixpoint nodesFrom (rows : list NodeRow) (position : Z) : result (list string) :=
  match rows with
  | [] => Ok []
  | row :: rows =>
      stored ← scanUint64 (nr_position row);
      if negb (stored =? position) then Err ErrCorrupt
      else nodes ← nodesFrom rows (position +u 1); Ok (encode (nr_node row) :: nodes)
  end.

(** One row of [loadWireWitnesses]. *)
Definition wireFromRow (row : WitnessRow) : result WireWitness :=
  attempts ← scanUint32 (wr_attempts row);
  match UnmarshalWire (wr_witness row) with
  | None => Err ErrCorrupt
  | Some witness =>
      if negb (bool_decide (ww_WitnessID witness = wr_witness_id row)) ||
         negb (bool_decide (ww_CheckpointSize witness = wr_checkpoint_size row)) ||
         negb (ww_Attempts witness =? attempts)
      then Err ErrCorrupt
      else Ok witness
  end.

(** [wire.Nodes = ...; wire.Witnesses = ...] *)
Definition withTables (wire : WireState) (nodes : list string) (witnesses : list WireWitness) : WireState :=
  MkWireState (ws_Size wire) (ws_IndexedSeq wire) nodes (ws_FirstPendingAt wire) (ws_Checkpoint wire)
    (ws_CheckpointSize wire) (ws_CheckpointIndexedSeq wire) (ws_CheckpointPeaks wire) witnesses.

(** [backend.WireState{Size: "0", IndexedSeq: "0", ...}] *)
Definition onlyWitnesses (witnesses : list WireWitness) : WireState :=
  MkWireState "0" "0" [] None None None None None witnesses.

Section Store.
Context `{CO : Collation} `{DI : Dialect} `{DT : DtMmr}.
Variable logID : string.

Definition validateEntries : Program unit := rows ← selectEntries logID; lift (checkRows rows 1).

Definition loadWireWitnesses : Program (list WireWitness) :=
  rows ← selectWitnesses logID; lift (traverse wireFromRow rows).

Definition loadState (forUpdate : bool) : Program State :=
  raw ← selectMeta logID forUpdate;
  match raw with
  | None => fail (Plain ErrCorrupt)
  | Some raw =>
      match UnmarshalState raw with
      | None => fail (Plain ErrCorrupt)
      | Some wire =>
          rows ← selectNodes logID;
          nodes ← lift (nodesFrom rows 0);
          witnesses ← loadWireWitnesses;
          lift (StateFromWire (withTables wire nodes witnesses))
      end
  end.

(** The schema, and the empty metadata of a log that has none. *)
Definition provisionLog : Program unit :=
  _ ← createMeta; _ ← createEntries; _ ← createNodes; _ ← createWitnesses;
  empty ← lift (MarshalMetadata emptyState);
  insertMetaOrIgnore logID empty.

(** [uint64(maximum.Int64) + 1], or one. *)
Definition nextSeq (maximum : option Z) : result Z :=
  match maximum with
  | None => Ok 1
  | Some m => m ← scanInt64 m; Ok ((m mod two64) +u 1)
  end.

(** [Append] *)
Definition appendEntry (input : AppendInput) : Program AppendResult :=
  row ← selectEntry logID (input_Value input);
  match row with
  | Some row => entry ← lift (scanEntry row); mret (MkAppendResult entry AppendIdempotent)
  | None =>
      maximum ← selectMaxSeq logID;
      seq ← lift (nextSeq maximum);
      if MaxPortableInteger <? seq then fail (Plain ErrInvalid)
      else
        match FormatTime (input_AppendedAt input) with
        | Err _ => fail (Plain ErrInvalid)
        | Ok timestamp =>
            _ ← insertEntry (MkEntryRow logID seq (input_Value input) timestamp);
            mret (MkAppendResult (MkEntry seq (input_Value input) (NormalizeTime (input_AppendedAt input))) AppendInserted)
        end
  end.

Definition invalidInput (input : AppendInput) : bool :=
  negb (zlen (input_Value input) =? EntryBytes) || badTime (input_AppendedAt input).

(** [GetEntry] *)
Definition getEntry (identity : bytes) : Program Entry :=
  if negb (zlen identity =? EntryBytes) then fail (Plain ErrInvalid)
  else
    row ← selectEntry logID identity;
    match row with
    | None => fail (Plain ErrNotFound)
    | Some row => lift (scanEntry row)
    end.

(** [ScanEntries] *)
Definition scanEntries (afterSeq limit : Z) : Program (list Entry) :=
  if (MaxPortableInteger <? afterSeq) || (limit <? 1) || (MaxScanLimit <? limit) then fail (Plain ErrInvalid)
  else rows ← selectEntriesAfter logID afterSeq limit; lift (traverse scanEntry rows).

(** The node loop of [CommitCLL], from [position]. *)
Fixpoint insertNodes (position : Z) (nodes : list bytes) : Program unit :=
  match nodes with
  | [] => mret tt
  | node :: nodes =>
      _ ← insertNode (MkNodeRow logID position node);
      insertNodes (position + 1) nodes
  end.

(** The witness loop of [CommitCLL]. *)
Fixpoint insertWitnesses (existing : gset string) (witnesses : list WitnessState) : Program unit :=
  match witnesses with
  | [] => mret tt
  | witness :: witnesses =>
      if bool_decide (keyOf witness ∈ existing) then insertWitnesses existing witnesses
      else
        encoded ← lift (MarshalWitness witness);
        _ ← insertWitness (MkWitnessRow logID (wit_WitnessID witness) (FormatUint (wit_CheckpointSize witness))
                             (wit_Attempts witness) encoded);
        insertWitnesses existing witnesses
  end.

(** [CommitCLL] after its [loadState]. *)
Definition commitState (current : State) (expectedSize : Z) (expectedCheckpoint : option bytes) (next : State) :
    Program unit :=
  updated ← lift (ApplyCLL current expectedSize expectedCheckpoint next);
  metadata ← lift (MarshalMetadata updated);
  _ ← updateMeta logID metadata;
  _ ← insertNodes (zlen (st_Nodes current)) (drop (length (st_Nodes current)) (st_Nodes updated));
  insertWitnesses (list_to_set (map keyOf (st_Witnesses current))) (st_Witnesses updated).

(** [PendingWitnesses] *)
Definition pendingWitnesses (now limit : Z) : Program (list WitnessState) :=
  witnesses ← loadWireWitnesses;
  state ← lift (StateFromWire (onlyWitnesses witnesses));
  match Replace New [] state with
  | (_, Err err) => fail (Plain err)
  | (engine, Ok _) => lift (PendingWitnesses engine now limit)
  end.

(** [GetWitness] *)
Definition getWitness (witnessID : string) (checkpointSize : Z) : Program WitnessState :=
  if negb (is_ok (ValidateIdentifier witnessID)) || (checkpointSize =? 0) then fail (Plain ErrInvalid)
  else
    row ← selectWitness logID witnessID (FormatUint checkpointSize);
    match row with
    | None => fail (Plain ErrNotFound)
    | Some row =>
        attempts ← lift (scanUint32 (wr_attempts row));
        result ← lift (UnmarshalWitness (wr_witness row));
        if negb (wit_Attempts result =? attempts) || negb (bool_decide (wit_WitnessID result = witnessID)) ||
           negb (wit_CheckpointSize result =? checkpointSize)
        then fail (Plain ErrCorrupt)
        else mret result
    end.

(** [CommitWitness] up to its [UPDATE]: the JSON of the new row. *)
Definition readWitness (expectedAttempts : Z) (next : WitnessState) : Program bytes :=
  row ← selectWitness logID (wit_WitnessID next) (FormatUint (wit_CheckpointSize next));
  match row with
  | None => fail (Plain ErrContention)
  | Some row =>
      current ← lift (UnmarshalWitness (wr_witness row));
      updated ← lift (ApplyWitness (MkState 0 [] 0 None None [current]) expectedAttempts next);
      witness ← lift (index (st_Witnesses updated) 0);
      lift (MarshalWitness witness)
  end.

(** The [UPDATE] of [CommitWitness]. *)
Definition writeWitness (counts : WitnessRow -> WitnessRow -> bool) (expectedAttempts : Z) (next : WitnessState)
    (encoded : bytes) : Program unit :=
  changed ← updateWitness counts logID (wit_WitnessID next) (FormatUint (wit_CheckpointSize next))
              expectedAttempts (wit_Attempts next) encoded;
  if negb (changed =? 1) then fail (Plain ErrContention) else mret tt.

End Store.

End SqlStore.
