(* ===== verification/Sqlite.v ===== *)
(** * The SQLite backend: [src/store/sqlite/store.go]

    A method is one transaction on the database file.  Every statement of it,
    its [BEGIN], its [COMMIT] and the connection it runs on have an outcome in
    [Faults]; a transaction that is not committed is rolled back by the
    [ROLLBACK] of the code or by the database.  The locks of [sharedLocks] make
    methods of one process exclude each other, so a method is one step; what is
    left of the registry is how many handles hold a lock.  [BEGIN IMMEDIATE]
    and [BEGIN] differ in when another process is refused, which is a fault of
    one of their statements. *)

From S2P Require Import Prelude DtMmr Mmr Cll Portable Engine Journal Sql SqlStore.
Import Cll Portable Engine Journal Sql SqlStore.

Module Sqlite.

Local Open Scope Z_scope.

(** ** The dialect *)

(** Columns of type TEXT compare by their bytes. *)
#[export] Instance binary_collation : Collation := {
  sameText a b := bool_decide (a = b);
  textBefore := String.ltb
}.

(** [SQLITE_ERROR] and [SQLITE_CONSTRAINT] *)
#[export] Instance sqlite_dialect : Dialect := {
  noSuchTable := 1;
  duplicateKey := 19
}.

(** [SQLITE_CANTOPEN] *)
Definition cannotOpen : Z := 14.

(** [SQLITE_BUSY] and [SQLITE_LOCKED] are contention. *)
Definition classify (f : failure) : error :=
  match f with
  | Plain err => err
  | Driver code =>
      let code := Z.land code 255 in
      if (code =? 5) || (code =? 6) then ErrContention else unclassified f
  end.

(** ** The registry of locks *)

Abbreviation Locks := (gmap string Z).

Definition acquireShared (key : string) (items : Locks) : Locks :=
  <[key := default 0 (items !! key) + 1]> items.

Definition releaseShared (key : string) (items : Locks) : Locks :=
  match items !! key with
  | None => items
  | Some refs =>
      let refs := refs - 1 in
      if refs =? 0 then delete key items else <[key := refs]> items
  end.

(** ** Transactions *)

Record Store := MkStore {
  db : Tables;
  logID : string;
  lockKey : string;
  closed : bool
}.

Definition with_db (s : Store) (t : Tables) : Store := MkStore t (logID s) (lockKey s) (closed s).

(** [db.Conn], [BEGIN], the operation, [COMMIT], and closing the connection; a
    commit whose answer is lost has taken place. *)
Definition runTransaction {A} (faults : Faults) (k : nat) (t : Tables) (operation : Program A) : Tables * result A :=
  match faults k, faults (S k) with
  | Some f, _ => (t, Err (classify (faultOf f)))
  | None, Some f => (t, Err (classify (faultOf f)))
  | None, None =>
      match operation faults (S (S k), t) with
      | (_, inl f) => (t, Err (classify f))
      | ((k, t'), inr a) =>
          match faults k, faults (S k) with
          | Some (Refused f), _ => (t, Err (classify f))
          | Some (Lost f), _ => (t', Err (classify f))
          | None, Some f => (t', Err (unclassified (faultOf f)))
          | None, None => (t', Ok a)
          end
      end
  end.

Definition withTransaction {A} (s : Store) (faults : Faults) (operation : Program A) : Store * result A :=
  if closed s then (s, Err ErrClosed)
  else let '(t, r) := runTransaction faults 0 (db s) operation in (with_db s t, r).

Definition withWrite {A} (s : Store) (faults : Faults) (operation : Program A) : Store * result A :=
  withTransaction s faults operation.

(** The operations of readers are queries. *)
Definition withRead {A} (s : Store) (faults : Faults) (operation : Program A) : result A :=
  snd (withTransaction s faults operation).

(** ** Opening *)

Definition pragma : Program unit := statement [] (fun t => (t, inr tt)).

Section Sqlite.
Context `{DT : DtMmr}.

Definition validateOpen (logID : string) : Program unit :=
  _ ← validateEntries logID; _ ← loadState logID false; mret tt.

Definition validateOpenState (faults : Faults) (k : nat) (t : Tables) (logID : string) : Tables * check :=
  runTransaction faults k t (validateOpen logID).

(** The statements of [open] outside a transaction: each one that succeeds
    stays, whatever follows. *)
Definition provision (logID : string) (initialize : bool) : Program unit :=
  _ ← pragma;
  _ ← pragma;
  if initialize then
    _ ← pragma; provisionLog logID
  else mret tt.

(** The mode [rw] of the URI opens a file that exists, [rwc] creates one. *)
Definition openFile (initialize : bool) (file : option Tables) : option Tables :=
  match file with
  | Some t => Some t
  | None => if initialize then Some noTables else None
  end.

(** [absolute] is the outcome of [filepath.Abs], which cleans the path it
    returns; [file] is the database file there. *)
Definition open (items : Locks) (absolute : result string) (file : option Tables) (faults : Faults)
    (path logID : string) (initialize : bool) : Locks * option Tables * result Store :=
  if bool_decide (path = ""%string) || negb (is_ok (ValidateIdentifier logID)) then (items, file, Err ErrInvalid)
  else
    match absolute with
    | Err err => (items, file, Err err)
    | Ok absolute =>
        let key := String.append absolute (String Ascii.zero logID) in
        let items := acquireShared key items in
        match faults 0%nat with
        | Some f => (releaseShared key items, file, Err (unclassified (faultOf f)))
        | None =>
            match openFile initialize file with
            | None => (releaseShared key items, file, Err (classify (Driver cannotOpen)))
            | Some t =>
                match provision logID initialize faults (1%nat, t) with
                | ((_, t), inl f) => (releaseShared key items, Some t, Err (classify f))
                | ((k, t), inr _) =>
                    match validateOpenState faults k t logID with
                    | (t, Err err) => (releaseShared key items, Some t, Err err)
                    | (t, Ok _) => (items, Some t, Ok (MkStore t logID key false))
                    end
                end
            end
        end
    end.

Definition Open (items : Locks) (absolute : result string) (file : option Tables) (faults : Faults)
    (path logID : string) : Locks * option Tables * result Store :=
  open items absolute file faults path logID false.

(** [released] is the outcome of [db.Close]. *)
Definition Close (items : Locks) (s : Store) (released : check) : Locks * Store * check :=
  if closed s then (items, s, Ok tt)
  else (releaseShared (lockKey s) items, MkStore (db s) (logID s) (lockKey s) true, released).

Definition Init (items : Locks) (absolute : result string) (file : option Tables) (faults : Faults)
    (released : check) (path logID : string) : Locks * option Tables * check :=
  match open items absolute file faults path logID true with
  | (items, file, Err err) => (items, file, Err err)
  | (items, _, Ok store) =>
      let '(items, store, r) := Close items store released in (items, Some (db store), r)
  end.

(** ** Methods *)

Definition Append (s : Store) (faults : Faults) (input : AppendInput) : Store * result AppendResult :=
  withWrite s faults
    (if invalidInput input then fail (Plain ErrInvalid) else appendEntry (logID s) input).

Definition GetEntry (s : Store) (faults : Faults) (identity : bytes) : result Entry :=
  withRead s faults (getEntry (logID s) identity).

Definition ScanEntries (s : Store) (faults : Faults) (afterSeq limit : Z) : result (list Entry) :=
  withRead s faults (scanEntries (logID s) afterSeq limit).

Definition LoadCLL (s : Store) (faults : Faults) : result State :=
  withRead s faults (loadState (logID s) false).

Definition CommitCLL (s : Store) (faults : Faults) (expectedSize : Z) (expectedCheckpoint : option bytes)
    (next : State) : Store * check :=
  withWrite s faults
    (current ← loadState (logID s) false; commitState (logID s) current expectedSize expectedCheckpoint next).

Definition PendingWitnesses (s : Store) (faults : Faults) (now limit : Z) : result (list WitnessState) :=
  withRead s faults (pendingWitnesses (logID s) now limit).

Definition GetWitness (s : Store) (faults : Faults) (witnessID : string) (checkpointSize : Z) : result WitnessState :=
  withRead s faults (getWitness (logID s) witnessID checkpointSize).

(** [RowsAffected] counts the rows the [UPDATE] matched. *)
Definition CommitWitness (s : Store) (faults : Faults) (expectedAttempts : Z) (next : WitnessState) : Store * check :=
  withWrite s faults
    (encoded ← readWitness (logID s) expectedAttempts next;
     writeWitness (logID s) (fun _ _ => true) expectedAttempts next encoded).

End Sqlite.

End Sqlite.
