(* ===== verification/Mysql.v ===== *)
(** * The MySQL backend: [src/store/mysql/store.go]

    The programs of [SqlStore] in transactions of InnoDB at its default level,
    [REPEATABLE READ].  Other clients act before every statement of a
    transaction.  Its plain reads are of the snapshot the first of them takes;
    reads [FOR UPDATE] and writes are of what is committed by then, and lock what
    they touch until the end; its own writes are added to either.
    How the columns of type VARCHAR compare is the collation of the server. *)

From S2P Require Import Prelude DtMmr Mmr Cll Portable Engine Journal Sql SqlStore.
Import Cll Portable Engine Journal Sql SqlStore.

Module Mysql.

Local Open Scope Z_scope.

(** ** The dialect *)

(** [ER_NO_SUCH_TABLE] and [ER_DUP_ENTRY] *)
#[export] Instance mysql_dialect : Dialect := {
  noSuchTable := 1146;
  duplicateKey := 1062
}.

(** A duplicate key, a lock wait timeout and a deadlock are contention. *)
Definition classify (f : failure) : error :=
  match f with
  | Plain err => err
  | Driver code => if (code =? 1062) || (code =? 1205) || (code =? 1213) then ErrContention else unclassified f
  end.

(** The text of [sql.ErrNoRows]. *)
Definition noRows : error := ErrText "no rows in result set".

(** ** Transactions *)

Record Store := MkStore {
  db : Tables;
  logID : string;
  closed : bool
}.

Definition with_db (s : Store) (t : Tables) : Store := MkStore t (logID s) (closed s).

(** A transaction that is open: what is committed by now, the snapshot, what it
    has written, the locks it holds, and the number of its next statement. *)
Record Session := MkSession {
  committed : Tables;
  snapshot : option Tables;
  written : list (Tables -> Tables);
  held : list Lock;
  number : nat
}.

(** What others make of the committed tables before a statement, beside the
    locks the transaction holds. *)
Definition Others : Type := nat -> list Lock -> Tables -> Tables.

Definition nobody : Others := fun _ _ t => t.

Definition replay (writes : list (Tables -> Tables)) (t : Tables) : Tables := fold_left (fun t write => write t) writes t.

Definition begin (t : Tables) (k : nat) : Session := MkSession t None [] [] k.

(** The others act, and the statement gets its number. *)
Definition proceed (others : Others) (s : Session) : Session :=
  MkSession (others (number s) (held s) (committed s)) (snapshot s) (written s) (held s) (S (number s)).

Fixpoint run {A} (faults : Faults) (others : Others) (p : Program A) (s : Session) : Session * (failure + A) :=
  match p with
  | Return r => (s, r)
  | Query forUpdate answer next =>
      let fault := faults (number s) in
      let s := proceed others s in
      match fault with
      | Some f => (s, inl (faultOf f))
      | None =>
          (** a locking read sees what is committed, a plain one the snapshot *)
          let view := match forUpdate with [] => default (committed s) (snapshot s) | _ => committed s end in
          let s := MkSession (committed s) (match forUpdate with [] => Some view | _ => snapshot s end) (written s)
                     (forUpdate ++ held s) (number s) in
          match answer (replay (written s) view) with
          | inl f => (s, inl f)
          | inr b => run faults others (next b) s
          end
      end
  | Update locks effect next =>
      let fault := faults (number s) in
      let s := proceed others s in
      match fault with
      | Some f => (s, inl (faultOf f))
      | None =>
          let answer := snd (effect (replay (written s) (committed s))) in
          let s := MkSession (committed s) (snapshot s) (written s ++ [fun t => fst (effect t)]) (locks ++ held s)
                     (number s) in
          match answer with
          | inl f => (s, inl f)
          | inr b => run faults others (next b) s
          end
      end
  end.

(** [BeginTx], the operation, [Commit] or [Rollback]: what the others have made
    of the tables when it ends, the tables after it, and the outcome. *)
Definition transaction {A} (faults : Faults) (others : Others) (t : Tables) (operation : Program A) :
    Tables * Tables * result A :=
  match faults 0%nat with
  | Some f => (t, t, Err (classify (faultOf f)))
  | None =>
      match run faults others operation (begin t 1) with
      | (s, inl f) => (committed s, committed s, Err (classify f))
      | (s, inr a) =>
          let fault := faults (number s) in
          let s := proceed others s in
          match fault with
          | Some (Refused f) => (committed s, committed s, Err (classify f))
          | Some (Lost f) => (committed s, replay (written s) (committed s), Err (classify f))
          | None => (committed s, replay (written s) (committed s), Ok a)
          end
      end
  end.

Definition write {A} (s : Store) (faults : Faults) (others : Others) (operation : Program A) : Store * result A :=
  if closed s then (s, Err ErrClosed)
  else let '(_, t, r) := transaction faults others (db s) operation in (with_db s t, r).

(** [read]: one statement, outside a transaction. *)
Definition read {A} (s : Store) (faults : Faults) (operation : Program A) : result A :=
  if closed s then Err ErrClosed
  else
    match operation faults (0%nat, db s) with
    | (_, inl f) => Err (classify f)
    | (_, inr a) => Ok a
    end.

Section Mysql.
Context `{CO : Collation} `{DT : DtMmr}.

Definition loadState (logID : string) (forUpdate : bool) : Program State := SqlStore.loadState logID forUpdate.

Definition readState (s : Store) (faults : Faults) (others : Others) : result State :=
  if closed s then Err ErrClosed
  else snd (transaction faults others (db s) (loadState (logID s) false)).

(** [SELECT state FROM cll_meta WHERE log_id=? FOR UPDATE] *)
Definition lockMetadata (logID : string) : Program unit :=
  row ← selectMeta logID true;
  match row with
  | None => fail (Plain noRows)
  | Some _ => mret tt
  end.

(** ** Opening *)

(** [sql.Open] and [PingContext] *)
Definition openDatabase (faults : Faults) (dsn logID : string) : check :=
  if bool_decide (dsn = ""%string) || negb (is_ok (ValidateIdentifier logID)) then Err ErrInvalid
  else
    match faults 0%nat, faults 1%nat with
    | Some f, _ => Err (unclassified (faultOf f))
    | None, Some f => Err (unclassified (faultOf f))
    | None, None => Ok tt
    end.

Definition validateEntries (logID : string) : Program unit := SqlStore.validateEntries logID.

(** The statements of [Init] outside a transaction. *)
Definition provision (logID : string) : Program unit := provisionLog logID.

(** [validateEntries], then [readState]; [k] is the number of the next statement. *)
Definition validateLog (faults : Faults) (k : nat) (t : Tables) (logID : string) : check :=
  match validateEntries logID faults (k, t) with
  | (_, inl f) => Err (classify f)
  | ((k, _), inr _) => _ ← readState (MkStore t logID false) (fun i => faults (k + i)%nat) nobody; Ok tt
  end.

(** [released] is the outcome of [db.Close]. *)
Definition Init (faults : Faults) (released : check) (server : Tables) (dsn logID : string) : Tables * check :=
  match openDatabase faults dsn logID with
  | Err err => (server, Err err)
  | Ok _ =>
      match provision logID faults (2%nat, server) with
      | ((_, t), inl f) => (t, Err (classify f))
      | ((k, t), inr _) => (t, _ ← validateLog faults k t logID; released)
      end
  end.

Definition Open (faults : Faults) (server : Tables) (dsn logID : string) : result Store :=
  _ ← openDatabase faults dsn logID;
  _ ← validateLog faults 2 server logID;
  Ok (MkStore server logID false).

Definition Close (s : Store) (released : check) : Store * check :=
  if closed s then (s, Ok tt) else (MkStore (db s) (logID s) true, released).

(** ** Methods *)

(** The transaction of [Append]. *)
Definition appendOperation (logID : string) (input : AppendInput) : Program AppendResult :=
  if invalidInput input then fail (Plain ErrInvalid)
  else _ ← lockMetadata logID; appendEntry logID input.

Definition Append (s : Store) (faults : Faults) (others : Others) (input : AppendInput) : Store * result AppendResult :=
  write s faults others (appendOperation (logID s) input).

Definition GetEntry (s : Store) (faults : Faults) (identity : bytes) : result Entry :=
  read s faults (getEntry (logID s) identity).

Definition ScanEntries (s : Store) (faults : Faults) (afterSeq limit : Z) : result (list Entry) :=
  read s faults (scanEntries (logID s) afterSeq limit).

Definition LoadCLL (s : Store) (faults : Faults) (others : Others) : result State := readState s faults others.

(** The transaction of [CommitCLL]. *)
Definition commitOperation (logID : string) (expectedSize : Z) (expectedCheckpoint : option bytes) (next : State) :
    Program unit :=
  current ← loadState logID true; commitState logID current expectedSize expectedCheckpoint next.

Definition CommitCLL (s : Store) (faults : Faults) (others : Others) (expectedSize : Z)
    (expectedCheckpoint : option bytes) (next : State) : Store * check :=
  write s faults others (commitOperation (logID s) expectedSize expectedCheckpoint next).

Definition PendingWitnesses (s : Store) (faults : Faults) (now limit : Z) : result (list WitnessState) :=
  read s faults (pendingWitnesses (logID s) now limit).

Definition GetWitness (s : Store) (faults : Faults) (witnessID : string) (checkpointSize : Z) : result WitnessState :=
  read s faults (getWitness (logID s) witnessID checkpointSize).

(** [RowsAffected] counts the rows the [UPDATE] changed. *)
Definition changesRow (row updated : WitnessRow) : bool := negb (bool_decide (row = updated)).

(** The transaction of [CommitWitness]. *)
Definition witnessOperation (logID : string) (expectedAttempts : Z) (next : WitnessState) : Program unit :=
  encoded ← readWitness logID expectedAttempts next; writeWitness logID changesRow expectedAttempts next encoded.

Definition CommitWitness (s : Store) (faults : Faults) (others : Others) (expectedAttempts : Z) (next : WitnessState) :
    Store * check :=
  write s faults others (witnessOperation (logID s) expectedAttempts next).

(** ** Other clients

    They call the same methods, on any log of the server.  Of a call the others
    see nothing before it commits, so it is served as one step; a call that needs
    a lock the transaction holds waits, and is not served before it ends. *)

Inductive Call :=
| CallAppend (logID : string) (input : AppendInput)
| CallCommitCLL (logID : string) (expectedSize : Z) (expectedCheckpoint : option bytes) (next : State)
| CallCommitWitness (logID : string) (expectedAttempts : Z) (next : WitnessState).

Definition operationOf (call : Call) : Program unit :=
  match call with
  | CallAppend logID input => _ ← appendOperation logID input; mret tt
  | CallCommitCLL logID size checkpoint next => commitOperation logID size checkpoint next
  | CallCommitWitness logID attempts next => witnessOperation logID attempts next
  end.

Definition clash (locks held : list Lock) : bool := existsb (fun lock => existsb (sameLock lock) held) locks.

Definition serve (held : list Lock) (t : Tables) (call : Call) : Tables :=
  match run noFaults nobody (operationOf call) (begin t 0) with
  | (s, inr _) => if clash (Mysql.held s) held then t else replay (written s) t
  | (_, inl _) => t
  end.

(** The calls that arrive before each statement of a transaction. *)
Definition serveAll (calls : nat -> list Call) : Others := fun k held t => fold_left (serve held) (calls k) t.

End Mysql.

End Mysql.
