(* ===== verification/SqlRows.v ===== *)
(** * Running programs of statements, and the rows of one log

    A program is described by what it does when nothing fails ([pure]).
    Logs share the tables of a database.  [rowsOf] are the rows of one of them,
    and a statement of a log is described by what it makes of those; the rows
    of other logs stay.  The collation is exact: texts are the same when equal. *)

From S2P Require Import Prelude DtMmr Hex Mmr Cll Engine EngineWitness Wire Journal Sql SqlStore.
Import Cll Engine Sql SqlStore EngineWitness.

Module SqlRows.

Local Open Scope Z_scope.

(** ** Programs of statements

    [pure] is a program without failures; whatever succeeds, under any failures,
    is what the program does without them. *)

Definition pure {A} (p : Program A) (t : Tables) : Tables * (failure + A) :=
  let '((_, t'), r) := p noFaults (0%nat, t) in (t', r).

(** The failures Go code gives itself. *)
Definition toFailure {A} (r : result A) : failure + A :=
  match r with Ok a => inr a | Err err => inl (Plain err) end.

(** ** Equations *)

Lemma pure_ret {A} (a : A) (t : Tables) : pure (mret a) t = (t, inr a).
Proof. done. Qed.

Lemma pure_fail {A} (f : failure) (t : Tables) : pure (fail (A := A) f) t = (t, inl f).
Proof. done. Qed.

Lemma pure_lift {A} (r : result A) (t : Tables) : pure (lift r) t = (t, toFailure r).
Proof. by destruct r. Qed.

Lemma exec_statement {A} (locks : list Lock) (effect : Tables -> Tables * (failure + A)) (faults : Faults) (k : nat) (t : Tables) :
  statement locks effect faults (k, t) =
  match faults k with
  | Some (Refused f) => ((S k, t), inl f)
  | Some (Lost f) => ((S k, fst (effect t)), inl f)
  | None => ((S k, fst (effect t)), snd (effect t))
  end.
Proof. cbn. destruct (faults k) as [[f|f]|]; [done|done|]. by destruct (effect t) as [t' [f|a]]. Qed.

Lemma exec_query {A} (locks : list Lock) (answer : Tables -> failure + A) (faults : Faults) (k : nat) (t : Tables) :
  query locks answer faults (k, t) =
  match faults k with
  | Some f => ((S k, t), inl (faultOf f))
  | None => ((S k, t), answer t)
  end.
Proof. cbn. destruct (faults k); [done|]. by destruct (answer t). Qed.

Lemma exec_bind {A B} (p : Program A) (k : A -> Program B) (faults : Faults) (s : nat * Tables) :
  (p ≫= k) faults s =
  match p faults s with
  | (s, inl f) => (s, inl f)
  | (s, inr a) => k a faults s
  end.
Proof.
  revert s. induction p as [[f|a]|C locks answer next IH|C locks effect next IH]; intros [n t]; [done|done| |]; cbn.
  - destruct (faults n); [done|]. destruct (answer t); [done|]. apply IH.
  - destruct (faults n) as [[f|f]|]; [done|done|]. destruct (effect t) as [t' [f|b]]; [done|]. apply IH.
Qed.

Lemma lift_step {A B} (a : A) (k : A -> Program B) : lift (Ok a) ≫= k = k a.
Proof. done. Qed.

Lemma pure_statement {A} (locks : list Lock) (effect : Tables -> Tables * (failure + A)) (t : Tables) :
  pure (statement locks effect) t = effect t.
Proof. unfold pure. rewrite exec_statement. unfold noFaults. by destruct (effect t). Qed.

Lemma pure_query {A} (locks : list Lock) (answer : Tables -> failure + A) (t : Tables) :
  pure (query locks answer) t = (t, answer t).
Proof. unfold pure. by rewrite exec_query. Qed.

Lemma steady_quiet {A} (p : Program A) (k : nat) (t : Tables) :
  exists k', p noFaults (k, t) = ((k', fst (pure p t)), snd (pure p t)).
Proof.
  unfold pure. generalize 0%nat as n. revert k t.
  induction p as [r|B locks answer next IH|B locks effect next IH]; intros k t n; cbn; [by eexists| |].
  - destruct (answer t) as [f|b]; [by eexists|apply IH].
  - destruct (effect t) as [t' [f|b]]; [by eexists|apply IH].
Qed.

Lemma steady_done {A} (p : Program A) (faults : Faults) (s s' : nat * Tables) (a : A) :
  p faults s = (s', inr a) -> pure p (snd s) = (snd s', inr a).
Proof.
  unfold pure. generalize 0%nat as n. revert s.
  induction p as [r|B locks answer next IH|B locks effect next IH]; intros [k t] n; cbn.
  - by intros [= <- ->].
  - destruct (faults k); [done|]. destruct (answer t) as [f|b]; [done|]. intros Hb%(IH _ _ (S n)). exact Hb.
  - destruct (faults k) as [[f|f]|]; [done|done|]. destruct (effect t) as [t' [f|b]]; [done|].
    intros Hb%(IH _ _ (S n)). exact Hb.
Qed.

Lemma pure_step {A B} (p : Program A) (k : A -> Program B) (t t' : Tables) (a : A) :
  pure p t = (t', inr a) -> pure (p ≫= k) t = pure (k a) t'.
Proof.
  unfold pure at 1 2. rewrite exec_bind. destruct (p noFaults (0%nat, t)) as [[n t1] r].
  intros [= -> ->]. destruct (steady_quiet (k a) n t') as [n' ->]. by destruct (pure (k a) t').
Qed.

Lemma pure_stop {A B} (p : Program A) (k : A -> Program B) (t t' : Tables) (f : failure) :
  pure p t = (t', inl f) -> pure (p ≫= k) t = (t', inl f).
Proof.
  unfold pure. rewrite exec_bind. destruct (p noFaults (0%nat, t)) as [[n t1] r]. by intros [= -> ->].
Qed.

(** ** Lists *)

Lemma filter_and {A} (p q : A -> bool) (l : list A) :
  List.filter (fun x => p x && q x) l = List.filter q (List.filter p l).
Proof.
  induction l as [|x l IH]; cbn [List.filter]; [done|]. destruct (p x); cbn [andb List.filter]; [|done].
  destruct (q x); [|done]. by rewrite IH.
Qed.

Lemma find_and {A} (p q : A -> bool) (l : list A) :
  List.find (fun x => p x && q x) l = List.find q (List.filter p l).
Proof.
  induction l as [|x l IH]; cbn [List.find List.filter]; [done|]. destruct (p x); cbn [andb List.find]; [|done].
  by destruct (q x).
Qed.

Lemma existsb_and {A} (p q : A -> bool) (l : list A) :
  existsb (fun x => p x && q x) l = existsb q (List.filter p l).
Proof.
  induction l as [|x l IH]; cbn [existsb List.filter]; [done|]. rewrite IH.
  by destruct (p x); cbn [andb existsb].
Qed.

Lemma find_head {A} (p : A -> bool) (l : list A) : List.find p l = head (List.filter p l).
Proof. induction l as [|x l IH]; cbn [List.find List.filter]; [done|]. by destruct (p x). Qed.

Lemma find_ext {A} (p q : A -> bool) (l : list A) : (forall x, p x = q x) -> List.find p l = List.find q l.
Proof. intros Hpq. induction l as [|x l IH]; cbn [List.find]; [done|]. by rewrite Hpq, IH. Qed.

Lemma existsb_ext {A} (p q : A -> bool) (l : list A) : (forall x, p x = q x) -> existsb p l = existsb q l.
Proof. intros Hpq. induction l as [|x l IH]; cbn [existsb]; [done|]. by rewrite Hpq, IH. Qed.

Lemma filter_map {A} (p : A -> bool) (f : A -> A) (l : list A) :
  (forall x, p (f x) = p x) -> List.filter p (map f l) = map f (List.filter p l).
Proof.
  intros Hp. induction l as [|x l IH]; cbn [map List.filter]; [done|]. rewrite Hp, IH. by destruct (p x).
Qed.

Lemma map_filter_id {A} (p : A -> bool) (f : A -> A) (l : list A) :
  (forall x, p x = true -> f x = x) -> map f (List.filter p l) = List.filter p l.
Proof.
  intros Hf. induction l as [|x l IH]; cbn [List.filter]; [done|]. destruct (p x) eqn:Hp; [|done].
  cbn [map]. by rewrite Hf, IH.
Qed.

Lemma insertStable_snoc {A} (less : A -> A -> bool) (x a : A) (l : list A) :
  less a x = false -> insertStable less x (l ++ [a]) = insertStable less x l ++ [a].
Proof.
  intros Ha. induction l as [|b l IH]; cbn [app insertStable]; [by rewrite Ha|].
  destruct (less b x); cbn [app]; by rewrite ?IH.
Qed.

(** A row that is not before any other comes last. *)
Lemma SliceStable_snoc {A} (less : A -> A -> bool) (a : A) (l : list A) :
  (forall x, x ∈ l -> less a x = false) -> SliceStable less (l ++ [a]) = SliceStable less l ++ [a].
Proof.
  unfold SliceStable. induction l as [|x l IH]; cbn [app foldr]; intros Hl; [done|].
  rewrite IH by (intros y Hy; apply Hl; by right). apply insertStable_snoc, Hl. left.
Qed.

(** ** The rows of a log *)

Class ExactCollation `{Collation} : Prop := sameText_exact a b : sameText a b = bool_decide (a = b).

Record Rows := MkRows {
  rw_meta : list MetaRow;
  rw_entries : list EntryRow;
  rw_nodes : list NodeRow;
  rw_witnesses : list WitnessRow
}.

Definition bySeq (a b : EntryRow) : bool := er_seq a <? er_seq b.
Definition byPosition (a b : NodeRow) : bool := nr_position a <? nr_position b.

Section Rows.
Context `{CO : Collation} `{DI : Dialect} `{DT : DtMmr}.

Definition ownRows {A} (key : A -> string) (logID : string) (rows : list A) : list A :=
  List.filter (fun row => sameText (key row) logID) rows.

Definition rowsOf (logID : string) (t : Tables) : option Rows :=
  metas ← cll_meta t;
  entries ← cll_entries t;
  nodes ← cll_nodes t;
  witnesses ← cll_witnesses t;
  Some (MkRows (ownRows mr_log_id logID metas) (ownRows er_log_id logID entries)
          (ownRows nr_log_id logID nodes) (ownRows wr_log_id logID witnesses)).

Definition elsewhere (logID : string) (t t' : Tables) : Prop :=
  forall other, other <> logID -> rowsOf other t' = rowsOf other t.

#[export] Instance elsewhere_preorder logID : PreOrder (elsewhere logID).
Proof. split; [by intros t other _|]. intros a b c H1 H2 other Ho. by rewrite H2, H1. Qed.

(** A program of a log that makes [r'] of its rows [r], with answer [a]; one
    that fails. *)
Definition runs {A} (logID : string) (r : Rows) (p : Program A) (a : A) (r' : Rows) : Prop :=
  forall t, rowsOf logID t = Some r ->
    exists t', pure p t = (t', inr a) /\ rowsOf logID t' = Some r' /\ elsewhere logID t t'.

Definition stops {A} (logID : string) (r : Rows) (p : Program A) (f : failure) : Prop :=
  forall t, rowsOf logID t = Some r -> exists t', pure p t = (t', inl f).

Lemma runs_ret {A} (logID : string) (r : Rows) (a : A) : runs logID r (mret a) a r.
Proof. intros t Ht. by exists t. Qed.

Lemma runs_lift {A} (logID : string) (r : Rows) (x : result A) (a : A) : x = Ok a -> runs logID r (lift x) a r.
Proof. intros -> t Ht. by exists t. Qed.

Lemma stops_lift {A} (logID : string) (r : Rows) (x : result A) (err : error) :
  x = Err err -> stops logID r (lift x) (Plain err).
Proof. intros -> t Ht. by exists t. Qed.

Lemma stops_fail {A} (logID : string) (r : Rows) (f : failure) : stops logID r (fail (A := A) f) f.
Proof. intros t Ht. by exists t. Qed.

Lemma runs_bind {A B} (logID : string) (r r1 r2 : Rows) (p : Program A) (k : A -> Program B) (a : A) (b : B) :
  runs logID r p a r1 -> runs logID r1 (k a) b r2 -> runs logID r (p ≫= k) b r2.
Proof.
  intros Hp Hb t Ht. destruct (Hp t Ht) as (t1 & H1 & Ht1 & He1). destruct (Hb t1 Ht1) as (t2 & H2 & Ht2 & He2).
  exists t2. rewrite (pure_step _ _ _ _ _ H1). split_and!; [done|done|by etrans].
Qed.

Lemma stops_bind {A B} (logID : string) (r : Rows) (p : Program A) (k : A -> Program B) (f : failure) :
  stops logID r p f -> stops logID r (p ≫= k) f.
Proof. intros Hp t Ht. destruct (Hp t Ht) as (t1 & H1). exists t1. by apply pure_stop. Qed.

Lemma runs_stops {A B} (logID : string) (r r1 : Rows) (p : Program A) (k : A -> Program B) (a : A) (f : failure) :
  runs logID r p a r1 -> stops logID r1 (k a) f -> stops logID r (p ≫= k) f.
Proof.
  intros Hp Hb t Ht. destruct (Hp t Ht) as (t1 & H1 & Ht1 & _). destruct (Hb t1 Ht1) as (t2 & H2).
  exists t2. by rewrite (pure_step _ _ _ _ _ H1).
Qed.

(** ** Queries *)

Lemma runs_query {A} (logID : string) (r : Rows) (locks : list Lock) (answer : Tables -> failure + A) (a : A) :
  (forall t, rowsOf logID t = Some r -> answer t = inr a) -> runs logID r (query locks answer) a r.
Proof. intros Ha t Ht. exists t. rewrite pure_query, Ha by done. done. Qed.

Lemma rowsOf_Some (logID : string) (t : Tables) (r : Rows) :
  rowsOf logID t = Some r ->
  exists metas entries nodes witnesses,
    t = MkTables (Some metas) (Some entries) (Some nodes) (Some witnesses) /\
    r = MkRows (ownRows mr_log_id logID metas) (ownRows er_log_id logID entries)
          (ownRows nr_log_id logID nodes) (ownRows wr_log_id logID witnesses).
Proof.
  unfold rowsOf. destruct t as [[m|] [e|] [n|] [w|]]; try done. cbn. intros [= <-]. by eexists _, _, _, _.
Qed.

Ltac query_rows :=
  apply runs_query; intros t (metas & es & nodes & ws & -> & ->)%rowsOf_Some;
  cbn [cll_meta cll_entries cll_nodes cll_witnesses rw_meta rw_entries rw_nodes rw_witnesses];
  unfold selectFrom, selectRow.

Lemma selectMeta_runs (logID : string) (r : Rows) (forUpdate : bool) :
  runs logID r (selectMeta logID forUpdate) (mr_state <$> head (rw_meta r)) r.
Proof. query_rows. by rewrite find_head. Qed.

Lemma selectEntries_runs (logID : string) (r : Rows) :
  runs logID r (selectEntries logID) (SliceStable bySeq (rw_entries r)) r.
Proof. by query_rows. Qed.

Lemma selectEntriesAfter_runs (logID : string) (r : Rows) (afterSeq limit : Z) :
  runs logID r (selectEntriesAfter logID afterSeq limit)
    (take (Z.to_nat limit) (SliceStable bySeq (List.filter (fun row => afterSeq <? er_seq row) (rw_entries r)))) r.
Proof. query_rows. by rewrite filter_and. Qed.

Lemma selectEntry_runs (logID : string) (r : Rows) (v : bytes) :
  runs logID r (selectEntry logID v) (List.find (fun row => bool_decide (er_value row = v)) (rw_entries r)) r.
Proof. query_rows. by rewrite find_and. Qed.

Definition maxSeq (rows : list EntryRow) : option Z :=
  match rows with
  | [] => None
  | row :: rows => Some (fold_left (fun m row => Z.max m (er_seq row)) rows (er_seq row))
  end.

Lemma SliceStable_false {A} (l : list A) : SliceStable (fun _ _ => false) l = l.
Proof. unfold SliceStable. induction l as [|x l IH]; cbn [foldr]; [done|]. rewrite IH. by destruct l. Qed.

Lemma selectMaxSeq_runs (logID : string) (r : Rows) :
  runs logID r (selectMaxSeq logID) (maxSeq (rw_entries r)) r.
Proof. query_rows. rewrite SliceStable_false. unfold ownRows. by destruct (List.filter _ es). Qed.

Lemma selectNodes_runs (logID : string) (r : Rows) :
  runs logID r (selectNodes logID) (SliceStable byPosition (rw_nodes r)) r.
Proof. by query_rows. Qed.

Lemma selectWitnesses_runs (logID : string) (r : Rows) :
  runs logID r (selectWitnesses logID) (SliceStable witnessBefore (rw_witnesses r)) r.
Proof. by query_rows. Qed.

(** The key of a witness among the rows of its log. *)
Definition witnessIs (id size : string) (row : WitnessRow) : bool :=
  sameText (wr_witness_id row) id && sameText (wr_checkpoint_size row) size.

Lemma sameWitnessKey_and (logID id size : string) (row : WitnessRow) :
  sameWitnessKey logID id size row = sameText (wr_log_id row) logID && witnessIs id size row.
Proof. unfold sameWitnessKey, witnessIs. by rewrite andb_assoc. Qed.

Lemma selectWitness_runs (logID : string) (r : Rows) (id size : string) :
  runs logID r (selectWitness logID id size) (List.find (witnessIs id size) (rw_witnesses r)) r.
Proof. query_rows. rewrite (find_ext _ _ _ (sameWitnessKey_and logID id size)). by rewrite find_and. Qed.

End Rows.

(** ** Writes *)

Section Writes.
Context `{CO : Collation} `{DI : Dialect} `{!ExactCollation}.

Lemma own_app_same {A} (key : A -> string) (logID : string) (rows : list A) (row : A) :
  key row = logID -> ownRows key logID (rows ++ [row]) = ownRows key logID rows ++ [row].
Proof.
  intros <-. unfold ownRows. rewrite List.filter_app. cbn [List.filter].
  by rewrite sameText_exact, bool_decide_true.
Qed.

Lemma own_app_other {A} (key : A -> string) (other : string) (rows : list A) (row : A) :
  other <> key row -> ownRows key other (rows ++ [row]) = ownRows key other rows.
Proof.
  intros Ho. unfold ownRows. rewrite List.filter_app. cbn [List.filter].
  rewrite sameText_exact, bool_decide_false by congruence. apply app_nil_r.
Qed.

(** An update of rows of one log keeps their keys. *)
Lemma own_map_same {A} (key : A -> string) (logID : string) (f : A -> A) (rows : list A) :
  (forall x, key (f x) = key x) -> ownRows key logID (map f rows) = map f (ownRows key logID rows).
Proof. intros Hf. apply filter_map. intros x. by rewrite Hf. Qed.

Lemma own_map_other {A} (key : A -> string) (other logID : string) (f : A -> A) (rows : list A) :
  other <> logID -> (forall x, key (f x) = key x) -> (forall x, key x <> logID -> f x = x) ->
  ownRows key other (map f rows) = ownRows key other rows.
Proof.
  intros Ho Hk Hf. rewrite own_map_same by done. apply map_filter_id. intros x Hx. apply Hf.
  rewrite sameText_exact, bool_decide_eq_true in Hx. congruence.
Qed.

Ltac write_rows :=
  let Ht := fresh in
  intros t Ht; apply rowsOf_Some in Ht as (metas & es & nodes & ws & -> & ->);
  cbn [rw_meta rw_entries rw_nodes rw_witnesses] in *;
  eexists; rewrite pure_statement; cbn [cll_meta cll_entries cll_nodes cll_witnesses].

(** The tables after a write, read by any log. *)
Ltac tables :=
  split; [reflexivity|]; split;
  [|intros other Ho; unfold rowsOf; cbn [cll_meta cll_entries cll_nodes cll_witnesses mbind option_bind]];
  unfold rowsOf; cbn [cll_meta cll_entries cll_nodes cll_witnesses mbind option_bind].

Lemma updateMeta_runs (logID : string) (r : Rows) (state : bytes) :
  runs logID r (updateMeta logID state) tt
    (MkRows (map (fun row => MkMetaRow (mr_log_id row) state) (rw_meta r)) (rw_entries r) (rw_nodes r) (rw_witnesses r)).
Proof.
  unfold updateMeta. write_rows. set (update := fun row => _). tables.
  - do 2 f_equal. rewrite own_map_same by (intros x; unfold update; by destruct (sameText _ _)).
    unfold ownRows, update. clear. induction metas as [|x l IH]; cbn [List.filter]; [done|].
    destruct (sameText (mr_log_id x) logID) eqn:Hx; [|done]. cbn [map]. by rewrite Hx, IH.
  - do 2 f_equal. rewrite (own_map_other _ _ logID); [done|done| |].
    + intros x. unfold update. by destruct (sameText _ _).
    + intros x Hx. unfold update. by rewrite sameText_exact, bool_decide_false.
Qed.

Lemma insertEntry_runs (logID : string) (r : Rows) (row : EntryRow) :
  er_log_id row = logID ->
  (forall other, other ∈ rw_entries r -> er_seq other <> er_seq row /\ er_value other <> er_value row) ->
  runs logID r (insertEntry row) tt (MkRows (rw_meta r) (rw_entries r ++ [row]) (rw_nodes r) (rw_witnesses r)).
Proof.
  intros Hid Hnew. unfold insertEntry. write_rows. unfold insertInto. rewrite existsb_and, Hid.
  fold (ownRows er_log_id logID es). destruct (existsb _ _) eqn:Hc.
  - exfalso. apply existsb_exists in Hc as (x & Hx%list_elem_of_In & Hc). destruct (Hnew x Hx) as [H1 H2].
    by rewrite (proj2 (Z.eqb_neq _ _) H1), bool_decide_false in Hc.
  - tables; do 2 f_equal; [by rewrite own_app_same|by rewrite own_app_other by congruence].
Qed.

Lemma insertNode_runs (logID : string) (r : Rows) (row : NodeRow) :
  nr_log_id row = logID -> (forall other, other ∈ rw_nodes r -> nr_position other <> nr_position row) ->
  runs logID r (insertNode row) tt (MkRows (rw_meta r) (rw_entries r) (rw_nodes r ++ [row]) (rw_witnesses r)).
Proof.
  intros Hid Hnew. unfold insertNode. write_rows. unfold insertInto. rewrite existsb_and, Hid.
  fold (ownRows nr_log_id logID nodes). destruct (existsb _ _) eqn:Hc.
  - exfalso. apply existsb_exists in Hc as (x & Hx%list_elem_of_In & Hc%Z.eqb_eq). by apply (Hnew x Hx).
  - tables; do 2 f_equal; [by rewrite own_app_same|by rewrite own_app_other by congruence].
Qed.

Lemma witnessIs_exact (id size : string) (row : WitnessRow) :
  witnessIs id size row = true <-> wr_witness_id row = id /\ wr_checkpoint_size row = size.
Proof. unfold witnessIs. by rewrite andb_true_iff, !sameText_exact, !bool_decide_eq_true. Qed.

Lemma insertWitness_runs (logID : string) (r : Rows) (row : WitnessRow) :
  wr_log_id row = logID ->
  (forall other, other ∈ rw_witnesses r -> witnessIs (wr_witness_id row) (wr_checkpoint_size row) other = false) ->
  runs logID r (insertWitness row) tt (MkRows (rw_meta r) (rw_entries r) (rw_nodes r) (rw_witnesses r ++ [row])).
Proof.
  intros Hid Hnew. unfold insertWitness. write_rows. unfold insertInto.
  rewrite (existsb_ext _ _ _ (sameWitnessKey_and (wr_log_id row) _ _)), existsb_and, Hid.
  fold (ownRows wr_log_id logID ws). destruct (existsb _ _) eqn:Hc.
  - exfalso. apply existsb_exists in Hc as (x & Hx%list_elem_of_In & Hc). by rewrite Hnew in Hc.
  - tables; do 2 f_equal; [by rewrite own_app_same|by rewrite own_app_other by congruence].
Qed.

(** The row an [UPDATE] makes of a row of its log. *)
Definition updatedWitness (id size : string) (expectedAttempts attempts : Z) (witness : bytes) (row : WitnessRow) :
    WitnessRow :=
  if witnessIs id size row && (wr_attempts row =? expectedAttempts)
  then MkWitnessRow (wr_log_id row) (wr_witness_id row) (wr_checkpoint_size row) attempts witness else row.

Lemma updateWitness_runs (counts : WitnessRow -> WitnessRow -> bool) (logID : string) (r : Rows) (id size : string)
    (expectedAttempts attempts : Z) (witness : bytes) :
  let update := updatedWitness id size expectedAttempts attempts witness in
  runs logID r (updateWitness counts logID id size expectedAttempts attempts witness)
    (zlen (List.filter (fun row => witnessIs id size row && (wr_attempts row =? expectedAttempts) &&
                                   counts row (update row)) (rw_witnesses r)))
    (MkRows (rw_meta r) (rw_entries r) (rw_nodes r) (map update (rw_witnesses r))).
Proof.
  intros update. unfold updateWitness. write_rows.
  set (update' := fun row => if sameWitnessKey logID id size row && (wr_attempts row =? expectedAttempts)
    then MkWitnessRow (wr_log_id row) (wr_witness_id row) (wr_checkpoint_size row) attempts witness else row).
  assert (forall x, sameText (wr_log_id x) logID = true -> update' x = update x) as Hsame.
  { intros x Hx. unfold update', update, updatedWitness. by rewrite sameWitnessKey_and, Hx. }
  assert (forall x, sameText (wr_log_id x) logID = false -> update' x = x) as Hother.
  { intros x Hx. unfold update'. by rewrite sameWitnessKey_and, Hx. }
  assert (forall x, wr_log_id (update' x) = wr_log_id x) as Hkey by (intros x; unfold update'; by case_match).
  assert (zlen (List.filter (fun row => sameWitnessKey logID id size row && (wr_attempts row =? expectedAttempts) &&
                                        counts row (update' row)) ws) =
          zlen (List.filter (fun row => witnessIs id size row && (wr_attempts row =? expectedAttempts) &&
                                        counts row (update row)) (ownRows wr_log_id logID ws))) as Hcount.
  { unfold ownRows. rewrite <- filter_and. f_equal. apply List.filter_ext. intros x.
    rewrite sameWitnessKey_and. destruct (sameText (wr_log_id x) logID) eqn:Hx; cbn [andb]; [|done].
    by rewrite (Hsame x Hx). }
  unfold update' in Hcount. rewrite Hcount. tables; do 2 f_equal.
  - rewrite own_map_same by done. apply map_ext_in. intros x [_ Hx]%filter_In. by apply Hsame.
  - rewrite (own_map_other _ _ logID); [done|done|done|]. intros x Hx. apply Hother.
    by rewrite sameText_exact, bool_decide_false.
Qed.

End Writes.

End SqlRows.
