(* ===== verification/SqlLog.v ===== *)
(** * What the rows of a log represent

    A number in a text column has one spelling.
    [holds] relates the rows of a log to the engine they stand for, and each
    query of [SqlStore] answers as that engine. *)

From Stdlib.Strings Require Import Ascii.
From S2P Require Import Prelude DtMmr Hex Text Mmr Cll Portable PortableFormat Engine EngineLog EngineState.
From S2P Require Import EngineHistory EngineWitness Wire WireProofs Journal JournalProofs Sql SqlStore SqlRows.
Import Text Wire WireProofs Cll Portable PortableFormat Engine EngineLog EngineState EngineHistory EngineWitness.
Import Journal JournalProofs Sql SqlStore SqlRows.

Module SqlLog.

Local Open Scope Z_scope.
Local Open Scope u64_scope.

(** ** Decimal text has one spelling

    What [Wire.decimal] accepts is the text [strconv.FormatUint] writes, so a
    number in a text column is found by its text. *)

Lemma digitValue_range (c : ascii) (d : Z) : digitValue c = Some d -> 0 <= d < 10.
Proof.
  unfold digitValue. destruct (Z.leb_spec 48 (Z.of_N (N_of_ascii c))), (Z.leb_spec (Z.of_N (N_of_ascii c)) 57);
    cbn [andb]; try done. intros [= <-]. lia.
Qed.

Lemma digitValue_inj (c c' : ascii) (d : Z) : digitValue c = Some d -> digitValue c' = Some d -> c = c'.
Proof.
  unfold digitValue. destruct (_ && _); [|done]. intros [= <-]. destruct (_ && _); [|done]. intros [= Hd].
  assert (N_of_ascii c = N_of_ascii c') as Hn by lia. rewrite <- (ascii_N_embedding c), <- (ascii_N_embedding c').
  by rewrite Hn.
Qed.

(** The value of [s] after [acc] lies in the window of [acc]. *)
Lemma digitsFrom_window (s : string) (acc n : Z) :
  digitsFrom acc s = Some n ->
  acc * 10 ^ Z.of_nat (String.length s) <= n < (acc + 1) * 10 ^ Z.of_nat (String.length s).
Proof.
  revert acc. induction s as [|c s IH]; intros acc; cbn [digitsFrom String.length].
  - intros [= <-]. change (10 ^ Z.of_nat 0) with 1. lia.
  - destruct (digitValue c) as [d|] eqn:Hd; [|done]. cbn [mbind option_bind]. intros Hn%IH.
    apply digitValue_range in Hd. rewrite Nat2Z.inj_succ, Z.pow_succ_r by lia.
    pose proof (Z.pow_nonneg 10 (Z.of_nat (String.length s)) ltac:(lia)). nia.
Qed.

Lemma digitsFrom_inj (s s' : string) (acc acc' n : Z) :
  String.length s = String.length s' -> digitsFrom acc s = Some n -> digitsFrom acc' s' = Some n ->
  acc = acc' /\ s = s'.
Proof.
  revert s' acc acc'. induction s as [|c s IH]; intros [|c' s'] acc acc'; cbn [String.length digitsFrom]; try done.
  - by intros _ [= ->] [= ->].
  - intros [= Hl]. destruct (digitValue c) as [d|] eqn:Hd; [|done]. destruct (digitValue c') as [d'|] eqn:Hd'; [|done].
    cbn [mbind option_bind]. intros H1 H2. destruct (IH s' _ _ Hl H1 H2) as [Hacc ->].
    pose proof (digitValue_range _ _ Hd). pose proof (digitValue_range _ _ Hd').
    assert (d = d') as <- by lia. split; [lia|]. by rewrite (digitValue_inj _ _ _ Hd Hd').
Qed.

(** Text without a leading zero. *)
Definition canonical (s : string) : Prop := s = "0"%string \/ exists c s', s = String c s' /\ c <> "0"%char.

Lemma digitValue_positive (c : ascii) (d : Z) : digitValue c = Some d -> c <> "0"%char -> 1 <= d.
Proof.
  intros Hd Hc. pose proof (digitValue_range _ _ Hd). destruct (Z.eq_dec d 0) as [->|]; [|lia].
  destruct Hc. by apply (digitValue_inj _ _ 0).
Qed.

(** The length of canonical text is that of its value. *)
Lemma canonical_window (c : ascii) (s : string) (n : Z) :
  c <> "0"%char -> digitsFrom 0 (String c s) = Some n ->
  10 ^ Z.of_nat (String.length s) <= n < 10 ^ (Z.of_nat (String.length s) + 1).
Proof.
  cbn [digitsFrom]. intros Hc. destruct (digitValue c) as [d|] eqn:Hd; [|done]. cbn [mbind option_bind].
  intros Hn%digitsFrom_window. pose proof (digitValue_range _ _ Hd). pose proof (digitValue_positive _ _ Hd Hc).
  rewrite Z.pow_add_r by lia. pose proof (Z.pow_nonneg 10 (Z.of_nat (String.length s)) ltac:(lia)). nia.
Qed.

Lemma canonical_unique (s s' : string) (n : Z) :
  canonical s -> canonical s' -> digitsFrom 0 s = Some n -> digitsFrom 0 s' = Some n -> s = s'.
Proof.
  intros [->|(c & t & -> & Hc)] [->|(c' & t' & -> & Hc')] Hs Hs'; [done| | |].
  - injection Hs as <-. pose proof (canonical_window _ _ _ Hc' Hs').
    pose proof (Z.pow_pos_nonneg 10 (Z.of_nat (String.length t')) ltac:(lia) ltac:(lia)). lia.
  - injection Hs' as <-. pose proof (canonical_window _ _ _ Hc Hs).
    pose proof (Z.pow_pos_nonneg 10 (Z.of_nat (String.length t)) ltac:(lia) ltac:(lia)). lia.
  - apply (digitsFrom_inj _ _ 0 0 n); [|done|done]. cbn [String.length]. f_equal.
    pose proof (canonical_window _ _ _ Hc Hs) as [H1 H2]. pose proof (canonical_window _ _ _ Hc' Hs') as [H3 H4].
    apply Nat2Z.inj. set (a := Z.of_nat (String.length t)) in *. set (b := Z.of_nat (String.length t')) in *.
    assert (a < b + 1) by (apply (Z.pow_lt_mono_r_iff 10); lia).
    assert (b < a + 1) by (apply (Z.pow_lt_mono_r_iff 10); lia). lia.
Qed.

(** The accepted text of a number is the text it is written as. *)
Lemma decimal_canonical (text : string) (n : Z) : decimal text = Ok n -> 0 <= n < two64 /\ text = FormatUint n.
Proof.
  unfold decimal. destruct (parseDecimal text) as [m|] eqn:Hp; [|done]. intros [= ->].
  assert (canonical text /\ digitsFrom 0 text = Some n /\ n < two64) as (Hc & Hd & Hlt).
  { destruct text as [|c s]; [done|]. cbn [parseDecimal] in Hp.
    assert (ParseUint (String c s) = Some n -> digitsFrom 0 (String c s) = Some n /\ n < two64) as Hu.
    { unfold ParseUint. destruct (digitsFrom 0 (String c s)) as [m|]; [|done]. cbn [mbind option_bind].
      destruct (Z.ltb_spec m two64); [|done]. by intros [= ->]. }
    destruct s as [|c' s].
    - split; [|by apply Hu]. destruct (decide (c = "0"%char)) as [->|Hc]; [by left|right; by eexists _, _].
    - case_bool_decide as Hc; [done|]. split; [right; by eexists _, _|by apply Hu]. }
  pose proof (digitsFrom_window _ _ _ Hd) as [Hn _]. rewrite Z.mul_0_l in Hn. split; [done|].
  apply (canonical_unique _ _ n); [done|by apply FormatUint_canonical|done|by apply digits_FormatUint].
Qed.

Lemma FormatUint_inj (n m : Z) : 0 <= n -> 0 <= m -> FormatUint n = FormatUint m -> n = m.
Proof.
  intros Hn Hm Heq. pose proof (digits_FormatUint n Hn) as H1. pose proof (digits_FormatUint m Hm) as H2.
  rewrite Heq in H1. congruence.
Qed.

(** ** Rows and what they hold *)

(** The row state in the JSON of a witness row. *)
Definition rowState (row : WitnessRow) : result WitnessState := wire ← wireFromRow row; WitnessFromWire wire.

Definition metaHolds (row : MetaRow) (s : State) : Prop :=
  exists wire header, UnmarshalState (mr_state row) = Some wire /\
    stateFromWire (withTables wire [] []) = Ok header /\ with_rows header (st_Nodes s) (st_Witnesses s) = s.

Record holds `{CO : Collation} `{DT : DtMmr} (r : Rows) (e : Engine) : Prop := {
  holds_meta : exists row, rw_meta r = [row] /\ metaHolds row (state e);
  holds_entries : traverse scanEntry (SliceStable bySeq (rw_entries r)) = Ok (entries e);
  holds_positions : map nr_position (SliceStable byPosition (rw_nodes r)) = seqZ 0 (zlen (st_Nodes (state e)));
  holds_nodes : map nr_node (SliceStable byPosition (rw_nodes r)) = st_Nodes (state e);
  holds_witnesses : traverse rowState (SliceStable witnessBefore (rw_witnesses r)) = Ok (st_Witnesses (state e));
  holds_ok : engine_ok e
}.

(** The tables hold an engine as the log [logID]. *)
Definition stored `{CO : Collation} `{DT : DtMmr} (logID : string) (t : Tables) (e : Engine) : Prop :=
  exists r, rowsOf logID t = Some r /\ holds r e.

(** ** Lists of results *)

Lemma traverse_bind {A B C} (f : A -> result B) (g : B -> result C) (l : list A) (k : list C) :
  traverse (fun a => b ← f a; g b) l = Ok k ->
  exists bs, traverse f l = Ok bs /\ traverse g bs = Ok k.
Proof.
  revert k. induction l as [|a l IH]; intros k; [intros [= <-]; by exists []|]. cbn [traverse].
  intros (c & (b & Hb & Hc)%bind_Ok & (cs & Hcs & Hk)%bind_Ok)%bind_Ok.
  destruct (IH cs Hcs) as (bs & Hbs & Hg). exists (b :: bs). cbn [traverse].
  rewrite Hb, Hbs, Hc, Hg. split; [done|exact Hk].
Qed.

Lemma traverse_bind_Ok {A B C} (f : A -> result B) (g : B -> result C) (l : list A) (bs : list B) (k : list C) :
  traverse f l = Ok bs -> traverse g bs = Ok k -> traverse (fun a => b ← f a; g b) l = Ok k.
Proof.
  revert bs k. induction l as [|a l IH]; intros bs k; [intros [= <-]; done|]. cbn [traverse].
  intros (b & Hb & (bs' & Hbs & [= <-])%bind_Ok)%bind_Ok. cbn [traverse].
  intros (c & Hc & (cs & Hcs & [= <-])%bind_Ok)%bind_Ok. rewrite Hb. cbn [mbind result_bind]. rewrite Hc.
  cbn [mbind result_bind]. by rewrite (IH _ _ Hbs Hcs).
Qed.

Lemma traverse_perm {A B} (f : A -> result B) (l l' : list A) (k : list B) :
  traverse f l = Ok k -> l' ≡ₚ l -> exists k', traverse f l' = Ok k' /\ k' ≡ₚ k.
Proof.
  intros Hk%traverse_Ok Hp. destruct (Permutation_Forall2 (symmetry Hp) Hk) as (k' & Hk' & Hf).
  exists k'. split; [by apply traverse_Ok|done].
Qed.

Lemma traverse_app {A B} (f : A -> result B) (l l' : list A) (k k' : list B) :
  traverse f l = Ok k -> traverse f l' = Ok k' -> traverse f (l ++ l') = Ok (k ++ k').
Proof. intros H%traverse_Ok H'%traverse_Ok. apply traverse_Ok. by apply Forall2_app. Qed.

Lemma traverse_in {A B} (f : A -> result B) (l : list A) (k : list B) (a : A) :
  traverse f l = Ok k -> a ∈ l -> exists b, f a = Ok b /\ b ∈ k.
Proof.
  intros Hk%traverse_Ok Ha. induction Hk as [|x y l k Hxy Hk IH]; [by apply elem_of_nil in Ha|].
  apply elem_of_cons in Ha as [->|Ha]; [exists y; by split; [|left]|].
  destruct (IH Ha) as (b & ? & ?). exists b. by split; [|right].
Qed.

Lemma traverse_out {A B} (f : A -> result B) (l : list A) (k : list B) (b : B) :
  traverse f l = Ok k -> b ∈ k -> exists a, f a = Ok b /\ a ∈ l.
Proof.
  intros Hk%traverse_Ok Hb. induction Hk as [|x y l k Hxy Hk IH]; [by apply elem_of_nil in Hb|].
  apply elem_of_cons in Hb as [->|Hb]; [exists x; by split; [|left]|].
  destruct (IH Hb) as (a & ? & ?). exists a. by split; [|right].
Qed.

(** ** Scanned integers *)

Lemma scan_Ok (low high n m : Z) : scan low high n = Ok m -> m = n /\ low <= n < high.
Proof. unfold scan. destruct (_ && _) eqn:Hn; [|done]. intros [= <-]. gobool. lia. Qed.

Lemma scan_in (low high n : Z) : low <= n < high -> scan low high n = Ok n.
Proof. intros Hn. unfold scan. by rewrite (proj2 (Z.leb_le _ _)), (proj2 (Z.ltb_lt _ _)) by lia. Qed.

(** ** Entries *)

Lemma scanEntry_Ok (row : EntryRow) (entry : Entry) :
  scanEntry row = Ok entry -> er_seq row = entry_Seq entry /\ er_value row = entry_Value entry.
Proof.
  unfold scanEntry. intros (seq & Hs & He)%bind_Ok. apply scan_Ok in Hs as [-> _]. revert He.
  unfold entryFromRow. destruct (_ || _); [done|]. destruct (ParseTime _); [|done]. by intros [= <-].
Qed.

Lemma scanEntry_written (logID : string) (seq : Z) (v : bytes) (t : Z) (text : string) :
  1 <= seq <= MaxPortableInteger -> zlen v = EntryBytes -> FormatTime t = Ok text -> badTime t = false ->
  scanEntry (MkEntryRow logID seq v text) = Ok (MkEntry seq v (NormalizeTime t)).
Proof.
  intros Hs Hv Ht (s & Hf & Hp)%badTime_false%ParseTime_FormatTime. unfold scanEntry.
  cbn [er_seq er_value er_appended_at]. unfold scanUint64.
  assert (MaxPortableInteger < two64) by done. rewrite scan_in by lia. cbn [mbind result_bind].
  unfold entryFromRow. rewrite (proj2 (Z.eqb_neq seq 0)), (proj2 (Z.ltb_ge _ _)), Hv, Z.eqb_refl by lia.
  cbn [orb negb]. assert (s = text) as -> by congruence. by rewrite Hp.
Qed.

(** ** Nodes *)

Lemma nodesFrom_dense (rows : list NodeRow) (position : Z) :
  0 <= position -> position + zlen rows < two64 ->
  map nr_position rows = seqZ position (zlen rows) ->
  nodesFrom rows position = Ok (map encode (map nr_node rows)).
Proof.
  revert position. induction rows as [|row rows IH]; intros position Hp Hl Hs; [done|].
  rewrite zlen_cons in *. pose proof (zlen_nonneg rows). rewrite seqZ_cons in Hs by lia. cbn [map] in Hs.
  injection Hs as Hrow Hrows. cbn [nodesFrom map]. unfold scanUint64. rewrite Hrow, scan_in by lia.
  cbn [mbind result_bind]. rewrite Z.eqb_refl. cbn [negb]. rewrite u64_add_small by lia.
  rewrite (IH (position + 1)); [done|lia|lia|].
  replace (zlen rows) with (Z.pred (zlen rows + 1)) at 1 by lia. by rewrite Hrows.
Qed.

(** ** Witness rows *)

Lemma rowState_Ok (row : WitnessRow) (w : WitnessState) :
  rowState row = Ok w ->
  wr_witness_id row = wit_WitnessID w /\ wr_checkpoint_size row = FormatUint (wit_CheckpointSize w) /\
  u64 (wit_CheckpointSize w) /\ wr_attempts row = wit_Attempts w /\ uint32 (wit_Attempts w) /\
  UnmarshalWitness (wr_witness row) = Ok w /\ witness_ok w.
Proof.
  unfold rowState, wireFromRow. intros (wire & (attempts & Ha & Hw)%bind_Ok & Hs)%bind_Ok.
  apply scan_Ok in Ha as [-> Ha]. destruct (UnmarshalWire (wr_witness row)) as [wire'|] eqn:Hu; [|done].
  destruct (_ || _) eqn:Hc; [done|]. injection Hw as ->.
  rewrite !orb_false_iff, !negb_false_iff, !bool_decide_eq_true, Z.eqb_eq in Hc. destruct Hc as [[Hid Hsize] Hatt].
  pose proof (proj1 (WitnessFromWire_Ok _ _ Hs)) as Hok.
  assert (UnmarshalWitness (wr_witness row) = Ok w) as Hum.
  { unfold UnmarshalWitness. unfold UnmarshalWire in Hu. by rewrite Hu. }
  revert Hs. unfold WitnessFromWire.
  intros (size & Hd & (cp & _ & (next & _ & (rc & _ & (u & _ & [= <-])%bind_Ok)%bind_Ok)%bind_Ok)%bind_Ok)%bind_Ok.
  apply decimal_canonical in Hd as [Hr Hd]. cbn [wit_WitnessID wit_CheckpointSize wit_Attempts] in *.
  split_and!; congruence || done || (unfold uint32; lia).
Qed.

Lemma WitnessKey_text (id id' : string) (size size' : Z) :
  WitnessKey id size = WitnessKey id' size' <-> id = id' /\ FormatUint size = FormatUint size'.
Proof.
  unfold WitnessKey, FormatUint. split; [|by intros [-> ->]]. apply nul_split; apply pretty_chars.
Qed.

(** The key of a row is the key of what it holds. *)
Lemma rowState_key `{ExactCollation} (row : WitnessRow) (w : WitnessState) (id : string) (size : Z) :
  rowState row = Ok w -> witnessIs id (FormatUint size) row = true <-> keyOf w = WitnessKey id size.
Proof.
  intros (Hi & Hs & _)%rowState_Ok. rewrite witnessIs_exact, Hi, Hs. unfold keyOf. by rewrite WitnessKey_text.
Qed.

Lemma witness_ok_size (w : WitnessState) : witness_ok w -> wit_CheckpointSize w <> 0.
Proof.
  unfold witness_ok, validateWitness. destruct (_ || _) eqn:Hg; [done|]. intros _ Hz.
  rewrite Hz in Hg. gobool. done.
Qed.

(** ** Queries of the engine *)

Lemma GetEntry_found (e : Engine) (entry : Entry) :
  engine_log e -> entry ∈ entries e -> GetEntry e (entry_Value entry) = Ok entry.
Proof.
  intros He [i Hi]%list_elem_of_lookup. assert (zget (entries e) (Z.of_nat i) = Some entry) as Hz
    by by rewrite zget_lookup, Nat2Z.id by lia.
  unfold GetEntry. rewrite (ok_width _ _ (log_entries _ _ He _ _ Hz)), Z.eqb_refl. cbn [negb].
  assert (byValue e !! entry_Value entry = Some (Z.of_nat i)) as -> by (apply (log_index _ _ He); eauto).
  rewrite (proj2 (index_Ok _ _ _) Hz). cbn [mbind result_bind]. by rewrite CloneEntry_id.
Qed.

Lemma byValue_missing (e : Engine) (v : bytes) :
  engine_log e -> (forall entry, entry ∈ entries e -> entry_Value entry <> v) -> byValue e !! v = None.
Proof.
  intros He Hv. destruct (byValue e !! v) as [i|] eqn:Hi; [|done]. exfalso.
  apply (log_index _ _ He) in Hi as (entry & Hz & Hval). pose proof (zget_Some_range _ _ _ Hz).
  rewrite zget_lookup in Hz by lia. by apply (Hv entry); [eapply list_elem_of_lookup_2|].
Qed.

(** What a query of a log answers when it reads the rows [r]. *)
Section Queries.
Context `{CO : Collation} `{DI : Dialect} `{DT : DtMmr} `{!ExactCollation}.
Variables (logID : string) (r : Rows) (e : Engine).
Hypothesis Hr : holds r e.

Definition gives {A} (p : Program A) (x : result A) : Prop :=
  match x with
  | Ok a => runs logID r p a r
  | Err err => stops logID r p (Plain err)
  end.

Lemma gives_lift {A} (x : result A) : gives (lift x) x.
Proof. destruct x; [by apply runs_lift|by apply stops_lift]. Qed.

Lemma gives_fail {A} (err : error) : gives (fail (A := A) (Plain err)) (Err err).
Proof. apply stops_fail. Qed.

Lemma gives_bind {A B} (p : Program A) (k : A -> Program B) (a : A) (x : result B) :
  runs logID r p a r -> gives (k a) x -> gives (p ≫= k) x.
Proof. intros Hp Hx. destruct x; [by eapply runs_bind|by eapply runs_stops]. Qed.

Lemma entry_row (row : EntryRow) :
  row ∈ rw_entries r -> exists entry, scanEntry row = Ok entry /\ entry ∈ entries e /\
    er_seq row = entry_Seq entry /\ er_value row = entry_Value entry.
Proof.
  intros Hin. rewrite <- (SliceStable_perm bySeq) in Hin.
  destruct (traverse_in _ _ _ _ (holds_entries _ _ Hr) Hin) as (entry & Hs & Hin'). exists entry.
  split; [done|]. split; [done|]. by apply scanEntry_Ok.
Qed.

Lemma row_entry (entry : Entry) : entry ∈ entries e -> exists row, row ∈ rw_entries r /\ scanEntry row = Ok entry.
Proof.
  intros Hin. destruct (traverse_out _ _ _ _ (holds_entries _ _ Hr) Hin) as (row & Hs & Hin').
  rewrite SliceStable_perm in Hin'. by exists row.
Qed.

(** The row with an identity. *)
Lemma find_entry (v : bytes) :
  match List.find (fun row => bool_decide (er_value row = v)) (rw_entries r) with
  | Some row => exists entry, scanEntry row = Ok entry /\ entry ∈ entries e /\ entry_Value entry = v
  | None => forall entry, entry ∈ entries e -> entry_Value entry <> v
  end.
Proof.
  destruct (List.find _ _) as [row|] eqn:Hf.
  - apply find_some in Hf as [Hin%list_elem_of_In Hv%bool_decide_eq_true].
    destruct (entry_row row Hin) as (entry & Hs & Hin' & _ & Hv'). exists entry. split_and!; [done|done|congruence].
  - intros entry (row & Hin & Hs)%row_entry Hv. apply scanEntry_Ok in Hs as [_ Hrow].
    apply list_elem_of_In in Hin. pose proof (find_none _ _ Hf row Hin) as Hn. cbv beta in Hn.
    apply bool_decide_eq_false in Hn. congruence.
Qed.

Lemma getEntry_gives (v : bytes) : gives (getEntry logID v) (GetEntry e v).
Proof.
  unfold getEntry. destruct (Z.eqb_spec (zlen v) EntryBytes) as [Hw|Hw].
  2: { unfold GetEntry. rewrite (proj2 (Z.eqb_neq _ _) Hw). apply gives_fail. }
  eapply gives_bind; [apply selectEntry_runs|].
  pose proof (find_entry v) as Hf. destruct (List.find _ _) as [row|].
  - destruct Hf as (entry & Hs & Hin & <-). rewrite Hs, GetEntry_found by (done || apply Hr). by apply runs_ret.
  - unfold GetEntry. rewrite Hw, Z.eqb_refl. cbn [negb]. rewrite byValue_missing by (done || apply Hr).
    apply gives_fail.
Qed.

(** ** Witness rows *)

Lemma witness_row (row : WitnessRow) :
  row ∈ rw_witnesses r -> exists w, rowState row = Ok w /\ w ∈ st_Witnesses (state e).
Proof.
  intros Hin. rewrite <- (SliceStable_perm witnessBefore) in Hin.
  by apply (traverse_in _ _ _ _ (holds_witnesses _ _ Hr)).
Qed.

Lemma row_witness (w : WitnessState) :
  w ∈ st_Witnesses (state e) -> exists row, row ∈ rw_witnesses r /\ rowState row = Ok w.
Proof.
  intros Hin. destruct (traverse_out _ _ _ _ (holds_witnesses _ _ Hr) Hin) as (row & Hs & Hin').
  rewrite SliceStable_perm in Hin'. by exists row.
Qed.

Lemma find_row (id : string) (size : Z) :
  match List.find (witnessIs id (FormatUint size)) (rw_witnesses r) with
  | Some row => row ∈ rw_witnesses r /\ exists w, rowState row = Ok w /\ keyOf w = WitnessKey id size /\
      findWitness (WitnessKey id size) (st_Witnesses (state e)) = Ok w
  | None => findWitness (WitnessKey id size) (st_Witnesses (state e)) = Err ErrNotFound /\
      WitnessKey id size ∉ map keyOf (st_Witnesses (state e))
  end.
Proof.
  pose proof (wf_keys _ (ok_state _ (holds_ok _ _ Hr))) as Hk.
  destruct (List.find _ _) as [row|] eqn:Hf.
  - apply find_some in Hf as [Hin%list_elem_of_In Hw]. split; [done|].
    destruct (witness_row row Hin) as (w & Hs & Hin'). exists w. apply (rowState_key _ _ _ _ Hs) in Hw.
    split_and!; [done|done|]. by apply findWitness_ok.
  - assert (WitnessKey id size ∉ map keyOf (st_Witnesses (state e))) as Hni.
    { intros (w & Hw & (row & Hin%list_elem_of_In & Hs)%row_witness)%list_elem_of_fmap.
      pose proof (find_none _ _ Hf row Hin) as Hn. cbv beta in Hn.
      rewrite (proj2 (rowState_key _ _ _ _ Hs) (eq_sym Hw)) in Hn. done. }
    split; [|done]. by destruct (findWitness_cases (WitnessKey id size) (st_Witnesses (state e))) as [[? _]|[_ Hw]].
Qed.

Lemma getWitness_gives (id : string) (size : Z) : gives (getWitness logID id size) (GetWitness e id size).
Proof.
  unfold getWitness, GetWitness. destruct (_ || _); [apply gives_fail|].
  eapply gives_bind; [apply selectWitness_runs|].
  pose proof (find_row id size) as Hf. destruct (List.find _ _) as [row|].
  - destruct Hf as (_ & w & Hs & Hk & ->). apply rowState_Ok in Hs as (_ & _ & Hu & Ha & Hau & Hum & Hok).
    eapply gives_bind; [apply runs_lift, scan_in; rewrite Ha; exact Hau|].
    eapply gives_bind; [by apply runs_lift|].
    apply WitnessKey_text in Hk as [-> Hsize]. pose proof (witness_ok_size _ Hok) as Hnz.
    assert (wit_CheckpointSize w = size) as ->.
    { unfold u64 in Hu. destruct (Z.leb_spec 0 size); [apply FormatUint_inj; lia || done|].
      destruct Hnz. apply FormatUint_inj; [lia|lia|]. rewrite Hsize. unfold FormatUint.
      by replace (Z.to_N size) with 0%N by lia. }
    rewrite Ha, !Z.eqb_refl, bool_decide_true by done. cbn [negb orb]. apply runs_ret.
  - destruct Hf as [-> _]. apply gives_fail.
Qed.

End Queries.

End SqlLog.
