(* ===== verification/SqlCommit.v ===== *)
(** * Loading, scanning and appending to a log

    [loadState] and [scanEntries] answer as the engine, and [appendEntry] makes of the rows what the engine makes of
    the state they represent, with times rounded. *)

From Stdlib Require Import Sorting.Sorted.
From S2P Require Import Prelude DtMmr Hex Text Mmr Cll Portable PortableFormat Engine EngineLog EngineState.
From S2P Require Import EngineHistory EngineWitness Wire WireProofs Json JsonProofs Journal JournalProofs.
From S2P Require Import JournalText JsonlReplay Backend Sql SqlStore SqlRows SqlLog.
Import Text Cll Portable Engine EngineLog EngineState EngineHistory EngineWitness Wire WireProofs SqlLog Journal.
Import JournalProofs Sql SqlStore SqlRows JsonProofs PortableFormat JournalText JsonlReplay Backend.

Module SqlCommit.

Local Open Scope Z_scope.
Local Open Scope u64_scope.

(** ** Loading and scanning a log

    [loadState] and [scanEntries] answer as the engine the rows represent. *)

(** ** Sorting by a number *)

Section Sorting.
Context {A : Type} (f : A -> Z).

Definition lessBy (a b : A) : bool := f a <? f b.
Definition sortedBy (l : list A) : Prop := StronglySorted (fun a b => f a <= f b) l.

Lemma insert_front (x : A) (l : list A) :
  (forall y, y ∈ l -> f x <= f y) -> insertStable lessBy x l = x :: l.
Proof.
  intros Hl. destruct l as [|b l]; [done|]. cbn [insertStable]. unfold lessBy.
  rewrite (proj2 (Z.ltb_ge _ _)); [done|]. apply Hl. left.
Qed.

Lemma insert_sortedBy (x : A) (l : list A) : sortedBy l -> sortedBy (insertStable lessBy x l).
Proof.
  intros Hs. induction Hs as [|b l Hs IH Hall]; cbn [insertStable]; [by repeat constructor|].
  unfold lessBy at 1. destruct (Z.ltb_spec (f b) (f x)).
  - constructor; [done|]. apply Forall_forall. intros y Hy. rewrite insertStable_perm in Hy.
    apply elem_of_cons in Hy as [->|Hy]; [lia|]. by apply (proj1 (Forall_forall _ _) Hall).
  - constructor; [by constructor|]. constructor; [done|].
    eapply Forall_impl; [exact Hall|]. cbv beta. lia.
Qed.

Lemma slice_sortedBy (l : list A) : sortedBy (SliceStable lessBy l).
Proof. unfold SliceStable. induction l as [|x l IH]; cbn [foldr]; [constructor|]. by apply insert_sortedBy. Qed.

Lemma insert_filter (p : A -> bool) (x : A) (l : list A) :
  sortedBy l ->
  List.filter p (insertStable lessBy x l) =
  if p x then insertStable lessBy x (List.filter p l) else List.filter p l.
Proof.
  intros Hs. induction Hs as [|b l Hs IH Hall]; cbn [insertStable List.filter]; [done|].
  unfold lessBy at 1. destruct (Z.ltb_spec (f b) (f x)) as [Hlt|Hge]; cbn [List.filter].
  - rewrite IH. destruct (p b), (p x); try done. cbn [insertStable]. unfold lessBy at 2.
    by rewrite (proj2 (Z.ltb_lt _ _)).
  - destruct (p x); [|done]. symmetry.
    change (if p b then b :: List.filter p l else List.filter p l) with (List.filter p (b :: l)).
    apply insert_front. intros y Hy%list_elem_of_In. apply filter_In in Hy as [Hy%list_elem_of_In _].
    apply elem_of_cons in Hy as [->|Hy]; [done|]. pose proof (proj1 (Forall_forall _ _) Hall y Hy) as Hy2. cbv beta in Hy2. lia.
Qed.

Lemma slice_filter (p : A -> bool) (l : list A) :
  SliceStable lessBy (List.filter p l) = List.filter p (SliceStable lessBy l).
Proof.
  unfold SliceStable. induction l as [|x l IH]; cbn [List.filter foldr]; [done|].
  fold (SliceStable lessBy l) in *. rewrite insert_filter by apply slice_sortedBy.
  destruct (p x); cbn [foldr]; by rewrite ?IH.
Qed.

End Sorting.

(** ** Windows *)

Lemma traverse_filter {A B} (f : A -> result B) (p : A -> bool) (q : B -> bool) (l : list A) (k : list B) :
  (forall a b, f a = Ok b -> p a = q b) -> traverse f l = Ok k ->
  traverse f (List.filter p l) = Ok (List.filter q k).
Proof.
  intros Hpq Hk%traverse_Ok. apply traverse_Ok. induction Hk as [|a b l k Hab Hk IH]; cbn [List.filter]; [done|].
  rewrite (Hpq a b Hab). destruct (q b); [by constructor|done].
Qed.

Lemma traverse_take {A B} (f : A -> result B) (n : nat) (l : list A) (k : list B) :
  traverse f l = Ok k -> traverse f (take n l) = Ok (take n k).
Proof. intros Hk%traverse_Ok. apply traverse_Ok. by apply Forall2_take. Qed.

Lemma filter_after (i a : Z) (l : log) :
  List.filter (fun entry => a <? entry_Seq entry) (entriesFrom i l) = drop (Z.to_nat (a - i)) (entriesFrom i l).
Proof.
  revert i. induction l as [|p l IH]; intros i; cbn [entriesFrom List.filter]; [by rewrite drop_nil|].
  rewrite IH. unfold entryAt at 1. cbn [entry_Seq]. destruct (Z.ltb_spec a (i + 1)).
  - replace (Z.to_nat (a - i)) with 0%nat by lia. by replace (Z.to_nat (a - (i + 1))) with 0%nat by lia.
  - by replace (Z.to_nat (a - i)) with (S (Z.to_nat (a - (i + 1)))) by lia.
Qed.

Lemma entries_after (e : Engine) (a : Z) :
  engine_log e -> List.filter (fun entry => a <? entry_Seq entry) (entries e) = drop (Z.to_nat a) (entries e).
Proof. intros He. rewrite <- (entriesOf_abs e He). unfold entriesOf. by rewrite filter_after, Z.sub_0_r. Qed.

(** ** States *)

(** The nodes and rows of a state are decoded apart from the rest of it. *)
Lemma stateFromWire_tables (wire : WireState) (header : State) (nodes : list bytes) (wires : list WireWitness)
    (ws : list WitnessState) :
  stateFromWire (withTables wire [] []) = Ok header -> traverse WitnessFromWire wires = Ok ws ->
  stateFromWire (withTables wire (map encode nodes) wires) = Ok (with_rows header nodes ws).
Proof.
  intros Hh Hw. revert Hh. unfold stateFromWire, checkpointFromWire, withTables.
  cbn [ws_Size ws_IndexedSeq ws_Nodes ws_FirstPendingAt ws_Checkpoint ws_CheckpointSize ws_CheckpointIndexedSeq
    ws_CheckpointPeaks ws_Witnesses].
  intros (size & -> & (indexed & -> & (no & _ & (p & -> & (c & -> & (no' & _ & [= <-])%bind_Ok)%bind_Ok)%bind_Ok)%bind_Ok)%bind_Ok)%bind_Ok.
  cbn [mbind result_bind]. rewrite traverse_decode. cbn [mbind result_bind]. by rewrite Hw.
Qed.

Lemma with_rows_twice (s : State) (ns ns' : list bytes) (ws ws' : list WitnessState) :
  with_rows (with_rows s ns ws) ns' ws' = with_rows s ns' ws'.
Proof. done. Qed.

Section Queries.
Context `{CO : Collation} `{DI : Dialect} `{DT : DtMmr} `{!ExactCollation}.
Variables (logID : string) (r : Rows) (e : Engine).
Hypothesis Hr : holds r e.

Lemma scanEntries_gives (afterSeq limit : Z) :
  0 <= afterSeq -> gives logID r (scanEntries logID afterSeq limit) (ScanEntries e afterSeq limit).
Proof.
  intros Ha. pose proof (ok_log _ (holds_ok _ _ Hr)) as He. unfold scanEntries.
  destruct ((MaxPortableInteger <? afterSeq) || (limit <? 1) || (MaxScanLimit <? limit)) eqn:Hg.
  { unfold ScanEntries. rewrite Hg. apply gives_fail. }
  rewrite !orb_false_iff, !Z.ltb_ge in Hg. rewrite ScanEntries_window by (done || lia).
  eapply gives_bind; [apply selectEntriesAfter_runs|].
  apply runs_lift, traverse_take. change bySeq with (lessBy er_seq). rewrite slice_filter, <- entries_after by done.
  apply traverse_filter; [|apply Hr]. intros row entry [-> _]%scanEntry_Ok. done.
Qed.

Lemma loadWireWitnesses_runs :
  exists wires, runs logID r (loadWireWitnesses logID) wires r /\
    traverse WitnessFromWire wires = Ok (st_Witnesses (state e)).
Proof.
  destruct (traverse_bind _ _ _ _ (holds_witnesses _ _ Hr)) as (wires & Hw & Hs). exists wires. split; [|done].
  unfold loadWireWitnesses. eapply runs_bind; [apply selectWitnesses_runs|by apply runs_lift].
Qed.

Lemma loadState_runs (forUpdate : bool) : runs logID r (loadState logID forUpdate) (state e) r.
Proof.
  destruct (holds_meta _ _ Hr) as (row & Hrow & wire & header & Hu & Hh & Hst).
  pose proof (ok_state _ (holds_ok _ _ Hr)) as Hwf. destruct loadWireWitnesses_runs as (wires & Hrun & Hws).
  unfold loadState. eapply runs_bind; [apply selectMeta_runs|]. rewrite Hrow. cbn [head fmap option_fmap option_map].
  rewrite Hu. eapply runs_bind; [apply selectNodes_runs|].
  assert (zlen (SliceStable byPosition (rw_nodes r)) = zlen (st_Nodes (state e))) as Hlen.
  { rewrite <- (holds_nodes _ _ Hr). unfold zlen. by rewrite length_map. }
  pose proof (LeafCount_bound _ _ (wf_leaves _ Hwf)) as Hb. rewrite (wf_size _ Hwf) in Hb.
  eapply runs_bind; [apply runs_lift, nodesFrom_dense|].
  1: lia.
  1: rewrite Hlen; unfold two63, two64 in *; lia.
  1: by rewrite (holds_positions _ _ Hr), Hlen.
  eapply runs_bind; [exact Hrun|]. apply runs_lift. unfold StateFromWire.
  rewrite (stateFromWire_tables _ _ _ _ _ Hh Hws). cbn [mbind result_bind].
  rewrite (holds_nodes _ _ Hr), Hst. by rewrite (proj2 (proj2 (validateState_cases _ ErrCorrupt)) Hwf).
Qed.

Lemma onlyRows_wf `{!DtMmrLaws DT} : state_wf (MkState 0 [] 0 None None (st_Witnesses (state e))).
Proof.
  pose proof (ok_state _ (holds_ok _ _ Hr)) as Hwf. pose proof (wf_leaves _ (ok_state _ New_ok)) as Hl.
  by split; [|exact Hl|..]; try apply Hwf.
Qed.

Lemma pendingWitnesses_gives `{!DtMmrLaws DT} (now limit : Z) :
  gives logID r (pendingWitnesses logID now limit) (PendingWitnesses e now limit).
Proof.
  destruct loadWireWitnesses_runs as (wires & Hrun & Hws). unfold pendingWitnesses.
  eapply gives_bind; [exact Hrun|].
  pose proof (proj2 (proj2 (validateState_cases _ ErrCorrupt)) onlyRows_wf) as Hv.
  assert (StateFromWire (onlyWitnesses wires) = Ok (MkState 0 [] 0 None None (st_Witnesses (state e)))) as Hs.
  { unfold StateFromWire, onlyWitnesses, stateFromWire.
    cbn [ws_Size ws_IndexedSeq ws_Nodes ws_FirstPendingAt ws_Checkpoint ws_CheckpointSize ws_CheckpointIndexedSeq
      ws_CheckpointPeaks ws_Witnesses].
    rewrite Hws. exact (f_equal (fun x => _ ← x; _) Hv). }
  eapply gives_bind; [apply runs_lift, Hs|].
  unfold Replace. cbn [validateEntries]. rewrite Hv. cbn [cloneEntries map indexEntries].
  rewrite CloneState_id. unfold PendingWitnesses. cbn [state st_Witnesses]. apply gives_lift.
Qed.

End Queries.

(** ** JSON columns *)

Lemma metadata_written (s : State) :
  pending_ok (st_FirstPendingAt s) -> state_u64 s ->
  exists raw wire, MarshalMetadata s = Ok raw /\ UnmarshalState raw = Some wire /\
    stateFromWire (withTables wire [] []) =
      Ok (MkState (st_Size s) [] (st_IndexedSeq s) (NormalizeTime <$> st_FirstPendingAt s) (st_Checkpoint s) []).
Proof.
  intros Hp [Us Ui Uc Ur]. set (s0 := MkState (st_Size s) [] (st_IndexedSeq s) (st_FirstPendingAt s) (st_Checkpoint s) []).
  destruct (state_roundtrip s0 Hp ltac:(constructor) ltac:(by split)) as (wire & Ht & Hf).
  destruct (StateToWire_good s0 wire ltac:(constructor) ltac:(constructor) Ht) as [H8 Hr].
  destruct (good_state wire H8) as [Hw Hh].
  exists (Json.encode (stateJson wire)), wire. split_and!.
  - unfold MarshalMetadata. fold s0. by rewrite Ht.
  - unfold UnmarshalState. rewrite json_roundtrip by (done || unfold Json.maxNestingDepth; lia).
    by apply state_decodes.
  - replace (withTables wire [] []) with wire; [exact Hf|]. revert Ht. unfold StateToWire.
    intros (pending & _ & Hrest)%bind_Ok. cbn [s0 st_Witnesses traverse mbind result_bind st_Checkpoint st_Nodes map] in Hrest.
    destruct (st_Checkpoint s); injection Hrest as <-; done.
Qed.

Lemma row_written (logID : string) (w : WitnessState) :
  witness_ok w -> row_storable w ->
  exists encoded, MarshalWitness w = Ok encoded /\
    rowState (MkWitnessRow logID (wit_WitnessID w) (FormatUint (wit_CheckpointSize w)) (wit_Attempts w) encoded) =
      Ok (normalWitness w).
Proof.
  intros Hok Hst. destruct (witness_roundtrip w Hok (storable_size _ Hst)) as (wire & Ht & Hf).
  destruct (WitnessToWire_good w wire Hok Hst Ht) as [H8 Hr]. destruct (good_witness wire H8) as [Hw Hh].
  exists (Json.encode (witnessJson wire)). unfold MarshalWitness. rewrite Ht. split; [done|].
  assert (UnmarshalWire (Json.encode (witnessJson wire)) = Some wire) as Hu.
  { unfold UnmarshalWire. rewrite json_roundtrip by (done || unfold Json.maxNestingDepth; lia). by apply witness_decodes. }
  assert (ww_WitnessID wire = wit_WitnessID w /\ ww_CheckpointSize wire = FormatUint (wit_CheckpointSize w) /\
    ww_Attempts wire = wit_Attempts w) as (Hid & Hsize & Hatt).
  { revert Ht. unfold WitnessToWire. intros (t & _ & [= <-])%bind_Ok.
    destruct (wit_Receipt w); split_and!; reflexivity. }
  unfold rowState, wireFromRow. cbn [wr_attempts wr_witness wr_witness_id wr_checkpoint_size]. unfold scanUint32.
  rewrite scan_in by apply Hst. cbn [mbind result_bind]. rewrite Hu, Hid, Hsize, Hatt, !bool_decide_true, Z.eqb_refl by done.
  exact Hf.
Qed.

(** ** States that are kept *)

Lemma rows_kept_keys (ws rows : list WitnessState) : Forall2 row_kept ws rows -> map keyOf rows = map keyOf ws.
Proof.
  induction 1 as [|w w' ws rows Hw Hrows IH]; [done|]. cbn [map]. rewrite IH. by destruct Hw as [->| ->].
Qed.

Lemma state_kept_wf `{DT : DtMmr} (s s' : State) : state_kept s s' -> state_wf s -> state_wf s'.
Proof.
  intros Hk Hwf. pose proof (kept_forall witness_ok s s' (fun w => proj2 (normalWitness_ok w)) Hk (wf_rows _ Hwf)) as Hrows.
  destruct Hk as [Hsize Hnodes Hindexed Hcp Hp (rows & Hperm & Hkept)]. destruct Hwf as [H1 H2 H3 H4 H5 H6 H7].
  split; rewrite ?Hsize, ?Hnodes, ?Hindexed, ?Hcp; try done.
  - destruct Hp as [->| ->]; [done|]. destruct (st_FirstPendingAt s) as [t|]; [|done]. cbn. by rewrite badTime_normalize.
  - intros c Hc. destruct (H4 c Hc) as (? & ? & ? & ? & ?). unfold checkpoint_ok. by rewrite Hsize, Hindexed.
  - rewrite Hperm, (rows_kept_keys _ _ Hkept). done.
Qed.

(** What a program of a log makes of the rows, for the engine they represent. *)
Section Writes.
Context `{CO : Collation} `{DI : Dialect} `{DT : DtMmr} `{!ExactCollation} `{!DtMmrLaws DT}.
Variables (logID : string) (r : Rows) (e : Engine).
Hypothesis Hr : holds r e.

Definition performs {A} (p : Program A) (spec : Engine * result A) : Prop :=
  match snd spec with
  | Ok a => exists r' e', runs logID r p a r' /\ holds r' e' /\ engine_kept (fst spec) e'
  | Err err => stops logID r p (Plain err)
  end.

Lemma performs_bind {A B} (p : Program A) (k : A -> Program B) (a : A) (spec : Engine * result B) :
  runs logID r p a r -> performs (k a) spec -> performs (p ≫= k) spec.
Proof.
  intros Hp. unfold performs. destruct (snd spec); [|intros Hs; by eapply runs_stops].
  intros (r' & e' & Hrun & ? & ?). exists r', e'. split_and!; [by eapply runs_bind|done|done].
Qed.

(** ** Appending *)

Lemma entry_seq_range (entry : Entry) : entry ∈ entries e -> 1 <= entry_Seq entry <= zlen (entries e).
Proof.
  intros [i Hi]%list_elem_of_lookup. pose proof (lookup_lt_Some _ _ _ Hi).
  assert (zget (entries e) (Z.of_nat i) = Some entry) as Hz by by rewrite zget_lookup, Nat2Z.id by lia.
  apply (log_entries _ _ (ok_log _ (holds_ok _ _ Hr))), ok_seq in Hz. unfold zlen. lia.
Qed.

Lemma fold_max_spec (rows : list EntryRow) (a : Z) :
  let m := fold_left (fun m row => Z.max m (er_seq row)) rows a in
  a <= m /\ (forall row, row ∈ rows -> er_seq row <= m) /\ (m = a \/ exists row, row ∈ rows /\ m = er_seq row).
Proof.
  revert a. induction rows as [|x rows IH]; intros a; cbn [fold_left].
  - split_and!; [done| |by left]. intros row Hin. by apply elem_of_nil in Hin.
  - destruct (IH (Z.max a (er_seq x))) as (H1 & H2 & H3). split_and!; [lia| |].
    + intros row [->|Hin]%elem_of_cons; [lia|by apply H2].
    + destruct H3 as [H3|(row & Hin & H3)]; [|right; exists row; by split; [right|]].
      destruct (Z.max_spec a (er_seq x)) as [[_ Hm]|[_ Hm]]; [right|left; congruence].
      exists x. split; [left|congruence].
Qed.

Lemma maxSeq_next : nextSeq (maxSeq (rw_entries r)) = Ok (zlen (entries e) + 1).
Proof.
  pose proof (log_length_bound _ (ok_log _ (holds_ok _ _ Hr))) as Hb. pose proof (zlen_nonneg (entries e)) as Hnn.
  assert (forall row, row ∈ rw_entries r -> 1 <= er_seq row <= zlen (entries e)) as Hrange.
  { intros row (entry & _ & Hin & -> & _)%(entry_row _ _ Hr). by apply entry_seq_range. }
  unfold maxSeq. destruct (rw_entries r) as [|row rows] eqn:Hrows.
  - destruct (entries e) as [|entry es] eqn:Hes; [done|]. exfalso.
    destruct (row_entry _ _ Hr entry) as (row & Hin & _); [rewrite Hes; left|].
    rewrite Hrows in Hin. by apply elem_of_nil in Hin.
  - destruct (fold_max_spec rows (er_seq row)) as (H1 & H2 & H3). set (m := fold_left _ rows (er_seq row)) in *.
    assert (m = zlen (entries e)) as Hm.
    { assert (m <= zlen (entries e)) as Hle.
      { destruct H3 as [->|(x & Hin & ->)]; apply Hrange; [left|by right]. }
      assert (1 <= zlen (entries e)) as Hpos by (pose proof (Hrange row ltac:(left)); lia).
      destruct (zget_in_range (entries e) (zlen (entries e) - 1) ltac:(lia)) as [last Hlast].
      pose proof (ok_seq _ _ (log_entries _ _ (ok_log _ (holds_ok _ _ Hr)) _ _ Hlast)) as Hseq.
      rewrite zget_lookup in Hlast by lia. apply list_elem_of_lookup_2 in Hlast.
      destruct (row_entry _ _ Hr last Hlast) as (x & Hin & [Hx _]%scanEntry_Ok). rewrite Hrows in Hin.
      apply elem_of_cons in Hin as [->|Hin]; [lia|]. pose proof (H2 x Hin). lia. }
    unfold nextSeq, scanInt64. rewrite Hm. unfold MaxPortableInteger, two63, two64 in *.
    rewrite scan_in by (unfold two63; lia). cbn [mbind result_bind]. f_equal. rewrite Z.mod_small by (unfold two64; lia).
    apply u64_add_small. unfold two64. lia.
Qed.

Lemma entry_appended (row : EntryRow) (entry : Entry) (m : gmap bytes Z) :
  scanEntry row = Ok entry -> er_seq row = zlen (entries e) + 1 ->
  engine_ok (MkEngine (entries e ++ [entry]) m (state e)) ->
  holds (MkRows (rw_meta r) (rw_entries r ++ [row]) (rw_nodes r) (rw_witnesses r))
    (MkEngine (entries e ++ [entry]) m (state e)).
Proof.
  intros Hs Hseq Hok. destruct Hr as [Hm He Hp Hn Hw _]. split; try done. cbn [rw_entries entries].
  rewrite SliceStable_snoc.
  - apply traverse_app; [done|]. cbn [traverse]. by rewrite Hs.
  - intros x (entry' & _ & Hin & Hx & _)%(entry_row _ _ Hr). apply entry_seq_range in Hin.
    unfold bySeq. apply Z.ltb_ge. lia.
Qed.

Lemma appendEntry_performs (input : AppendInput) :
  invalidInput input = false -> performs (appendEntry logID input) (Append e input).
Proof.
  intros Hinput. pose proof (ok_log _ (holds_ok _ _ Hr)) as Hlog.
  pose proof (perform_step e (OpAppend input) (holds_ok _ _ Hr) I) as [Hok _]. cbn [perform] in Hok.
  unfold appendEntry. eapply performs_bind; [apply selectEntry_runs|].
  unfold Append in *. unfold invalidInput in Hinput. rewrite Hinput in *.
  apply orb_false_iff in Hinput as [Hw%negb_false_iff%Z.eqb_eq Ht].
  pose proof (find_entry _ _ Hr (input_Value input)) as Hf. destruct (List.find _ _) as [row|].
  - destruct Hf as (entry & Hs & Hin & Hv). pose proof (GetEntry_found e entry Hlog Hin) as Hg. rewrite Hv in Hg.
    unfold GetEntry in Hg. rewrite Hw, Z.eqb_refl in Hg. cbn [negb] in Hg.
    destruct (byValue e !! input_Value input) as [i|]; [|done].
    destruct (index (entries e) i) as [x|]; [|done]. cbn [mbind result_bind] in Hg |- *. injection Hg as ->.
    exists r, e. split_and!; [|done|done]. eapply runs_bind; [by apply runs_lift|apply runs_ret].
  - rewrite byValue_missing in * by done. eapply performs_bind; [apply selectMaxSeq_runs|].
    eapply performs_bind; [apply runs_lift, maxSeq_next|].
    destruct (MaxPortableInteger <? zlen (entries e) + 1) eqn:Hmax; [apply stops_fail|].
    destruct (timestamp_FormatTime _ Ht) as (text & Htext & _). rewrite Htext. cbn [fst snd performs] in *.
    eexists _, _. split_and!; [| |reflexivity].
    + rewrite CloneEntry_id. eapply runs_bind; [apply insertEntry_runs; [done|]|apply runs_ret].
      intros other (entry & _ & Hin & -> & ->)%(entry_row _ _ Hr). cbn [er_seq er_value].
      split; [apply entry_seq_range in Hin; lia|by apply Hf].
    + apply entry_appended; [|done|done]. apply Z.ltb_ge in Hmax. pose proof (zlen_nonneg (entries e)).
      apply scanEntry_written; done || lia.
Qed.

End Writes.

End SqlCommit.
