(* ===== verification/SqlWitness.v ===== *)
(** * Committing states and witness rows to a log

    [commitState] makes of the rows what the engine makes of the state.
    [readWitness] checks the row and [writeWitness] replaces it where its
    attempt count is still the expected one.  Others may write in between. *)

From S2P Require Import Prelude DtMmr Hex Text Mmr Cll Portable Engine EngineLog EngineState EngineHistory.
From S2P Require Import EngineWitness Wire WireProofs Journal JournalProofs JournalText JsonlReplay Backend Sql.
From S2P Require Import SqlStore SqlRows SqlLog SqlCommit.
Import Text Cll Portable Engine EngineLog EngineState EngineHistory EngineWitness Wire WireProofs Journal.
Import JournalProofs JournalText JsonlReplay Backend Sql SqlStore SqlRows SqlLog SqlCommit.

Module SqlWitness.

Local Open Scope Z_scope.

(** ** Committing a state to a log

    [commitState] writes the metadata, the new nodes and the new witness rows,
    and what is loaded afterwards is the state the engine commits. *)

Section States.
Context `{CO : Collation} `{DI : Dialect} `{DT : DtMmr} `{!ExactCollation} `{!DtMmrLaws DT}.
Variable logID : string.

(** ** Nodes *)

(** Rows of nodes from position zero without gaps. *)
Definition nodesHold (rows : list NodeRow) (nodes : list bytes) : Prop :=
  map nr_position (SliceStable byPosition rows) = seqZ 0 (zlen nodes) /\
  map nr_node (SliceStable byPosition rows) = nodes.

Lemma nodesHold_below (rows : list NodeRow) (nodes : list bytes) (row : NodeRow) :
  nodesHold rows nodes -> row ∈ rows -> nr_position row < zlen nodes.
Proof.
  intros [Hp _] Hin. rewrite <- (SliceStable_perm byPosition) in Hin.
  apply (list_elem_of_fmap_2 nr_position) in Hin. change (nr_position <$> ?l) with (map nr_position l) in Hin.
  rewrite Hp in Hin. apply elem_of_seqZ in Hin. lia.
Qed.

Lemma nodesHold_snoc (rows : list NodeRow) (nodes : list bytes) (node : bytes) :
  nodesHold rows nodes -> nodesHold (rows ++ [MkNodeRow logID (zlen nodes) node]) (nodes ++ [node]).
Proof.
  intros Hh. pose proof Hh as [Hp Hn]. unfold nodesHold. rewrite SliceStable_snoc.
  - rewrite !map_app, Hp, Hn, zlen_snoc. split; [|done]. cbn [map nr_position].
    pose proof (zlen_nonneg nodes). rewrite seqZ_app by lia. f_equal.
  - intros x Hx. pose proof (nodesHold_below _ _ _ Hh Hx). unfold byPosition. apply Z.ltb_ge. cbn. lia.
Qed.

Lemma insertNodes_runs (m : list MetaRow) (es : list EntryRow) (rows : list NodeRow) (ws : list WitnessRow)
    (old nodes : list bytes) :
  nodesHold rows old ->
  exists rows', runs logID (MkRows m es rows ws) (insertNodes logID (zlen old) nodes) tt (MkRows m es rows' ws) /\
    nodesHold rows' (old ++ nodes).
Proof.
  revert rows old. induction nodes as [|node nodes IH]; intros rows old Hh; cbn [insertNodes].
  - exists rows. rewrite app_nil_r. split; [apply runs_ret|done].
  - destruct (IH _ _ (nodesHold_snoc rows old node Hh)) as (rows' & Hrun & Hh'). exists rows'.
    rewrite zlen_snoc, <- app_assoc in *. split; [|done].
    eapply runs_bind; [apply insertNode_runs; [done|]|exact Hrun].
    intros x Hx. pose proof (nodesHold_below _ _ _ Hh Hx). cbn. lia.
Qed.

(** ** New witness rows *)

Lemma insertWitnesses_known (existing : gset string) (ws new : list WitnessState) :
  (forall w, w ∈ ws -> keyOf w ∈ existing) ->
  insertWitnesses logID existing (ws ++ new) = insertWitnesses logID existing new.
Proof.
  induction ws as [|w ws IH]; intros Hws; [done|]. cbn [app insertWitnesses].
  rewrite bool_decide_true by (apply Hws; left). apply IH. intros x Hx. apply Hws. by right.
Qed.

Lemma insertWitnesses_runs (existing : gset string) (m : list MetaRow) (es : list EntryRow) (ns : list NodeRow)
    (rows : list WitnessRow) (held new : list WitnessState) :
  traverse rowState rows = Ok held -> Forall witness_ok new -> Forall row_storable new ->
  (forall w, w ∈ new -> keyOf w ∉ existing) -> NoDup (map keyOf (held ++ new)) ->
  exists rows', runs logID (MkRows m es ns rows) (insertWitnesses logID existing new) tt (MkRows m es ns rows') /\
    traverse rowState rows' = Ok (held ++ map normalWitness new).
Proof.
  intros Hrows Hok. revert rows held Hrows. induction Hok as [|w new Hw Hok IH]; intros rows held Hrows Hst Hex Hnd.
  { exists rows. rewrite app_nil_r. split; [apply runs_ret|done]. }
  apply Forall_cons in Hst as [Hsw Hst]. destruct (row_written logID w Hw Hsw) as (encoded & Henc & Hrow).
  set (row := MkWitnessRow logID (wit_WitnessID w) (FormatUint (wit_CheckpointSize w)) (wit_Attempts w) encoded) in *.
  destruct (IH (rows ++ [row]) (held ++ [normalWitness w])) as (rows' & Hrun & Hrows').
  - apply traverse_app; [done|]. cbn [traverse]. by rewrite Hrow.
  - done.
  - intros x Hx. apply Hex. by right.
  - rewrite <- app_assoc, !map_app in *. exact Hnd.
  - exists rows'. rewrite <- app_assoc in Hrows'. split; [|done]. cbn [insertWitnesses].
    rewrite bool_decide_false by (apply Hex; left). eapply runs_bind; [by apply runs_lift|].
    eapply runs_bind; [apply insertWitness_runs; [done|]|exact Hrun].
    intros other Hother. cbn [rw_witnesses] in Hother. destruct (traverse_in _ _ _ _ Hrows Hother) as (x & Hx & Hin).
    cbn [row wr_witness_id wr_checkpoint_size]. destruct (witnessIs _ _ other) eqn:Hclash; [|done]. exfalso.
    apply (rowState_key _ _ _ _ Hx) in Hclash. rewrite map_app in Hnd. apply NoDup_app in Hnd as (_ & Hd & _).
    apply (Hd (keyOf x)); [by apply list_elem_of_fmap_2|]. cbn [map]. rewrite Hclash. left.
Qed.

(** ** Commits *)

Variables (r : Rows) (e : Engine).
Hypothesis Hr : holds r e.

Lemma newRows_fresh_key (ws next : list WitnessState) (w : WitnessState) : w ∈ newRows ws next -> keyOf w ∉ map keyOf ws.
Proof.
  unfold newRows. intros Hw%list_elem_of_In. apply filter_In in Hw as [_ Hw%negb_true_iff].
  by apply bool_decide_eq_false in Hw.
Qed.

(** The state loaded after an accepted commit. *)
Lemma commit_kept (next : State) (rows : list WitnessState) :
  rows ≡ₚ st_Witnesses (state e) ++ map normalWitness (newRows (st_Witnesses (state e)) (st_Witnesses next)) ->
  state_kept (committed (state e) next)
    (MkState (st_Size next) (st_Nodes next) (st_IndexedSeq next) (NormalizeTime <$> st_FirstPendingAt next)
       (st_Checkpoint next) rows).
Proof.
  intros Hp. split; cbn; try done; [by right|]. eexists. split; [exact Hp|]. apply Forall2_app; [done|].
  apply Forall2_fmap_r, Forall_Forall2_diag, Forall_forall. intros w _. by right.
Qed.

Lemma loadedState_performs (expectedSize : Z) (expectedCheckpoint : option bytes) (next : State) :
  state_storable next ->
  performs logID r (commitState logID (state e) expectedSize expectedCheckpoint next)
    (CommitCLL e expectedSize expectedCheckpoint next).
Proof.
  intros Hst. pose proof (ok_state _ (holds_ok _ _ Hr)) as Hwf. unfold commitState, CommitCLL.
  destruct (ApplyCLL_outcome (state e) expectedSize expectedCheckpoint next Hwf) as [|Hcas| |Hcas Hn Ha Hc Hagree];
    try (apply stops_bind, stops_lift; done).
  destruct (metadata_written (committed (state e) next) (wf_pending _ Hn)) as (raw & wire & Hm & Hu & Hh).
  { destruct (storable_u64 _ Hst) as [Us Ui Uc Ur]. split; try done. cbn [committed with_rows st_Witnesses].
    apply Forall_app. split; [|by apply Forall_newRows]. apply Forall_forall.
    intros w (row & _ & Hrow%rowState_Ok)%(row_witness _ _ Hr). tauto. }
  destruct (holds_meta _ _ Hr) as (row & Hmeta & _).
  assert (nodesHold (rw_nodes r) (st_Nodes (state e))) as Hnodes by (split; apply Hr).
  destruct Ha as (Hsize & Hidx & [added Hadded]).
  destruct (insertNodes_runs (map (fun row => MkMetaRow (mr_log_id row) raw) (rw_meta r)) (rw_entries r) (rw_nodes r)
              (rw_witnesses r) _ added Hnodes) as (ns' & Hns & Hnodes').
  destruct (traverse_perm _ _ (rw_witnesses r) _ (holds_witnesses _ _ Hr)) as (held & Hheld & Hperm);
    [by rewrite SliceStable_perm|].
  set (new := newRows (st_Witnesses (state e)) (st_Witnesses next)).
  destruct (insertWitnesses_runs (list_to_set (map keyOf (st_Witnesses (state e))))
              (map (fun row => MkMetaRow (mr_log_id row) raw) (rw_meta r)) (rw_entries r) ns' (rw_witnesses r) held new)
    as (ws' & Hws & Hrows'); [done|by apply Forall_newRows; apply Hn|by apply Forall_newRows; apply Hst| | |].
  { intros w Hw%newRows_fresh_key. by rewrite elem_of_list_to_set. }
  { rewrite map_app, Hperm, <- map_app. apply newRows_keys; [apply Hwf|apply Hn]. }
  destruct (traverse_perm _ _ (SliceStable witnessBefore ws') _ Hrows' (SliceStable_perm _ _)) as (rows & Hrows & Hp).
  rewrite Hperm in Hp. pose proof (commit_kept next rows Hp) as Hkept.
  unfold performs. cbn [snd fst]. eexists _, (MkEngine (entries e) (byValue e) _). split_and!; [| |by split; [|exact Hkept]].
  - eapply runs_bind; [by apply runs_lift|]. eapply runs_bind; [by apply runs_lift|].
    eapply runs_bind; [apply updateMeta_runs|]. cbn [committed with_rows st_Nodes st_Witnesses].
    rewrite Hadded, drop_app_length. eapply runs_bind; [exact Hns|].
    rewrite insertWitnesses_known; [exact Hws|]. intros w Hw. rewrite elem_of_list_to_set. by apply list_elem_of_fmap_2.
  - split; cbn [rw_meta rw_entries rw_nodes rw_witnesses entries state st_Nodes st_Witnesses].
    + rewrite Hmeta. eexists. split; [done|]. exists wire. eexists. split_and!; [exact Hu|exact Hh|done].
    + apply Hr.
    + rewrite Hadded. apply Hnodes'.
    + rewrite Hadded. apply Hnodes'.
    + exact Hrows.
    + split; [apply (ok_log _ (holds_ok _ _ Hr))|]. eapply state_kept_wf; [exact Hkept|]. by apply committed_wf.
Qed.

Lemma commitState_performs (forUpdate : bool) (expectedSize : Z) (expectedCheckpoint : option bytes) (next : State) :
  state_storable next ->
  performs logID r (current ← loadState logID forUpdate; commitState logID current expectedSize expectedCheckpoint next)
    (CommitCLL e expectedSize expectedCheckpoint next).
Proof.
  intros Hst. eapply performs_bind; [by apply loadState_runs|]. by apply loadedState_performs.
Qed.

(** What was loaded may be older than the rows others have committed since. *)
Lemma commitState_moved (e' : Engine) (expectedSize : Z) (expectedCheckpoint : option bytes) (next : State) :
  engine_ok e' -> rows_moved e e' ->
  commitState logID (state e) expectedSize expectedCheckpoint next =
  commitState logID (state e') expectedSize expectedCheckpoint next.
Proof.
  intros He' Hm. pose proof (holds_ok _ _ Hr) as He.
  destruct (ApplyCLL_moved e e' expectedSize expectedCheckpoint next He He' Hm) as ([added|err] & H0 & H1);
    unfold commitState; rewrite H0, H1; [|done].
  cbn [mbind result_bind]. rewrite !lift_step.
  change (MarshalMetadata (with_rows next (st_Nodes next) (st_Witnesses (state e') ++ added)))
    with (MarshalMetadata (with_rows next (st_Nodes next) (st_Witnesses (state e) ++ added))).
  cbn [with_rows st_Nodes st_Witnesses]. rewrite !insertWitnesses_known
    by (intros w Hw; rewrite elem_of_list_to_set; by apply list_elem_of_fmap_2).
  rewrite (moved_nodes _ _ Hm).
  assert (list_to_set (map keyOf (st_Witnesses (state e'))) =@{gset string} list_to_set (map keyOf (st_Witnesses (state e))))
    as ->; [|done].
  destruct (moved_rows _ _ Hm) as (rows & Hp & Hrows). rewrite Hp. by rewrite (keys_le _ _ Hrows).
Qed.

End States.

Lemma slice_map {A} (less : A -> A -> bool) (f : A -> A) (l : list A) :
  (forall a b, less (f a) (f b) = less a b) -> SliceStable less (map f l) = map f (SliceStable less l).
Proof.
  intros Hf. assert (forall x k, insertStable less (f x) (map f k) = map f (insertStable less x k)) as Hi.
  { intros x k. induction k as [|y k IH]; cbn [map insertStable]; [done|]. rewrite Hf.
    destruct (less y x); cbn [map]; by rewrite ?IH. }
  unfold SliceStable. induction l as [|x l IH]; cbn [map foldr]; [done|]. by rewrite IH, Hi.
Qed.

(** The JSON of a row that holds [next]. *)
Definition encodes (next : WitnessState) (encoded : bytes) : Prop :=
  forall id, rowState (MkWitnessRow id (wit_WitnessID next) (FormatUint (wit_CheckpointSize next))
                         (wit_Attempts next) encoded) = Ok (normalWitness next).

Section Witness.
Context `{CO : Collation} `{DI : Dialect} `{DT : DtMmr} `{!ExactCollation} `{!DtMmrLaws DT}.
Variable logID : string.

(** ** Reading *)

Lemma UnmarshalWitness_in (r : Rows) (e : Engine) (next : WitnessState) :
  holds r e ->
  match List.find (witnessIs (wit_WitnessID next) (FormatUint (wit_CheckpointSize next))) (rw_witnesses r) with
  | Some row => exists w, UnmarshalWitness (wr_witness row) = Ok w /\ w ∈ st_Witnesses (state e) /\ keyOf w = keyOf next
  | None => keyOf next ∉ map keyOf (st_Witnesses (state e))
  end.
Proof.
  intros Hr. pose proof (find_row _ _ Hr (wit_WitnessID next) (wit_CheckpointSize next)) as Hf.
  destruct (List.find _ _) as [row|]; [|apply Hf]. destruct Hf as (_ & w & Hs & Hk & Hw). exists w.
  apply findWitness_ok in Hw as [Hin _]; [|apply (ok_state _ (holds_ok _ _ Hr))].
  apply rowState_Ok in Hs as (_ & _ & _ & _ & _ & Hu & _). done.
Qed.

(** The check of one row: that of the engine on all of them. *)
Lemma replace_one (w next : WitnessState) (expectedAttempts : Z) :
  keyOf w = keyOf next ->
  replaceWitness expectedAttempts next [w] =
  if bool_decide (wit_Attempts w = expectedAttempts /\ wit_Checkpoint w = wit_Checkpoint next)
  then Ok [next] else Err ErrContention.
Proof.
  intros Hk. cbn [replaceWitness]. rewrite bool_decide_true by done. cbn [negb].
  destruct (Z.eqb_spec (wit_Attempts w) expectedAttempts) as [Ha|Ha]; cbn [negb].
  2: { rewrite bool_decide_false; [done|]. by intros [? _]. }
  unfold bytesEqual. case_bool_decide as Hc; cbn [negb].
  - rewrite bool_decide_true by done. by rewrite CloneWitness_id.
  - rewrite bool_decide_false; [done|]. by intros [_ ?].
Qed.

Lemma cas_unique (e : Engine) (w next : WitnessState) (expectedAttempts : Z) :
  engine_ok e -> w ∈ st_Witnesses (state e) -> keyOf w = keyOf next ->
  cas_row (st_Witnesses (state e)) expectedAttempts next <->
  wit_Attempts w = expectedAttempts /\ wit_Checkpoint w = wit_Checkpoint next.
Proof.
  intros He Hin Hk. split; [|by exists w]. intros (w' & Hin' & Hk' & Hrest).
  pose proof (wf_keys _ (ok_state _ He)) as Hnd.
  assert (findWitness (keyOf next) (st_Witnesses (state e)) = Ok w) as H1 by by apply findWitness_ok.
  assert (findWitness (keyOf next) (st_Witnesses (state e)) = Ok w') as H2 by by apply findWitness_ok.
  congruence.
Qed.

Lemma readWitness_outcome (r : Rows) (e : Engine) (expectedAttempts : Z) (next : WitnessState) :
  holds r e -> row_storable next ->
  (witness_ok next /\ cas_row (st_Witnesses (state e)) expectedAttempts next /\
   exists encoded, encodes next encoded /\ runs logID r (readWitness logID expectedAttempts next) encoded r) \/
  (witness_ok next /\ ~ cas_row (st_Witnesses (state e)) expectedAttempts next /\
   stops logID r (readWitness logID expectedAttempts next) (Plain ErrContention)) \/
  (~ witness_ok next /\ stops logID r (readWitness logID expectedAttempts next)
     (Plain (if bool_decide (keyOf next ∈ map keyOf (st_Witnesses (state e))) then ErrInvalid else ErrContention))).
Proof.
  intros Hr Hst. pose proof (UnmarshalWitness_in r e next Hr) as Hf. unfold readWitness.
  pose proof (selectWitness_runs logID r (wit_WitnessID next) (FormatUint (wit_CheckpointSize next))) as Hsel.
  destruct (List.find _ _) as [row|].
  - destruct Hf as (w & Hu & Hin & Hk). pose proof (cas_unique e w next expectedAttempts (holds_ok _ _ Hr) Hin Hk) as Hcas.
    destruct (validateWitness_cases next ErrInvalid) as [[Hok Hv]|[Hbad Hv]].
    2: { right; right. split; [done|]. rewrite bool_decide_true by (rewrite <- Hk; by apply list_elem_of_fmap_2).
         eapply runs_stops; [exact Hsel|].
         eapply runs_stops; [by apply runs_lift|]. apply stops_bind, stops_lift.
         unfold ApplyWitness. by rewrite Hv. }
    destruct (decide (wit_Attempts w = expectedAttempts /\ wit_Checkpoint w = wit_Checkpoint next)) as [Hm|Hm].
    + left. split; [done|]. split; [by apply Hcas|]. destruct (row_written logID next Hok Hst) as (encoded & He & _).
      exists encoded. split.
      { intros id. destruct (row_written id next Hok Hst) as (encoded' & He' & Hrow). congruence. }
      eapply runs_bind; [exact Hsel|]. eapply runs_bind; [by apply runs_lift|].
      eapply runs_bind; [apply runs_lift|].
      { unfold ApplyWitness. rewrite Hv. cbn [mbind result_bind st_Witnesses]. rewrite replace_one, bool_decide_true by done.
        reflexivity. }
      eapply runs_bind; [by apply runs_lift|]. by apply runs_lift.
    + right; left. split; [done|]. split; [by rewrite Hcas|]. eapply runs_stops; [exact Hsel|].
      eapply runs_stops; [by apply runs_lift|]. apply stops_bind, stops_lift.
      unfold ApplyWitness. rewrite Hv. cbn [mbind result_bind st_Witnesses]. by rewrite replace_one, bool_decide_false.
  - assert (~ cas_row (st_Witnesses (state e)) expectedAttempts next) as Hno.
    { intros (w & Hin & Hk & _). apply Hf. rewrite <- Hk. by apply list_elem_of_fmap_2. }
    assert (stops logID r (readWitness logID expectedAttempts next) (Plain ErrContention)) as Hs.
    { eapply runs_stops; [exact Hsel|apply stops_fail]. }
    destruct (validateWitness_cases next ErrInvalid) as [[Hok _]|[Hbad _]]; [by right; left|right; right].
    split; [done|]. by rewrite bool_decide_false.
Qed.

(** ** Writing *)

Variables (r : Rows) (e : Engine).
Hypothesis Hr : holds r e.

Lemma witnessBefore_updated id size expected attempts encoded (a b : WitnessRow) :
  witnessBefore (updatedWitness id size expected attempts encoded a) (updatedWitness id size expected attempts encoded b) =
  witnessBefore a b.
Proof. unfold updatedWitness. by destruct (_ && _), (_ && _). Qed.

(** The row of a key among the rows in their order. *)
Lemma row_split (pre post : list WitnessState) (w next : WitnessState) :
  st_Witnesses (state e) = pre ++ w :: post -> keyOf w = keyOf next ->
  exists rows1 row rows2,
    SliceStable witnessBefore (rw_witnesses r) = rows1 ++ row :: rows2 /\
    traverse rowState rows1 = Ok pre /\ rowState row = Ok w /\ traverse rowState rows2 = Ok post /\
    witnessIs (wit_WitnessID next) (FormatUint (wit_CheckpointSize next)) row = true /\
    (forall x, x ∈ rows1 ++ rows2 -> witnessIs (wit_WitnessID next) (FormatUint (wit_CheckpointSize next)) x = false).
Proof.
  intros Hws Hk. pose proof (holds_witnesses _ _ Hr) as Ht. rewrite Hws in Ht. apply traverse_Ok in Ht.
  apply Forall2_app_inv_r in Ht as (rows1 & rest & H1 & Hrest & Hsplit).
  apply Forall2_cons_inv_r in Hrest as (row & rows2 & Hrow & H2 & ->).
  exists rows1, row, rows2. apply traverse_Ok in H1, H2. split_and!; [done|done|done|done| |].
  { by apply (rowState_key _ _ _ _ Hrow). }
  intros x Hx. destruct (witnessIs _ _ x) eqn:Hclash; [|done]. exfalso.
  pose proof (wf_keys _ (ok_state _ (holds_ok _ _ Hr))) as Hnd. rewrite Hws, map_app in Hnd. cbn [map] in Hnd.
  assert (exists w', rowState x = Ok w' /\ w' ∈ pre ++ post) as (w' & Hw' & Hin).
  { apply elem_of_app in Hx as [Hx|Hx].
    - destruct (traverse_in _ _ _ _ H1 Hx) as (w' & ? & ?). exists w'. rewrite elem_of_app. auto.
    - destruct (traverse_in _ _ _ _ H2 Hx) as (w' & ? & ?). exists w'. rewrite elem_of_app. auto. }
  apply (rowState_key _ _ _ _ Hw') in Hclash. apply (list_elem_of_fmap_2 keyOf) in Hin.
  change (keyOf <$> pre ++ post) with (map keyOf (pre ++ post)) in Hin. rewrite map_app in Hin.
  assert (keyOf w' = keyOf w) as Heq by (rewrite Hclash; by symmetry). rewrite Heq in Hin.
  apply NoDup_app in Hnd as (_ & Hd & [Hni _]%NoDup_cons). apply elem_of_app in Hin as [Hin|Hin]; [|done].
  apply (Hd _ Hin). left.
Qed.

(** No row counts: the compare-and-set has failed. *)
Lemma writeWitness_stops (counts : WitnessRow -> WitnessRow -> bool) (expectedAttempts : Z) (next : WitnessState)
    (encoded : bytes) :
  (forall w, w ∈ st_Witnesses (state e) -> keyOf w = keyOf next -> wit_Attempts w <> expectedAttempts) ->
  stops logID r (writeWitness logID counts expectedAttempts next encoded) (Plain ErrContention).
Proof.
  intros Hno. unfold writeWitness. eapply runs_stops; [apply updateWitness_runs|].
  replace (List.filter _ (rw_witnesses r)) with (@nil WitnessRow); [apply stops_fail|]. symmetry.
  destruct (List.filter _ (rw_witnesses r)) as [|x l] eqn:Hf; [done|]. exfalso.
  assert (In x (x :: l)) as Hx by by left. rewrite <- Hf in Hx.
  apply filter_In in Hx as [Hin%list_elem_of_In [[Hk Ha]%andb_prop _]%andb_prop].
  destruct (witness_row _ _ Hr x Hin) as (w & Hw & Hin'). apply (rowState_key _ _ _ _ Hw) in Hk.
  apply (Hno w Hin' Hk). apply rowState_Ok in Hw as (_ & _ & _ & <- & _). by apply Z.eqb_eq.
Qed.

(** The row of the key, and only it, is updated. *)
Lemma updated_row (next : WitnessState) (expectedAttempts : Z) (encoded : bytes) (row : WitnessRow) :
  witnessIs (wit_WitnessID next) (FormatUint (wit_CheckpointSize next)) row = true -> wr_attempts row = expectedAttempts ->
  updatedWitness (wit_WitnessID next) (FormatUint (wit_CheckpointSize next)) expectedAttempts (wit_Attempts next)
    encoded row =
  MkWitnessRow (wr_log_id row) (wit_WitnessID next) (FormatUint (wit_CheckpointSize next)) (wit_Attempts next) encoded.
Proof.
  intros Hk Ha. unfold updatedWitness. rewrite Hk, Ha, Z.eqb_refl. cbn [andb].
  by apply witnessIs_exact in Hk as [-> ->].
Qed.

Lemma other_row (id size : string) (expected attempts : Z) (encoded : bytes) (l : list WitnessRow) :
  (forall x, x ∈ l -> witnessIs id size x = false) -> map (updatedWitness id size expected attempts encoded) l = l.
Proof.
  intros Hl. rewrite <- (map_id l) at 2. apply map_ext_in. intros x Hx%list_elem_of_In. unfold updatedWitness.
  by rewrite (Hl x Hx).
Qed.

(** How many rows the [UPDATE] reports, when one has the key. *)
Lemma affected_rows (key : WitnessRow -> bool) (p : WitnessRow -> bool) (row : WitnessRow) (l rest : list WitnessRow) :
  l ≡ₚ row :: rest -> (forall x, x ∈ rest -> key x = false) -> key row = true ->
  zlen (List.filter (fun x => key x && p x) l) = if p row then 1 else 0.
Proof.
  intros Hl Hrest Hrow. assert (length (List.filter (fun x => key x && p x) l) =
    length (List.filter (fun x => key x && p x) (row :: rest))) as Hlen.
  { apply Permutation_length. clear -Hl. induction Hl; cbn [List.filter]; repeat case_match; try (by constructor); by etrans. }
  unfold zlen. rewrite Hlen. cbn [List.filter]. rewrite Hrow. cbn [andb].
  rewrite filter_none by (intros x Hx; by rewrite (Hrest x Hx)). by destruct (p row).
Qed.

Lemma replaced_kept (pre post : list WitnessState) (next : WitnessState) :
  state_kept (with_rows (state e) (st_Nodes (state e)) (pre ++ next :: post))
    (with_rows (state e) (st_Nodes (state e)) (pre ++ normalWitness next :: post)).
Proof.
  split; try done; [by left|]. exists (pre ++ normalWitness next :: post). split; [done|].
  apply Forall2_app; [done|]. constructor; [by right|done].
Qed.

Lemma replaced_holds (update : WitnessRow -> WitnessRow) (rows1 rows2 : list WitnessRow) (row : WitnessRow)
    (pre post : list WitnessState) (next : WitnessState) :
  (forall a b, witnessBefore (update a) (update b) = witnessBefore a b) ->
  SliceStable witnessBefore (rw_witnesses r) = rows1 ++ row :: rows2 ->
  map update rows1 = rows1 -> map update rows2 = rows2 ->
  traverse rowState rows1 = Ok pre -> rowState (update row) = Ok (normalWitness next) ->
  traverse rowState rows2 = Ok post ->
  engine_ok (MkEngine (entries e) (byValue e) (with_rows (state e) (st_Nodes (state e)) (pre ++ next :: post))) ->
  holds (MkRows (rw_meta r) (rw_entries r) (rw_nodes r) (map update (rw_witnesses r)))
    (MkEngine (entries e) (byValue e) (with_rows (state e) (st_Nodes (state e)) (pre ++ normalWitness next :: post))).
Proof.
  intros Hsame Hsplit Hu1 Hu2 H1 Hrow H2 [Hlog Hwf]. destruct Hr as [(m & Hm & wire & header & Hu & Hh & Hst) He Hp Hn Hw _].
  split; try done.
  - exists m. split; [done|]. exists wire, header. split_and!; [done|done|]. cbn [state with_rows st_Nodes st_Witnesses].
    rewrite <- Hst at 3. by rewrite <- (with_rows_twice header (st_Nodes (state e)) _ (st_Witnesses (state e))), Hst.
  - cbn [rw_witnesses state with_rows st_Witnesses]. rewrite slice_map, Hsplit, map_app by done. cbn [map].
    rewrite Hu1, Hu2. apply traverse_app; [done|]. cbn [traverse]. by rewrite Hrow, H2.
  - split; [done|]. eapply state_kept_wf; [by apply replaced_kept|exact Hwf].
Qed.

(** The row is replaced, when it counts. *)
Lemma writeWitness_replaces (counts : WitnessRow -> WitnessRow -> bool) (expectedAttempts : Z) (next : WitnessState)
    (encoded : bytes) :
  witness_ok next -> encodes next encoded -> cas_row (st_Witnesses (state e)) expectedAttempts next ->
  (exists row, row ∈ rw_witnesses r /\
     (witnessIs (wit_WitnessID next) (FormatUint (wit_CheckpointSize next)) row = true /\
      wr_attempts row = expectedAttempts) /\
     counts row (updatedWitness (wit_WitnessID next) (FormatUint (wit_CheckpointSize next)) expectedAttempts
                   (wit_Attempts next) encoded row) = false /\
     stops logID r (writeWitness logID counts expectedAttempts next encoded) (Plain ErrContention)) \/
  performs logID r (writeWitness logID counts expectedAttempts next encoded) (CommitWitness e expectedAttempts next).
Proof.
  intros Hok Henc Hcas. set (update := updatedWitness _ _ _ _ _).
  pose proof (perform_step e (OpCommitWitness expectedAttempts next) (holds_ok _ _ Hr) I) as [Hstep _]. cbn [perform] in Hstep.
  destruct (CommitWitness_cases e expectedAttempts next (holds_ok _ _ Hr))
    as [[Hbad _]|[(_ & Hno & _)|(_ & _ & pre & w & post & Hws & Hk & Hcommit)]]; [done|done|].
  assert (wit_Attempts w = expectedAttempts /\ wit_Checkpoint w = wit_Checkpoint next) as [Hatt Hcp].
  { apply (cas_unique e w next); [apply Hr|rewrite Hws; apply elem_of_app; right; left|done|done]. }
  destruct (row_split pre post w next Hws Hk) as (rows1 & row & rows2 & Hsplit & H1 & Hrow & H2 & Hthis & Hothers).
  assert (wr_attempts row = expectedAttempts) as Ha by (apply rowState_Ok in Hrow; intuition congruence).
  assert (rw_witnesses r ≡ₚ row :: rows1 ++ rows2) as Hperm.
  { rewrite <- (SliceStable_perm witnessBefore), Hsplit. by rewrite Permutation_middle. }
  assert (forall x, x ∈ rows1 ++ rows2 ->
    witnessIs (wit_WitnessID next) (FormatUint (wit_CheckpointSize next)) x && (wr_attempts x =? expectedAttempts) = false)
    as Hrest by (intros x Hx; by rewrite (Hothers x Hx)).
  pose proof (affected_rows _ (fun x => counts x (update x)) row _ _ Hperm Hrest) as Hcount. cbv beta in Hcount.
  rewrite Hthis, Ha, Z.eqb_refl in Hcount. specialize (Hcount eq_refl).
  destruct (counts row (update row)) eqn:Hcounts.
  - right. unfold performs. rewrite Hcommit in *. cbn [snd fst] in *.
    eexists _, (MkEngine (entries e) (byValue e)
      (with_rows (state e) (st_Nodes (state e)) (pre ++ normalWitness next :: post))).
    split_and!; [| |split; [done|apply replaced_kept]].
    + unfold writeWitness. eapply runs_bind; [apply updateWitness_runs|].
      fold update. rewrite Hcount. apply runs_ret.
    + eapply replaced_holds; [apply witnessBefore_updated|exact Hsplit| | |exact H1| |exact H2|exact Hstep].
      * apply other_row. intros x Hx. apply Hothers, elem_of_app. by left.
      * apply other_row. intros x Hx. apply Hothers, elem_of_app. by right.
      * unfold update. rewrite updated_row by done. apply Henc.
  - left. exists row. split_and!; [rewrite Hperm; left|done|done|done|]. unfold writeWitness.
    eapply runs_stops; [apply updateWitness_runs|]. fold update. rewrite Hcount. apply stops_fail.
Qed.

End Witness.

(** ** Both steps *)

(** Reading goes on with the row the engine replaces, or refuses as the engine. *)
Lemma readWitness_refuses `{CO : Collation} `{DI : Dialect} `{DT : DtMmr} `{!ExactCollation} `{!DtMmrLaws DT}
    (logID : string) (r : Rows) (e : Engine) (attempts : Z) (next : WitnessState) (k : bytes -> Program unit) :
  holds r e -> row_storable next -> witness_ok next \/ keyOf next ∈ map keyOf (st_Witnesses (state e)) ->
  (witness_ok next /\ cas_row (st_Witnesses (state e)) attempts next /\
   exists encoded, encodes next encoded /\ runs logID r (readWitness logID attempts next) encoded r) \/
  performs logID r (encoded ← readWitness logID attempts next; k encoded) (CommitWitness e attempts next).
Proof.
  intros Hr Hst Hok. destruct (readWitness_outcome logID r e attempts next Hr Hst)
    as [Hrun|[(Hval & Hno & Hs)|(Hbad & Hs)]]; [by left|right; unfold performs..].
  - destruct (CommitWitness_cases e attempts next (holds_ok _ _ Hr)) as [[Hbad _]|[(_ & _ & Heq)|(_ & Hcas & _)]]; [done| |done].
    rewrite Heq. cbn [snd]. by apply stops_bind.
  - destruct Hok as [Hok|Hin]; [done|]. rewrite bool_decide_true in Hs by done.
    destruct (CommitWitness_cases e attempts next (holds_ok _ _ Hr)) as [[_ Heq]|[(Hval & _)|(Hval & _)]]; [|done..].
    rewrite Heq. cbn [snd]. by apply stops_bind.
Qed.

(** A row that counts whenever it matches makes the commit that of the engine. *)
Lemma commitWitness_performs `{CO : Collation} `{DI : Dialect} `{DT : DtMmr} `{!ExactCollation} `{!DtMmrLaws DT}
    (logID : string) (r : Rows) (e : Engine) (attempts : Z) (next : WitnessState) :
  holds r e -> row_storable next -> witness_ok next \/ keyOf next ∈ map keyOf (st_Witnesses (state e)) ->
  performs logID r
    (encoded ← readWitness logID attempts next; writeWitness logID (fun _ _ => true) attempts next encoded)
    (CommitWitness e attempts next).
Proof.
  intros Hr Hst Hok. destruct (readWitness_refuses logID r e attempts next (writeWitness logID (fun _ _ => true) attempts next)
    Hr Hst Hok) as [(Hval & Hcas & encoded & Henc & Hrun)|Hp]; [|exact Hp].
  eapply performs_bind; [exact Hrun|].
  destruct (writeWitness_replaces logID r e Hr (fun _ _ => true) attempts next encoded Hval Henc Hcas)
    as [(_ & _ & _ & Hfalse & _)|Hp]; [done|exact Hp].
Qed.

(** An invalid row of which no row is stored: the engine looks at the row first,
    the programs at the table. *)
Lemma commitWitness_unknown `{CO : Collation} `{DI : Dialect} `{DT : DtMmr} `{!ExactCollation} `{!DtMmrLaws DT}
    (logID : string) (r : Rows) (e : Engine) (attempts : Z) (next : WitnessState) :
  holds r e -> row_storable next -> ~ witness_ok next -> keyOf next ∉ map keyOf (st_Witnesses (state e)) ->
  stops logID r (readWitness logID attempts next) (Plain ErrContention) /\
  CommitWitness e attempts next = (e, Err ErrInvalid).
Proof.
  intros Hr Hst Hbad Hno. destruct (readWitness_outcome logID r e attempts next Hr Hst)
    as [(Hval & _)|[(Hval & _)|(_ & Hs)]]; [done..|]. rewrite bool_decide_false in Hs by done. split; [exact Hs|].
  by destruct (CommitWitness_cases e attempts next (holds_ok _ _ Hr)) as [[_ Heq]|[(Hval & _)|(Hval & _)]].
Qed.

End SqlWitness.
