(* ===== verification/SqlInit.v ===== *)
(** * Validating and provisioning a log

    The rows that pass validation represent an engine.
    Creating the tables and the metadata of a log keeps every log the database
    already holds, and gives the empty log where there was none. *)

From S2P Require Import Prelude DtMmr Hex Text Mmr Cll Portable PortableFormat Engine EngineLog EngineState.
From S2P Require Import EngineHistory EngineWitness Wire WireProofs Journal JournalProofs JournalText Sql.
From S2P Require Import SqlStore SqlRows SqlLog SqlCommit.
Import Text Cll Portable PortableFormat Engine EngineLog EngineState EngineHistory EngineWitness Wire WireProofs.
Import Journal JournalProofs JournalText Sql SqlStore SqlRows SqlLog SqlCommit.

Module SqlInit.

Local Open Scope Z_scope.
Local Open Scope u64_scope.

(** ** What opening a log establishes

    The rows that pass [validateEntries] and [loadState] represent an engine,
    and so do those a log is provisioned with.  A program keeps, under any
    failures, whatever each of its statements keeps. *)

(** ** Programs within a relation *)

Definition Within (R : Tables -> Tables -> Prop) {A} (p : Program A) : Prop :=
  forall faults s, R (snd s) (snd (fst (p faults s))).

Section Within.
Context (R : Tables -> Tables -> Prop) `{!PreOrder R}.

Lemma within_ret {A} (a : A) : Within R (mret (M := Program) a).
Proof. intros faults s. reflexivity. Qed.
Lemma within_fail {A} (f : failure) : Within R (fail (A := A) f).
Proof. intros faults s. reflexivity. Qed.
Lemma within_lift {A} (r : result A) : Within R (lift r).
Proof. destruct r; [apply within_ret|apply within_fail]. Qed.
Lemma within_statement {A} (locks : list Lock) (effect : Tables -> Tables * (failure + A)) :
  (forall t, R t (fst (effect t))) -> Within R (statement locks effect).
Proof.
  intros He faults [k t]. rewrite exec_statement. specialize (He t). cbn [snd].
  by destruct (faults k) as [[f|f]|].
Qed.
Lemma within_query {A} (locks : list Lock) (answer : Tables -> failure + A) : Within R (query locks answer).
Proof. intros faults [k t]. rewrite exec_query. by destruct (faults k). Qed.
Lemma within_bind {A B} (p : Program A) (k : A -> Program B) :
  Within R p -> (forall a, Within R (k a)) -> Within R (p ≫= k).
Proof.
  intros Hp Hk faults s. specialize (Hp faults s). rewrite exec_bind.
  destruct (p faults s) as [s1 [f|a]]; [done|]. etrans; [exact Hp|apply Hk].
Qed.

End Within.

Ltac within :=
  repeat first
    [ apply within_bind; [try apply _| |intros ?] | apply within_ret; apply _ | apply within_fail; apply _
    | apply within_lift; apply _ | apply within_query; apply _
    | match goal with |- Within _ (match ?x with _ => _ end) => destruct x end
    | match goal with |- Within _ (if ?x then _ else _) => destruct x end
    | progress cbv beta zeta ].

(** Reading a log changes nothing, whatever fails. *)
Lemma within_validateEntries `{CO : Collation} `{DI : Dialect} (logID : string) : Within eq (validateEntries logID).
Proof. unfold validateEntries, selectEntries. within. Qed.

Lemma within_loadState `{CO : Collation} `{DI : Dialect} `{DT : DtMmr} (logID : string) (forUpdate : bool) : Within eq (loadState logID forUpdate).
Proof. unfold loadState, loadWireWitnesses, selectMeta, selectNodes, selectWitnesses. within. Qed.

(** ** Rows that pass validation *)

Lemma pure_inv {A B} (p : Program A) (k : A -> Program B) (t t' : Tables) (b : B) :
  pure (p ≫= k) t = (t', inr b) ->
  exists t1 a, pure p t = (t1, inr a) /\ pure (k a) t1 = (t', inr b).
Proof.
  intros Hb. destruct (pure p t) as [t1 [f|a]] eqn:Hp.
  - by rewrite (pure_stop _ _ _ _ _ Hp) in Hb.
  - exists t1, a. by rewrite (pure_step _ _ _ _ _ Hp) in Hb.
Qed.

Lemma checkRows_Ok (rows : list EntryRow) (expected : Z) :
  1 <= expected <= MaxPortableInteger + 1 -> checkRows rows expected = Ok tt ->
  exists es, traverse scanEntry rows = Ok es /\
    forall i entry, zget es i = Some entry -> entry_ok (expected - 1 + i) entry.
Proof.
  revert expected. induction rows as [|row rows IH]; intros expected He; cbn [checkRows].
  { intros _. exists []. split; [done|]. intros i entry. by rewrite zget_nil. }
  intros (seq & Hs & Hrest)%bind_Ok. pose proof Hs as [-> Hr]%scan_Ok. destruct (_ || _) eqn:Hg; [done|].
  rewrite !orb_false_iff, !negb_false_iff, !Z.eqb_eq, Z.ltb_ge in Hg. destruct Hg as [[Heq Hmax] Hw].
  destruct (ParseTime (er_appended_at row)) as [t|] eqn:Ht; [|done]. cbn [negb is_ok] in Hrest.
  assert (expected +u 1 = expected + 1) as Hu by (apply u64_add_small; unfold MaxPortableInteger, two64 in *; lia).
  rewrite Hu in Hrest. destruct (IH (expected + 1) ltac:(lia) Hrest) as (es & Hes & Hok).
  exists (MkEntry (er_seq row) (er_value row) t :: es). split.
  - assert (scanEntry row = Ok (MkEntry (er_seq row) (er_value row) t)) as Hrow.
    { unfold scanEntry. unfold scanUint64 in *. rewrite Hs. cbn [mbind result_bind]. unfold entryFromRow.
      rewrite (proj2 (Z.eqb_neq _ _)), (proj2 (Z.ltb_ge _ _)), Hw, Z.eqb_refl by lia. cbn [orb negb]. by rewrite Ht. }
    cbn [traverse]. by rewrite Hrow, Hes.
  - intros i entry [[-> ->]|[Hi Hz]]%zget_cons_inv.
    + apply ParseTime_Ok in Ht as (_ & Hv & _). split; cbn; [lia|lia|done|]. by apply badTime_false.
    + specialize (Hok _ _ Hz). by replace (expected + 1 - 1 + (i - 1)) with (expected - 1 + i) in Hok by lia.
Qed.

Lemma nodesFrom_Ok (rows : list NodeRow) (position : Z) (nodes : list string) :
  0 <= position -> position + zlen rows < two64 -> nodesFrom rows position = Ok nodes ->
  map nr_position rows = seqZ position (zlen rows) /\ nodes = map encode (map nr_node rows).
Proof.
  revert position nodes. induction rows as [|row rows IH]; intros position nodes Hp Hl; cbn [nodesFrom].
  { by intros [= <-]. }
  rewrite zlen_cons in *. pose proof (zlen_nonneg rows).
  intros (stored & [-> _]%scan_Ok & Hrest)%bind_Ok. destruct (Z.eqb_spec (nr_position row) position) as [Heq|]; [|done].
  cbn [negb] in Hrest. rewrite u64_add_small in Hrest by lia. apply bind_Ok in Hrest as (ns & Hns & [= <-]).
  destruct (IH (position + 1) ns ltac:(lia) ltac:(lia) Hns) as [Hpos ->]. split; [|done].
  rewrite seqZ_cons by lia. cbn [map]. rewrite Heq, Hpos. f_equal. f_equal; lia.
Qed.

Lemma nodesFrom_length (rows : list NodeRow) (position : Z) (nodes : list string) :
  nodesFrom rows position = Ok nodes -> length nodes = length rows.
Proof.
  revert position nodes. induction rows as [|row rows IH]; intros position nodes; cbn [nodesFrom].
  { by intros [= <-]. }
  intros (stored & _ & Hrest)%bind_Ok. destruct (negb _); [done|]. apply bind_Ok in Hrest as (ns & Hns & [= <-]).
  cbn [length]. by rewrite (IH _ _ Hns).
Qed.

Lemma stateFromWire_split (wire : WireState) (nodes : list string) (wires : list WireWitness) (s : State) :
  stateFromWire (withTables wire nodes wires) = Ok s ->
  exists header, stateFromWire (withTables wire [] []) = Ok header /\
    traverse decode nodes = Ok (st_Nodes s) /\ traverse WitnessFromWire wires = Ok (st_Witnesses s) /\
    with_rows header (st_Nodes s) (st_Witnesses s) = s.
Proof.
  unfold stateFromWire, checkpointFromWire, withTables.
  cbn [ws_Size ws_IndexedSeq ws_Nodes ws_FirstPendingAt ws_Checkpoint ws_CheckpointSize ws_CheckpointIndexedSeq
    ws_CheckpointPeaks ws_Witnesses].
  intros (size & -> & (indexed & -> & (ns & Hns & (p & -> & (c & -> & (ws & Hws & [= <-])%bind_Ok)%bind_Ok)%bind_Ok)%bind_Ok)%bind_Ok)%bind_Ok.
  eexists. cbn [mbind result_bind traverse]. split_and!; [reflexivity|exact Hns|exact Hws|done].
Qed.

(** The keys of the schema: one metadata row, and an identity at most once. *)
Record unique (r : Rows) : Prop := {
  unique_meta : (length (rw_meta r) <= 1)%nat;
  unique_values : NoDup (map er_value (rw_entries r))
}.

Section Open.
Context `{CO : Collation} `{DI : Dialect} `{DT : DtMmr} `{!ExactCollation}.
Variable logID : string.

Lemma runs_pure {A} (r : Rows) (p : Program A) (a b : A) (r' : Rows) (t t' : Tables) :
  runs logID r p a r' -> rowsOf logID t = Some r -> pure p t = (t', inr b) ->
  a = b /\ rowsOf logID t' = Some r'.
Proof. intros Hp Ht Hb. destruct (Hp t Ht) as (t1 & H1 & Ht1 & _). rewrite H1 in Hb. by simplify_eq. Qed.

(** What [loadState] has checked. *)
Lemma loadState_inv (forUpdate : bool) (r : Rows) (t t' : Tables) (s : State) :
  rowsOf logID t = Some r -> pure (loadState logID forUpdate) t = (t', inr s) ->
  exists row, head (rw_meta r) = Some row /\ metaHolds row s /\
    map nr_position (SliceStable byPosition (rw_nodes r)) = seqZ 0 (zlen (st_Nodes s)) /\
    map nr_node (SliceStable byPosition (rw_nodes r)) = st_Nodes s /\
    traverse rowState (SliceStable witnessBefore (rw_witnesses r)) = Ok (st_Witnesses s) /\ state_wf s.
Proof.
  intros Ht Hl. unfold loadState in Hl. apply pure_inv in Hl as (t1 & raw & Hraw & Hl).
  destruct (runs_pure _ _ _ _ _ _ _ (selectMeta_runs logID r forUpdate) Ht Hraw) as [<- Ht1].
  destruct (head (rw_meta r)) as [row|] eqn:Hrow; [|done]. cbn [fmap option_fmap option_map] in Hl.
  destruct (UnmarshalState (mr_state row)) as [wire|] eqn:Hu; [|done].
  apply pure_inv in Hl as (t2 & rows & Hrows & Hl).
  destruct (runs_pure _ _ _ _ _ _ _ (selectNodes_runs logID r) Ht1 Hrows) as [<- Ht2].
  apply pure_inv in Hl as (t3 & nodes & Hnodes & Hl). rewrite pure_lift in Hnodes.
  destruct (nodesFrom _ _) as [nodes'|] eqn:Hn; [|done]. injection Hnodes as <- ->.
  apply pure_inv in Hl as (t4 & wires & Hwires & Hl).
  unfold loadWireWitnesses in Hwires. apply pure_inv in Hwires as (t5 & wrows & Hwrows & Hwires).
  destruct (runs_pure _ _ _ _ _ _ _ (selectWitnesses_runs logID r) Ht2 Hwrows) as [<- Ht5].
  rewrite pure_lift in Hwires. destruct (traverse wireFromRow _) as [wires'|] eqn:Hw; [|done]. injection Hwires as <- ->.
  rewrite pure_lift in Hl. unfold StateFromWire in Hl.
  destruct (stateFromWire (withTables wire nodes wires)) as [s'|] eqn:Hs; [|done]. cbn [mbind result_bind] in Hl.
  destruct (validateState_cases s' ErrCorrupt) as [[Hv|Hv] Hi]; rewrite Hv in Hi, Hl; [|done].
  injection Hl as _ ->. pose proof (proj1 Hi eq_refl) as Hwf.
  apply stateFromWire_split in Hs as (header & Hh & Hdec & Hws & Hall).
  pose proof (nodesFrom_length _ _ _ Hn) as Hlen. pose proof (traverse_length _ _ _ Hdec) as Hlen'.
  pose proof (LeafCount_bound _ _ (wf_leaves _ Hwf)) as Hb. rewrite (wf_size _ Hwf) in Hb. unfold zlen in Hb.
  assert (0 + zlen (SliceStable byPosition (rw_nodes r)) < two64) as Hsmall by (unfold zlen, two63, two64 in *; lia).
  destruct (nodesFrom_Ok _ _ _ ltac:(done) Hsmall Hn) as [Hpos Hnodes].
  rewrite Hnodes, traverse_decode in Hdec. injection Hdec as Hdec.
  exists row. split_and!; [done|by exists wire, header| |exact Hdec|by eapply traverse_bind_Ok|done].
  rewrite Hpos, <- Hdec. unfold zlen. by rewrite length_map.
Qed.

(** Validation reads all four tables. *)
Lemma query_inv {A B} (locks : list Lock) (answer : Tables -> failure + A) (k : A -> Program B) (t t' : Tables) (b : B) :
  pure (query locks answer ≫= k) t = (t', inr b) ->
  exists a, answer t = inr a /\ pure (k a) t = (t', inr b).
Proof.
  intros (t1 & a & Hq & Hb)%pure_inv. rewrite pure_query in Hq. injection Hq as <- Hq. by exists a.
Qed.

Lemma validated_tables (t t1 t2 : Tables) (s : State) :
  pure (validateEntries logID) t = (t1, inr tt) -> pure (loadState logID false) t = (t2, inr s) ->
  exists r, rowsOf logID t = Some r.
Proof.
  intros He Hl. unfold validateEntries, selectEntries in He. apply query_inv in He as (rows & He & _).
  unfold loadState, selectMeta in Hl. apply query_inv in Hl as (raw & Hm & Hl).
  destruct raw as [raw|]; [|done]. destruct (UnmarshalState raw) as [wire|]; [|done].
  unfold selectNodes in Hl. apply query_inv in Hl as (nrows & Hn & Hl).
  apply pure_inv in Hl as (t3 & nodes & Hnodes & Hl). rewrite pure_lift in Hnodes. injection Hnodes as <- _.
  apply pure_inv in Hl as (t4 & wires & Hw & _). unfold loadWireWitnesses, selectWitnesses in Hw.
  apply query_inv in Hw as (wrows & Hw & _).
  unfold selectFrom, selectRow in *. destruct t as [[m|] [es|] [ns|] [ws|]]; cbn in *; try done. by eexists.
Qed.

(** A log that passes validation is valid. *)
Lemma validated_stored (r : Rows) (t t1 t2 : Tables) (s : State) :
  rowsOf logID t = Some r -> unique r ->
  pure (validateEntries logID) t = (t1, inr tt) -> pure (loadState logID false) t = (t2, inr s) ->
  exists e, stored logID t e /\ state e = s.
Proof.
  intros Ht [Hmeta Hvals] He Hl. destruct (loadState_inv false r t t2 s Ht Hl) as (row & Hrow & Hm & Hpos & Hns & Hws & Hwf).
  unfold validateEntries in He. apply pure_inv in He as (t3 & rows & Hrows & He).
  destruct (runs_pure _ _ _ _ _ _ _ (selectEntries_runs logID r) Ht Hrows) as [<- _]. rewrite pure_lift in He.
  destruct (checkRows _ 1) as [[]|] eqn:Hc; [|done]. apply checkRows_Ok in Hc as (es & Hes & Hok); [|done].
  assert (NoDup (map entry_Value es)) as Hnd.
  { assert (map entry_Value es = map er_value (SliceStable bySeq (rw_entries r))) as ->.
    { clear -Hes. apply traverse_Ok in Hes. induction Hes as [|x y l k Hxy Hes IH]; [done|]. cbn [map].
      apply scanEntry_Ok in Hxy as [_ ->]. by rewrite IH. }
    rewrite (SliceStable_perm bySeq). exact Hvals. }
  exists (MkEngine es (Engine.indexEntries es 0 ∅) s). split; [|done]. exists r. split; [done|]. split; try done.
  - exists row. split; [|done]. destruct (rw_meta r) as [|x [|y l]]; cbn in *; [done| |lia]. by simplify_eq.
  - split; [|done]. apply indexEntries_inv, validateEntries_ok. split_and!; [exact Hok|done|]. set_solver.
Qed.

(** A valid log passes validation. *)
Lemma checkRows_entries (rows : list EntryRow) (es : list Entry) (expected : Z) :
  1 <= expected -> traverse scanEntry rows = Ok es ->
  (forall i entry, zget es i = Some entry -> entry_ok (expected - 1 + i) entry) -> checkRows rows expected = Ok tt.
Proof.
  revert es expected. induction rows as [|row rows IH]; intros es expected He; cbn [traverse checkRows]; [done|].
  intros (entry & Hs & (es' & Hes & [= <-])%bind_Ok)%bind_Ok Hok.
  destruct (Hok 0 entry eq_refl) as [Hseq Hmax Hw Ht]. unfold scanEntry in Hs.
  apply bind_Ok in Hs as (seq & Hseq' & Hfrom). rewrite Hseq'. cbn [mbind result_bind]. revert Hfrom. unfold entryFromRow.
  destruct (_ || _) eqn:Hg; [done|]. destruct (ParseTime (er_appended_at row)) as [t|]; [|done]. intros [= <-].
  cbn [entry_Seq entry_Value] in *. rewrite Hseq, Hw, !Z.eqb_refl in *. replace (expected - 1 + 0 + 1) with expected in * by lia.
  rewrite Z.eqb_refl, (proj2 (Z.ltb_ge _ _)) by lia. cbn [negb orb is_ok].
  rewrite u64_add_small by (unfold MaxPortableInteger, two64 in *; lia). apply (IH es'); [lia|done|].
  intros i x Hi. pose proof (zget_Some_range _ _ _ Hi). replace (expected + 1 - 1 + i) with (expected - 1 + (i + 1)) by lia.
  apply Hok. rewrite zget_cons_succ by lia. done.
Qed.

Lemma validateEntries_runs (r : Rows) (e : Engine) : holds r e -> runs logID r (validateEntries logID) tt r.
Proof.
  intros Hr. unfold validateEntries. eapply runs_bind; [apply selectEntries_runs|]. apply runs_lift.
  eapply checkRows_entries; [done|apply Hr|]. intros i entry Hi. apply (log_entries _ _ (ok_log _ (holds_ok _ _ Hr)) _ _ Hi).
Qed.

End Open.

(** The keys of the schema, which the database enforces. *)
Record keyed (t : Tables) : Prop := {
  keyed_meta rows : cll_meta t = Some rows -> NoDup (map mr_log_id rows);
  keyed_entries rows : cll_entries t = Some rows -> NoDup (map (fun row => (er_log_id row, er_value row)) rows)
}.

(** No rows of a log in the tables there are. *)
Record blank (logID : string) (t : Tables) : Prop := {
  blank_meta rows : cll_meta t = Some rows -> forall row, row ∈ rows -> mr_log_id row <> logID;
  blank_entries rows : cll_entries t = Some rows -> forall row, row ∈ rows -> er_log_id row <> logID;
  blank_nodes rows : cll_nodes t = Some rows -> forall row, row ∈ rows -> nr_log_id row <> logID;
  blank_witnesses rows : cll_witnesses t = Some rows -> forall row, row ∈ rows -> wr_log_id row <> logID
}.

(** The four tables, created where they do not exist. *)
Definition created (t : Tables) : Tables :=
  MkTables (Some (default [] (cll_meta t))) (Some (default [] (cll_entries t)))
    (Some (default [] (cll_nodes t))) (Some (default [] (cll_witnesses t))).

Lemma keyed_noTables : keyed noTables.
Proof. by split. Qed.

Lemma blank_noTables (logID : string) : blank logID noTables.
Proof. by split. Qed.

Lemma NoDup_filter_map {A B} (f : A -> B) (p : A -> bool) (l : list A) :
  NoDup (map f l) -> NoDup (map f (List.filter p l)).
Proof.
  induction l as [|x l IH]; [done|]. cbn [map List.filter]. intros [Hni Hnd]%NoDup_cons.
  destruct (p x); [|by apply IH]. cbn [map]. apply NoDup_cons. split; [|by apply IH].
  intros (y & Hy & Hin)%list_elem_of_fmap. apply Hni. rewrite Hy. apply list_elem_of_fmap_2.
  apply list_elem_of_In. apply list_elem_of_In, filter_In in Hin. tauto.
Qed.

(** Keys of which a part is fixed differ in the rest. *)
Lemma NoDup_fixed {A B C} (f : A -> B) (g : A -> C) (b : B) (l : list A) :
  (forall x, x ∈ l -> f x = b) -> NoDup (map (fun x => (f x, g x)) l) -> NoDup (map g l).
Proof.
  intros Hf.
  induction l as [|x l IH]; [constructor|]. cbn [map]. intros [Hni Hnd]%NoDup_cons. apply NoDup_cons. split.
  - intros (y & Hy & Hin)%list_elem_of_fmap. apply Hni. rewrite Hy, (Hf x), <- (Hf y) by (by left || by right).
    by apply (list_elem_of_fmap_2 (fun x => (f x, g x))).
  - apply IH; [|done]. intros y Hin. apply Hf. by right.
Qed.

Section Init.
Context `{CO : Collation} `{DI : Dialect} `{DT : DtMmr} `{!ExactCollation}.

Lemma own_In {A} (key : A -> string) (logID : string) (rows : list A) (row : A) :
  row ∈ ownRows key logID rows <-> row ∈ rows /\ key row = logID.
Proof.
  unfold ownRows. rewrite !list_elem_of_In, filter_In, sameText_exact, bool_decide_eq_true. done.
Qed.

Lemma own_blank {A} (key : A -> string) (logID : string) (rows : list A) :
  (forall row, row ∈ rows -> key row <> logID) -> ownRows key logID rows = [].
Proof.
  intros Hb. destruct (ownRows key logID rows) as [|x l] eqn:Ho; [done|]. exfalso.
  assert (x ∈ ownRows key logID rows) as [Hin Hk]%own_In by (rewrite Ho; left). by apply (Hb x).
Qed.

Lemma keyed_unique (logID : string) (t : Tables) (r : Rows) : keyed t -> rowsOf logID t = Some r -> unique r.
Proof.
  intros [Hm He] (metas & es & nodes & ws & -> & ->)%rowsOf_Some. specialize (Hm _ eq_refl). specialize (He _ eq_refl).
  split; cbn [rw_meta rw_entries].
  - assert (NoDup (map mr_log_id (ownRows mr_log_id logID metas))) as Hnd by by apply NoDup_filter_map.
    assert (forall row, row ∈ ownRows mr_log_id logID metas -> mr_log_id row = logID) as Hid by by intros row [_ ?]%own_In.
    destruct (ownRows mr_log_id logID metas) as [|x [|y l]]; cbn [length]; [lia|lia|exfalso].
    cbn [map] in Hnd. apply NoDup_cons in Hnd as [Hni _]. apply Hni. rewrite (Hid x), <- (Hid y) by (left || right; left).
    left.
  - apply (NoDup_fixed er_log_id _ logID); [by intros row [_ ?]%own_In|]. by apply NoDup_filter_map.
Qed.

(** A log that passes validation is valid. *)
Lemma validated_log (logID : string) (t t1 t2 : Tables) (s : State) :
  keyed t -> pure (validateEntries logID) t = (t1, inr tt) -> pure (loadState logID false) t = (t2, inr s) ->
  exists e, stored logID t e.
Proof.
  intros Hk He Hl. destruct (validated_tables logID t t1 t2 s He Hl) as (r & Hr).
  destruct (validated_stored logID r t t1 t2 s Hr (keyed_unique _ _ _ Hk Hr) He Hl) as (e & Hst & _). by exists e.
Qed.

(** ** Logs are kept *)

Definition keepsLogs (t t' : Tables) : Prop := forall logID e, stored logID t e -> stored logID t' e.

#[export] Instance keepsLogs_preorder : PreOrder keepsLogs.
Proof. split; [by intros t logID e|]. intros a b c H1 H2 logID e He. by apply H2, H1. Qed.

Lemma stored_tables (logID : string) (t : Tables) (e : Engine) :
  stored logID t e -> exists metas es nodes ws,
    t = MkTables (Some metas) (Some es) (Some nodes) (Some ws) /\ exists row, row ∈ metas /\ mr_log_id row = logID.
Proof.
  intros (r & (metas & es & nodes & ws & -> & ->)%rowsOf_Some & Hh). exists metas, es, nodes, ws. split; [done|].
  destruct (holds_meta _ _ Hh) as (row & Hrow & _). cbn [rw_meta] in Hrow. exists row. apply own_In. rewrite Hrow. left.
Qed.

(** A log in the tables has all of them. *)
Lemma keepsLogs_created (t : Tables) : keepsLogs t (created t).
Proof. intros logID e He. destruct (stored_tables _ _ _ He) as (? & ? & ? & ? & -> & _). exact He. Qed.

(** A statement that changes nothing when all tables exist. *)
Lemma within_create (effect : Tables -> Tables * (failure + unit)) :
  (forall metas es nodes ws, let t := MkTables (Some metas) (Some es) (Some nodes) (Some ws) in fst (effect t) = t) ->
  Within keepsLogs (statement [] effect).
Proof.
  intros Heffect. apply within_statement; [apply _|]. intros t logID e He.
  destruct (stored_tables _ _ _ He) as (? & ? & ? & ? & Ht & _). rewrite Ht in *. by rewrite Heffect.
Qed.

Lemma insertMeta_clash (logID : string) (state : bytes) (metas : list MetaRow) (row : MetaRow) :
  row ∈ metas -> mr_log_id row = logID ->
  existsb (fun row => sameText (mr_log_id row) logID) metas = true.
Proof.
  intros Hin Hid. apply existsb_exists. exists row. by rewrite list_elem_of_In, sameText_exact, bool_decide_eq_true in *.
Qed.

Lemma within_insertMeta (logID : string) (state : bytes) : Within keepsLogs (insertMetaOrIgnore logID state).
Proof.
  apply within_statement; [apply _|]. intros t other e He.
  destruct (stored_tables _ _ _ He) as (metas & es & nodes & ws & -> & row & Hrow & Hid).
  cbn [cll_meta]. unfold insertInto. destruct (existsb _ metas) eqn:Hc.
  { by destruct (duplicateKey =? duplicateKey). }
  cbn [fst cll_entries cll_nodes cll_witnesses].
  assert (other <> logID) as Hne.
  { intros ->. by rewrite (insertMeta_clash logID state metas row Hrow Hid) in Hc. }
  destruct He as (r & Hr & Hh). exists r. split; [|done]. rewrite <- Hr. unfold rowsOf.
  cbn [cll_meta cll_entries cll_nodes cll_witnesses mbind option_bind]. do 2 f_equal. by apply own_app_other.
Qed.

Lemma within_provision (logID : string) : Within keepsLogs (provisionLog logID).
Proof.
  unfold provisionLog. repeat (apply within_bind; [apply _| |intros ?]).
  1-4: by apply within_create. 1: apply within_lift, _. apply within_insertMeta.
Qed.

(** ** Provisioned *)

Lemma metadata_empty : exists raw wire, MarshalMetadata emptyState = Ok raw /\ UnmarshalState raw = Some wire /\
  stateFromWire (withTables wire [] []) = Ok emptyState.
Proof. apply (metadata_written emptyState); [done|]. by split; try (by split); [constructor|..] || constructor. Qed.

(** The tables after provisioning: the row of the metadata is added when missing. *)
Lemma provision_pure (logID : string) (t : Tables) :
  exists raw metas, MarshalMetadata emptyState = Ok raw /\ metas = default [] (cll_meta t) /\
    pure (provisionLog logID) t =
      (MkTables (Some (if existsb (fun row => sameText (mr_log_id row) logID) metas then metas
                       else metas ++ [MkMetaRow logID raw]))
         (cll_entries (created t)) (cll_nodes (created t)) (cll_witnesses (created t)), inr tt).
Proof.
  destruct metadata_empty as (raw & wire & Hraw & _). exists raw, (default [] (cll_meta t)). split_and!; [done|done|].
  unfold provisionLog, createMeta, createEntries, createNodes, createWitnesses. rewrite Hraw.
  unfold insertMetaOrIgnore. do 4 (erewrite pure_step; [|rewrite pure_statement; reflexivity]). rewrite lift_step.
  unfold insertInto. rewrite pure_statement. cbn [cll_meta cll_entries cll_nodes cll_witnesses].
  destruct (existsb _ _); [|done]. by rewrite Z.eqb_refl.
Qed.

Lemma provision_keyed (logID : string) (t : Tables) : keyed t -> keyed (fst (pure (provisionLog logID) t)).
Proof.
  intros [Hm He]. destruct (provision_pure logID t) as (raw & metas & _ & Hmetas & ->). cbn [fst].
  assert (NoDup (map mr_log_id metas)) as Hnd.
  { subst metas. destruct (cll_meta t) as [rows|]; [by apply Hm|constructor]. }
  split; cbn [cll_meta cll_entries created].
  - intros rows [= <-]. destruct (existsb _ metas) eqn:Hc; [done|]. rewrite map_app. apply NoDup_app. split_and!; [done| |].
    + intros id (row & -> & Hin)%list_elem_of_fmap Hid%list_elem_of_singleton. cbn [mr_log_id] in Hid.
      by rewrite (insertMeta_clash logID raw metas row Hin Hid) in Hc.
    + apply NoDup_singleton.
  - intros rows [= <-]. destruct (cll_entries t) as [rows|]; [by apply He|constructor].
Qed.

Lemma provision_blank `{!DtMmrLaws DT} (logID : string) (t : Tables) :
  blank logID t -> stored logID (fst (pure (provisionLog logID) t)) New.
Proof.
  intros [Hm He Hn Hw]. destruct (provision_pure logID t) as (raw & metas & Hraw & Hmetas & ->). cbn [fst].
  assert (forall row, row ∈ metas -> mr_log_id row <> logID) as Hfresh.
  { subst metas. destruct (cll_meta t) as [rows|]; [by apply Hm|]. by intros row ?%elem_of_nil. }
  destruct (existsb _ metas) eqn:Hc.
  { exfalso. apply existsb_exists in Hc as (row & Hin%list_elem_of_In & Hid). rewrite sameText_exact, bool_decide_eq_true in Hid.
    by apply (Hfresh row). }
  exists (MkRows [MkMetaRow logID raw] [] [] []). split.
  - unfold rowsOf. cbn [cll_meta cll_entries cll_nodes cll_witnesses created mbind option_bind].
    rewrite own_app_same, own_blank by done. do 2 f_equal; apply own_blank.
    + destruct (cll_entries t) as [rows|]; [by apply He|]. by intros row ?%elem_of_nil.
    + destruct (cll_nodes t) as [rows|]; [by apply Hn|]. by intros row ?%elem_of_nil.
    + destruct (cll_witnesses t) as [rows|]; [by apply Hw|]. by intros row ?%elem_of_nil.
  - destruct metadata_empty as (raw' & wire & Hraw' & Hu & Hh). rewrite Hraw in Hraw'. injection Hraw' as <-.
    split; try done; [|apply New_ok]. eexists. split; [done|]. by exists wire, emptyState.
Qed.

End Init.

End SqlInit.
