(* ===== verification/SqlContract.v ===== *)
(** * What a backend makes of a program of statements

    No program of a log touches the rows of another.
    A program respects the engine when it fails or makes what the engine makes;
    the programs of both SQL backends do. *)

From S2P Require Import Prelude DtMmr Hex Text Mmr Cll Portable Engine EngineLog EngineState EngineHistory.
From S2P Require Import EngineWitness Wire WireProofs Journal JournalProofs JournalText JsonlReplay Backend Sql.
From S2P Require Import SqlStore SqlRows SqlLog SqlCommit SqlWitness SqlInit.
Import Cll Engine EngineLog EngineState EngineHistory Sql SqlStore SqlRows SqlLog SqlInit Text Portable.
Import EngineWitness Wire WireProofs Journal JournalProofs JournalText JsonlReplay Backend SqlCommit SqlWitness.

Module SqlContract.

Local Open Scope Z_scope.

(** ** Logs of one database do not interfere

    No program of a log touches the rows of another, whatever it reads and
    whatever fails. *)

Section Apart.
Context `{CO : Collation} `{DI : Dialect} `{DT : DtMmr} `{!ExactCollation}.
Variable logID : string.

Abbreviation Apart := (Within (elsewhere logID)).

(** A statement that leaves what any other log selects. *)
Lemma apart_rows (t : Tables) (m : option (list MetaRow)) (es : option (list EntryRow)) (ns : option (list NodeRow))
    (ws : option (list WitnessRow)) :
  (forall other, other <> logID ->
     ownRows mr_log_id other <$> m = ownRows mr_log_id other <$> cll_meta t /\
     ownRows er_log_id other <$> es = ownRows er_log_id other <$> cll_entries t /\
     ownRows nr_log_id other <$> ns = ownRows nr_log_id other <$> cll_nodes t /\
     ownRows wr_log_id other <$> ws = ownRows wr_log_id other <$> cll_witnesses t) ->
  elsewhere logID t (MkTables m es ns ws).
Proof.
  intros Ht other Ho. destruct (Ht other Ho) as (Hm & He & Hn & Hw). unfold rowsOf.
  destruct t as [m' es' ns' ws']. cbn [cll_meta cll_entries cll_nodes cll_witnesses] in *.
  destruct m, m'; try done. destruct es, es'; try done. destruct ns, ns'; try done. destruct ws, ws'; try done.
  cbn in *. congruence.
Qed.

Lemma insertInto_apart {A} (key : A -> string) (table : option (list A)) (clash : A -> bool) (row : A) (rows : list A) (other : string) :
  insertInto table clash row = inr rows -> key row = logID -> other <> logID ->
  ownRows key other <$> Some rows = ownRows key other <$> table.
Proof.
  intros Hi Hk Ho. unfold insertInto in Hi. destruct table as [l|]; [|done]. destruct (existsb clash l); [done|].
  injection Hi as <-. cbn. f_equal. apply own_app_other. by rewrite Hk.
Qed.

Lemma apart_insertEntry (row : EntryRow) : er_log_id row = logID -> Apart (insertEntry row).
Proof.
  intros Hk. apply within_statement; [apply _|]. intros t. cbv zeta. destruct (insertInto _ _ _) as [f|rows] eqn:Hi; [done|].
  apply apart_rows. intros other Ho. split_and!; try done. exact (insertInto_apart er_log_id _ _ _ _ _ Hi Hk Ho).
Qed.

Lemma apart_insertNode (row : NodeRow) : nr_log_id row = logID -> Apart (insertNode row).
Proof.
  intros Hk. apply within_statement; [apply _|]. intros t. cbv zeta. destruct (insertInto _ _ _) as [f|rows] eqn:Hi; [done|].
  apply apart_rows. intros other Ho. split_and!; try done. exact (insertInto_apart nr_log_id _ _ _ _ _ Hi Hk Ho).
Qed.

Lemma apart_insertWitness (row : WitnessRow) : wr_log_id row = logID -> Apart (insertWitness row).
Proof.
  intros Hk. apply within_statement; [apply _|]. intros t. destruct (insertInto _ _ _) as [f|rows] eqn:Hi; [done|].
  apply apart_rows. intros other Ho. split_and!; try done. exact (insertInto_apart wr_log_id _ _ _ _ _ Hi Hk Ho).
Qed.

Lemma apart_updateMeta (state : bytes) : Apart (updateMeta logID state).
Proof.
  apply within_statement; [apply _|]. intros t. destruct (cll_meta t) as [rows|] eqn:Ht; [|done].
  apply apart_rows. intros other Ho. split_and!; try done. rewrite Ht. cbn. f_equal.
  apply (own_map_other _ _ logID); [done| |]; intros x; destruct (sameText (mr_log_id x) logID) eqn:Hx; try done.
  intros Hne. rewrite sameText_exact, bool_decide_eq_true in Hx. done.
Qed.

Lemma apart_updateWitness counts id size expected attempts witness :
  Apart (updateWitness counts logID id size expected attempts witness).
Proof.
  apply within_statement; [apply _|]. intros t. destruct (cll_witnesses t) as [rows|] eqn:Ht; [|done]. cbv zeta.
  apply apart_rows. intros other Ho. split_and!; try done. rewrite Ht. cbn. f_equal.
  apply (own_map_other _ _ logID); [done| |]; intros x; unfold sameWitnessKey;
    destruct (sameText (wr_log_id x) logID) eqn:Hx; cbn [andb]; try done; [by case_match|].
  intros Hne. rewrite sameText_exact, bool_decide_eq_true in Hx. done.
Qed.

Lemma apart_insertNodes (position : Z) (nodes : list bytes) : Apart (insertNodes logID position nodes).
Proof.
  revert position. induction nodes as [|node nodes IH]; intros position; cbn [insertNodes]; [apply within_ret, _|].
  apply within_bind; [apply _|by apply apart_insertNode|intros ?; apply IH].
Qed.

Lemma apart_insertWitnesses (existing : gset string) (ws : list WitnessState) : Apart (insertWitnesses logID existing ws).
Proof.
  induction ws as [|w ws IH]; cbn [insertWitnesses]; [apply within_ret, _|]. case_bool_decide; [done|].
  apply within_bind; [apply _|apply within_lift, _|intros encoded].
  apply within_bind; [apply _|by apply apart_insertWitness|intros ?; done].
Qed.

(** Reading is within any preorder. *)
Lemma apart_read {A} (p : Program A) : Within eq p -> Apart p.
Proof. intros Hp faults s. specialize (Hp faults s). rewrite <- Hp. reflexivity. Qed.

Lemma apart_appendEntry (input : AppendInput) : Apart (appendEntry logID input).
Proof.
  unfold appendEntry, selectEntry, selectMaxSeq. within. by apply apart_insertEntry.
Qed.

Lemma apart_commitState current size checkpoint next : Apart (commitState logID current size checkpoint next).
Proof.
  unfold commitState. within; [apply apart_updateMeta|apply apart_insertNodes|apply apart_insertWitnesses].
Qed.

Lemma apart_readWitness attempts next : Apart (readWitness logID attempts next).
Proof. unfold readWitness, selectWitness. within. Qed.

Lemma apart_writeWitness counts attempts next encoded : Apart (writeWitness logID counts attempts next encoded).
Proof. unfold writeWitness. within. apply apart_updateWitness. Qed.

Lemma elsewhere_stored (t t' : Tables) (other : string) (e : Engine) :
  elsewhere logID t t' -> other <> logID -> stored other t e -> stored other t' e.
Proof. intros He Ho (r & Hr & Hh). exists r. by rewrite (He other Ho). Qed.

End Apart.

(** ** What a backend makes of a program *)

(** A program that acts as the engine, or fails. *)
Definition respects `{CO : Collation} `{DT : DtMmr} {A} (logID : string) (t : Tables) (p : Program A)
    (spec : Engine * result A) : Prop :=
  (exists f, snd (pure p t) = inl f) \/
  (exists t' a e', snd spec = Ok a /\ pure p t = (t', inr a) /\ stored logID t' e' /\ engine_kept (fst spec) e').

Section Programs.
Context `{CO : Collation} `{DI : Dialect} `{DT : DtMmr} `{!ExactCollation} `{!DtMmrLaws DT}.

Lemma performs_respects {A} (logID : string) (r : Rows) (t : Tables) (p : Program A) (spec : Engine * result A) :
  rowsOf logID t = Some r -> performs logID r p spec -> respects logID t p spec.
Proof.
  intros Ht. unfold performs, respects. destruct (snd spec) as [a|err].
  - intros (r' & e' & Hrun & Hh & Hk). destruct (Hrun t Ht) as (t' & Hp & Ht' & _). right.
    exists t', a, e'. split_and!; [done|done|by exists r'|done].
  - intros Hs. destruct (Hs t Ht) as (t' & ->). left. by eexists.
Qed.

Lemma stops_respects {A} (logID : string) (r : Rows) (t : Tables) (p : Program A) (spec : Engine * result A) (f : failure) :
  rowsOf logID t = Some r -> stops logID r p f -> respects logID t p spec.
Proof. intros Ht Hs. destruct (Hs t Ht) as (t' & Hp). left. exists f. by rewrite Hp. Qed.

Lemma commitWitness_respects (counts : WitnessRow -> WitnessRow -> bool) (logID : string) (t : Tables) (e : Engine)
    (attempts : Z) (next : WitnessState) :
  stored logID t e -> row_storable next ->
  respects logID t (encoded ← readWitness logID attempts next; writeWitness logID counts attempts next encoded)
    (CommitWitness e attempts next).
Proof.
  intros (r & Ht & Hr) Hst.
  destruct (readWitness_outcome logID r e attempts next Hr Hst)
    as [(Hok & Hcas & encoded & Henc & Hrun)|[(_ & _ & Hs)|(_ & Hs)]].
  - destruct (writeWitness_replaces logID r e Hr counts attempts next encoded Hok Henc Hcas) as [(_ & _ & _ & _ & Hs)|Hp].
    + eapply stops_respects; [exact Ht|]. eapply runs_stops; [exact Hrun|exact Hs].
    + eapply performs_respects; [exact Ht|]. eapply performs_bind; [exact Hrun|exact Hp].
  - eapply stops_respects; [exact Ht|]. by apply stops_bind.
  - eapply stops_respects; [exact Ht|]. by apply stops_bind.
Qed.

Lemma commitState_respects (logID : string) (forUpdate : bool) (t : Tables) (e : Engine) (size : Z) (checkpoint : option bytes) (next : State) :
  stored logID t e -> state_storable next ->
  respects logID t (current ← loadState logID forUpdate; commitState logID current size checkpoint next)
    (CommitCLL e size checkpoint next).
Proof. intros (r & Ht & Hr) Hst. eapply performs_respects; [exact Ht|]. by apply commitState_performs. Qed.

Lemma gives_pure {A} (logID : string) (t : Tables) (e : Engine) (p : Program A) (x : result A) :
  stored logID t e -> (forall r, holds r e -> gives logID r p x) -> snd (pure p t) = toFailure x.
Proof.
  intros (r & Ht & Hr) Hg. specialize (Hg r Hr). destruct x as [a|err].
  - by destruct (Hg t Ht) as (t' & -> & _).
  - by destruct (Hg t Ht) as (t' & ->).
Qed.

End Programs.

(** ** Refused calls of the engine change nothing *)

Lemma Append_refused (e : Engine) (input : AppendInput) : is_ok (snd (Append e input)) = false -> fst (Append e input) = e.
Proof.
  unfold Append. destruct (_ || _); [done|]. destruct (byValue e !! _); [done|]. by destruct (_ <? _).
Qed.

Lemma CommitCLL_refused `{DT : DtMmr} (e : Engine) (size : Z) (checkpoint : option bytes) (next : State) :
  is_ok (snd (CommitCLL e size checkpoint next)) = false -> fst (CommitCLL e size checkpoint next) = e.
Proof. unfold CommitCLL. by destruct (ApplyCLL _ _ _ _). Qed.

Lemma CommitWitness_refused (e : Engine) (attempts : Z) (next : WitnessState) :
  is_ok (snd (CommitWitness e attempts next)) = false -> fst (CommitWitness e attempts next) = e.
Proof. unfold CommitWitness. by destruct (ApplyWitness _ _ _). Qed.

End SqlContract.
