(* ===== verification/MysqlSession.v ===== *)
(** * Transactions among other clients: [src/store/mysql/store.go]

    What a transaction of [Mysql] reads and writes while others commit before
    every statement of it: plain reads see one snapshot, writes act on what is
    committed when it ends, and a lock keeps out the calls that need it. *)

From S2P Require Import Prelude DtMmr Text Mmr Cll Portable Engine EngineLog EngineState EngineHistory EngineWitness.
From S2P Require Import JournalText JsonlReplay Backend Sql SqlStore Mysql SqlRows SqlLog SqlCommit SqlWitness SqlInit.
From S2P Require Import SqlContract.
Import Text Cll Engine EngineLog EngineState EngineHistory EngineWitness JournalText JsonlReplay Backend Sql SqlStore.
Import SqlRows SqlLog SqlCommit SqlWitness SqlInit SqlContract.

Module MysqlSession.

Local Open Scope Z_scope.
#[local] Existing Instance Mysql.mysql_dialect.

(** ** Running a program in a transaction *)

Lemma replay_app (es es' : list (Tables -> Tables)) (t : Tables) :
  Mysql.replay (es ++ es') t = Mysql.replay es' (Mysql.replay es t).
Proof. apply fold_left_app. Qed.

Lemma run_bind {A B} (faults : Faults) (others : Mysql.Others) (p : Program A) (k : A -> Program B) (s : Mysql.Session) :
  Mysql.run faults others (p ≫= k) s =
  match Mysql.run faults others p s with
  | (s, inl f) => (s, inl f)
  | (s, inr a) => Mysql.run faults others (k a) s
  end.
Proof.
  revert s. induction p as [[f|a]|C locks answer next IH|C locks effect next IH]; intros s; [done|done| |]; cbn.
  - destruct (faults _); [done|]. destruct (answer _); [done|]. apply IH.
  - destruct (faults _); [done|]. destruct (snd (effect _)); [done|]. apply IH.
Qed.

Lemma pure_Query {A B} (locks : list Lock) (answer : Tables -> failure + B) (next : B -> Program A) (t : Tables) :
  pure (Query locks answer next) t = match answer t with inl f => (t, inl f) | inr b => pure (next b) t end.
Proof.
  unfold pure at 1. cbn. destruct (answer t) as [f|b]; [done|]. destruct (steady_quiet (next b) 1 t) as [k ->].
  by destruct (pure (next b) t).
Qed.

Lemma pure_Update {A B} (locks : list Lock) (effect : Tables -> Tables * (failure + B)) (next : B -> Program A) (t : Tables) :
  pure (Update locks effect next) t =
  match snd (effect t) with inl f => (fst (effect t), inl f) | inr b => pure (next b) (fst (effect t)) end.
Proof.
  unfold pure at 1. cbn. destruct (effect t) as [t' [f|b]]; [done|]. cbn [fst snd].
  destruct (steady_quiet (next b) 1 t') as [k ->]. by destruct (pure (next b) t').
Qed.

(** Alone a transaction is its program. *)
Lemma run_alone {A} (p : Program A) (s : Mysql.Session) :
  Mysql.snapshot s = None \/ Mysql.snapshot s = Some (Mysql.committed s) ->
  let '(s', r) := Mysql.run noFaults Mysql.nobody p s in
  Mysql.committed s' = Mysql.committed s /\
  pure p (Mysql.replay (Mysql.written s) (Mysql.committed s)) = (Mysql.replay (Mysql.written s') (Mysql.committed s), r).
Proof.
  revert s. induction p as [r|C locks answer next IH|C locks effect next IH]; intros [t snap w h n] Hs; [done| |];
    cbn [Mysql.committed Mysql.snapshot Mysql.written] in Hs; cbn [Mysql.run]; unfold Mysql.proceed, Mysql.nobody, noFaults at 1;
    cbn [Mysql.committed Mysql.snapshot Mysql.written Mysql.held Mysql.number].
  - rewrite pure_Query. assert (match locks with [] => default t snap | _ => t end = t) as ->.
    { destruct locks; [|done]. by destruct Hs as [-> | ->]. }
    destruct (answer _) as [f|b]; [done|]. specialize (IH b (Mysql.MkSession t
      (match locks with [] => Some t | _ => snap end) w (locks ++ h) (S n))). apply IH. destruct locks; [by right|done].
  - rewrite pure_Update. destruct (snd (effect _)) as [f|b]; [cbn [Mysql.committed Mysql.written]; by rewrite replay_app|].
    specialize (IH b (Mysql.MkSession t snap (w ++ [fun t => fst (effect t)]) (locks ++ h) (S n)) Hs).
    cbn [Mysql.committed Mysql.snapshot Mysql.written] in IH. rewrite replay_app in IH. exact IH.
Qed.

Lemma session_alone {A} (p : Program A) (t : Tables) :
  Mysql.transaction noFaults Mysql.nobody t p =
  match pure p t with
  | (t', inr a) => (t, t', Ok a)
  | (_, inl f) => (t, t, Err (Mysql.classify f))
  end.
Proof.
  unfold Mysql.transaction. unfold noFaults at 1. pose proof (run_alone p (Mysql.begin t 1) (or_introl eq_refl)) as Hr.
  destruct (Mysql.run noFaults Mysql.nobody p (Mysql.begin t 1)) as [s [f|a]]; cbn in Hr; destruct Hr as [Ht ->]; by rewrite <- Ht.
Qed.

(** A transaction rolls back and leaves what it found, or its program has run
    and all it wrote is added to that. *)
Lemma session_cases {A} (p : Program A) (faults : Faults) (others : Mysql.Others) (t : Tables) :
  let '(found, final, x) := Mysql.transaction faults others t p in
  (final = found /\ exists err, x = Err err) \/
  (exists s a, Mysql.run faults others p (Mysql.begin t 1) = (s, inr a) /\
     found = Mysql.committed (Mysql.proceed others s) /\ final = Mysql.replay (Mysql.written s) found /\
     (x = Ok a \/ exists err, x = Err err)).
Proof.
  unfold Mysql.transaction. destruct (faults 0%nat) as [f|]; [left; by eauto|].
  destruct (Mysql.run faults others p (Mysql.begin t 1)) as [s [f|a]] eqn:Hr; [left; by eauto|].
  destruct (faults (Mysql.number s)) as [[f|f]|]; [left; by eauto|right|right]; exists s, a; cbn; by eauto 6.
Qed.

(** ** What holds along a transaction *)

(** A relation that the others keep once the locks [locks] are held. *)
Definition Keeps (others : Mysql.Others) (locks : list Lock) (R : Tables -> Tables -> Prop) : Prop :=
  forall k held t, locks ⊆ held -> R t (others k held t).

Section Along.
Context (faults : Faults) (others : Mysql.Others) (R : Tables -> Tables -> Prop) `{!PreOrder R}.

Lemma run_follows {A} (p : Program A) (s s' : Mysql.Session) (r : failure + A) (locks : list Lock) :
  Keeps others locks R -> locks ⊆ Mysql.held s -> Mysql.run faults others p s = (s', r) ->
  Mysql.held s ⊆ Mysql.held s' /\ R (Mysql.committed s) (Mysql.committed s').
Proof.
  intros Hk. revert s. induction p as [x|C ls answer next IH|C ls effect next IH]; intros s Hl; cbn [Mysql.run].
  - by intros [= <- _].
  - pose proof (Hk (Mysql.number s) (Mysql.held s) (Mysql.committed s) Hl) as HR.
    destruct (faults _); [by intros [= <- _]|]. destruct (answer _) as [f|b].
    + intros [= <- _]. cbn. split; [set_solver|exact HR].
    + intros [Hh Hc]%IH; cbn in *; [|set_solver]. split; [set_solver|by etrans].
  - pose proof (Hk (Mysql.number s) (Mysql.held s) (Mysql.committed s) Hl) as HR.
    destruct (faults _); [by intros [= <- _]|]. destruct (snd (effect _)) as [f|b].
    + intros [= <- _]. cbn. split; [set_solver|exact HR].
    + intros [Hh Hc]%IH; cbn in *; [|set_solver]. split; [set_solver|by etrans].
Qed.

(** A locking read is of what is committed by then. *)
Lemma run_lock {A} (lock : Lock) (answer : Tables -> failure + A) (s s' : Mysql.Session) (a : A) :
  Mysql.run faults others (query [lock] answer) s = (s', inr a) ->
  answer (Mysql.replay (Mysql.written s) (Mysql.committed s')) = inr a /\
  Mysql.committed s' = others (Mysql.number s) (Mysql.held s) (Mysql.committed s) /\
  Mysql.written s' = Mysql.written s /\ Mysql.snapshot s' = Mysql.snapshot s /\ Mysql.held s' = lock :: Mysql.held s.
Proof.
  cbn. destruct (faults _); [done|]. destruct (answer _) as [f|b] eqn:Ha; [done|]. intros [= <- <-]. cbn. by split_and!.
Qed.

(** A plain read is of the snapshot, which it takes if there is none. *)
Lemma run_read {A} (answer : Tables -> failure + A) (s s' : Mysql.Session) (a : A) :
  Mysql.run faults others (reading answer) s = (s', inr a) ->
  exists view, answer (Mysql.replay (Mysql.written s) view) = inr a /\ Mysql.snapshot s' = Some view /\
    view = default (Mysql.committed s') (Mysql.snapshot s) /\
    Mysql.committed s' = others (Mysql.number s) (Mysql.held s) (Mysql.committed s) /\
    Mysql.written s' = Mysql.written s /\ Mysql.held s' = Mysql.held s.
Proof.
  cbn. destruct (faults _); [done|]. destruct (answer _) as [f|b] eqn:Ha; [done|]. intros [= <- <-]. cbn.
  eexists. split_and!; [exact Ha|done..].
Qed.

(** Programs of plain reads, which read one snapshot. *)
Inductive PlainReads {A} : Program A -> Prop :=
| plain_return r : PlainReads (Return r)
| plain_query {B} (answer : Tables -> failure + B) next : (forall b, PlainReads (next b)) -> PlainReads (Query [] answer next).

Lemma run_snapshot {A} (p : Program A) (s s' : Mysql.Session) (t : Tables) (a : A) :
  PlainReads p -> Mysql.written s = [] -> Mysql.snapshot s = Some t -> Mysql.run faults others p s = (s', inr a) ->
  Mysql.written s' = [] /\ Mysql.snapshot s' = Some t /\ Mysql.held s' = Mysql.held s /\ pure p t = (t, inr a).
Proof.
  intros Hp. revert s. induction Hp as [r|B answer next _ IH]; intros [c snap w h n] Hw Ht; cbn in Hw, Ht; subst w snap.
  - cbn. intros [= <- ->]. done.
  - cbn. destruct (faults _); [done|]. rewrite pure_Query. destruct (answer t) as [f|b]; [done|].
    intros Hr%IH; [|done|done]. exact Hr.
Qed.

(** The snapshot is taken by the first of them. *)
Lemma run_plain {A} (p : Program A) (s s' : Mysql.Session) (a : A) (locks : list Lock) :
  Keeps others locks R -> locks ⊆ Mysql.held s -> PlainReads p -> Mysql.written s = [] -> Mysql.snapshot s = None ->
  Mysql.run faults others p s = (s', inr a) ->
  Mysql.written s' = [] /\ Mysql.held s' = Mysql.held s /\
  exists t, R (Mysql.committed s) t /\ R t (Mysql.committed s') /\ pure p t = (t, inr a).
Proof.
  intros Hk Hl Hp. destruct Hp as [r|B answer next Hp]; destruct s as [c snap w h n]; cbn in Hl; cbn [Mysql.written Mysql.snapshot];
    intros -> ->.
  - cbn. intros [= <- ->]. split_and!; [done|done|]. by exists c.
  - cbn. destruct (faults n); [done|]. pose proof (Hk n h c Hl) as HR. destruct (answer _) as [f|b] eqn:Ha; [done|]. intros Hr.
    edestruct (run_follows (next b)) as [_ Hc]; [exact Hk| |exact Hr|]; [exact Hl|]. cbn in Hc.
    apply (run_snapshot _ _ _ (others n h c)) in Hr as (Hw & _ & Hh & Hpure); [|done..]. split_and!; [done|done|].
    exists (others n h c). split_and!; [done|done|]. by rewrite pure_Query, Ha.
Qed.

(** Programs of writes without answers. *)
Inductive Blind {A} : Program A -> Prop :=
| blind_return r : Blind (Return r)
| blind_update locks effect (next : unit -> Program A) : Blind (next tt) -> Blind (Update locks effect next).

(** What they write does not depend on the tables. *)
Lemma run_blind {A} (p : Program A) (s s' : Mysql.Session) (a : A) :
  Blind p -> Mysql.run faults others p s = (s', inr a) ->
  exists es, Mysql.written s' = Mysql.written s ++ es /\
    forall t t' b, pure p t = (t', inr b) -> t' = Mysql.replay es t /\ b = a.
Proof.
  intros Hp. revert s. induction Hp as [r|locks effect next _ IH]; intros s; cbn [Mysql.run].
  - intros [= <- ->]. exists []. split; [by rewrite app_nil_r|]. intros t t' b. by intros [= <- ->].
  - destruct (faults _); [done|]. destruct (snd (effect _)) as [f|[]]; [done|]. intros (es & Hw & Hes)%IH. cbn in Hw.
    exists ((fun t => fst (effect t)) :: es). split; [by rewrite <- app_assoc in Hw|].
    intros t t' b. rewrite pure_Update. destruct (snd (effect t)) as [f|[]]; [done|]. intros Hb. by apply Hes in Hb.
Qed.

End Along.

Lemma plain_bind {A B} (p : Program A) (k : A -> Program B) : PlainReads p -> (forall a, PlainReads (k a)) -> PlainReads (p ≫= k).
Proof.
  intros Hp Hk. induction Hp as [[f|a]|C answer next _ IH]; [apply plain_return|apply Hk|]. by apply plain_query.
Qed.

Lemma plain_reading {A} (answer : Tables -> failure + A) : PlainReads (reading answer).
Proof. apply plain_query. intros b. apply plain_return. Qed.

Lemma plain_lift {A} (r : result A) : PlainReads (lift r).
Proof. destruct r; apply plain_return. Qed.

Lemma blind_bind {A B} (p : Program A) (k : A -> Program B) : Blind p -> (forall a, Blind (k a)) -> Blind (p ≫= k).
Proof.
  intros Hp Hk. induction Hp as [[f|a]|locks effect next _ IH]; [apply blind_return|apply Hk|]. by apply blind_update.
Qed.

Lemma blind_statement (locks : list Lock) (effect : Tables -> Tables * (failure + unit)) : Blind (statement locks effect).
Proof. apply blind_update, blind_return. Qed.

Lemma blind_lift {A} (r : result A) : Blind (lift r).
Proof. destruct r; apply blind_return. Qed.

Section Programs.
Context `{CO : Collation} `{DT : DtMmr}.
Variable logID : string.

Lemma plain_readWitness (attempts : Z) (next : WitnessState) : PlainReads (readWitness logID attempts next).
Proof.
  unfold readWitness. apply plain_bind; [apply plain_reading|]. intros [row|]; [|apply plain_return].
  repeat (apply plain_bind; [apply plain_lift|intros ?]). apply plain_lift.
Qed.

(** Past its first statement loading a state is plain, and the same with and
    without the lock. *)
Lemma loadState_rest : exists rest,
  (forall forUpdate, loadState logID forUpdate = (raw ← selectMeta logID forUpdate; rest raw)) /\
  forall raw, PlainReads (rest raw).
Proof.
  eexists. split; [intros forUpdate; reflexivity|]. intros [raw|]; [|apply plain_return].
  destruct (UnmarshalState raw); [|apply plain_return]. apply plain_bind; [apply plain_reading|intros rows].
  apply plain_bind; [apply plain_lift|intros nodes]. apply plain_bind; [|intros ws; apply plain_lift].
  apply plain_bind; [apply plain_reading|intros ?; apply plain_lift].
Qed.

Lemma plain_loadState : PlainReads (loadState logID false).
Proof. destruct loadState_rest as (rest & -> & Hp). by apply plain_bind; [apply plain_reading|]. Qed.

Lemma blind_insertNodes (position : Z) (nodes : list bytes) : Blind (insertNodes logID position nodes).
Proof.
  revert position. induction nodes as [|node nodes IH]; intros position; cbn [insertNodes]; [apply blind_return|].
  apply blind_bind; [apply blind_statement|intros ?; apply IH].
Qed.

Lemma blind_insertWitnesses (existing : gset string) (ws : list WitnessState) : Blind (insertWitnesses logID existing ws).
Proof.
  induction ws as [|w ws IH]; cbn [insertWitnesses]; [apply blind_return|]. case_bool_decide; [done|].
  apply blind_bind; [apply blind_lift|intros encoded]. by apply blind_bind; [apply blind_statement|].
Qed.

Lemma blind_commitState (current : State) (size : Z) (checkpoint : option bytes) (next : State) :
  Blind (commitState logID current size checkpoint next).
Proof.
  unfold commitState. repeat (apply blind_bind; [apply blind_lift|intros ?]).
  apply blind_bind; [apply blind_statement|intros ?]. apply blind_bind; [apply blind_insertNodes|intros ?].
  apply blind_insertWitnesses.
Qed.

End Programs.

(** ** What others may do to a log *)

(** Rows only move forward, so a row that was read is still there with its checkpoint. *)
Lemma cas_later `{DT : DtMmr} (e0 e1 : Engine) (attempts : Z) (next w1 : WitnessState) :
  engine_ok e1 -> engine_le e0 e1 -> cas_row (st_Witnesses (state e0)) attempts next ->
  w1 ∈ st_Witnesses (state e1) -> keyOf w1 = keyOf next -> wit_Attempts w1 = attempts ->
  cas_row (st_Witnesses (state e1)) attempts next.
Proof.
  intros He1 [_ [_ _ (kept & extra & Hp & Hkept)]] (w0 & Hin0 & Hk0 & _ & Hc0) Hin1 Hk1 Ha1.
  exists w1. split_and!; [done|done|done|]. apply list_elem_of_lookup in Hin0 as [i Hi].
  destruct (Forall2_lookup_l _ _ _ _ _ Hkept Hi) as (w' & Hi' & Hk' & Hc').
  assert (w' = w1) as ->; [|congruence]. pose proof (wf_keys _ (ok_state _ He1)) as Hnd.
  assert (w' ∈ st_Witnesses (state e1)) as Hin' by (rewrite Hp; apply elem_of_app; left; by eapply list_elem_of_lookup_2).
  assert (findWitness (keyOf next) (st_Witnesses (state e1)) = Ok w') as H1 by (apply findWitness_ok; [done|split; congruence]).
  assert (findWitness (keyOf next) (st_Witnesses (state e1)) = Ok w1) as H2 by by apply findWitness_ok.
  congruence.
Qed.

Section Guards.
Context `{CO : Collation} `{!ExactCollation} `{DT : DtMmr} `{!DtMmrLaws DT}.
Variable logID : string.
Variable le : Engine -> Engine -> Prop.
Context `{!PreOrder le}.

(** The log goes on. *)
Definition advances (t t' : Tables) : Prop :=
  forall e, stored logID t e -> exists e', stored logID t' e' /\ le e e'.

(** Only witness rows change. *)
Definition metaKept (t t' : Tables) : Prop :=
  forall r e, rowsOf logID t = Some r -> holds r e ->
    exists r' e', rowsOf logID t' = Some r' /\ holds r' e' /\ le e e' /\ rows_moved e e' /\
      rw_meta r' = rw_meta r /\ rw_entries r' = rw_entries r /\ rw_nodes r' = rw_nodes r.

(** The row of a witness that is there stays as it is. *)
Definition witnessKept (id size : string) (t t' : Tables) : Prop :=
  forall rows, cll_witnesses t = Some rows -> exists rows', cll_witnesses t' = Some rows' /\
    (List.filter (sameWitnessKey logID id size) rows <> [] ->
     List.filter (sameWitnessKey logID id size) rows' = List.filter (sameWitnessKey logID id size) rows).

#[export] Instance advances_preorder : PreOrder advances.
Proof.
  split; [intros t e He; by exists e|]. intros a b c H1 H2 e He. destruct (H1 e He) as (e1 & He1 & ?).
  destruct (H2 e1 He1) as (e2 & ? & ?). exists e2. split; [done|by etrans].
Qed.

#[export] Instance metaKept_preorder : PreOrder metaKept.
Proof.
  split; [intros t r e Ht Hr; exists r, e; by split_and!|]. intros a b c H1 H2 r e Ht Hr.
  destruct (H1 r e Ht Hr) as (r1 & e1 & Ht1 & Hr1 & ? & ? & ? & ? & ?).
  destruct (H2 r1 e1 Ht1 Hr1) as (r2 & e2 & ? & ? & ? & ? & ? & ? & ?). exists r2, e2. split_and!; [done|done|by etrans..|congruence|congruence|congruence].
Qed.

#[export] Instance witnessKept_preorder (id size : string) : PreOrder (witnessKept id size).
Proof.
  split; [intros t rows Ht; by exists rows|]. intros a b c H1 H2 rows Ha. destruct (H1 rows Ha) as (rows1 & Hb & Hk1).
  destruct (H2 rows1 Hb) as (rows2 & Hc & Hk2). exists rows2. split; [done|]. intros Hne. rewrite Hk2; [by apply Hk1|by rewrite Hk1].
Qed.

(** Others that keep what is locked. *)
Record Guarded (others : Mysql.Others) : Prop := {
  guarded_any : Keeps others [] advances;
  guarded_meta : Keeps others [OnMeta logID] metaKept;
  guarded_witness id size : Keeps others [OnWitness logID id size] (witnessKept id size)
}.

Lemma nobody_guarded : Guarded Mysql.nobody.
Proof. split; intros; intros ? ? ? _; unfold Mysql.nobody; reflexivity. Qed.

(** How a successful transaction settles: on the log it finds at its end, all it
    wrote is what a program that respects the engine writes there. *)
Definition settles {A} (e0 : Engine) (found final : Tables) (spec : Engine -> Engine * result A) (a : A) : Prop :=
  exists e1, le e0 e1 /\ stored logID found e1 /\
    exists q, respects logID found q (spec e1) /\ pure q found = (final, inr a).

Variable others : Mysql.Others.
Hypothesis guarded : Guarded others.

Lemma lock_taken (faults : Faults) (t : Tables) (s : Mysql.Session) (raw : option bytes) :
  Mysql.run faults others (selectMeta logID true) (Mysql.begin t 1) = (s, inr raw) ->
  advances t (Mysql.committed s) /\ snd (pure (selectMeta logID true) (Mysql.committed s)) = inr raw /\
  Mysql.written s = [] /\ Mysql.snapshot s = None /\ Mysql.held s = [OnMeta logID].
Proof.
  unfold selectMeta. rewrite pure_query. intros (Ha & Hc & Hw & Hs & Hh)%run_lock. split_and!; [|done..].
  rewrite Hc. apply (guarded_any _ guarded). set_solver.
Qed.

(** The state loaded under the lock is that of the log as it is read; later only
    witness rows differ. *)
Lemma loaded_state (faults : Faults) (t : Tables) (e0 : Engine) (s : Mysql.Session) (current : State) :
  stored logID t e0 -> Mysql.run faults others (loadState logID true) (Mysql.begin t 1) = (s, inr current) ->
  Mysql.written s = [] /\ Mysql.held s = [OnMeta logID] /\
  exists r e, holds r e /\ le e0 e /\ current = state e /\
    exists t', rowsOf logID t' = Some r /\ metaKept t' (Mysql.committed s).
Proof.
  intros He0 Hrun. destruct (loadState_rest logID) as (rest & Hload & Hplain). rewrite Hload, run_bind in Hrun.
  destruct (Mysql.run faults others (selectMeta logID true) _) as [s1 [f|raw]] eqn:Hlock; [done|].
  destruct (lock_taken _ _ _ _ Hlock) as (Hadv & Hraw & Hw1 & Hsnap1 & Hheld1).
  destruct (Hadv e0 He0) as (e1 & (r1 & Ht1 & Hr1) & Hle).
  destruct (run_plain faults others metaKept (rest raw) s1 s current [OnMeta logID]) as (Hw & Hheld & t' & H1 & H2 & Hpure);
    [apply guarded|by rewrite Hheld1|apply Hplain|done|done|done|].
  destruct (H1 r1 e1 Ht1 Hr1) as (r & e & Ht' & Hr & Hle' & _ & Hmeta & _).
  split; [done|]. split; [congruence|]. exists r, e. split_and!; [done|by etrans| |by exists t'].
  destruct (selectMeta_runs logID r1 true _ Ht1) as (t1 & Hsel1 & _). rewrite Hsel1 in Hraw. injection Hraw as <-.
  destruct (selectMeta_runs logID r true _ Ht') as (t2 & Hsel & _ & _). rewrite Hmeta in Hsel.
  destruct (loadState_runs logID r e Hr true _ Ht') as (t3 & Hstate & _).
  rewrite Hload, (pure_step _ _ _ _ _ Hsel) in Hstate.
  assert (t2 = t') as -> by (unfold selectMeta in Hsel; rewrite pure_query in Hsel; congruence). congruence.
Qed.

(** The log goes on while a transaction runs. *)
Lemma session_follows {A} (faults : Faults) (t : Tables) (p : Program A) (e0 : Engine) :
  stored logID t e0 -> exists e1, le e0 e1 /\ stored logID (fst (fst (Mysql.transaction faults others t p))) e1.
Proof.
  intros He0. unfold Mysql.transaction. destruct (faults 0%nat) as [f|]; [by exists e0|].
  destruct (Mysql.run faults others p (Mysql.begin t 1)) as [s r] eqn:Hr.
  destruct (run_follows faults others advances _ _ _ _ [] (guarded_any _ guarded) (list_subseteq_nil _) Hr) as [_ Ha].
  pose proof (guarded_any _ guarded (Mysql.number s) (Mysql.held s) (Mysql.committed s) (list_subseteq_nil _)) as Hb.
  destruct r as [f|a]; [by destruct (Ha e0 He0) as (e1 & ? & ?); exists e1|].
  destruct (transitivity Ha Hb e0 He0) as (e1 & He1 & Hle). exists e1. split; [done|].
  by destruct (faults (Mysql.number s)) as [[f|f]|].
Qed.

(** The rest of a transaction under the lock. *)
Lemma locked_rest {A} (p : Program A) (faults : Faults) (s s' : Mysql.Session) (r : failure + A) :
  OnMeta logID ∈ Mysql.held s -> Mysql.run faults others p s = (s', r) ->
  metaKept (Mysql.committed s) (Mysql.committed (Mysql.proceed others s')).
Proof.
  intros Hin Hrun.
  destruct (run_follows faults others metaKept p s s' r [OnMeta logID]) as [Hh Hc]; [apply guarded|set_solver|done|].
  etrans; [exact Hc|]. apply (guarded_meta _ guarded). set_solver.
Qed.

Lemma commit_settles (faults : Faults) (t : Tables) (e0 : Engine) (s : Mysql.Session) (size : Z)
    (checkpoint : option bytes) (next : State) :
  stored logID t e0 -> state_storable next ->
  Mysql.run faults others (Mysql.commitOperation logID size checkpoint next) (Mysql.begin t 1) = (s, inr tt) ->
  let found := Mysql.committed (Mysql.proceed others s) in
  settles e0 found (Mysql.replay (Mysql.written s) found) (fun e1 => CommitCLL e1 size checkpoint next) tt.
Proof.
  intros He0 Hst Hrun found. unfold Mysql.commitOperation, Mysql.loadState in Hrun. rewrite run_bind in Hrun.
  destruct (Mysql.run faults others (loadState logID true) _) as [s1 [f|current]] eqn:Hload; [done|].
  destruct (loaded_state _ _ _ _ _ He0 Hload) as (Hw1 & Hh1 & r & e & Hr & Hle & -> & t' & Ht' & Hkept).
  pose proof (locked_rest _ _ _ _ _ ltac:(rewrite Hh1; left) Hrun) as Hkept'. fold found in Hkept'.
  assert (metaKept t' found) as Hend by by etrans.
  destruct (Hend r e Ht' Hr) as (r1 & e1 & Ht1 & Hr1 & Hle1 & Hm & _).
  destruct (run_blind faults others _ _ _ _ (blind_commitState logID _ _ _ _) Hrun) as (es & Hw & Hes). rewrite Hw1 in Hw.
  rewrite (commitState_moved logID r e Hr e1) in * by (done || by apply Hr1).
  pose proof (loadedState_performs logID r1 e1 Hr1 size checkpoint next Hst) as Hp.
  exists e1. split; [by etrans|]. split; [by exists r1|]. eexists. split; [by eapply performs_respects|].
  unfold performs, CommitCLL in Hp. destruct (ApplyCLL (state e1) size checkpoint next) as [updated|err] eqn:Ha; cbn in Hp.
  - destruct Hp as (r' & e' & Hruns & _). destruct (Hruns _ Ht1) as (t2 & Hpure & _).
    rewrite Hpure. destruct (Hes _ _ _ Hpure) as [-> _]. by rewrite Hw.
  - unfold commitState in Hrun. rewrite Ha in Hrun. done.
Qed.

(** Under the lock a plain read of the entries is of those of the log. *)
Lemma locked_read {A} (faults : Faults) (answer : Tables -> failure + A) (f : list EntryRow -> A) (s s' : Mysql.Session)
    (a : A) (c : Tables) (r : Rows) (e : Engine) :
  (forall t r, rowsOf logID t = Some r -> answer t = inr (f (rw_entries r))) ->
  OnMeta logID ∈ Mysql.held s -> Mysql.written s = [] -> rowsOf logID c = Some r -> holds r e ->
  metaKept c (default (Mysql.committed s) (Mysql.snapshot s)) ->
  Mysql.run faults others (reading answer) s = (s', inr a) ->
  a = f (rw_entries r) /\ Mysql.written s' = [] /\ Mysql.held s' = Mysql.held s /\
  metaKept c (default (Mysql.committed s') (Mysql.snapshot s')).
Proof.
  intros Hf Hin Hw Hc Hr Hview (view & Ha & Hsnap & Hdef & Hcom & Hw' & Hh)%run_read. rewrite Hw in Ha. cbn in Ha.
  assert (metaKept c view) as Hkept.
  { subst view. destruct (Mysql.snapshot s) as [v|]; [exact Hview|]. cbn in *. rewrite Hcom. etrans; [exact Hview|].
    apply (guarded_meta _ guarded). set_solver. }
  destruct (Hkept r e Hc Hr) as (r' & e' & Hr' & _ & _ & _ & _ & Hes & _). rewrite (Hf _ _ Hr'), Hes in Ha.
  split_and!; [congruence|congruence|done|]. by rewrite Hsnap.
Qed.

Lemma selectEntry_answer (v : bytes) : exists answer, selectEntry logID v = reading answer /\
  forall t r, rowsOf logID t = Some r ->
    answer t = inr (List.find (fun row => bool_decide (er_value row = v)) (rw_entries r)).
Proof.
  eexists. split; [reflexivity|]. intros t r Ht. destruct (selectEntry_runs logID r v t Ht) as (t' & Hp & _).
  unfold selectEntry, reading in Hp. rewrite pure_query in Hp. by injection Hp.
Qed.

Lemma selectMaxSeq_answer : exists answer, selectMaxSeq logID = reading answer /\
  forall t r, rowsOf logID t = Some r -> answer t = inr (maxSeq (rw_entries r)).
Proof.
  eexists. split; [reflexivity|]. intros t r Ht. destruct (selectMaxSeq_runs logID r t Ht) as (t' & Hp & _).
  unfold selectMaxSeq, reading in Hp. rewrite pure_query in Hp. by injection Hp.
Qed.

(** An append reads two things at most, and may insert an entry. *)
Lemma appendEntry_shape (input : AppendInput) : exists hit miss,
  appendEntry logID input = (row ← selectEntry logID (input_Value input);
    match row with Some row => hit row | None => maximum ← selectMaxSeq logID; miss maximum end) /\
  (forall row, exists x, hit row = Return x) /\
  (forall maximum, (exists x, miss maximum = Return x) \/
     exists row x, miss maximum = (_ ← insertEntry row; mret (M := Program) x)).
Proof.
  eexists (fun row => entry ← lift (scanEntry row); mret (MkAppendResult entry AppendIdempotent)), _.
  split; [reflexivity|]. split; [intros row; destruct (scanEntry row); by eexists|intros maximum].
  destruct (nextSeq maximum) as [seq|err]; [rewrite lift_step|left; by eexists].
  destruct (_ <? _); [left; by eexists|]. destruct (Portable.FormatTime _); [right; by eexists _, _|left; by eexists].
Qed.

(** Code without statements. *)
Lemma run_return {A} (faults : Faults) (x : failure + A) (s s' : Mysql.Session) (a : A) (t : Tables) :
  Mysql.written s = [] -> Mysql.run faults others (Return x) s = (s', inr a) ->
  pure (Return x) t = (Mysql.replay (Mysql.written s') t, inr a).
Proof. intros Hw [= <- ->]. by rewrite Hw. Qed.

(** An insertion fails only in the database. *)
Lemma run_insertEntry {A} (faults : Faults) (row : EntryRow) (x a : A) (s s' : Mysql.Session) (t : Tables) :
  Mysql.written s = [] -> Mysql.run faults others (_ ← insertEntry row; mret x) s = (s', inr a) ->
  (exists code, snd (pure (_ ← insertEntry row; mret (M := Program) x) t) = inl (Driver code)) \/
  pure (_ ← insertEntry row; mret (M := Program) x) t = (Mysql.replay (Mysql.written s') t, inr a).
Proof.
  intros Hw Hrun. assert (Blind (_ ← insertEntry row; mret (M := Program) x)) as Hb
    by (apply blind_bind; [apply blind_statement|intros ?; apply blind_return]).
  destruct (run_blind _ _ _ _ _ _ Hb Hrun) as (es & -> & Hes). rewrite Hw. cbn [app].
  destruct (pure _ t) as [t' [f|b]] eqn:Hp; [left|right; by destruct (Hes _ _ _ Hp) as [-> ->]]. cbn [snd].
  unfold insertEntry, statement in Hp. cbn in Hp. rewrite pure_Update in Hp. unfold insertInto in Hp.
  destruct (cll_entries t); cbn in Hp; [destruct (existsb _ _)|]; cbn in Hp; (discriminate Hp || (injection Hp as _ <-; by eexists)).
Qed.

Lemma append_settles (faults : Faults) (t : Tables) (e0 : Engine) (s : Mysql.Session) (input : AppendInput) (a : AppendResult) :
  stored logID t e0 ->
  Mysql.run faults others (Mysql.appendOperation logID input) (Mysql.begin t 1) = (s, inr a) ->
  let found := Mysql.committed (Mysql.proceed others s) in
  settles e0 found (Mysql.replay (Mysql.written s) found) (fun e1 => Append e1 input) a.
Proof.
  intros He0 Hrun found. unfold Mysql.appendOperation in Hrun. destruct (invalidInput input) eqn:Hinput; [done|].
  unfold Mysql.lockMetadata in Hrun. rewrite !run_bind in Hrun.
  destruct (Mysql.run faults others (selectMeta logID true) _) as [s1 [f|[raw|]]] eqn:Hlock; [done| |done].
  destruct (lock_taken _ _ _ _ Hlock) as (Hadv & _ & Hw1 & Hsnap1 & Hh1). cbn [Mysql.run mret program_ret] in Hrun.
  destruct (Hadv e0 He0) as (e & (r & Ht & Hr) & Hle).
  pose proof (locked_rest _ _ _ _ _ ltac:(rewrite Hh1; left) Hrun) as Hend. fold found in Hend.
  destruct (Hend r e Ht Hr) as (r1 & e1 & Ht1 & Hr1 & Hle1 & _ & _ & Hes & _).
  exists e1. split; [by etrans|]. split; [by exists r1|]. exists (appendEntry logID input).
  pose proof (appendEntry_performs logID r1 e1 Hr1 input Hinput) as Hp.
  split; [by eapply performs_respects|]. destruct (appendEntry_shape input) as (hit & miss & Hshape & Hhit & Hmiss).
  destruct (selectEntry_answer (input_Value input)) as (answer & Hsel & Hans).
  destruct selectMaxSeq_answer as (answer' & Hmax & Hans'). rewrite Hshape in Hrun, Hp |- *.
  rewrite run_bind, Hsel in Hrun. destruct (Mysql.run faults others (reading answer) s1) as [s2 [f|row]] eqn:H2; [done|].
  destruct (locked_read _ _ _ _ _ _ _ _ _ Hans ltac:(rewrite Hh1; left) Hw1 Ht Hr ltac:(by rewrite Hsnap1) H2)
    as (Hrow & Hw2 & Hh2 & Hview). rewrite <- Hes in Hrow.
  assert (pure (selectEntry logID (input_Value input)) found = (found, inr row)) as Hfound
    by by rewrite Hsel, Hrow; unfold reading; rewrite pure_query, (Hans _ _ Ht1).
  rewrite (pure_step _ _ _ _ _ Hfound). destruct row as [row|].
  { destruct (Hhit row) as [x Hx]. rewrite Hx in *. by eapply run_return. }
  rewrite run_bind, Hmax in Hrun. destruct (Mysql.run faults others (reading answer') s2) as [s3 [f|maximum]] eqn:H3; [done|].
  destruct (locked_read _ _ _ _ _ _ _ _ _ Hans' ltac:(rewrite Hh2, Hh1; left) Hw2 Ht Hr Hview H3) as (Hm & Hw3 & _ & _).
  rewrite <- Hes in Hm. assert (pure (selectMaxSeq logID) found = (found, inr maximum)) as Hfound'
    by by rewrite Hmax, Hm; unfold reading; rewrite pure_query, (Hans' _ _ Ht1).
  rewrite (pure_step _ _ _ _ _ Hfound'). destruct (Hmiss maximum) as [[x Hx]|(row & x & Hx)]; rewrite Hx in *.
  { by eapply run_return. }
  destruct (run_insertEntry _ _ _ _ _ _ found Hw3 Hrun) as [[code Hbad]|Hdone]; [exfalso|exact Hdone].
  rewrite <- Hx, <- (pure_step _ (fun m => miss m) _ _ _ Hfound') in Hbad.
  unfold performs in Hp. destruct (snd (Append e1 input)).
  - destruct Hp as (r' & e' & Hruns & _). destruct (Hruns _ Ht1) as (t2 & Hpure & _).
    rewrite (pure_step _ _ _ _ _ Hfound) in Hpure. by rewrite Hpure in Hbad.
  - destruct (Hp _ Ht1) as (t2 & Hpure). rewrite (pure_step _ _ _ _ _ Hfound) in Hpure. by rewrite Hpure in Hbad.
Qed.

(** What counts of the rows of a witness is the same in tables that keep them. *)
Lemma count_kept (id size : string) (matches : WitnessRow -> bool) (rows rows' : list WitnessRow) :
  (List.filter (sameWitnessKey logID id size) rows <> [] ->
   List.filter (sameWitnessKey logID id size) rows' = List.filter (sameWitnessKey logID id size) rows) ->
  (forall row, matches row = true -> sameWitnessKey logID id size row = true) ->
  List.filter matches rows <> [] -> List.filter matches rows' = List.filter matches rows.
Proof.
  intros Hk Hm. assert (forall l, List.filter matches l = List.filter matches (List.filter (sameWitnessKey logID id size) l)) as Hf.
  { intros l. rewrite <- filter_and. apply List.filter_ext. intros row. destruct (matches row) eqn:Hrow; [by rewrite Hm|by rewrite andb_false_r]. }
  rewrite (Hf rows), (Hf rows'). intros Hne. rewrite Hk; [done|]. intros Hnil. by rewrite Hnil in Hne.
Qed.

(** The [UPDATE] of a witness row that counted one row counts it at the end. *)
Lemma write_settles (faults : Faults) (s s' : Mysql.Session) (attempts : Z) (next : WitnessState) (encoded : bytes) :
  Mysql.written s = [] ->
  Mysql.run faults others (writeWitness logID Mysql.changesRow attempts next encoded) s = (s', inr tt) ->
  let found := Mysql.committed (Mysql.proceed others s') in
  advances (Mysql.committed s) found /\
  pure (writeWitness logID Mysql.changesRow attempts next encoded) found =
    (Mysql.replay (Mysql.written s') found, inr tt).
Proof.
  intros Hw Hrun found. pose proof Hrun as Hrun'.
  apply (run_follows _ _ advances _ _ _ _ [] (guarded_any _ guarded) (list_subseteq_nil _)) in Hrun' as [_ Hadv].
  split; [etrans; [exact Hadv|]; apply (guarded_any _ guarded); set_solver|].
  destruct s as [c0 snap w h n]. cbn in Hw. subst w.
  unfold writeWitness, updateWitness, statement in *. cbn in Hrun |- *. rewrite pure_Update.
  destruct (faults _); [done|]. set (c := others _ _ _) in Hrun. destruct (cll_witnesses c) as [rows|] eqn:Hc; cbn in Hrun; [|done].
  match type of Hrun with context [List.filter ?f rows] => set (matches := f) in Hrun end.
  destruct (Z.eqb_spec (zlen (List.filter matches rows)) 1) as [Hone|]; cbn in Hrun; [|done]. injection Hrun as <-.
  cbn [Mysql.proceed Mysql.committed Mysql.held Mysql.written Mysql.number Mysql.replay fold_left] in *.
  destruct (guarded_witness _ guarded (wit_WitnessID next) (FormatUint (wit_CheckpointSize next)) (S n)
    (OnWitness logID (wit_WitnessID next) (FormatUint (wit_CheckpointSize next)) :: h) c ltac:(set_solver) rows Hc)
    as (rows' & Hfound & Hkept). fold found in Hfound |- *. rewrite Hfound. cbn [fst snd]. fold matches.
  rewrite (count_kept _ _ matches rows rows' Hkept).
  - rewrite Hone. done.
  - intros row. unfold matches. intros [[Hkey _]%andb_prop _]%andb_prop. exact Hkey.
  - intros Hnil. by rewrite Hnil in Hone.
Qed.

Lemma witness_settles (faults : Faults) (t : Tables) (e0 : Engine) (s : Mysql.Session) (attempts : Z) (next : WitnessState) :
  (forall e e', le e e' -> engine_le e e') -> stored logID t e0 -> row_storable next ->
  Mysql.run faults others (Mysql.witnessOperation logID attempts next) (Mysql.begin t 1) = (s, inr tt) ->
  let found := Mysql.committed (Mysql.proceed others s) in
  settles e0 found (Mysql.replay (Mysql.written s) found) (fun e1 => CommitWitness e1 attempts next) tt.
Proof.
  intros Hle He0 Hst Hrun found. unfold Mysql.witnessOperation in Hrun. rewrite run_bind in Hrun.
  destruct (Mysql.run faults others (readWitness logID attempts next) _) as [s1 [f|encoded]] eqn:Hread; [done|].
  destruct (run_plain faults others advances (readWitness logID attempts next) (Mysql.begin t 1) s1 encoded []
    (guarded_any _ guarded) (list_subseteq_nil _) (plain_readWitness logID attempts next) eq_refl eq_refl Hread) as (Hw1 & _ & t2 & Ha0 & Ha2 & Hpure).
  destruct (write_settles _ _ _ _ _ _ Hw1 Hrun) as [Ha1 Hwrite]. fold found in Ha1, Hwrite.
  destruct (Ha0 e0 He0) as (e2 & (r2 & Ht2 & Hr2) & Hle2).
  destruct (transitivity Ha2 Ha1 e2 (ex_intro _ r2 (conj Ht2 Hr2))) as (e1 & He1 & Hle1). pose proof He1 as (r1 & Ht1 & Hr1).
  exists e1. split; [by etrans|]. split; [done|]. eexists. split; [|exact Hwrite].
  destruct (readWitness_outcome logID r2 e2 attempts next Hr2 Hst)
    as [(Hok & Hcas & encoded' & Henc & Hruns)|[(_ & _ & Hs)|(_ & Hs)]].
  2,3: destruct (Hs _ Ht2) as (t' & Hp); by rewrite Hp in Hpure.
  destruct (Hruns _ Ht2) as (t' & Hp & _). rewrite Hp in Hpure. injection Hpure as _ ->.
  destruct (decide (Exists (fun w => keyOf w = keyOf next /\ wit_Attempts w = attempts) (st_Witnesses (state e1)))) as [Hw|Hw].
  - apply Exists_exists in Hw as (w1 & Hin1 & Hk1 & Hatt).
    pose proof (cas_later e2 e1 attempts next w1 (holds_ok _ _ Hr1) (Hle _ _ Hle1) Hcas Hin1 Hk1 Hatt) as Hcas1.
    destruct (writeWitness_replaces logID r1 e1 Hr1 Mysql.changesRow attempts next encoded Hok Henc Hcas1)
      as [(_ & _ & _ & _ & Hs)|Hperf]; [by eapply stops_respects|by eapply performs_respects].
  - eapply stops_respects; [exact Ht1|]. apply (writeWitness_stops logID r1 e1 Hr1).
    intros w Hin Hk Hatt. apply Hw, Exists_exists. by exists w.
Qed.

(** What is loaded without a lock is the log at one moment. *)
Lemma load_settles (faults : Faults) (t : Tables) (e0 : Engine) (s : Mysql.Session) (current : State) :
  stored logID t e0 -> Mysql.run faults others (Mysql.loadState logID false) (Mysql.begin t 1) = (s, inr current) ->
  Mysql.written s = [] /\ exists e1, le e0 e1 /\ current = state e1.
Proof.
  intros He0 Hrun. unfold Mysql.loadState in Hrun.
  destruct (run_plain faults others advances (loadState logID false) (Mysql.begin t 1) s current [] (guarded_any _ guarded)
    (list_subseteq_nil _) (plain_loadState logID) eq_refl eq_refl Hrun) as (Hw & _ & t1 & Ha & _ & Hpure). split; [done|].
  destruct (Ha e0 He0) as (e1 & (r & Ht & Hr) & Hle). exists e1. split; [done|].
  destruct (loadState_runs logID r e1 Hr false _ Ht) as (t' & Hl & _). rewrite Hl in Hpure. by injection Hpure.
Qed.

End Guards.

(** ** Other clients keep what is locked

    Whatever calls of the methods others commit, on any logs, between the
    statements of a transaction. *)

Section Served.
Context `{CO : Collation} `{!ExactCollation} `{DT : DtMmr} `{!DtMmrLaws DT}.

Definition logOf (call : Mysql.Call) : string :=
  match call with
  | Mysql.CallAppend logID _ | Mysql.CallCommitCLL logID _ _ _ | Mysql.CallCommitWitness logID _ _ => logID
  end.

Definition opOf (call : Mysql.Call) : Op :=
  match call with
  | Mysql.CallAppend _ input => OpAppend input
  | Mysql.CallCommitCLL _ size checkpoint next => OpCommitCLL size checkpoint next
  | Mysql.CallCommitWitness _ attempts next => OpCommitWitness attempts next
  end.

(** What a client may pass: counters of 64 bits and text in UTF-8. *)
Definition callStorable (call : Mysql.Call) : Prop :=
  match call with
  | Mysql.CallAppend _ _ => True
  | Mysql.CallCommitCLL _ _ _ next => state_storable next
  | Mysql.CallCommitWitness _ _ next => row_storable next
  end.

Lemma lockMetadata_runs (logID : string) (r : Rows) (e : Engine) :
  holds r e -> runs logID r (Mysql.lockMetadata logID) tt r.
Proof.
  intros Hr. destruct (holds_meta _ _ Hr) as (row & Hrow & _). unfold Mysql.lockMetadata.
  eapply runs_bind; [apply selectMeta_runs|]. rewrite Hrow. apply runs_ret.
Qed.

Lemma appendOperation_performs (logID : string) (r : Rows) (e : Engine) (input : AppendInput) :
  holds r e -> performs logID r (Mysql.appendOperation logID input) (Append e input).
Proof.
  intros Hr. unfold Mysql.appendOperation. destruct (invalidInput input) eqn:Hi.
  - unfold Append. unfold invalidInput in Hi. rewrite Hi. apply stops_fail.
  - eapply performs_bind; [by eapply lockMetadata_runs|]. by apply appendEntry_performs.
Qed.

(** A call that is served is the operation of the engine. *)
Lemma call_moves (call : Mysql.Call) (t t' : Tables) (e : Engine) :
  stored (logOf call) t e -> callStorable call -> pure (Mysql.operationOf call) t = (t', inr tt) ->
  exists e', stored (logOf call) t' e' /\ engine_kept (perform e (opOf call)) e'.
Proof.
  intros He Hst Hp. destruct call as [logID input|logID size checkpoint next|logID attempts next];
    cbn [logOf opOf perform Mysql.operationOf callStorable] in *.
  - destruct He as (r & Ht & Hr). pose proof (performs_respects _ _ _ _ _ Ht (appendOperation_performs logID r e input Hr)) as Hresp.
    destruct (pure (Mysql.appendOperation logID input) t) as [t1 [f|a]] eqn:Ha; [by rewrite (pure_stop _ _ _ _ _ Ha) in Hp|].
    rewrite (pure_step _ _ _ _ _ Ha) in Hp. injection Hp as <-.
    destruct Hresp as [[f Hf]|(t2 & b & e' & _ & Hb & Hs & Hk)]; [by rewrite Ha in Hf|]. rewrite Ha in Hb.
    injection Hb as -> _. by exists e'.
  - destruct (commitState_respects logID true t e size checkpoint next He Hst) as [[f Hf]|(t2 & b & e' & _ & Hb & Hs & Hk)];
      unfold Mysql.commitOperation, Mysql.loadState in Hp; [by rewrite Hp in Hf|]. rewrite Hp in Hb. injection Hb as -> _. by exists e'.
  - destruct (commitWitness_respects Mysql.changesRow logID t e attempts next He Hst) as [[f Hf]|(t2 & b & e' & _ & Hb & Hs & Hk)];
      unfold Mysql.witnessOperation in Hp; [by rewrite Hp in Hf|]. rewrite Hp in Hb. injection Hb as -> _. by exists e'.
Qed.

(** What it keeps of the tables. *)
Lemma within_operation (R : Tables -> Tables -> Prop) `{!PreOrder R} (call : Mysql.Call) :
  match call with
  | Mysql.CallAppend logID input => Within R (appendEntry logID input)
  | Mysql.CallCommitCLL logID size checkpoint next =>
      forall current, Within R (commitState logID current size checkpoint next)
  | Mysql.CallCommitWitness logID attempts next =>
      forall encoded, Within R (writeWitness logID Mysql.changesRow attempts next encoded)
  end -> Within R (Mysql.operationOf call).
Proof.
  intros Hw. destruct call as [logID input|logID size checkpoint next|logID attempts next]; cbn [Mysql.operationOf].
  - apply within_bind; [apply _| |intros ?; apply within_ret, _]. unfold Mysql.appendOperation. destruct (invalidInput input); [within|].
    apply within_bind; [apply _| |intros ?; exact Hw]. unfold Mysql.lockMetadata, selectMeta. within.
  - unfold Mysql.commitOperation, Mysql.loadState. apply within_bind; [apply _| |exact Hw]. intros faults s.
    rewrite <- (within_loadState logID true faults s). reflexivity.
  - unfold Mysql.witnessOperation. apply within_bind; [apply _| |exact Hw]. unfold readWitness, selectWitness. within.
Qed.

Lemma within_pure {A} (R : Tables -> Tables -> Prop) (p : Program A) (t t' : Tables) (x : failure + A) :
  Within R p -> pure p t = (t', x) -> R t t'.
Proof.
  intros Hw. unfold pure. specialize (Hw noFaults (0%nat, t)). destruct (p noFaults _) as [[k t1] x1]. by intros [= <- _].
Qed.

Lemma call_apart (call : Mysql.Call) : Within (elsewhere (logOf call)) (Mysql.operationOf call).
Proof.
  apply within_operation; [apply _|]. destruct call; cbn [logOf]; intros;
    [apply apart_appendEntry|apply apart_commitState|apply apart_writeWitness].
Qed.

(** ** Locks a call has taken *)

#[local] Instance Lock_eq_dec : EqDecision Lock.
Proof. solve_decision. Defined.

Lemma sameLock_exact (a b : Lock) : sameLock a b = bool_decide (a = b).
Proof.
  destruct a as [log|log id size], b as [log'|log' id' size']; cbn [sameLock]; rewrite ?sameText_exact.
  - apply bool_decide_ext. split; [by intros ->|by intros [= ->]].
  - by rewrite bool_decide_false.
  - by rewrite bool_decide_false.
  - rewrite <- !bool_decide_and. apply bool_decide_ext. split; [by intros [[-> ->] ->]|by intros [= -> -> ->]].
Qed.

Lemma clash_exact (locks held : list Lock) (lock : Lock) :
  Mysql.clash locks held = false -> lock ∈ locks -> lock ∉ held.
Proof.
  unfold Mysql.clash. intros Hc Hl Hh. assert (existsb (fun l => existsb (sameLock l) held) locks = true); [|congruence].
  apply existsb_exists. exists lock. split; [by apply list_elem_of_In|]. apply existsb_exists. exists lock.
  split; [by apply list_elem_of_In|]. by rewrite sameLock_exact, bool_decide_true.
Qed.

Definition lockOf (call : Mysql.Call) : Lock :=
  match call with
  | Mysql.CallAppend logID _ | Mysql.CallCommitCLL logID _ _ _ => OnMeta logID
  | Mysql.CallCommitWitness logID _ next => OnWitness logID (wit_WitnessID next) (FormatUint (wit_CheckpointSize next))
  end.

Lemma run_keeps_held {A} (p : Program A) (s s' : Mysql.Session) (r : failure + A) :
  Mysql.run noFaults Mysql.nobody p s = (s', r) -> Mysql.held s ⊆ Mysql.held s'.
Proof.
  intros Hr. eapply (run_follows noFaults Mysql.nobody (fun _ _ => True)) with (locks := []); [done|apply list_subseteq_nil|exact Hr].
  Unshelve. by split.
Qed.

(** A program that begins with a statement that locks. *)
Lemma locked_first {A B} (p : Program A) (k : A -> Program B) (lock : Lock) (s s' : Mysql.Session) (b : B) :
  (forall s s' a, Mysql.run noFaults Mysql.nobody p s = (s', inr a) -> lock ∈ Mysql.held s') ->
  Mysql.run noFaults Mysql.nobody (p ≫= k) s = (s', inr b) -> lock ∈ Mysql.held s'.
Proof.
  intros Hp. rewrite run_bind. destruct (Mysql.run _ _ p s) as [s1 [f|a]] eqn:H1; [done|]. intros H2.
  apply (run_keeps_held _ _ _ _ H2). by eapply Hp.
Qed.

Lemma locks_meta (logID : string) (s s' : Mysql.Session) (a : option bytes) :
  Mysql.run noFaults Mysql.nobody (selectMeta logID true) s = (s', inr a) -> OnMeta logID ∈ Mysql.held s'.
Proof. unfold selectMeta. intros (_ & _ & _ & _ & ->)%run_lock. left. Qed.

Lemma locks_witness counts logID id size expected attempts witness (s s' : Mysql.Session) (a : Z) :
  Mysql.run noFaults Mysql.nobody (updateWitness counts logID id size expected attempts witness) s = (s', inr a) ->
  OnWitness logID id size ∈ Mysql.held s'.
Proof. unfold updateWitness, statement. cbn. case_match; [done|]. intros [= <- _]. left. Qed.

Lemma call_locks (call : Mysql.Call) (s s' : Mysql.Session) :
  Mysql.run noFaults Mysql.nobody (Mysql.operationOf call) s = (s', inr tt) -> lockOf call ∈ Mysql.held s'.
Proof.
  destruct call as [logID input|logID size checkpoint next|logID attempts next]; cbn [Mysql.operationOf lockOf].
  - apply locked_first. clear s s'. intros s s' a. unfold Mysql.appendOperation. destruct (invalidInput input); [done|].
    apply locked_first. clear s s' a. intros s s' a. unfold Mysql.lockMetadata. apply locked_first. apply locks_meta.
  - unfold Mysql.commitOperation, Mysql.loadState. apply locked_first. clear s s'. intros s s' a.
    destruct (loadState_rest logID) as (rest & -> & _). apply locked_first. apply locks_meta.
  - unfold Mysql.witnessOperation. rewrite run_bind. destruct (Mysql.run _ _ _ s) as [s1 [f|encoded]]; [done|].
    unfold writeWitness. apply locked_first. apply locks_witness.
Qed.

(** What is served is nothing, or a call that needs no lock that is held. *)
Lemma serve_cases (held : list Lock) (t : Tables) (call : Mysql.Call) :
  Mysql.serve held t call = t \/
  (pure (Mysql.operationOf call) t = (Mysql.serve held t call, inr tt) /\ lockOf call ∉ held).
Proof.
  unfold Mysql.serve. pose proof (run_alone (Mysql.operationOf call) (Mysql.begin t 0) (or_introl eq_refl)) as Halone.
  destruct (Mysql.run _ _ _ _) as [s [f|[]]] eqn:Hrun; [by left|]. destruct (Mysql.clash _ _) eqn:Hc; [by left|right].
  cbn [Mysql.begin Mysql.written Mysql.committed Mysql.replay fold_left] in Halone. destruct Halone as [_ Hp].
  split; [exact Hp|].
  eapply clash_exact; [exact Hc|]. by eapply call_locks.
Qed.

(** ** What they keep *)

Lemma advances_serve (logID : string) (held : list Lock) (t : Tables) (call : Mysql.Call) :
  callStorable call -> advances logID engine_le t (Mysql.serve held t call).
Proof.
  intros Hst e He. destruct (serve_cases held t call) as [->|[Hp _]]; [by exists e|].
  destruct (decide (logOf call = logID)) as [<-|Hne].
  - destruct (call_moves call t _ e He Hst Hp) as (e' & He' & Hk). exists e'. split; [done|].
    destruct He as (r & _ & Hr). etrans; [|by apply engine_kept_le].
    apply perform_step; [apply Hr|by destruct call].
  - exists e. split; [|reflexivity]. eapply elsewhere_stored; [|by apply not_eq_sym|exact He].
    by eapply within_pure; [apply call_apart|].
Qed.

Definition sameTables (t t' : Tables) : Prop :=
  cll_meta t' = cll_meta t /\ cll_entries t' = cll_entries t /\ cll_nodes t' = cll_nodes t.

#[export] Instance sameTables_preorder : PreOrder sameTables.
Proof. split; [by intros a|]. intros a b c (? & ? & ?) (? & ? & ?). unfold sameTables. split_and!; congruence. Qed.

Lemma sameTables_rows (logID : string) (t t' : Tables) (r r' : Rows) :
  sameTables t t' -> rowsOf logID t = Some r -> rowsOf logID t' = Some r' ->
  rw_meta r' = rw_meta r /\ rw_entries r' = rw_entries r /\ rw_nodes r' = rw_nodes r.
Proof.
  intros (Hm & Hes & Hn) (m & es & ns & ws & -> & ->)%rowsOf_Some (m' & es' & ns' & ws' & -> & ->)%rowsOf_Some.
  cbn in *. by simplify_eq.
Qed.

Lemma metaKept_serve (logID : string) (held : list Lock) (t : Tables) (call : Mysql.Call) :
  callStorable call -> OnMeta logID ∈ held -> metaKept logID engine_le t (Mysql.serve held t call).
Proof.
  intros Hst Hheld r e Ht Hr. destruct (serve_cases held t call) as [->|[Hp Hfree]]; [exists r, e; by split_and!|].
  destruct (decide (logOf call = logID)) as [Hlog|Hne].
  2: { exists r, e. pose proof (within_pure _ _ _ _ _ (call_apart call) Hp) as He.
       rewrite (He logID) by done. by split_and!. }
  destruct call as [log input|log size checkpoint next|log attempts next]; cbn [logOf lockOf] in *; subst log; [done..|].
  destruct (call_moves (Mysql.CallCommitWitness logID attempts next) t _ e (ex_intro _ r (conj Ht Hr)) Hst Hp)
    as (e' & (r' & Ht' & Hr') & Hk). exists r', e'.
  split; [done|]. split; [done|]. split; [|split].
  - etrans; [apply (perform_step e (OpCommitWitness attempts next)); [apply Hr|done]|by apply engine_kept_le].
  - etrans; [apply (CommitWitness_moves e attempts next), Hr|by apply engine_kept_moved].
  - eapply (sameTables_rows logID t); [|exact Ht|exact Ht']. eapply within_pure; [|exact Hp]. apply within_operation; [apply _|].
    intros encoded. unfold writeWitness. within. apply within_statement; [apply _|]. intros t1. by destruct (cll_witnesses t1).
Qed.

Lemma filter_snoc_false {A} (p : A -> bool) (l : list A) (x : A) :
  p x = false -> List.filter p (l ++ [x]) = List.filter p l.
Proof. intros Hx. rewrite List.filter_app. cbn. by rewrite Hx, app_nil_r. Qed.

Lemma sameWitnessKey_exact (logID id size : string) (row : WitnessRow) :
  sameWitnessKey logID id size row = true <->
  wr_log_id row = logID /\ wr_witness_id row = id /\ wr_checkpoint_size row = size.
Proof. rewrite sameWitnessKey_and, andb_true_iff, witnessIs_exact, sameText_exact, bool_decide_eq_true. done. Qed.

(** A row that is inserted has a key of its own. *)
Lemma witnessKept_insert (logID id size : string) (row : WitnessRow) : Within (witnessKept logID id size) (insertWitness row).
Proof.
  apply within_statement; [apply _|]. intros t. unfold insertInto. destruct (cll_witnesses t) as [rows|] eqn:Ht; [|done].
  destruct (existsb _ _) eqn:Hc; [done|]. intros rows0 Ht0. rewrite Ht in Ht0. injection Ht0 as <-. cbn.
  eexists. split; [done|]. intros Hne. apply filter_snoc_false. destruct (sameWitnessKey logID id size row) eqn:Hk; [|done].
  apply sameWitnessKey_exact in Hk as (Hl & Hi & Hs). destruct Hne. rewrite <- Hl, <- Hi, <- Hs.
  destruct (List.filter _ rows) as [|x l] eqn:Hf; [done|]. assert (In x (x :: l)) as Hx by by left. rewrite <- Hf in Hx.
  apply filter_In in Hx as [Hin Hx]. assert (existsb (sameWitnessKey (wr_log_id row) (wr_witness_id row)
    (wr_checkpoint_size row)) rows = true); [|congruence]. apply existsb_exists. by exists x.
Qed.

(** An update of another row leaves this one. *)
Lemma witnessKept_update (logID id size log' id' size' : string) counts expected attempts witness :
  OnWitness log' id' size' <> OnWitness logID id size ->
  Within (witnessKept logID id size) (updateWitness counts log' id' size' expected attempts witness).
Proof.
  intros Hne. apply within_statement; [apply _|]. intros t. destruct (cll_witnesses t) as [rows|] eqn:Ht; [|done].
  intros rows0 Ht0. rewrite Ht in Ht0. injection Ht0 as <-. cbn. eexists. split; [done|]. intros _.
  assert (forall x, sameWitnessKey logID id size x = true -> sameWitnessKey log' id' size' x = false) as Hother.
  { intros x (Hl & Hi & Hs)%sameWitnessKey_exact. destruct (sameWitnessKey log' _ _ x) eqn:Hk; [|done].
    apply sameWitnessKey_exact in Hk as (? & ? & ?). destruct Hne. congruence. }
  rewrite filter_map.
  - apply map_filter_id. intros x Hx. by rewrite Hother.
  - intros x. by destruct (sameWitnessKey log' id' size' x && _).
Qed.

Lemma witnessKept_serve (logID id size : string) (held : list Lock) (t : Tables) (call : Mysql.Call) :
  OnWitness logID id size ∈ held -> witnessKept logID id size t (Mysql.serve held t call).
Proof.
  intros Hheld. destruct (serve_cases held t call) as [->|[Hp Hfree]]; [reflexivity|].
  eapply within_pure; [|exact Hp]. apply within_operation; [apply _|].
  destruct call as [log input|log size' checkpoint next|log attempts next]; cbn [lockOf] in Hfree.
  - assert (forall row, Within (witnessKept logID id size) (insertEntry row)) as Hi.
    { intros row. apply within_statement; [apply _|]. intros t1. cbv zeta. destruct (insertInto _ _ _); [done|].
      intros rows Hrows. by exists rows. }
    unfold appendEntry, selectEntry, selectMaxSeq. within. apply Hi.
  - intros current. unfold commitState. within.
    + apply within_statement; [apply _|]. intros t1. destruct (cll_meta t1); [|done]. intros rows Hrows. by exists rows.
    + generalize (zlen (st_Nodes current)) as position. induction (drop _ _) as [|node nodes IH]; intros position; cbn [insertNodes];
        [apply within_ret, _|]. apply within_bind; [apply _| |intros ?; apply IH]. apply within_statement; [apply _|].
      intros t1. cbv zeta. destruct (insertInto _ _ _); [done|]. intros rows Hrows. by exists rows.
    + generalize (list_to_set (C := gset string) (map keyOf (st_Witnesses current))) as existing. intros existing.
      induction (st_Witnesses _) as [|w ws IH]; cbn [insertWitnesses]; [apply within_ret, _|]. case_bool_decide; [done|].
      apply within_bind; [apply _|apply within_lift, _|intros encoded].
      apply within_bind; [apply _|apply witnessKept_insert|intros ?; done].
  - intros encoded. unfold writeWitness. apply within_bind; [apply _| |intros changed; within].
    apply witnessKept_update. intros Heq. by rewrite Heq in Hfree.
Qed.

(** Others that call the methods keep what is locked. *)
Lemma keeps_calls (R : Tables -> Tables -> Prop) `{!PreOrder R} (locks : list Lock) (calls : nat -> list Mysql.Call) :
  (forall k, Forall callStorable (calls k)) ->
  (forall held t call, callStorable call -> locks ⊆ held -> R t (Mysql.serve held t call)) ->
  Keeps (Mysql.serveAll calls) locks R.
Proof.
  intros Hst Hserve k held t Hl. unfold Mysql.serveAll. specialize (Hst k). revert t.
  induction Hst as [|call rest Hcall _ IH]; intros t; [reflexivity|]. cbn [fold_left]. etrans; [by apply Hserve|apply IH].
Qed.

Lemma serveAll_guarded (logID : string) (calls : nat -> list Mysql.Call) :
  (forall k, Forall callStorable (calls k)) -> Guarded logID engine_le (Mysql.serveAll calls).
Proof.
  intros Hst. split; [|  |intros id size]; (apply keeps_calls; [apply _|done|]); intros held t call Hcall Hl.
  - by apply advances_serve.
  - apply metaKept_serve; [done|set_solver].
  - apply witnessKept_serve. set_solver.
Qed.

End Served.

End MysqlSession.
