(* ===== verification/SqliteClaims.v ===== *)
(** * Claims about the SQLite backend

    Its instance of the laws of [Backend], its lock registry, and what its
    methods do. *)

From S2P Require Import Prelude DtMmr DtMmrRef Hex Text Mmr Cll Portable Engine EngineLog EngineState.
From S2P Require Import EngineHistory EngineWitness Wire WireProofs Journal JournalProofs JournalText.
From S2P Require Import JsonlReplay Backend JsonlClaims Sql SqlStore Sqlite SqlRows SqlLog SqlCommit SqlWitness.
From S2P Require Import SqlInit SqlContract.
Import Text Cll Portable Engine EngineLog EngineState EngineHistory EngineWitness Wire WireProofs Journal.
Import JournalProofs JournalText JsonlReplay Backend Sql SqlStore SqlRows SqlLog SqlCommit SqlWitness SqlInit.
Import SqlContract.

Module SqliteClaims.

Local Open Scope Z_scope.
#[local] Existing Instance Sqlite.binary_collation.
#[local] Existing Instance Sqlite.sqlite_dialect.

(** ** The SQLite backend keeps the contract of [Backend]

    A transaction leaves the tables or makes what its program makes without
    failures, so the store represents the engine its tables hold. *)

(** ** Transactions *)

#[local] Existing Instance Sqlite.binary_collation.
#[local] Existing Instance Sqlite.sqlite_dialect.

Section Sqlite.
Context `{DT : DtMmr} `{!DtMmrLaws DT}.

#[export] Instance binary_exact : ExactCollation.
Proof. by intros a b. Qed.

(** Nothing, or all of the program; an error in either case where something failed. *)
Lemma transaction_cases {A} (p : Program A) (faults : Faults) (k : nat) (t : Tables) :
  let out := Sqlite.runTransaction (A := A) faults k t p in
  (fst out = t /\ exists err, snd out = Err err) \/
  (exists a, pure p t = (fst out, inr a) /\ (snd out = Ok a \/ exists err, snd out = Err err)).
Proof.
  unfold Sqlite.runTransaction. destruct (faults k) as [f|]; [left; by eauto|].
  destruct (faults (S k)) as [f|]; [left; by eauto|].
  destruct (p faults (S (S k), t)) as [[n t'] [f|a]] eqn:Hp; [left; by eauto|].
  apply steady_done in Hp. cbn [snd] in Hp.
  destruct (faults n) as [[f|f]|]; [left; by eauto|right; exists a; cbn; by eauto|].
  destruct (faults (S n)) as [f|]; right; exists a; cbn; by eauto.
Qed.

Lemma transaction_quiet {A} (p : Program A) (k : nat) (t : Tables) :
  Sqlite.runTransaction (A := A) noFaults k t p =
  match pure p t with
  | (t', inr a) => (t', Ok a)
  | (_, inl f) => (t, Err (Sqlite.classify f))
  end.
Proof.
  unfold Sqlite.runTransaction. unfold noFaults at 1 2. destruct (steady_quiet p (S (S k)) t) as [n ->].
  by destruct (pure p t) as [t' [f|a]].
Qed.

Definition represents (s : Sqlite.Store) (e : Engine) : Prop :=
  Sqlite.closed s = false /\ stored (Sqlite.logID s) (Sqlite.db s) e.

Definition shut (s : Sqlite.Store) : Prop := Sqlite.closed s = true.

Lemma write_agrees {A} {p : Program A} (P : Sqlite.Store -> Prop) (s : Sqlite.Store) (e : Engine) (faults : Faults)
    (spec : Engine * result A) :
  represents s e -> respects (Sqlite.logID s) (Sqlite.db s) p spec ->
  agrees represents P e spec (Sqlite.withWrite s faults p).
Proof.
  intros [Ho He] Hp. unfold Sqlite.withWrite, Sqlite.withTransaction. rewrite Ho.
  pose proof (transaction_cases p faults 0 (Sqlite.db s)) as Hcases.
  destruct (Sqlite.runTransaction faults 0 (Sqlite.db s) p) as [t x]. cbn [fst snd] in Hcases.
  destruct Hcases as [[-> [err ->]]|(a & Hpure & Hx)].
  - right. split; [|by eexists]. left. by destruct s.
  - destruct Hp as [[f Hf]|(t' & a' & e' & Hspec & Hpure' & Hst & Hk)]; [by rewrite Hpure in Hf|].
    rewrite Hpure in Hpure'. injection Hpure' as -> ->.
    assert (exists e', represents (Sqlite.with_db s t') e' /\ engine_kept (fst spec) e') as Hmade by (exists e'; by split).
    destruct Hx as [->|[err ->]]; [left|right]; cbn [fst snd]; split; auto. by eexists.
Qed.

Lemma read_answers {A} {p : Program A} (s : Sqlite.Store) (e : Engine) (faults : Faults) (x : result A) :
  represents s e -> (forall r, holds r e -> gives (Sqlite.logID s) r p x) -> answers x (Sqlite.withRead s faults p).
Proof.
  intros [Ho He] Hg. unfold Sqlite.withRead, Sqlite.withTransaction. rewrite Ho.
  pose proof (gives_pure _ _ _ _ _ He Hg) as Hx. pose proof (transaction_cases p faults 0 (Sqlite.db s)) as Hcases.
  destruct (Sqlite.runTransaction faults 0 (Sqlite.db s) p) as [t y]. cbn [fst snd] in *.
  destruct Hcases as [[_ [err ->]]|(a & Hpure & [->|[err ->]])]; [right; by eexists|left|right; by eexists].
  rewrite Hpure in Hx. destruct x; [by injection Hx as ->|done].
Qed.

(** Without failures a method does exactly what the engine does. *)
Definition acts {A} (spec : Engine * result A) (out : Sqlite.Store * result A) : Prop :=
  (exists e', represents (fst out) e' /\ engine_kept (fst spec) e') /\ snd out = snd spec.

Lemma write_acts {A} {p : Program A} (s : Sqlite.Store) (e : Engine) (spec : Engine * result A) :
  represents s e -> (forall r, holds r e -> performs (Sqlite.logID s) r p spec) ->
  (is_ok (snd spec) = false -> fst spec = e) ->
  acts spec (Sqlite.withWrite s noFaults p).
Proof.
  intros [Ho (r & Ht & Hr)] Hp Herr. specialize (Hp r Hr). unfold acts, Sqlite.withWrite, Sqlite.withTransaction.
  rewrite Ho, transaction_quiet. unfold performs in Hp. destruct (snd spec) as [a|err].
  - destruct Hp as (r' & e' & Hrun & Hh & Hk). destruct (Hrun _ Ht) as (t' & -> & Ht' & _). cbn [fst snd].
    split; [|done]. exists e'. split; [|done]. by split; [|exists r'].
  - destruct (Hp _ Ht) as (t' & ->). cbn [fst snd]. split; [|done]. exists e. rewrite (Herr eq_refl). split; [|done].
    split; [done|]. by exists r.
Qed.

Lemma read_acts {A} {p : Program A} (s : Sqlite.Store) (e : Engine) (x : result A) :
  represents s e -> (forall r, holds r e -> gives (Sqlite.logID s) r p x) -> Sqlite.withRead s noFaults p = x.
Proof.
  intros [Ho He] Hg. unfold Sqlite.withRead, Sqlite.withTransaction. rewrite Ho, transaction_quiet.
  pose proof (gives_pure _ _ _ _ _ He Hg) as Hx. destruct (pure p (Sqlite.db s)) as [t' y]. cbn [snd] in Hx. subst y.
  by destruct x.
Qed.

Lemma refused_shut {A} (s : Sqlite.Store) (faults : Faults) (p : Program A) :
  shut s -> Sqlite.withTransaction s faults p = (s, Err ErrClosed).
Proof. intros Hs. unfold Sqlite.withTransaction. by rewrite Hs. Qed.

Lemma append_respects (logID : string) (t : Tables) (e : Engine) (input : AppendInput) :
  stored logID t e ->
  respects logID t (if invalidInput input then fail (Plain ErrInvalid) else appendEntry logID input) (Append e input).
Proof.
  intros (r & Ht & Hr). destruct (invalidInput input) eqn:Hi.
  - eapply stops_respects; [exact Ht|apply stops_fail].
  - eapply performs_respects; [exact Ht|]. by apply appendEntry_performs.
Qed.

End Sqlite.

(** ** The contract *)

(** What surrounds a call: the failures of its statements, the outcome of
    closing the database and the locks of the process. *)
Record Env := MkEnv {
  env_faults : Faults;
  env_released : check;
  env_items : Sqlite.Locks
}.

#[export] Instance sqlite_backend `{DT : DtMmr} : Backend Sqlite.Store Env := {
  b_Append s env := Sqlite.Append s (env_faults env);
  b_GetEntry s env := Sqlite.GetEntry s (env_faults env);
  b_ScanEntries s env := Sqlite.ScanEntries s (env_faults env);
  b_LoadCLL s env := Sqlite.LoadCLL s (env_faults env);
  b_CommitCLL s env := Sqlite.CommitCLL s (env_faults env);
  b_PendingWitnesses s env := Sqlite.PendingWitnesses s (env_faults env);
  b_GetWitness s env := Sqlite.GetWitness s (env_faults env);
  b_CommitWitness s env := Sqlite.CommitWitness s (env_faults env);
  b_Close s env := let '(_, s, r) := Sqlite.Close (env_items env) s (env_released env) in (s, r)
}.

#[export] Program Instance sqlite_laws `{DT : DtMmr} `{!DtMmrLaws DT} : BackendLaws Sqlite.Store Env := {
  Backend.represents := represents;
  Backend.shut := shut;
  storable size next := state_storable next;
  storableRow attempts next := row_storable next
}.
Next Obligation. intros DT Hlaws s e [_ (r & _ & Hr)]. apply Hr. Qed.
Next Obligation. intros DT Hlaws s e env input Hs. apply (write_agrees _ s e); [done|]. by apply append_respects, Hs. Qed.
Next Obligation.
  intros DT Hlaws s e env size checkpoint next Hs Hst. apply (write_agrees _ s e); [done|].
  by apply commitState_respects; [apply Hs|].
Qed.
Next Obligation.
  intros DT Hlaws s e env attempts next Hs Hst. apply (write_agrees _ s e); [done|].
  by apply commitWitness_respects; [apply Hs|].
Qed.
Next Obligation. intros DT Hlaws s e env v Hs. apply (read_answers s e); [done|]. intros r Hr. by apply getEntry_gives. Qed.
Next Obligation.
  intros DT Hlaws s e env afterSeq limit Hs Ha. apply (read_answers s e); [done|]. intros r Hr. by apply scanEntries_gives.
Qed.
Next Obligation.
  intros DT Hlaws s e env Hs. apply (read_answers s e _ (Ok (LoadState e))); [done|]. intros r Hr.
  unfold LoadState. rewrite CloneState_id. by apply loadState_runs.
Qed.
Next Obligation.
  intros DT Hlaws s e env now limit Hs. apply (read_answers s e); [done|]. intros r Hr. by apply pendingWitnesses_gives.
Qed.
Next Obligation.
  intros DT Hlaws s e env id size Hs. apply (read_answers s e); [done|]. intros r Hr. by apply getWitness_gives.
Qed.
Next Obligation. done. Qed.
Next Obligation. done. Qed.
Next Obligation. intros DT Hlaws s e env [Ho _]. cbn [b_Close sqlite_backend]. unfold Sqlite.Close. by rewrite Ho. Qed.
Next Obligation.
  intros DT Hlaws s env input v size checkpoint next attempts row Hs.
  cbn [b_Append b_CommitCLL b_CommitWitness b_GetEntry b_LoadCLL sqlite_backend].
  unfold Sqlite.Append, Sqlite.CommitCLL, Sqlite.CommitWitness, Sqlite.GetEntry, Sqlite.LoadCLL,
    Sqlite.withWrite, Sqlite.withRead. rewrite !refused_shut by done. cbn [fst snd is_ok]. by split_and!.
Qed.

(** ** The registry of locks *)

Definition positive (items : Sqlite.Locks) : Prop := map_Forall (fun _ refs => 1 <= refs) items.

Lemma release_acquire (key : string) (items : Sqlite.Locks) :
  positive items -> Sqlite.releaseShared key (Sqlite.acquireShared key items) = items.
Proof.
  intros Hp. unfold Sqlite.releaseShared, Sqlite.acquireShared. rewrite lookup_insert_eq.
  replace (default 0 (items !! key) + 1 - 1) with (default 0 (items !! key)) by lia.
  destruct (items !! key) as [refs|] eqn:Hk; cbn.
  - assert (1 <= refs) as Hrefs by exact (Hp _ _ Hk). rewrite (proj2 (Z.eqb_neq _ _)) by lia. rewrite insert_insert_eq. by apply insert_id.
  - by rewrite delete_insert_id.
Qed.

(** The locks counted by handle. *)
Definition counts (items : Sqlite.Locks) (keys : list string) : Prop :=
  forall key, items !! key = match count_occ String.string_dec keys key with O => None | n => Some (Z.of_nat n) end.

Lemma counts_positive (items : Sqlite.Locks) (keys : list string) : counts items keys -> positive items.
Proof. intros Hc key refs Hk. rewrite Hc in Hk. destruct (count_occ _ _ _); [done|]. injection Hk as <-. lia. Qed.

Lemma counts_acquire (items : Sqlite.Locks) (keys : list string) (key : string) :
  counts items keys -> counts (Sqlite.acquireShared key items) (key :: keys).
Proof.
  intros Hc k. unfold Sqlite.acquireShared. cbn [count_occ]. destruct (String.string_dec key k) as [->|Hne].
  - rewrite lookup_insert_eq, Hc. destruct (count_occ _ _ _); cbn; f_equal; lia.
  - by rewrite lookup_insert_ne, Hc.
Qed.

Lemma counts_release (items : Sqlite.Locks) (keys : list string) (key : string) :
  counts items (key :: keys) -> counts (Sqlite.releaseShared key items) keys.
Proof.
  intros Hc k. pose proof (Hc key) as Hkey. pose proof (Hc k) as Hk. cbn [count_occ] in *.
  destruct (String.string_dec key key) as [_|]; [|done]. unfold Sqlite.releaseShared. rewrite Hkey. cbv zeta.
  replace (Z.of_nat (S (count_occ String.string_dec keys key)) - 1)
    with (Z.of_nat (count_occ String.string_dec keys key)) by lia.
  destruct (String.string_dec key k) as [<-|Hne].
  - destruct (count_occ String.string_dec keys key) as [|n].
    + rewrite (proj2 (Z.eqb_eq _ _)) by done. by rewrite lookup_delete_eq.
    + rewrite (proj2 (Z.eqb_neq _ _)) by lia. by rewrite lookup_insert_eq.
  - destruct (Z.of_nat _ =? 0); [rewrite lookup_delete_ne by done|rewrite lookup_insert_ne by done]; done.
Qed.

Lemma counts_perm (items : Sqlite.Locks) (keys keys' : list string) :
  keys ≡ₚ keys' -> counts items keys -> counts items keys'.
Proof.
  intros Hp Hc k. rewrite Hc. by rewrite (proj1 (Permutation_count_occ String.string_dec keys keys') Hp k).
Qed.

Section Open.
Context `{DT : DtMmr} `{!DtMmrLaws DT}.

(** ** Opening *)

(** What [open] makes of the locks and of the file. *)
Lemma open_items (items : Sqlite.Locks) (absolute : result string) (file : option Tables) (faults : Faults)
    (path logID : string) (initialize : bool) :
  positive items ->
  let out := Sqlite.open items absolute file faults path logID initialize in
  match snd out with
  | Ok s => fst (fst out) = Sqlite.acquireShared (Sqlite.lockKey s) items
  | Err _ => fst (fst out) = items
  end.
Proof.
  intros Hp. unfold Sqlite.open. destruct (_ || _); [done|]. destruct absolute as [absolute|err]; [|done].
  destruct (faults 0%nat) as [f|]; [by apply release_acquire|].
  destruct (Sqlite.openFile initialize file) as [t|]; [|by apply release_acquire].
  destruct (Sqlite.provision logID initialize faults (1%nat, t)) as [[k t1] [f|[]]]; [by apply release_acquire|].
  destruct (Sqlite.validateOpenState faults k t1 logID) as [t2 [[]|err]]; [done|by apply release_acquire].
Qed.

Lemma within_Sqlite_provision (logID : string) (initialize : bool) : Within keepsLogs (Sqlite.provision logID initialize).
Proof.
  assert (Within keepsLogs Sqlite.pragma) as Hp by by apply within_create.
  unfold Sqlite.provision. apply within_bind; [apply _|done|intros ?]. apply within_bind; [apply _|done|intros ?].
  destruct initialize; [|apply within_ret, _]. apply within_bind; [apply _|done|intros ?]. apply within_provision.
Qed.

Lemma validateOpen_pure (logID : string) (t : Tables) (e : Engine) :
  stored logID t e -> pure (Sqlite.validateOpen logID) t = (t, inr tt).
Proof.
  intros (r & Ht & Hr). assert (runs logID r (Sqlite.validateOpen logID) tt r) as Hrun.
  { unfold Sqlite.validateOpen. eapply runs_bind; [by eapply validateEntries_runs|].
    eapply runs_bind; [by apply loadState_runs|apply runs_ret]. }
  destruct (Hrun t Ht) as (t' & Hp & _). assert (fst (pure (Sqlite.validateOpen logID) t) = t) as Hsame; [|by rewrite Hp in *; cbn in Hsame; subst].
  assert (Within eq (Sqlite.validateOpen logID)) as Hw.
  { unfold Sqlite.validateOpen. apply within_bind; [apply _|apply within_validateEntries|intros ?].
    apply within_bind; [apply _|apply within_loadState|intros ?]. apply within_ret, _. }
  specialize (Hw noFaults (0%nat, t)). unfold pure. destruct (Sqlite.validateOpen logID noFaults (0%nat, t)) as [[n t1] x].
  by cbn in *.
Qed.

(** Validation leaves the tables, and what passes it is a valid log. *)
Lemma validate_cases (logID : string) (faults : Faults) (k : nat) (t : Tables) :
  let out := Sqlite.validateOpenState faults k t logID in
  fst out = t /\ (snd out = Ok tt -> keyed t -> exists e, stored logID t e).
Proof.
  unfold Sqlite.validateOpenState. assert (Within eq (Sqlite.validateOpen logID)) as Hw.
  { unfold Sqlite.validateOpen. apply within_bind; [apply _|apply within_validateEntries|intros ?].
    apply within_bind; [apply _|apply within_loadState|intros ?]. apply within_ret, _. }
  pose proof (transaction_cases (Sqlite.validateOpen logID) faults k t) as Hc.
  destruct (Sqlite.runTransaction faults k t (Sqlite.validateOpen logID)) as [t' x]. cbn [fst snd] in *.
  destruct Hc as [[-> [err ->]]|(a & Hp & _)]; [done|].
  assert (t' = t) as ->.
  { specialize (Hw noFaults (0%nat, t)). unfold pure in Hp.
    destruct (Sqlite.validateOpen logID noFaults (0%nat, t)) as [[n t1] y]. cbn in Hw. congruence. }
  split; [done|]. intros _ Hkeyed. unfold Sqlite.validateOpen in Hp.
  apply pure_inv in Hp as (t1 & [] & He & Hp). apply pure_inv in Hp as (t2 & s & Hl & _).
  assert (t1 = t) as ->.
  { pose proof (within_validateEntries logID noFaults (0%nat, t)) as H1. unfold pure in He.
    destruct (validateEntries logID noFaults (0%nat, t)) as [[n t3] y]. cbn in H1. congruence. }
  by eapply validated_log.
Qed.

(** ** Transactions that stay within a relation *)

Lemma transaction_within {A} (R : Tables -> Tables -> Prop) `{!PreOrder R} (p : Program A)
    (s : Sqlite.Store) (faults : Faults) :
  Within R p -> R (Sqlite.db s) (Sqlite.db (fst (Sqlite.withTransaction s faults p))).
Proof.
  intros Hp. unfold Sqlite.withTransaction. destruct (Sqlite.closed s); [reflexivity|].
  pose proof (transaction_cases p faults 0 (Sqlite.db s)) as Hc.
  destruct (Sqlite.runTransaction faults 0 (Sqlite.db s) p) as [t x]. cbn [fst snd Sqlite.with_db Sqlite.db] in *.
  destruct Hc as [[-> _]|(a & Hpure & _)]; [reflexivity|]. specialize (Hp noFaults (0%nat, Sqlite.db s)).
  unfold pure in Hpure. destruct (p noFaults (0%nat, Sqlite.db s)) as [[n t1] y]. cbn in Hp. congruence.
Qed.

(** An invalid row that is not found is refused as contention. *)
Lemma commitWitness_refused_late (s : Sqlite.Store) (e : Engine) (attempts : Z) (row : WitnessState) :
  represents s e -> row_storable row -> ~ witness_ok row -> keyOf row ∉ map keyOf (st_Witnesses (state e)) ->
  Sqlite.CommitWitness s noFaults attempts row = (s, Err ErrContention) /\
  CommitWitness e attempts row = (e, Err ErrInvalid).
Proof.
  intros [Ho (r & Ht & Hr)] Hst Hbad Hno.
  destruct (commitWitness_unknown (Sqlite.logID s) r e attempts row Hr Hst Hbad Hno) as [Hs Heq]. split; [|exact Heq].
  unfold Sqlite.CommitWitness, Sqlite.withWrite, Sqlite.withTransaction. rewrite Ho, transaction_quiet.
  destruct (Hs _ Ht) as (t' & Hp). erewrite pure_stop by exact Hp. by destruct s.
Qed.

(** ** Claims *)

(** C35: when no statement fails, every method of a store answers exactly as
    the engine its tables represent, errors included, and afterwards the tables
    represent the engine after that call, up to the precision of times and the
    order of witness rows, with one exception: a witness commit looks for the
    stored row before it looks at the new one, so an invalid row of a witness
    and size nothing is stored of is contention here and invalid in the engine.
    The values are storable: texts are UTF-8, which JSON would change otherwise. *)
Theorem sqlite_answers_as_the_engine (s : Sqlite.Store) (e : Engine) (input : AppendInput) (size : Z)
    (checkpoint : option bytes) (next : State) (attempts : Z) (row : WitnessState) (v : bytes) (afterSeq limit now : Z)
    (id : string) (checkpointSize : Z) :
  represents s e -> state_storable next -> row_storable row -> 0 <= afterSeq ->
  let known := keyOf row ∈ map keyOf (st_Witnesses (state e)) in
  acts (Append e input) (Sqlite.Append s noFaults input) /\
  acts (CommitCLL e size checkpoint next) (Sqlite.CommitCLL s noFaults size checkpoint next) /\
  (witness_ok row \/ known -> acts (CommitWitness e attempts row) (Sqlite.CommitWitness s noFaults attempts row)) /\
  (~ witness_ok row -> ~ known ->
     Sqlite.CommitWitness s noFaults attempts row = (s, Err ErrContention) /\
     CommitWitness e attempts row = (e, Err ErrInvalid)) /\
  Sqlite.GetEntry s noFaults v = GetEntry e v /\
  Sqlite.ScanEntries s noFaults afterSeq limit = ScanEntries e afterSeq limit /\
  Sqlite.LoadCLL s noFaults = Ok (LoadState e) /\
  Sqlite.PendingWitnesses s noFaults now limit = PendingWitnesses e now limit /\
  Sqlite.GetWitness s noFaults id checkpointSize = GetWitness e id checkpointSize.
Proof.
  intros Hs Hst Hrow Ha known. split_and!.
  - apply (write_acts s e); [done| |apply Append_refused]. intros r Hr. destruct (invalidInput input) eqn:Hi.
    + unfold performs, Append. unfold invalidInput in Hi. rewrite Hi. apply stops_fail.
    + by apply appendEntry_performs.
  - apply (write_acts s e); [done| |apply CommitCLL_refused]. intros r Hr. by apply commitState_performs.
  - intros Hok. apply (write_acts s e); [done| |apply CommitWitness_refused]. intros r Hr. by apply commitWitness_performs.
  - by apply commitWitness_refused_late.
  - apply (read_acts s e); [done|]. intros r Hr. by apply getEntry_gives.
  - apply (read_acts s e); [done|]. intros r Hr. by apply scanEntries_gives.
  - apply (read_acts s e (Ok (LoadState e))); [done|]. intros r Hr. unfold LoadState. rewrite CloneState_id. by apply loadState_runs.
  - apply (read_acts s e); [done|]. intros r Hr. by apply pendingWitnesses_gives.
  - apply (read_acts s e); [done|]. intros r Hr. by apply getWitness_gives.
Qed.

(** C36: whatever statements of a call fail, its transaction is made entirely
    or not at all: a call that succeeds answers as the engine and is made; one
    that fails leaves the log as it was or as the call makes it, never between. *)
Theorem sqlite_calls_are_atomic (s : Sqlite.Store) (e : Engine) (faults : Faults) (input : AppendInput) (size : Z)
    (checkpoint : option bytes) (next : State) (attempts : Z) (row : WitnessState) :
  represents s e -> state_storable next -> row_storable row ->
  agrees represents (fun _ => False) e (Append e input) (Sqlite.Append s faults input) /\
  agrees represents (fun _ => False) e (CommitCLL e size checkpoint next)
    (Sqlite.CommitCLL s faults size checkpoint next) /\
  agrees represents (fun _ => False) e (CommitWitness e attempts row) (Sqlite.CommitWitness s faults attempts row).
Proof.
  intros Hs Hst Hrow. split_and!; apply (write_agrees _ s e); try done.
  - apply append_respects, Hs.
  - by apply commitState_respects; [apply Hs|].
  - by apply commitWitness_respects; [apply Hs|].
Qed.

(** The logs of one database are independent: whatever a call of one log
    does and whatever fails, every other log of the database is as before. *)
Lemma sqlite_logs_are_independent (s : Sqlite.Store) (faults : Faults) (input : AppendInput) (size : Z)
    (checkpoint : option bytes) (next : State) (attempts : Z) (row : WitnessState) (other : string) (e : Engine) :
  other <> Sqlite.logID s -> stored other (Sqlite.db s) e ->
  stored other (Sqlite.db (fst (Sqlite.Append s faults input))) e /\
  stored other (Sqlite.db (fst (Sqlite.CommitCLL s faults size checkpoint next))) e /\
  stored other (Sqlite.db (fst (Sqlite.CommitWitness s faults attempts row))) e.
Proof.
  intros Ho He. unfold Sqlite.Append, Sqlite.CommitCLL, Sqlite.CommitWitness, Sqlite.withWrite.
  split_and!; refine (elsewhere_stored (Sqlite.logID s) _ _ _ _ _ Ho He);
    apply (transaction_within (elsewhere (Sqlite.logID s))); try apply _.
  - destruct (invalidInput input); [apply within_fail, _|apply apart_appendEntry].
  - apply within_bind; [apply _|apply apart_read, within_loadState|intros current; apply apart_commitState].
  - apply within_bind; [apply _|apply apart_readWitness|intros encoded; apply apart_writeWitness].
Qed.

(** ** Opening and provisioning *)

(** The statements of [Open] before its validation change nothing. *)
Lemma provision_reads (logID : string) (faults : Faults) (s : nat * Tables) :
  snd (fst (Sqlite.provision logID false faults s)) = snd s.
Proof.
  assert (Within eq (Sqlite.provision logID false)) as Hw; [|symmetry; apply Hw].
  unfold Sqlite.provision, Sqlite.pragma. repeat (apply within_bind; [apply _| |intros ?]); try apply within_ret, _;
    by apply within_statement; [apply _|].
Qed.

Lemma provision_quiet (logID : string) (initialize : bool) (k : nat) (t : Tables) :
  exists k', Sqlite.provision logID initialize noFaults (k, t) =
    ((k', if initialize then fst (pure (provisionLog logID) t) else t), inr tt).
Proof.
  assert (pure (Sqlite.provision logID initialize) t = (if initialize then fst (pure (provisionLog logID) t) else t, inr tt)) as Hp.
  { assert (forall t, pure Sqlite.pragma t = (t, inr tt)) as Hpragma
      by (intros t'; unfold Sqlite.pragma; by rewrite pure_statement).
    unfold Sqlite.provision. erewrite pure_step; [|apply Hpragma].
    erewrite pure_step; [|apply Hpragma]. destruct initialize; [|done].
    erewrite pure_step; [|apply Hpragma]. destruct (provision_pure logID t) as (raw & metas & _ & _ & ->). done. }
  destruct (steady_quiet (Sqlite.provision logID initialize) k t) as [k' ->]. exists k'. by rewrite Hp.
Qed.

Lemma validate_quiet (logID : string) (k : nat) (t : Tables) (e : Engine) :
  stored logID t e -> Sqlite.validateOpenState noFaults k t logID = (t, Ok tt).
Proof. intros Hst. unfold Sqlite.validateOpenState. by rewrite transaction_quiet, (validateOpen_pure logID t e). Qed.

(** [open] for [Init]: what the file holds afterwards. *)
Lemma open_provisions (items : Sqlite.Locks) (absolute : result string) (file : option Tables) (faults : Faults)
    (path logID : string) :
  let out := Sqlite.open items absolute file faults path logID true in
  (forall t, file = Some t -> exists t', snd (fst out) = Some t' /\ keepsLogs t t') /\
  (forall s, snd out = Ok s -> snd (fst out) = Some (Sqlite.db s) /\ Sqlite.logID s = logID /\ Sqlite.closed s = false /\
     ((forall t, file = Some t -> keyed t) -> exists e, represents s e)).
Proof.
  assert (forall t, file = Some t -> exists t', file = Some t' /\ keepsLogs t t') as Hsame by (intros t ->; by exists t).
  unfold Sqlite.open. destruct (_ || _); [by split|]. destruct absolute as [absolute|err]; [|by split].
  destruct (faults 0%nat) as [f|]; [by split|].
  destruct (Sqlite.openFile true file) as [t|] eqn:Hfile; [|by split].
  assert (forall t0, file = Some t0 -> t0 = t) as Ht0 by (intros t0 ->; by injection Hfile).
  pose proof (within_Sqlite_provision logID true faults (1%nat, t)) as Hkeeps.
  pose proof (steady_done (Sqlite.provision logID true) faults (1%nat, t)) as Hdone.
  destruct (Sqlite.provision logID true faults (1%nat, t)) as [[k t1] [f|[]]]; cbn [fst snd] in *.
  { split; [|done]. intros t0 H0. rewrite (Ht0 t0 H0). by exists t1. }
  destruct (validate_cases logID faults k t1) as [Ht Hst].
  destruct (Sqlite.validateOpenState faults k t1 logID) as [t2 [[]|err]]; cbn [fst snd] in *; subst t2.
  2: { split; [|done]. intros t0 H0. rewrite (Ht0 t0 H0). by exists t1. }
  split; [intros t0 H0; rewrite (Ht0 t0 H0); by exists t1|]. intros s [= <-]. cbn [Sqlite.db Sqlite.logID Sqlite.closed].
  split_and!; [done|done|done|]. intros Hkeyed. destruct Hst as [e He]; [done| |by exists e].
  specialize (Hdone _ _ eq_refl). cbn [snd] in Hdone. destruct (provision_quiet logID true 0 t) as [k' Hq].
  assert (t1 = fst (pure (provisionLog logID) t)) as ->.
  { unfold pure at 1 in Hdone. rewrite Hq in Hdone. cbn [fst] in Hdone. congruence. }
  apply provision_keyed. destruct file as [t0|]; [rewrite <- (Ht0 t0 eq_refl); by apply Hkeyed|].
  injection Hfile as <-. apply keyed_noTables.
Qed.

(** C37: [Open] writes nothing, and gives a store only when the file holds a
    valid log, which the store then represents; it takes the lock of the log when
    it succeeds and none when it fails.  A valid log is opened when nothing fails. *)
Theorem sqlite_open_accepts_valid_logs (items : Sqlite.Locks) (absolute : result string) (file : option Tables)
    (faults : Faults) (path logID : string) :
  positive items -> (forall t, file = Some t -> keyed t) ->
  (let '(items', file', r) := Sqlite.Open items absolute file faults path logID in
   file' = file /\
   match r with
   | Ok s => items' = Sqlite.acquireShared (Sqlite.lockKey s) items /\ Some (Sqlite.db s) = file /\
       exists e, represents s e
   | Err _ => items' = items
   end) /\
  (forall t e name, path <> EmptyString -> ValidateIdentifier logID = Ok tt -> absolute = Ok name ->
     file = Some t -> stored logID t e -> faults = noFaults ->
     exists s, snd (Sqlite.Open items absolute file faults path logID) = Ok s /\ represents s e).
Proof.
  intros Hp Hkeyed. split.
  - pose proof (open_items items absolute file faults path logID false Hp) as Hitems. cbv zeta in Hitems.
    unfold Sqlite.Open. unfold Sqlite.open in *. destruct (_ || _); [done|].
    destruct absolute as [absolute|err]; [|done]. destruct (faults 0%nat) as [f|]; [done|].
    destruct file as [t|]; [|done]. cbn [Sqlite.openFile] in *.
    pose proof (provision_reads logID faults (1%nat, t)) as Hsame.
    destruct (Sqlite.provision logID false faults (1%nat, t)) as [[k t1] [f|[]]]; cbn [fst snd] in *; subst t1; [done|].
    destruct (validate_cases logID faults k t) as [Ht Hst].
    destruct (Sqlite.validateOpenState faults k t logID) as [t2 [[]|err]]; cbn [fst snd] in *; subst t2; [|done].
    destruct (Hst eq_refl (Hkeyed t eq_refl)) as [e He]. split_and!; [done|done|done|]. by exists e.
  - intros t e name Hpath Hid -> -> Hst ->. unfold Sqlite.Open, Sqlite.open.
    rewrite bool_decide_false, Hid by done. cbn [negb is_ok orb noFaults Sqlite.openFile].
    destruct (provision_quiet logID false 1 t) as [k ->]. rewrite (validate_quiet logID k t e Hst). cbn [snd].
    eexists. split; [done|]. by split.
Qed.

(** [Init] keeps every log the file already holds, whatever fails, and
    leaves the locks as they were; when it succeeds the file holds a valid log
    of its name, and when nothing fails it provisions the empty log where there
    was none. *)
Lemma sqlite_init_provisions (items : Sqlite.Locks) (absolute : result string) (file : option Tables)
    (faults : Faults) (released : check) (path logID : string) :
  positive items ->
  let '(items', file', r) := Sqlite.Init items absolute file faults released path logID in
  items' = items /\
  (forall t, file = Some t -> exists t', file' = Some t' /\ keepsLogs t t') /\
  (r = Ok tt -> (forall t, file = Some t -> keyed t) ->
   exists t' e, file' = Some t' /\ stored logID t' e) /\
  (forall name, path <> EmptyString -> ValidateIdentifier logID = Ok tt -> absolute = Ok name ->
     faults = noFaults -> blank logID (default noTables file) ->
     r = released /\ exists t', file' = Some t' /\ stored logID t' New).
Proof.
  intros Hp. pose proof (open_items items absolute file faults path logID true Hp) as Hitems.
  pose proof (open_provisions items absolute file faults path logID) as [Hkeeps Hok].
  assert (forall name, path <> EmptyString -> ValidateIdentifier logID = Ok tt -> absolute = Ok name ->
     faults = noFaults -> blank logID (default noTables file) ->
     exists s, snd (Sqlite.open items absolute file faults path logID true) = Ok s /\
       stored logID (Sqlite.db s) New) as Hnew.
  { intros name Hpath Hid -> -> Hblank. unfold Sqlite.open. rewrite bool_decide_false, Hid by done.
    cbn [negb is_ok orb noFaults]. assert (Sqlite.openFile true file = Some (default noTables file)) as -> by by destruct file.
    destruct (provision_quiet logID true 1 (default noTables file)) as [k ->].
    pose proof (provision_blank logID _ Hblank) as Hst. rewrite (validate_quiet logID k _ New Hst). cbn [snd].
    eexists. split; [done|]. exact Hst. }
  unfold Sqlite.Init. destruct (Sqlite.open items absolute file faults path logID true) as [[items' file'] [s|err]];
    cbn [fst snd] in *.
  2: { split_and!; [done|done|done|]. intros name ? ? ? ? ?. destruct (Hnew name) as (s & Hs & _); done. }
  destruct (Hok s eq_refl) as (Hfile & Hid & Ho & Hrep). unfold Sqlite.Close. rewrite Ho. cbn [Sqlite.db].
  split_and!.
  - rewrite Hitems. by apply release_acquire.
  - intros t Ht. destruct (Hkeeps t Ht) as (t' & Ht' & Hk). exists t'. by rewrite <- Hfile.
  - intros _ Hkeyed. destruct (Hrep Hkeyed) as [e [_ He]]. exists (Sqlite.db s), e. by rewrite <- Hid.
  - intros name ? ? ? ? ?. destruct (Hnew name) as (s' & [= <-] & Hst); [done..|]. split; [done|]. by exists (Sqlite.db s).
Qed.

(** The locks of a process and the locks of the handles it has open. *)
Inductive process : Sqlite.Locks -> list string -> Prop :=
| process_start : process ∅ []
| process_open items keys absolute file faults path logID initialize items' file' s :
    process items keys ->
    Sqlite.open items absolute file faults path logID initialize = (items', file', Ok s) ->
    process items' (Sqlite.lockKey s :: keys)
| process_refused items keys absolute file faults path logID initialize items' file' err :
    process items keys ->
    Sqlite.open items absolute file faults path logID initialize = (items', file', Err err) ->
    process items' keys
| process_init items keys absolute file faults released path logID items' file' r :
    process items keys ->
    Sqlite.Init items absolute file faults released path logID = (items', file', r) ->
    process items' keys
| process_close items keys keys' s released items' s' r :
    process items keys -> keys ≡ₚ Sqlite.lockKey s :: keys' -> Sqlite.closed s = false ->
    Sqlite.Close items s released = (items', s', r) ->
    process items' keys'.

(** C38: the registry counts the open handles of each log: a lock is there
    exactly while some handle holds it, so it is never freed under a handle and
    never left behind, whichever opens fail. *)
Theorem locks_count_open_handles (items : Sqlite.Locks) (keys : list string) :
  process items keys -> counts items keys.
Proof.
  induction 1 as [|items keys absolute file faults path logID initialize items' file' s _ IH Hopen
    |items keys absolute file faults path logID initialize items' file' err _ IH Hopen
    |items keys absolute file faults released path logID items' file' r _ IH Hinit
    |items keys keys' s released items' s' r _ IH Hp Ho Hclose].
  - intros key. apply lookup_empty.
  - pose proof (open_items items absolute file faults path logID initialize (counts_positive _ _ IH)) as Hitems.
    rewrite Hopen in Hitems. cbn [fst snd] in Hitems. subst items'. by apply counts_acquire.
  - pose proof (open_items items absolute file faults path logID initialize (counts_positive _ _ IH)) as Hitems.
    rewrite Hopen in Hitems. cbn [fst snd] in Hitems. by subst items'.
  - pose proof (open_items items absolute file faults path logID true (counts_positive _ _ IH)) as Hitems.
    pose proof (open_provisions items absolute file faults path logID) as [_ Hok]. unfold Sqlite.Init in Hinit.
    destruct (Sqlite.open items absolute file faults path logID true) as [[items1 file1] [s|err]]; cbn [fst snd] in *.
    + destruct (Hok s eq_refl) as (_ & _ & Ho & _). unfold Sqlite.Close in Hinit. rewrite Ho in Hinit.
      injection Hinit as <- _ _. rewrite Hitems, release_acquire; [done|by eapply counts_positive].
    + injection Hinit as <- _ _. by rewrite Hitems.
  - unfold Sqlite.Close in Hclose. rewrite Ho in Hclose. injection Hclose as <- _ _.
    apply counts_release. by eapply counts_perm.
Qed.

End Open.

(** ** Witnesses *)

Import Ref JsonlClaims.

(** A file with two empty logs. *)
Definition sampleFile : Tables :=
  fst (pure (provisionLog (DI := Sqlite.sqlite_dialect) (CO := Sqlite.binary_collation) "other")
    (fst (pure (provisionLog (DI := Sqlite.sqlite_dialect) (CO := Sqlite.binary_collation) "log") noTables))).

Definition sampleStore : Sqlite.Store :=
  Sqlite.MkStore sampleFile "log" (String.append "/file" (String Ascii.zero "log")) false.

Lemma sampleFile_log : stored (DT := dt_reference) "log" sampleFile New.
Proof.
  pose proof (within_provision (DT := dt_reference) (DI := Sqlite.sqlite_dialect) "other" noFaults
    (0%nat, fst (pure (provisionLog (DI := Sqlite.sqlite_dialect) (CO := Sqlite.binary_collation) "log") noTables))
    "log" New (provision_blank "log" noTables (blank_noTables "log"))) as Hst.
  unfold sampleFile, pure at 1. cbn [snd] in Hst. revert Hst. by destruct (provisionLog "other" noFaults _) as [[n t] x].
Qed.

Lemma sampleFile_other : stored (DT := dt_reference) "other" sampleFile New.
Proof.
  apply (provision_blank (DT := dt_reference)).
  destruct (provision_pure (CO := Sqlite.binary_collation) (DI := Sqlite.sqlite_dialect) "log" noTables) as (raw & metas & _ & -> & ->).
  split; cbn; intros rows [= <-] row Hrow; try by apply elem_of_nil in Hrow.
  by apply list_elem_of_singleton in Hrow as ->.
Qed.

Lemma sampleStore_represents : represents (DT := dt_reference) sampleStore New.
Proof. split; [done|apply sampleFile_log]. Qed.

Lemma sampleFile_keyed (t : Tables) : Some sampleFile = Some t -> keyed t.
Proof.
  intros [= <-]. unfold sampleFile. by repeat apply provision_keyed.
Qed.

Lemma sqlite_answers_as_the_engine_witness :
  acts (DT := dt_reference) (Append New (sampleInput Byte.x03)) (Sqlite.Append sampleStore noFaults (sampleInput Byte.x03)) /\
  Sqlite.LoadCLL (DT := dt_reference) sampleStore noFaults = Ok emptyState.
Proof.
  destruct (sqlite_answers_as_the_engine (DT := dt_reference) sampleStore New (sampleInput Byte.x03) 0 None sampleNext 0
    (retried 1) [] 0 1 0 "" 0 sampleStore_represents sampleNext_storable (retried_storable 1 ltac:(lia))
    ltac:(lia)) as (H1 & _ & _ & _ & _ & _ & H2 & _).
  split; [exact H1|exact H2].
Defined.

(** The same call as an engine and here: a row without an identifier. *)
Example invalid_unknown_row_is_contention :
  let row := MkWitness "" 1 [] 0 0 None false "" in
  snd (CommitWitness New 0 row) = Err ErrInvalid /\
  snd (Sqlite.CommitWitness sampleStore noFaults 0 row) = Err ErrContention.
Proof. split; vm_compute; reflexivity. Qed.

Lemma sqlite_calls_are_atomic_witness :
  agrees (represents (DT := dt_reference)) (fun _ => False) New (Append New (sampleInput Byte.x03))
    (Sqlite.Append sampleStore (fun k => if (k =? 5)%nat then Some (Lost (Driver 5)) else None) (sampleInput Byte.x03)).
Proof.
  exact (proj1 (sqlite_calls_are_atomic (DT := dt_reference) sampleStore New _ (sampleInput Byte.x03) 0 None sampleNext 0
    (retried 1) sampleStore_represents sampleNext_storable (retried_storable 1 ltac:(lia)))).
Defined.

Lemma sqlite_logs_are_independent_witness :
  stored (DT := dt_reference) "other" (Sqlite.db (fst (Sqlite.Append sampleStore noFaults (sampleInput Byte.x03)))) New.
Proof.
  exact (proj1 (sqlite_logs_are_independent (DT := dt_reference) sampleStore noFaults (sampleInput Byte.x03) 0 None
    sampleNext 0 (retried 1) "other" New ltac:(discriminate) sampleFile_other)).
Defined.

Lemma sqlite_open_accepts_valid_logs_witness :
  exists s, snd (Sqlite.Open (DT := dt_reference) ∅ (Ok "/file") (Some sampleFile) noFaults "file" "log") = Ok s /\
    represents (DT := dt_reference) s New.
Proof.
  refine (proj2 (sqlite_open_accepts_valid_logs (DT := dt_reference) ∅ (Ok "/file") (Some sampleFile) noFaults "file" "log"
    (map_Forall_empty _) sampleFile_keyed) sampleFile New "/file" _ eq_refl eq_refl eq_refl sampleFile_log eq_refl).
  discriminate.
Defined.

Lemma locks_count_open_handles_witness :
  counts (Sqlite.acquireShared (Sqlite.lockKey sampleStore) ∅) [Sqlite.lockKey sampleStore].
Proof.
  apply (locks_count_open_handles (DT := dt_reference)).
  apply (process_open (DT := dt_reference) ∅ [] (Ok "/file") (Some sampleFile) noFaults "file" "log" false
    _ (Some sampleFile) sampleStore process_start).
  vm_compute. reflexivity.
Defined.

End SqliteClaims.
