(* ===== verification/MysqlClaims.v ===== *)
(** * Claims about the MySQL backend

    Its mutations among other clients, its instance of the laws of [Backend], and
    what its methods answer. *)

From Stdlib.Strings Require Import Ascii.
From S2P Require Import Prelude DtMmr DtMmrRef Hex Text Mmr Cll Portable Engine EngineLog EngineState.
From S2P Require Import EngineHistory EngineWitness Wire WireProofs Journal JournalProofs JournalText.
From S2P Require Import JsonlReplay Backend JsonlClaims Sql SqlStore Mysql SqlRows SqlLog SqlCommit SqlWitness.
From S2P Require Import SqlInit SqlContract MysqlSession.
Import Text Cll Portable Engine EngineLog EngineState EngineHistory EngineWitness Wire WireProofs Journal.
Import JournalProofs JournalText JsonlReplay Backend Sql SqlStore SqlRows SqlLog SqlCommit SqlWitness SqlInit.
Import SqlContract MysqlSession.

Module MysqlClaims.

Local Open Scope Z_scope.
#[local] Existing Instance Mysql.mysql_dialect.

(** ** Mutations among others

    For a collation that tells all texts apart.  A mutation is one step on the
    log it finds when it ends, whatever guarded others have done meanwhile. *)

(** What the others alone have made of the tables when a transaction ends. *)
Definition found {A} (s : Mysql.Store) (faults : Faults) (others : Mysql.Others) (p : Program A) : Tables :=
  fst (fst (Mysql.transaction faults others (Mysql.db s) p)).

Section Mysql.
Context `{CO : Collation} `{!ExactCollation} `{DT : DtMmr} `{!DtMmrLaws DT}.

Definition represents (s : Mysql.Store) (e : Engine) : Prop :=
  Mysql.closed s = false /\ stored (Mysql.logID s) (Mysql.db s) e.

Definition shut (s : Mysql.Store) : Prop := Mysql.closed s = true.

Section Guards.
Variable le : Engine -> Engine -> Prop.
Context `{!PreOrder le}.
Variables (s : Mysql.Store) (e0 : Engine) (faults : Faults) (others : Mysql.Others).
Hypothesis guarded : Guarded (Mysql.logID s) le others.
Hypothesis Hs : represents s e0.

(** A call is the operation of the engine on the log that is found at its end. *)
Definition one_step {A} (p : Program A) (spec : Engine -> Engine * result A) (out : Mysql.Store * result A) : Prop :=
  exists e1, le e0 e1 /\ stored (Mysql.logID s) (found s faults others p) e1 /\
    agrees represents (fun _ => False) e1 (spec e1) out.

Lemma mutation_one_step {A} (p : Program A) (spec : Engine -> Engine * result A) :
  (forall s' a, Mysql.run faults others p (Mysql.begin (Mysql.db s) 1) = (s', inr a) ->
     let found := Mysql.committed (Mysql.proceed others s') in
     settles (Mysql.logID s) le e0 found (Mysql.replay (Mysql.written s') found) spec a) ->
  one_step p spec (Mysql.write s faults others p).
Proof.
  intros Hp. destruct Hs as [Ho He0]. unfold one_step, found, Mysql.write. rewrite Ho.
  pose proof (session_follows _ le others guarded faults _ p e0 He0) as (e1 & Hle1 & He1).
  pose proof (session_cases p faults others (Mysql.db s)) as Hc.
  destruct (Mysql.transaction faults others (Mysql.db s) p) as [[t final] x]. cbn [fst snd] in *.
  destruct Hc as [[-> [err ->]]|(s' & a & Hrun & -> & -> & Hx)].
  - exists e1. split_and!; [done|done|]. right. split; [left; by split|by eexists].
  - destruct (Hp s' a Hrun) as (e2 & Hle2 & He2 & q & Hresp & Hq). exists e2. split_and!; [done|done|].
    destruct Hresp as [[f Hf]|(t' & b & e' & Hspec & Hpure & Hst & Hk)]; [by rewrite Hq in Hf|].
    rewrite Hq in Hpure. injection Hpure as <- <-.
    assert (exists e', represents (Mysql.with_db s (Mysql.replay (Mysql.written s') (Mysql.committed (Mysql.proceed others s')))) e'
      /\ engine_kept (fst (spec e2)) e') as Hmade by (exists e'; by split).
    destruct Hx as [->|[err ->]]; [left|right]; cbn [fst snd]; split; auto. by eexists.
Qed.

Lemma append_one_step (input : AppendInput) :
  one_step (Mysql.appendOperation (Mysql.logID s) input) (fun e1 => Append e1 input) (Mysql.Append s faults others input).
Proof. apply mutation_one_step. intros s' a. destruct Hs. by apply append_settles. Qed.

Lemma commitCLL_one_step (size : Z) (checkpoint : option bytes) (next : State) :
  state_storable next ->
  one_step (Mysql.commitOperation (Mysql.logID s) size checkpoint next) (fun e1 => CommitCLL e1 size checkpoint next)
    (Mysql.CommitCLL s faults others size checkpoint next).
Proof. intros Hst. apply mutation_one_step. intros s' []. destruct Hs. by apply commit_settles. Qed.

Lemma commitWitness_one_step (attempts : Z) (row : WitnessState) :
  (forall e e', le e e' -> engine_le e e') -> row_storable row ->
  one_step (Mysql.witnessOperation (Mysql.logID s) attempts row) (fun e1 => CommitWitness e1 attempts row)
    (Mysql.CommitWitness s faults others attempts row).
Proof. intros Hle Hst. apply mutation_one_step. intros s' []. destruct Hs. by apply witness_settles. Qed.

(** A state that is loaded is that of the log at one moment. *)
Lemma readState_one_step : exists e1, le e0 e1 /\ answers (Ok (LoadState e1)) (Mysql.readState s faults others).
Proof.
  destruct Hs as [Ho He0]. unfold Mysql.readState. rewrite Ho.
  pose proof (session_cases (Mysql.loadState (Mysql.logID s) false) faults others (Mysql.db s)) as Hc.
  destruct (Mysql.transaction _ _ _ _) as [[t final] x]. cbn [snd].
  destruct Hc as [[_ [err ->]]|(s' & a & Hrun & _ & _ & Hx)]; [exists e0; split; [done|right; by eexists]|].
  destruct (load_settles (Mysql.logID s) le others guarded faults _ e0 s' a He0 Hrun) as (_ & e1 & Hle & ->). exists e1.
  split; [done|]. unfold LoadState. rewrite CloneState_id. destruct Hx as [->|[err ->]]; [by left|right; by eexists].
Qed.

End Guards.

(** Nobody else: a call is one step on the log as it is. *)
Lemma one_step_alone {A} (s : Mysql.Store) (e : Engine) (faults : Faults) (p : Program A)
    (spec : Engine -> Engine * result A) (P : Mysql.Store -> Prop) (out : Mysql.Store * result A) :
  one_step eq s e faults Mysql.nobody p spec out -> agrees represents P e (spec e) out.
Proof.
  intros (e1 & <- & _ & [Hd|[[Hr|[Hr|[]]] Herr]]); [by left|right|right]; split; auto.
Qed.

Lemma autocommit_answers {A} (p : Program A) (s : Mysql.Store) (e : Engine) (faults : Faults) (x : result A) :
  represents s e -> (forall r, holds r e -> gives (Mysql.logID s) r p x) -> answers x (Mysql.read s faults p).
Proof.
  intros [Ho He] Hg. unfold Mysql.read. rewrite Ho. pose proof (gives_pure _ _ _ _ _ He Hg) as Hx.
  destruct (p faults (0%nat, Mysql.db s)) as [s' [f|a]] eqn:Hp; [right; by eexists|left].
  apply steady_done in Hp. cbn [snd] in Hp. rewrite Hp in Hx. destruct x; [by injection Hx as ->|done].
Qed.

End Mysql.

(** ** The contract *)

Record Env := MkEnv {
  env_faults : Faults;
  env_released : check
}.

#[export] Instance mysql_backend `{CO : Collation} `{DT : DtMmr} : Backend Mysql.Store Env := {
  b_Append s env := Mysql.Append s (env_faults env) Mysql.nobody;
  b_GetEntry s env := Mysql.GetEntry s (env_faults env);
  b_ScanEntries s env := Mysql.ScanEntries s (env_faults env);
  b_LoadCLL s env := Mysql.LoadCLL s (env_faults env) Mysql.nobody;
  b_CommitCLL s env := Mysql.CommitCLL s (env_faults env) Mysql.nobody;
  b_PendingWitnesses s env := Mysql.PendingWitnesses s (env_faults env);
  b_GetWitness s env := Mysql.GetWitness s (env_faults env);
  b_CommitWitness s env := Mysql.CommitWitness s (env_faults env) Mysql.nobody;
  b_Close s env := Mysql.Close s (env_released env)
}.

#[export] Program Instance mysql_laws `{CO : Collation} `{!ExactCollation} `{DT : DtMmr} `{!DtMmrLaws DT} :
    BackendLaws Mysql.Store Env := {
  Backend.represents := represents;
  Backend.shut := shut;
  storable size next := state_storable next;
  storableRow attempts next := row_storable next
}.
Next Obligation. intros CO Hex DT Hlaws s e [_ (r & _ & Hr)]. apply Hr. Qed.
Next Obligation.
  intros CO Hex DT Hlaws s e env input Hs. eapply (one_step_alone s e _ _ (fun e1 => Append e1 input)).
  exact (append_one_step eq s e _ _ (nobody_guarded _ _) Hs input).
Qed.
Next Obligation.
  intros CO Hex DT Hlaws s e env size checkpoint next Hs Hst.
  eapply (one_step_alone s e _ _ (fun e1 => CommitCLL e1 size checkpoint next)).
  exact (commitCLL_one_step eq s e _ _ (nobody_guarded _ _) Hs size checkpoint next Hst).
Qed.
Next Obligation.
  intros CO Hex DT Hlaws s e env attempts next Hs Hst.
  eapply (one_step_alone s e _ _ (fun e1 => CommitWitness e1 attempts next)).
  apply (commitWitness_one_step eq s e _ _ (nobody_guarded _ _) Hs); [by intros ? ? ->|done].
Qed.
Next Obligation.
  intros CO Hex DT Hlaws s e env v Hs. apply (autocommit_answers _ s e); [done|]. intros r Hr. by apply getEntry_gives.
Qed.
Next Obligation.
  intros CO Hex DT Hlaws s e env afterSeq limit Hs Ha. apply (autocommit_answers _ s e); [done|]. intros r Hr.
  by apply scanEntries_gives.
Qed.
Next Obligation.
  intros CO Hex DT Hlaws s e env Hs.
  by destruct (readState_one_step eq s e (env_faults env) Mysql.nobody (nobody_guarded _ _) Hs) as (e1 & <- & Hx).
Qed.
Next Obligation.
  intros CO Hex DT Hlaws s e env now limit Hs. apply (autocommit_answers _ s e); [done|]. intros r Hr.
  by apply pendingWitnesses_gives.
Qed.
Next Obligation.
  intros CO Hex DT Hlaws s e env id size Hs. apply (autocommit_answers _ s e); [done|]. intros r Hr. by apply getWitness_gives.
Qed.
Next Obligation. done. Qed.
Next Obligation. done. Qed.
Next Obligation. intros CO Hex DT Hlaws s e env [Ho _]. cbn [b_Close mysql_backend]. unfold Mysql.Close. by rewrite Ho. Qed.
Next Obligation.
  intros CO Hex DT Hlaws s env input v size checkpoint next attempts row Hs. unfold shut in Hs.
  cbn [b_Append b_CommitCLL b_CommitWitness b_GetEntry b_LoadCLL mysql_backend].
  unfold Mysql.Append, Mysql.CommitCLL, Mysql.CommitWitness, Mysql.GetEntry, Mysql.LoadCLL, Mysql.write,
    Mysql.read, Mysql.readState. rewrite !Hs. cbn [fst snd is_ok Mysql.with_db Mysql.closed]. by split_and!.
Qed.

Section Claims.
Context `{CO : Collation} `{!ExactCollation} `{DT : DtMmr} `{!DtMmrLaws DT}.

(** ** Calls without failures *)






Lemma readState_acts (s : Mysql.Store) (e : Engine) :
  represents s e -> Mysql.readState s noFaults Mysql.nobody = Ok (LoadState e).
Proof.
  intros [Ho (r & Ht & Hr)]. unfold Mysql.readState, Mysql.loadState. rewrite Ho, session_alone.
  destruct (loadState_runs (Mysql.logID s) r e Hr false _ Ht) as (t' & -> & _). cbn [snd]. unfold LoadState. by rewrite CloneState_id.
Qed.







(** ** Opening *)

(** What [validateLog] accepts is a valid log, and it accepts every one when
    nothing fails. *)
Lemma validateLog_Ok (faults : Faults) (k : nat) (t : Tables) (logID : string) :
  Mysql.validateLog faults k t logID = Ok tt -> keyed t -> exists e, stored logID t e.
Proof.
  unfold Mysql.validateLog, Mysql.validateEntries. intros Hv Hkeyed.
  destruct (SqlStore.validateEntries logID faults (k, t)) as [[n t1] [f|[]]] eqn:He; [done|].
  apply steady_done in He. cbn [snd] in He. apply bind_Ok in Hv as (st & Hr & _).
  unfold Mysql.readState in Hr. cbn [Mysql.closed Mysql.db Mysql.logID] in Hr.
  pose proof (session_cases (Mysql.loadState logID false) (fun i => faults (n + i)%nat) Mysql.nobody t) as Hc.
  destruct (Mysql.transaction _ _ _ _) as [[t2 t3] x]. cbn [fst snd] in *. subst x.
  destruct Hc as [[_ [err [=]]]|(s' & a & Hrun & _)].
  destruct (run_plain (fun i => faults (n + i)%nat) Mysql.nobody eq (loadState logID false) (Mysql.begin t 1) s' a []
    ltac:(by intros ? ? ?) (list_subseteq_nil _) (plain_loadState logID) eq_refl eq_refl Hrun) as (_ & _ & t' & Ht & _ & Hl).
  cbn in Ht. subst t'. by eapply validated_log.
Qed.

Lemma validateLog_quiet (k : nat) (t : Tables) (logID : string) (e : Engine) :
  stored logID t e -> Mysql.validateLog noFaults k t logID = Ok tt.
Proof.
  intros Hst. unfold Mysql.validateLog, Mysql.validateEntries.
  destruct (steady_quiet (SqlStore.validateEntries logID) k t) as [n ->].
  pose proof Hst as (r & Ht & Hr). destruct (validateEntries_runs logID r e Hr t Ht) as (t1 & -> & _). cbn [snd fst].
  pose proof (readState_acts (Mysql.MkStore t logID false) e (conj eq_refl Hst)) as Hread.
  assert ((fun i => noFaults (n + i)%nat) = noFaults) as -> by done. by rewrite Hread.
Qed.

Lemma openDatabase_quiet (dsn logID : string) :
  dsn <> EmptyString -> ValidateIdentifier logID = Ok tt -> Mysql.openDatabase noFaults dsn logID = Ok tt.
Proof. intros Hd Hid. unfold Mysql.openDatabase. by rewrite bool_decide_false, Hid by done. Qed.

(** ** Claims *)



(** [Open] gives a store only for a valid log, which the store then
    represents, and opens every valid log when nothing fails.  [Init] keeps every
    log of the server, whatever fails; when it succeeds the server holds a valid
    log of that name, and when nothing fails it provisions the empty log where
    there was none. *)
Lemma mysql_opens_and_provisions_logs (faults : Faults) (server : Tables) (released : check) (dsn logID : string) :
  (forall s, Mysql.Open faults server dsn logID = Ok s -> keyed server ->
     Mysql.db s = server /\ Mysql.logID s = logID /\ exists e, represents s e) /\
  (let '(server', r) := Mysql.Init faults released server dsn logID in
   keepsLogs server server' /\ (r = Ok tt -> keyed server -> exists e, stored logID server' e)) /\
  (dsn <> EmptyString -> ValidateIdentifier logID = Ok tt -> faults = noFaults ->
   (forall e, stored logID server e ->
      exists s, Mysql.Open faults server dsn logID = Ok s /\ Mysql.db s = server /\ represents s e) /\
   (blank logID server -> exists server', Mysql.Init faults released server dsn logID = (server', released) /\
      stored logID server' New)).
Proof.
  split_and!.
  - intros s (_ & _ & ([] & Hv & [= <-])%bind_Ok)%bind_Ok Hk. split_and!; [done..|].
    destruct (validateLog_Ok _ _ _ _ Hv Hk) as [e He]. by exists e.
  - unfold Mysql.Init. destruct (Mysql.openDatabase faults dsn logID); [|by split].
    pose proof (within_provision logID faults (2%nat, server)) as Hkeeps. unfold Mysql.provision.
    pose proof (steady_done (provisionLog logID) faults (2%nat, server)) as Hdone.
    destruct (provisionLog logID faults (2%nat, server)) as [[k t] [f|[]]]; cbn [fst snd] in *; [by split|].
    split; [done|]. intros ([] & Hv & _)%bind_Ok Hkeyed. apply (validateLog_Ok _ _ _ _ Hv).
    specialize (Hdone _ _ eq_refl). cbn [snd] in Hdone.
    pose proof (provision_keyed logID server Hkeyed) as Hk. by rewrite Hdone in Hk.
  - intros Hd Hid ->. split.
    + intros e He. unfold Mysql.Open. rewrite openDatabase_quiet by done. cbn [mbind].
      rewrite (validateLog_quiet _ _ _ e He). eexists. by split_and!.
    + intros Hb. unfold Mysql.Init. rewrite openDatabase_quiet by done. unfold Mysql.provision.
      destruct (steady_quiet (provisionLog logID) 2 server) as [k ->].
      pose proof (provision_blank logID server Hb) as Hst. destruct (provision_pure logID server) as (raw & metas & _ & _ & Hp).
      rewrite Hp in *. cbn [fst snd] in *. eexists. rewrite (validateLog_quiet _ _ _ _ Hst). by split.
Qed.

End Claims.

(** ** Witnesses *)

Import Ref JsonlClaims.

(** A collation that tells all texts apart, and one that ignores case, as the
    default of the server does. *)
Definition exact_collation : Collation := {|
  sameText a b := bool_decide (a = b);
  textBefore := String.ltb
|}.

Definition lowerCase (c : ascii) : ascii :=
  let n := nat_of_ascii c in if (65 <=? n)%nat && (n <=? 90)%nat then ascii_of_nat (n + 32) else c.

Definition folded (a : string) : string := String.string_of_list_ascii (map lowerCase (String.list_ascii_of_string a)).

Definition caseless_collation : Collation := {|
  sameText a b := bool_decide (folded a = folded b);
  textBefore a b := String.ltb (folded a) (folded b)
|}.

#[local] Instance exact_collation_exact : ExactCollation (H := exact_collation).
Proof. done. Qed.

(** A server with one empty log. *)
Definition sampleServer : Tables := fst (pure (provisionLog (CO := exact_collation) "log") noTables).
Definition sampleStore : Mysql.Store := Mysql.MkStore sampleServer "log" false.



(** Without an exact collation logs whose names differ by case are one: what is
    appended to one is read from the other. *)
Lemma caseless_logs_collide :
  let server := fst (Mysql.Init (CO := caseless_collation) (DT := dt_reference) noFaults (Ok tt) noTables "dsn" "log") in
  let out := Mysql.Append (CO := caseless_collation) (Mysql.MkStore server "log" false) noFaults Mysql.nobody (sampleInput Byte.x03) in
  match Mysql.Open (CO := caseless_collation) (DT := dt_reference) noFaults (Mysql.db (fst out)) "dsn" "LOG" with
  | Ok other => bool_decide (Mysql.ScanEntries (CO := caseless_collation) other noFaults 0 10 = Ok [])
  | Err _ => true
  end = false.
Proof. vm_compute. reflexivity. Qed.

(** A commit of the row that is stored already succeeds as an engine and is
    contention here: an [UPDATE] that sets what is there changes no row. *)
Lemma unchanged_witness_commit_refused :
  let out := Mysql.CommitCLL (CO := exact_collation) (DT := dt_reference) sampleStore noFaults Mysql.nobody 0 None sampleNext in
  snd out = Ok tt /\
  let committed := fst (CommitWitness (fst (CommitCLL (DT := dt_reference) New 0 None sampleNext)) 0 (retried 0)) in
  snd (CommitWitness committed 0 (retried 0)) = Ok tt /\
  let once := Mysql.CommitWitness (CO := exact_collation) (fst out) noFaults Mysql.nobody 0 (retried 0) in
  snd once = Ok tt /\
  snd (Mysql.CommitWitness (CO := exact_collation) (fst once) noFaults Mysql.nobody 0 (retried 0)) = Err ErrContention.
Proof. cbv zeta. repeat apply conj; vm_compute; reflexivity. Qed.

(** An invalid row nothing is stored of: contention here, invalid in the engine. *)
Example invalid_unknown_row_refused :
  let row := MkWitness "" 1 [] 0 0 None false "" in
  snd (Mysql.CommitWitness (CO := exact_collation) sampleStore noFaults Mysql.nobody 0 row) = Err ErrContention /\
  snd (CommitWitness New 0 row) = Err ErrInvalid.
Proof. split; vm_compute; reflexivity. Qed.

(** A store with a committed state, and another client that changes its witness
    row and tries to commit a state while a transaction runs. *)
Definition pendingStore : Mysql.Store :=
  fst (Mysql.CommitCLL (CO := exact_collation) (DT := dt_reference) sampleStore noFaults Mysql.nobody 0 None sampleNext).

Definition otherCalls (k : nat) : list Mysql.Call :=
  match k with
  | 1%nat => [Mysql.CallCommitWitness "log" 0 (retried 1)]
  | 2%nat => [Mysql.CallAppend "log" (sampleInput Byte.x05); Mysql.CallCommitCLL "log" 1 (Some [Byte.x01]) sampleNext]
  | _ => []
  end.



(** The locked row keeps the append of the other out, not its witness commit. *)
Example others_wait_for_the_lock :
  let out := Mysql.CommitCLL (CO := exact_collation) (DT := dt_reference) pendingStore noFaults
    (Mysql.serveAll (CO := exact_collation) (DT := dt_reference) otherCalls) 1 (Some [Byte.x01]) sampleNext in
  snd out = Ok tt /\
  Mysql.ScanEntries (CO := exact_collation) (fst out) noFaults 0 10 = Ok [] /\
  wit_Attempts <$> Mysql.GetWitness (CO := exact_collation) (fst out) noFaults "https://witness.example" 1 = Ok 1.
Proof. repeat apply conj; vm_compute; reflexivity. Qed.



End MysqlClaims.
